(* ===== verification/_CoqProject ===== *)
-Q . S2P
Prelude.v
Allocator.v
Malloc.v
CString.v
RamfsTypes.v
HashTable.v
RamfsHash.v
RamfsHashFile.v
HashChain.v
Uthash.v
UthashSort.v
UthashEdit.v
UthashHash.v
Numbers.v
Io.v
Tty.v
Printf.v
Printable.v
Keeps.v
Screen.v
Bytes.v
Drive.v
Ahci.v
Registers.v
Partition.v
FsState.v
DfsLoad.v
Ramfs.v
RamfsApi.v
RamfsInv.v
RamfsFiles.v
RamfsTree.v
EnvVar.v
Messages.v
RamfsSafe.v
RamfsSpec.v
Dfs.v
Cpu.v
Keyboard.v
Typing.v
Memory.v
Shell.v
System.v
Session.v
Answers.v
Machine.v
PowerOn.v
