(* ===== verification/Prelude.v ===== *)
(** * Little Linux, verified

    A model of the kernel of this repository and the theorems that make it
    correct. The program is a small i386 kernel in C: a boot loader hands
    over to [main], which sets up the processor and the keyboard and calls
    [my_own_os_init]; that brings up the heap, the file system and the disks
    and never leaves the command line.

    ** The parts, and the files that model them

    - [Prelude]: machine integers, the monad [M] of effects (state, output,
      faults, fuel), the weakest precondition [wp] and its tactics.
      [Keeps] is the rule for relations a run keeps.
    - Memory. [Allocator] is the interface of the heap, [Malloc] the free
      list allocator of kernel/src/malloc.c that implements it.
    - Strings and numbers, libc/src. [CString] (strings as values), [Memory]
      (functions that write, on bytes with bounds), [Numbers] (ctype.c,
      atoi.c, itoa.c, reverse.c), [Printf] (printf.c, puts.c), [Bytes]
      (buffers and little-endian fields). [Printable] says which calls of
      printf stay within its buffer.
    - Tables. [RamfsTypes] is ramfs_types.h; [HashTable] is the code shared
      by ramfs_hash.c and ramfs_hash_file.c, which [RamfsHash] and
      [RamfsHashFile] instantiate, on lists of nodes; [HashChain] is the
      same code on nodes linked in memory. [Uthash] is what the program
      expands of uthash.h, and [exit] of stdlib.c; [UthashEdit],
      [UthashSort] and [UthashHash] are more of that header: deletion,
      replacement, insertion in order, the merge sort, and the hash functions
      one may choose.
    - Disks, drivers/src. drive.c is in three files: [Drive] has the drive
      table and the transfers, over the interface [Hba] of one command;
      [Ahci] has the accesses to registers, over the interface [Bus];
      [Registers] has the structures the controller reads and implements
      [Hba] on [Bus]. [Partition] is drive_partition.c.
    - Files. [FsState] is the state ramfs.c and dfs.c share; [DfsLoad] the
      loading functions of dfs.c; [Ramfs] and [RamfsApi] are ramfs.c; [Dfs]
      is the rest of dfs.c and dfs_api.c; [EnvVar] is env_var.c and
      command_system.c, on tables of [Uthash].
    - Processor and console. [Io] is the port interface, [Cpu] gdt.c, idt.c,
      tss.c, pic.c and interrupts.c, [Keyboard] keyboard.c, [Tty] tty.c.
    - The system. [Shell] is the command line of Little_Linux.c, [System]
      its boot and the dispatch of commands; [Machine] is kernel.c and the
      machine as one state: screen, keyboard, processor tables, interrupt
      controllers and system, with the interrupts taken through the tables.
    - Proofs about several parts. [RamfsInv] (invariant and abstract tree),
      [RamfsFiles], [RamfsTree] (each operation against the tree),
      [Messages] (what the components print can be printed), [RamfsSafe]
      (what the commands leave alone, and the command layer), [RamfsSpec]
      (the refinement), [Session] (the command line at work), [Answers]
      (what a session shows), [Screen] (what is printed is what is shown),
      [Typing] (what is typed is what is read), [PowerOn] (all of them, from
      power on to the end of a session).

    Definitions carry the names of the C functions; a function of the code
    is one definition, its loops are fixpoints of their own.

    ** What the theorems show

    - The machine. [PowerOn.session_from_power_on]: the kernel is entered,
      boots, and any session of typed lines runs on it: strokes become
      interrupts, characters, lines and commands, and the screen shows
      exactly the answers those lines have on an empty abstract file system.
      It rests on [Machine.main_ok] (what [main] leaves), on
      [main_loop_refines] (the loops behind the interrupts are the shell's),
      with [first_line_runs] and [machine_turn] for single lines.
    - The system. [Answers.session_answers]: what a session shows, from any
      consistent system: each line makes a request, and its answer is that
      of a tree of folders and files. [Session.turn_safe]: every typed line
      is run to its end without fault and leaves the system consistent,
      unless a write reports that memory ran out. [dispatch_names]: which
      command a name runs. [System.boot_ok]: booting reaches such a system.
      [Shell.read_line_spec], [Shell.parse_command_words],
      [Shell.expand_overwrites]: which command with which arguments a typed
      line is.
    - The heap. [Malloc.malloc_spec], [free_spec], [malloc_first_fit]: the
      free list stays consistent, blocks are fresh, large enough and the
      first that fits; [malloc_large_fails], [malloc_size_wraps],
      [double_free_hangs] are its limits.
    - The tables. [ramfs_hashmap_refines] and [ramfs_file_hashmap_refines]:
      they are finite maps, and [HashChain.chains_refine]: the linked nodes
      compute that; [ramfs_file_hashmap_confuses] and
      [ramfs_hashmap_long_key_lost] say for which names they are not.
      [UthashEdit.uthash_edits_refine]: a uthash table is a list of entries,
      however it is edited and grows ([Uthash.uthash_refines] for what the
      program does with it); [UthashSort.sort_list_sorts]: its sort is
      insertion; [one_byte_told_apart]: what three hash functions tell apart.
    - The file system. [RamfsSpec.ramfs_refines]: all sequences of commands
      answer as on an abstract tree; [fs_write_cat], [fs_mkdir_rmdir],
      [fs_cd_pwd_returns] follow; [fs_write_dangles], [root_path_rejected]
      are defects. [Dfs.disk_folder_roundtrip]: what is saved is what is
      loaded; [dfs_mount_never_succeeds], [disk_commands_change_nothing]:
      the disk file system can never be used.
    - Disks. [Drive.ahci_write_read], [Partition.partition_write_read]: round
      trips that change no other byte; [parse_mbr_spec]: the partitions
      found; [partition_rejects], [read_sector_wraps]: bounds;
      [ahci_table_update_spec]: the drive table;
      [Registers.registers_refine]: the code does on the registers what the
      interface [Hba] says; [driver_comes_up]: with a controller that answers
      the driver comes up, and what is written to its drives is read back;
      [ahci_init_returns]: the same of the registers alone;
      [ahci_init_hangs] and
      [parse_ebr_cycle_hangs]: loops that never end; [port_init_order]: the
      order of register accesses; [exec_ata_cmd_misencoded]: the command
      encoding is not that of the specifications.
    - Console. [Keyboard.kbd_fifo]: no key is lost or reordered by the
      interrupt; [Typing.strokes_delivered], [layout_typed]: the text of the
      keys; [Tty.terminalPutC_spec]: the screen is a terminal,
      [newline_leaves_screen] where it is not; [Screen.printf_shows]: a call
      of printf on the screen; [Printf.printf_decimal] and
      [Numbers.atoi_itoa]: decimal output.

    ** Conventions, bounds and fuel

    A C integer is a [Z] with its wrap-around written out; signed overflow
    wraps. A pointer is its address, NULL is 0. A call that dereferences
    NULL or leaves a buffer is [Fault], a loop that needs more steps than its
    fuel is [NoFuel], and so is what never returns. Fuel is a parameter of
    the definitions: [malloc] takes what the length of the free list and the
    pools left bound ([malloc_spec] shows it is enough), the chain of
    extended partitions its length, [cd] the depth of the folder, the walks
    of dfs.c the depth of the tree, the polls of the AHCI driver their
    number ([driver_comes_up]: the polls the hardware needs are enough),
    the shell the characters of a line, a walk along a chain the nodes in
    memory. Where a loop does not end, the theorem says so for every fuel.
    The theorems on uthash tables are for thirty additions at most; the
    program has one variable and fifteen commands. The sort of a table takes
    fuel for the doublings of its runs.

    Parameters stand for what is not C code of the repository: the disk
    controller ([Ahci.Bus] with the laws [controller], [Registers.Device]
    with [DeviceLaws]; above them [Drive.Hba] with [HbaLaws]), the I/O ports ([Io.PortIO], [Tty.Crtc],
    [Machine.Bus]), the addresses of the assembly stubs and of the tables,
    what a store past the scan code table overwrites, the boot information
    and the processor's name (arguments of [System.my_own_os_init]). Each law
    has a concrete instance in a witness.

    ** Not modelled

    The assembly files, the linker script and the build; of uthash.h
    selection into a second table, the filter, the debug check and the forms
    for other key types, which nothing expands; the duration of hardware operations. Above [Registers]
    the controller answers a command as a whole; what it does while a command
    runs is in the laws of [Registers.Device]. Interrupts are modelled
    where the code shares state with them, in the keyboard queue: between
    any two steps in [Keyboard.kbd_fifo], while the shell waits in
    [Machine]. The sessions of [Answers] have no lines with [$] variables,
    whose expansion [Shell.expand_overwrites] describes. *)

From Stdlib Require Export ssreflect.
From stdpp Require Export base tactics option gmap strings fin_maps numbers list.
#[export] Set Default Goal Selector "!".
#[export] Set Warnings "-rewrite-rw,-clear-no-such-hyp".

Declare Scope c_scope.
Delimit Scope c_scope with c.
#[global] Open Scope Z_scope.

(** * Machine integers

    A C integer is a [Z]; these functions are the conversions to the
    widths the program uses (i386: [int] and [size_t] have 32 bits,
    [char] is signed, [long long] has 64 bits). *)
Definition u8 (z : Z) : Z := z mod 256.
Definition u16 (z : Z) : Z := z mod 65536.
Definition u32 (z : Z) : Z := z mod 4294967296.
Definition u64 (z : Z) : Z := z mod 18446744073709551616.
Definition s8 (z : Z) : Z := (z + 128) mod 256 - 128.
Definition s64 (z : Z) : Z := (z + 9223372036854775808) mod 18446744073709551616 - 9223372036854775808.
Definition s32 (z : Z) : Z := (z + 2147483648) mod 4294967296 - 2147483648.

(** The truth value of a C condition, as an [int]. *)
Definition of_bool (b : bool) : Z := if b then 1 else 0.

(** * Effects

    A C function is a state transformer that may also fault (dereference
    a pointer that designates no object) or run out of the fuel given to
    its loops, and that prints.  What is printed is kept unformatted: an
    event is the format string of one [printf] call with its arguments. *)
Inductive arg : Type :=
  | AInt (z : Z)
  | AChr (z : Z)
  | AStr (s : string).

Record event : Type := Printf { ev_fmt : string; ev_args : list arg }.

Inductive res (A : Type) : Type :=
  | Ok (a : A)
  | Fault
  | NoFuel.
Arguments Ok {A} a.
Arguments Fault {A}.
Arguments NoFuel {A}.

Definition M (St A : Type) : Type := St → res (A * St * list event).

#[global] Instance M_ret {St} : MRet (M St) := λ A a s, Ok (a, s, []).
#[global] Instance M_bind {St} : MBind (M St) := λ A B f m s,
  match m s with
  | Ok (a, s1, o1) =>
      match f a s1 with
      | Ok (b, s2, o2) => Ok (b, s2, o1 ++ o2)
      | Fault => Fault
      | NoFuel => NoFuel
      end
  | Fault => Fault
  | NoFuel => NoFuel
  end.

#[global] Instance M_map {St} : FMap (M St) := λ A B f m, m ≫= λ a, mret (f a).

Definition get {St} : M St St := λ s, Ok (s, s, []).
Definition modify {St} (f : St → St) : M St unit := λ s, Ok (tt, f s, []).
Definition fault {St A} : M St A := λ _, Fault.
Definition nofuel {St A} : M St A := λ _, NoFuel.
Definition printf {St} (fmt : string) (args : list arg) : M St unit :=
  λ s, Ok (tt, s, [Printf fmt args]).
Definition unwrap {St A} (o : option A) : M St A :=
  match o with Some a => mret a | None => fault end.

(** Run an operation of a component on the component's part of a larger
    state. *)
Definition zoom {St T A} (proj : St → T) (upd : T → St → St) (m : M T A) : M St A :=
  λ s, match m (proj s) with
       | Ok (a, t, o) => Ok (a, upd t s, o)
       | Fault => Fault
       | NoFuel => NoFuel
       end.

(** The newline and the double quote, for format strings. *)
Definition nl : string := String (Ascii.ascii_of_nat 10) EmptyString.
Definition dq : string := String (Ascii.ascii_of_nat 34) EmptyString.

(** * Reasoning about effects

    [wp m s Q]: from [s], [m] neither faults nor runs out of fuel, and its
    result, final state and output satisfy [Q]. *)
Definition wp {St A} (m : M St A) (s : St) (Q : A → St → list event → Prop) : Prop :=
  match m s with Ok (a, s', o) => Q a s' o | _ => False end.

Section wp.
Context {St : Type}.

(** Running a bind whose first part is known and silent. *)
Lemma bind_ok {A B} (m : M St A) (f : A → M St B) s a s1 :
  m s = Ok (a, s1, []) → (m ≫= f) s = f a s1.
Proof.
  rewrite /mbind /M_bind. intros ->. by destruct (f a s1) as [[[??]?]| |].
Qed.

(** The parts of a bind that has run. *)
Lemma bind_inv {A B} (m : M St A) (f : A → M St B) s b s2 o :
  (m ≫= f) s = Ok (b, s2, o) →
  ∃ a s1 o1 o2, m s = Ok (a, s1, o1) ∧ f a s1 = Ok (b, s2, o2) ∧ o = o1 ++ o2.
Proof.
  rewrite /mbind /M_bind. destruct (m s) as [[[a s1] o1]| |]; [|done..].
  destruct (f a s1) as [[[b' s2'] o2]| |] eqn:Hf; [|done..]. intros [= <- <- <-]. naive_solver.
Qed.

Lemma bind_ext {A B} (m : M St A) (f g : A → M St B) s :
  (∀ a s1, f a s1 = g a s1) → (m ≫= f) s = (m ≫= g) s.
Proof.
  intros H. rewrite /mbind /M_bind. destruct (m s) as [[[a s1] o1]| |]; [|done..].
  by rewrite H.
Qed.

(** A first part with the same run, and binds regrouped. *)
Lemma bind_eq {A B} (m m' : M St A) (f : A → M St B) s : m s = m' s → (m ≫= f) s = (m' ≫= f) s.
Proof. rewrite /mbind /M_bind. by intros ->. Qed.
Lemma bind_assoc {A B C} (m : M St A) (f : A → M St B) (g : B → M St C) s :
  ((m ≫= f) ≫= g) s = (m ≫= λ a, f a ≫= g) s.
Proof.
  rewrite /mbind /M_bind. destruct (m s) as [[[a s1] o1]| |]; [|done..].
  destruct (f a s1) as [[[b s2] o2]| |]; [|done..]. destruct (g b s2) as [[[c s3] o3]| |]; [|done..].
  by rewrite app_assoc.
Qed.

Lemma wp_ret {A} (a : A) (s : St) Q : Q a s [] → wp (mret a) s Q.
Proof. done. Qed.

Lemma wp_bind {A B} (m : M St A) (f : A → M St B) s Q :
  wp m s (λ a s1 o1, wp (f a) s1 (λ b s2 o2, Q b s2 (o1 ++ o2))) →
  wp (m ≫= f) s Q.
Proof.
  rewrite /wp /mbind /M_bind. destruct (m s) as [[[a s1] o1]| |]; [|done..].
  by destruct (f a s1) as [[[b s2] o2]| |].
Qed.

(** A first part whose silent run is known. *)
Lemma wp_bind_ok {A B} (m : M St A) (f : A → M St B) s a s1 Q :
  m s = Ok (a, s1, []) → wp (f a) s1 Q → wp (m ≫= f) s Q.
Proof. intros Hm. by rewrite /wp (bind_ok _ _ _ _ _ Hm). Qed.

Lemma wp_fmap {A B} (f : A → B) (m : M St A) s Q :
  wp m s (λ a s' o, Q (f a) s' o) → wp (f <$> m) s Q.
Proof.
  rewrite /wp /fmap /M_map /mbind /M_bind.
  destruct (m s) as [[[a s1] o1]| |]; [|done..]. by rewrite /= app_nil_r.
Qed.

Lemma wp_mono {A} (m : M St A) s (P Q : A → St → list event → Prop) :
  wp m s P → (∀ a s' o, P a s' o → Q a s' o) → wp m s Q.
Proof. rewrite /wp. destruct (m s) as [[[a s1] o1]| |]; naive_solver. Qed.

Lemma wp_and {A} (m : M St A) s (P Q : A → St → list event → Prop) :
  wp m s P → wp m s Q → wp m s (λ a s' o, P a s' o ∧ Q a s' o).
Proof. rewrite /wp. by destruct (m s) as [[[a s1] o1]| |]. Qed.

Lemma wp_get (s : St) Q : Q s s [] → wp get s Q.
Proof. done. Qed.
Lemma wp_modify f (s : St) (Q : unit → St → list event → Prop) :
  Q tt (f s) [] → wp (modify f) s Q.
Proof. done. Qed.
Lemma wp_printf fmt args (s : St) (Q : unit → St → list event → Prop) :
  Q tt s [Printf fmt args] → wp (printf fmt args) s Q.
Proof. done. Qed.
Lemma wp_unwrap {A} (o : option A) a (s : St) Q :
  o = Some a → Q a s [] → wp (unwrap o) s Q.
Proof. by intros ->. Qed.

Lemma wp_zoom {T A} (proj : St → T) upd (m : M T A) s Q :
  wp m (proj s) (λ a t o, Q a (upd t s) o) → wp (zoom proj upd m) s Q.
Proof. rewrite /wp /zoom. by destruct (m (proj s)) as [[[??]?]| |]. Qed.

(** A [wp] fact gives the equation the definitions compute. *)
Lemma wp_run {A} (m : M St A) s Q :
  wp m s Q ↔ ∃ a s' o, m s = Ok (a, s', o) ∧ Q a s' o.
Proof.
  rewrite /wp. destruct (m s) as [[[a s1] o1]| |]; naive_solver.
Qed.

Lemma wp_known {A} (m : M St A) s a s' o (Q : A → St → list event → Prop) :
  wp m s Q → m s = Ok (a, s', o) → Q a s' o.
Proof. rewrite /wp. intros H Hr. by rewrite Hr in H. Qed.
End wp.

(** Step through the straight-line part of a body. *)
Ltac wp_step :=
  match goal with
  | |- wp (mret _) _ _ => apply wp_ret
  | |- wp (_ ≫= _) _ _ => apply wp_bind
  | |- wp (_ <$> _) _ _ => apply wp_fmap
  | |- wp get _ _ => apply wp_get
  | |- wp (modify _) _ _ => apply wp_modify
  | |- wp (printf _ _) _ _ => apply wp_printf
  | |- wp (unwrap (Some _)) _ _ => eapply wp_unwrap; [done|]
  | |- wp (zoom _ _ _) _ _ => apply wp_zoom
  end; cbn beta iota.
Ltac wp_steps := repeat wp_step.

(** Case analysis on the next integer comparison of the goal. *)
Ltac zcase :=
  match goal with
  | |- context [Z.ltb ?a ?b] => destruct (Z.ltb_spec a b)
  | |- context [Z.leb ?a ?b] => destruct (Z.leb_spec a b)
  | |- context [Z.eqb ?a ?b] => destruct (Z.eqb_spec a b)
  end.

(** [lia] with quotients and remainders by constants. *)
Ltac dlia := Z.to_euclidean_division_equations; lia.

(** * Lists of lists *)
Lemma concat_insert {X} (ls : list (list X)) i c :
  ls !! i = Some c →
  ∃ rest, concat ls ≡ₚ c ++ rest ∧ ∀ c', concat (<[i := c']> ls) ≡ₚ c' ++ rest.
Proof.
  intros Hi. exists (concat (take i ls) ++ concat (drop (S i) ls)).
  assert (Hsplit : ∀ c', concat (<[i := c']> ls) ≡ₚ
    c' ++ concat (take i ls) ++ concat (drop (S i) ls)).
  { intros c'. rewrite insert_take_drop; [by eapply lookup_lt_Some|].
    rewrite concat_app /=. by rewrite Permutation_app_swap_app. }
  split; [|done]. rewrite -(Hsplit c). by rewrite list_insert_id.
Qed.
Lemma elem_of_concat {X} (ls : list (list X)) i c x : ls !! i = Some c → x ∈ c → x ∈ concat ls.
Proof. intros Hi Hx. destruct (concat_insert _ _ _ Hi) as (rest&->&_). by apply elem_of_app; left. Qed.

(** * Lemmas on machine integers *)
Create HintDb cint.
Create Rewrite HintDb cint_rw.

Lemma u8_range z : 0 ≤ u8 z < 256.
Proof. apply Z.mod_pos_bound; lia. Qed.
Lemma u16_range z : 0 ≤ u16 z < 65536.
Proof. apply Z.mod_pos_bound; lia. Qed.
Lemma u32_range z : 0 ≤ u32 z < 4294967296.
Proof. apply Z.mod_pos_bound; lia. Qed.
Lemma u64_range z : 0 ≤ u64 z < 18446744073709551616.
Proof. apply Z.mod_pos_bound; lia. Qed.
Lemma u8_small z : 0 ≤ z < 256 → u8 z = z.
Proof. apply Z.mod_small. Qed.
Lemma u16_small z : 0 ≤ z < 65536 → u16 z = z.
Proof. apply Z.mod_small. Qed.
Lemma u32_small z : 0 ≤ z < 4294967296 → u32 z = z.
Proof. apply Z.mod_small. Qed.
Lemma u64_small z : 0 ≤ z < 18446744073709551616 → u64 z = z.
Proof. apply Z.mod_small. Qed.
Lemma s32_small z : -2147483648 ≤ z < 2147483648 → s32 z = z.
Proof. intros ?. rewrite /s32 Z.mod_small; lia. Qed.
Lemma s8_small z : -128 ≤ z < 128 → s8 z = z.
Proof. intros ?. rewrite /s8 Z.mod_small; lia. Qed.
#[export] Hint Resolve u8_range u16_range u32_range u64_range : cint.
#[export] Hint Rewrite u8_small u16_small u32_small u64_small s32_small s8_small
  using lia : cint_rw.
Ltac cint := autorewrite with cint_rw.
