(* ===== verification/Allocator.v ===== *)
(** The interface between the kernel heap (malloc.h) and its clients.

    [Allocator] names the two operations the other components call;
    [AllocatorLaws] is what they rely on.  Malloc.v proves the laws for the
    free-list allocator of malloc.c; the hash tables and the file system
    are verified against the laws alone. *)
From S2P Require Import Prelude.

Module Alloc.

Definition IMAGE_BASE : Z := 1048576.

Class Allocator (St : Type) := {
  malloc : Z → M St Z;
  free : Z → M St unit;
  (** [live s L]: [s] is a consistent heap whose allocated blocks are the
      ones whose user pointers are in [L]. *)
  live : St → gset Z → Prop
}.

Class AllocatorLaws (St : Type) `{!Allocator St} : Prop := {
  (** Blocks lie above the kernel image, which is linked at 1 MiB. *)
  live_above s L p : live s L → p ∈ L → IMAGE_BASE < p;
  malloc_zero s : malloc 0 s = Ok (0, s, []);
  (** [malloc] fails cleanly or returns a pointer that was not live. *)
  malloc_live s L n : live s L → 0 < n ≤ 4294967288 →
    wp (malloc n) s (λ p s' _,
      (p = 0 ∧ live s' L) ∨ (p ≠ 0 ∧ (p ∉ L) ∧ live s' ({[p]} ∪ L)));
  free_null s : free 0 s = Ok (tt, s, []);
  free_live s L p : live s L → p ∈ L →
    wp (free p) s (λ _ s' _, live s' (L ∖ {[p]}))
}.

Lemma live_nonnull `{!Allocator St, !AllocatorLaws St} s L : live s L → 0 ∉ L.
Proof. intros Hl H0. by pose proof (live_above _ _ _ Hl H0). Qed.

End Alloc.
