(* ===== verification/Malloc.v ===== *)
(** The kernel heap of kernel/src/malloc.c: a first-fit allocator over a
    singly linked free list, growing by pools of 16 MB up to [heap_max].

    The state is the three static variables of the file and the block
    headers written in the heap; a header keeps its [size] while its block
    is allocated, because [free] finds the size there. *)
From S2P Require Import Prelude.
From S2P Require Import Allocator.

Module Heap.

(** struct free_block, malloc.h *)
Record header : Type := Header { size : Z; next : Z }.

(** The static variables of malloc.c; [hdrs] is the part of the memory
    that holds headers, by the address of the header. *)
Record state : Type := State {
  free_list : Z;
  heap_brk : Z;
  heap_max : Z;
  hdrs : gmap Z header
}.

Definition sizeof_free_block : Z := 8.
Definition POOL_SIZE : Z := 16 * 1024 * 1024.

(** ALIGN_UP on a 32-bit size_t: the sum wraps. *)
Definition ALIGN_UP (s : Z) : Z := Z.land (u32 (s + 7)) (u32 (Z.lnot 7)).

Definition set_free_list (p : Z) (st : state) : state :=
  State p (heap_brk st) (heap_max st) (hdrs st).
Definition set_heap_brk (p : Z) (st : state) : state :=
  State (free_list st) p (heap_max st) (hdrs st).
Definition set_heap_max (p : Z) (st : state) : state :=
  State (free_list st) (heap_brk st) p (hdrs st).
Definition set_hdrs (h : gmap Z header) (st : state) : state :=
  State (free_list st) (heap_brk st) (heap_max st) h.

(** Reading and writing a header field through a pointer. Reading where
    no header was ever written is a fault. *)
Definition load (p : Z) : M state header := st ← get; unwrap (hdrs st !! p).
Definition store (p : Z) (h : header) : M state unit :=
  modify (λ st, set_hdrs (<[p := h]> (hdrs st)) st).
Definition store_size (p n : Z) : M state unit :=
  h ← load p; store p (Header n (next h)).
Definition store_next (p q : Z) : M state unit :=
  h ← load p; store p (Header (size h) q).

Definition request_memory (size : Z) : M state Z :=
  let size := ALIGN_UP size in
  st ← get;
  if heap_max st <? u32 (heap_brk st + size) then
    printf ("request_memory failed:out of memory" +:+ nl +:+ "size=%d" +:+ nl)
      [AInt (s32 size)];;
    mret 0
  else
    let ptr := heap_brk st in
    modify (set_heap_brk (u32 (heap_brk st + size)));;
    mret ptr.

(** malloc_init: [_end] is the address the linker script gives the end of
    the BSS section. *)
Definition malloc_init (_end total_mb : Z) : M state unit :=
  printf "malloc initing" [];;
  printf ("_end address = 0x%x" +:+ nl) [AInt _end];;
  let total_bytes := u32 (total_mb * 1024 * 1024) in
  modify (set_heap_max (u32 (_end + total_bytes)));;
  st ← get;
  printf ("heap_max = 0x%x" +:+ nl) [AInt (heap_max st)];;
  mem ← request_memory POOL_SIZE;
  if mem =? 0 then
    printf ("malloc_init_error" +:+ nl) []
  else
    st ← get;
    store mem (Header (POOL_SIZE - sizeof_free_block) (free_list st));;
    modify (set_free_list mem);;
    printf (nl +:+ "malloc init succeess" +:+ nl) [].

(** The heap variables before [malloc_init] runs. *)
Definition boot (_end : Z) : state := State 0 _end 0 ∅.

Definition expand_heap : M state Z :=
  mem ← request_memory POOL_SIZE;
  if mem =? 0 then
    printf ("expand_heap error" +:+ nl) [];;
    mret (-1)
  else
    st ← get;
    store mem (Header (POOL_SIZE - sizeof_free_block) (free_list st));;
    modify (set_free_list mem);;
    printf "expand_heap succeess" [];;
    mret 0.

(** Replace the block in the list after [prev] (or the head) by [q]. *)
Definition relink (prev q : Z) : M state unit :=
  if prev =? 0 then modify (set_free_list q) else store_next prev q.

(** The body of the loop once [curr], whose header is [c], fits: unlink it,
    splitting it when the rest can hold a header and 8 bytes. *)
Definition take_block (req_size prev curr : Z) (c : header) : M state Z :=
  let remain := u32 (size c - req_size) in
  (if sizeof_free_block + 8 <=? remain then
     let new_free := curr + sizeof_free_block + req_size in
     store new_free (Header (u32 (remain - sizeof_free_block)) (next c));;
     store_size curr req_size;;
     relink prev new_free
   else
     relink prev (next c));;
  mret (curr + sizeof_free_block).

(** The while loop of [malloc]: the user pointer of the first block that
    fits, or [None] at the end of the list. *)
Fixpoint find_fit (fuel : nat) (req_size prev curr : Z) : M state (option Z) :=
  match fuel with
  | O => nofuel
  | S fuel =>
      if curr =? 0 then mret None else
      c ← load curr;
      if req_size <=? size c then Some <$> take_block req_size prev curr c
      else find_fit fuel req_size curr (next c)
  end.

(** The size looked for: rounded up to 8 bytes, and at least 8. *)
Definition req_size_of (size : Z) : Z :=
  let req_size := ALIGN_UP size in
  if req_size <? 8 then 8 else req_size.

Fixpoint malloc_rec (fuel : nat) (size : Z) : M state Z :=
  match fuel with
  | O => nofuel
  | S fuel' =>
      if size =? 0 then mret 0 else
      let req_size := req_size_of size in
      st ← get;
      r ← find_fit fuel req_size 0 (free_list st);
      match r with
      | Some p => mret p
      | None =>
          e ← expand_heap;
          if e =? 0 then malloc_rec fuel' size else mret 0
      end
  end.

(** Steps [malloc] can need from a state: it walks each list it meets
    once, and it can expand the heap once per pool that is left. *)
Definition malloc_fuel (st : state) : nat :=
  base.size (hdrs st) + 2 * Z.to_nat ((heap_max st - heap_brk st) / POOL_SIZE) + 3.

Definition malloc (size : Z) : M state Z :=
  st ← get; malloc_rec (malloc_fuel st) size.

Definition free (ptr : Z) : M state unit :=
  if ptr =? 0 then mret tt else
  let block := ptr - sizeof_free_block in
  st ← get;
  store_next block (free_list st);;
  modify (set_free_list block).

(** * The free list and the layout of the heap *)

Lemma ALIGN_UP_const : u32 (Z.lnot 7) = Z.shiftl (Z.ones 29) 3.
Proof. done. Qed.

Lemma land_low3 x : 0 ≤ x < 4294967296 → Z.land x (Z.shiftl (Z.ones 29) 3) = 8 * (x / 8).
Proof.
  intros Hx. change 8 with (2 ^ 3). rewrite Z.mul_comm -Z.shiftl_mul_pow2 // -Z.shiftr_div_pow2 //.
  apply Z.bits_inj'. intros n Hn. rewrite Z.land_spec.
  destruct (decide (n < 3)).
  { rewrite !Z.shiftl_spec_low //. by rewrite andb_false_r. }
  rewrite (Z.shiftl_spec (Z.shiftr x 3)) // (Z.shiftl_spec (Z.ones 29)) //.
  rewrite Z.shiftr_spec; [lia|].
  replace (n - 3 + 3) with n by lia.
  destruct (decide (n < 32)).
  { rewrite Z.ones_spec_low; [lia|]. by rewrite andb_true_r. }
  rewrite (Z.bits_above_log2 x); [lia| |done].
  destruct (decide (x = 0)) as [->|]; [simpl; lia|].
  apply (Z.lt_le_trans _ 32); [|lia]. apply Z.log2_lt_pow2; lia.
Qed.

Lemma ALIGN_UP_spec s : 0 ≤ s ≤ 4294967288 → ALIGN_UP s = 8 * ((s + 7) / 8).
Proof.
  intros ?. rewrite /ALIGN_UP ALIGN_UP_const u32_small; [lia|]. apply land_low3. lia.
Qed.

Lemma ALIGN_UP_wraps s : 4294967288 < s < 4294967296 → ALIGN_UP s = 0.
Proof.
  intros ?. rewrite /ALIGN_UP ALIGN_UP_const land_low3; [apply u32_range|].
  rewrite /u32. dlia.
Qed.

(** [lseg h p F q]: following [next] from [p] visits the headers [F] and
    then reaches [q]. *)
Fixpoint lseg (h : gmap Z header) (p : Z) (F : list Z) (q : Z) : Prop :=
  match F with
  | [] => p = q
  | a :: F => p = a ∧ a ≠ 0 ∧ ∃ hd, h !! a = Some hd ∧ lseg h (next hd) F q
  end.

Lemma lseg_app h p F1 F2 q :
  lseg h p (F1 ++ F2) q ↔ ∃ r, lseg h p F1 r ∧ lseg h r F2 q.
Proof.
  revert p. induction F1 as [|a F1 IH]; intros p; simpl.
  { split; [by eauto|by intros (?&->&?)]. }
  setoid_rewrite IH. naive_solver.
Qed.

Lemma lseg_frame h h' p F q :
  lseg h p F q → (∀ x, x ∈ F → h' !! x = h !! x) → lseg h' p F q.
Proof.
  revert p. induction F as [|b F IH]; intros p; simpl; [done|].
  intros (->&?&hd&Hb&?) Hsame. split_and!; [done..|]. exists hd.
  rewrite Hsame; [left|]. split; [done|]. apply IH; [done|]. intros; apply Hsame; by right.
Qed.

Lemma lseg_last h p F b q q' hb :
  NoDup (F ++ [b]) → h !! b = Some hb → lseg h p (F ++ [b]) q →
  lseg (<[b:=Header (size hb) q']> h) p (F ++ [b]) q'.
Proof.
  intros (_&Hni&_)%NoDup_app Hb (r&HF&Hr)%lseg_app. apply lseg_app. exists r.
  split.
  { eapply lseg_frame; [done|]. intros x Hx. rewrite lookup_insert_ne; set_solver. }
  simpl in *. destruct Hr as (->&?&_). rewrite lookup_insert_eq. naive_solver.
Qed.

Lemma lseg_lookup h p F q a : lseg h p F q → a ∈ F → is_Some (h !! a).
Proof.
  revert p. induction F as [|b F IH]; intros p; simpl; [set_solver|].
  intros (->&?&hd&Hb&?) [->|?]%elem_of_cons; eauto.
Qed.

(** The sizes of all blocks, by header address. *)
Definition sizes (st : state) : gmap Z Z := size <$> hdrs st.

Lemma lookup_sizes st a : sizes st !! a = size <$> hdrs st !! a.
Proof. apply lookup_fmap. Qed.

Definition total (sz : gmap Z Z) : Z :=
  map_fold (λ _ n acc, acc + (sizeof_free_block + n)) 0 sz.

Lemma total_insert sz a n :
  sz !! a = None → total (<[a:=n]> sz) = total sz + (8 + n).
Proof. intros ?. rewrite /total map_fold_insert_L //. lia. Qed.

Lemma total_update sz a n m :
  sz !! a = Some n → total (<[a:=m]> sz) = total sz + m - n.
Proof.
  intros Ha. rewrite -(insert_delete_id sz a n) // insert_insert_eq.
  rewrite !total_insert ?lookup_delete_eq //. lia.
Qed.

(** The blocks tile the memory from [e] up to the break [brk]: they are
    inside, 8-aligned relative to [e], disjoint, and cover it all. *)
Record layout (e brk : Z) (sz : gmap Z Z) : Prop := {
  lay_in a n : sz !! a = Some n →
    e ≤ a ∧ a + 8 + n ≤ brk ∧ 8 ≤ n ∧ (8 | n) ∧ (8 | a - e);
  lay_sep a b n : sz !! a = Some n → is_Some (sz !! b) → a < b → a + 8 + n ≤ b;
  lay_total : total sz = brk - e
}.

Lemma layout_split e brk sz a n req :
  layout e brk sz → sz !! a = Some n → 8 ≤ req → (8 | req) → req + 16 ≤ n →
  sz !! (a + 8 + req) = None ∧
  layout e brk (<[a + 8 + req := n - req - 8]> (<[a := req]> sz)).
Proof.
  intros [Hin Hsep Htot] Ha ? Hd ?. destruct (Hin _ _ Ha) as (?&?&?&Hn&?).
  assert (Hnone : sz !! (a + 8 + req) = None).
  { apply eq_None_not_Some. intros Hs. pose proof (Hsep _ _ _ Ha Hs). lia. }
  split; [done|]. split.
  - intros b m. rewrite !lookup_insert. repeat case_decide; intros; simplify_eq; [..|by eauto].
    + split_and!; [lia..|apply Z.divide_sub_r; [by apply Z.divide_sub_r|done]|].
      replace (a + 8 + req - e) with (a - e + 8 + req) by lia.
      apply Z.divide_add_r; [by apply Z.divide_add_r|done].
    + split_and!; [lia..|done|done].
  - intros b c m Hb Hc Hlt. rewrite !lookup_insert in Hb, Hc.
    repeat case_decide; simplify_eq; try lia;
      first [ pose proof (Hsep _ _ _ Ha Hc); lia
            | pose proof (Hsep _ _ _ Hb (mk_is_Some _ _ Ha));
              pose proof (Hsep _ _ _ Ha (mk_is_Some _ _ Hb)); lia
            | by eauto ].
  - rewrite total_insert; [rewrite lookup_insert_ne //; lia|].
    rewrite (total_update _ _ _ _ Ha). lia.
Qed.

Lemma layout_grow e brk sz n :
  layout e brk sz → e ≤ brk → (8 | brk - e) → 8 ≤ n → (8 | n) →
  sz !! brk = None ∧ layout e (brk + 8 + n) (<[brk := n]> sz).
Proof.
  intros [Hin Hsep Htot] ????.
  assert (Hnone : sz !! brk = None).
  { apply eq_None_not_Some. intros [m Hm]. pose proof (Hin _ _ Hm). lia. }
  split; [done|]. split.
  - intros a m. rewrite lookup_insert. case_decide; intros; simplify_eq.
    { split_and!; (done || lia). }
    destruct (Hin a m) as (?&?&?&?&?); [done|]. split_and!; (done || lia).
  - intros a b m Ha Hb Hlt. rewrite !lookup_insert in Ha, Hb.
    repeat case_decide; simplify_eq; try lia;
      first [ by eauto | apply Hin in Ha; lia | destruct Hb as [? Hb%Hin]; lia ].
  - rewrite total_insert //. lia.
Qed.

(** * The invariant of the allocator

    [wf e st F A]: the heap that starts at [e] has the free blocks [F], in
    list order, and the allocated blocks [A] (header addresses). *)
Record wf (e : Z) (st : state) (F : list Z) (A : gset Z) : Prop := {
  wf_list : lseg (hdrs st) (free_list st) F 0;
  wf_nodup : NoDup F;
  wf_dom : dom (sizes st) = list_to_set F ∪ A;
  wf_disj : list_to_set F ## A;
  wf_layout : layout e (heap_brk st) (sizes st);
  wf_brk : 0 < e ≤ heap_brk st ∧ heap_brk st ≤ heap_max st ∧ (8 | heap_brk st - e);
  wf_max : heap_max st + POOL_SIZE < 4294967296
}.

(** What an operation may change outside the headers it relinks. *)
Definition same_bounds (st st' : state) : Prop :=
  heap_brk st' = heap_brk st ∧ heap_max st' = heap_max st.

Definition prev_of (F : list Z) : Z := default 0 (last F).

Lemma prev_of_snoc F b : prev_of (F ++ [b]) = b.
Proof. by rewrite /prev_of last_snoc. Qed.

Lemma load_ok st p h : hdrs st !! p = Some h → load p st = Ok (h, st, []).
Proof. intros Hp. by rewrite /load /mbind /M_bind /= Hp. Qed.

Lemma wp_load st p h (Q : header → state → list event → Prop) :
  hdrs st !! p = Some h → Q h st [] → wp (load p) st Q.
Proof. intros Hp ?. by rewrite /wp (load_ok _ _ _ Hp). Qed.

Lemma relink_spec st F r q :
  NoDup F → lseg (hdrs st) (free_list st) F r →
  wp (relink (prev_of F) q) st (λ _ st' o,
    o = [] ∧ same_bounds st st' ∧ sizes st' = sizes st ∧
    lseg (hdrs st') (free_list st') F q ∧
    (∀ a, a ∉ F → hdrs st' !! a = hdrs st !! a)).
Proof.
  intros Hnd Hl. rewrite /relink. destruct F as [|b F _] using rev_ind.
  { by wp_steps. }
  rewrite prev_of_snoc.
  assert (b ≠ 0 ∧ is_Some (hdrs st !! b)) as [? [hb Hb]].
  { apply lseg_app in Hl as (?&_&->&?&?&?&_). split; [done|by eexists]. }
  zcase; [done|]. rewrite /store_next /store. wp_steps.
  eapply wp_load; [done|]. wp_steps. split_and!; [done..| | |].
  - rewrite /sizes fmap_insert /= insert_id //. by rewrite lookup_fmap Hb.
  - by eapply lseg_last.
  - intros a Ha. simpl. rewrite lookup_insert_ne //. set_solver.
Qed.

Lemma find_fit_found st F1 a F2 c fuel req prev p :
  lseg (hdrs st) p (F1 ++ a :: F2) 0 →
  (∀ b n, b ∈ F1 → sizes st !! b = Some n → n < req) →
  hdrs st !! a = Some c → req ≤ size c → (length F1 < fuel)%nat →
  find_fit fuel req prev p st =
  (Some <$> take_block req (default prev (last F1)) a c) st.
Proof.
  revert fuel prev p. induction F1 as [|b F1 IH]; intros [|fuel] prev p Hl Hsm Ha Hc Hf;
    simpl in Hl, Hf; try lia; destruct Hl as (->&?&hd&Hb&Hl); simpl; zcase; try done.
  - simplify_eq. rewrite (bind_ok _ _ _ _ _ (load_ok _ _ _ Hb)). by zcase; [|lia].
  - assert (size hd < req).
    { apply (Hsm b); [left|]. by rewrite lookup_sizes Hb. }
    rewrite (bind_ok _ _ _ _ _ (load_ok _ _ _ Hb)). zcase; [lia|].
    rewrite (IH fuel b (next hd)) //; [by intros; eapply Hsm; [right|]|lia|].
    rewrite last_cons. by destruct (last F1).
Qed.

Lemma find_fit_none st F fuel req prev p :
  lseg (hdrs st) p F 0 →
  (∀ b n, b ∈ F → sizes st !! b = Some n → n < req) → (length F < fuel)%nat →
  find_fit fuel req prev p st = Ok (None, st, []).
Proof.
  revert fuel prev p. induction F as [|b F IH]; intros [|fuel] prev p Hl Hsm Hf;
    simpl in Hl, Hf; try lia.
  { by rewrite Hl. }
  destruct Hl as (->&?&hd&Hb&Hl). simpl. zcase; [done|].
  assert (size hd < req).
  { apply (Hsm b); [left|]. by rewrite lookup_sizes Hb. }
  rewrite (bind_ok _ _ _ _ _ (load_ok _ _ _ Hb)). zcase; [lia|].
  rewrite (IH fuel b (next hd)) //; [by intros; eapply Hsm; [right|]|lia].
Qed.

(** Bookkeeping on the list of free blocks and the set of live ones. *)
Lemma NoDup_middle (F1 : list Z) a F2 :
  NoDup (F1 ++ a :: F2) ↔ (a ∉ F1 ++ F2) ∧ NoDup (F1 ++ F2).
Proof. by rewrite -(Permutation_middle F1 F2 a) NoDup_cons. Qed.

Lemma not_in_middle (F1 : list Z) a F2 x : x ∉ F1 ++ a :: F2 ↔ x ≠ a ∧ (x ∉ F1 ++ F2).
Proof. by rewrite -(Permutation_middle F1 F2 a) not_elem_of_cons. Qed.

Lemma dom_take_whole (F1 : list Z) a F2 (A : gset Z) :
  list_to_set (F1 ++ a :: F2) ## A → a ∉ F1 ++ F2 →
  list_to_set (F1 ++ a :: F2) ∪ A = list_to_set (F1 ++ F2) ∪ ({[a]} ∪ A) ∧
  (list_to_set (F1 ++ F2) : gset Z) ## {[a]} ∪ A.
Proof. set_solver. Qed.

Lemma dom_take_split (F1 : list Z) a b F2 (A : gset Z) :
  list_to_set (F1 ++ a :: F2) ## A → a ∉ F1 ++ F2 → b ≠ a → b ∉ A →
  {[b]} ∪ ({[a]} ∪ (list_to_set (F1 ++ a :: F2) ∪ A))
    = list_to_set (F1 ++ b :: F2) ∪ ({[a]} ∪ A) ∧
  (list_to_set (F1 ++ b :: F2) : gset Z) ## {[a]} ∪ A.
Proof. set_solver. Qed.

(** [st'] is [st] with the block [a], of header [c], allocated for a
    request of [req] bytes: the list is relinked around it, and when the
    rest is large enough it stays in the list as a block of its own. *)
Definition taken (e : Z) (st : state) (F1 : list Z) (a : Z) (F2 : list Z) (A : gset Z)
    (req : Z) (c : header) (st' : state) : Prop :=
  let split := bool_decide (req + 16 ≤ size c) in
  same_bounds st st' ∧
  sizes st' = (if split then <[a + 8 + req := size c - req - 8]> (<[a := req]> (sizes st))
               else sizes st) ∧
  wf e st' (F1 ++ (if split then [a + 8 + req] else []) ++ F2) ({[a]} ∪ A).

(** Taking the block [a] out of the list: split, it leaves its tail as a
    free block at the same place of the list; whole, it leaves nothing. *)
Lemma take_block_spec e st F1 a F2 A c req :
  wf e st (F1 ++ a :: F2) A → hdrs st !! a = Some c →
  8 ≤ req ≤ size c → (8 | req) →
  wp (take_block req (prev_of F1) a c) st (λ r st' o,
    r = a + 8 ∧ o = [] ∧ taken e st F1 a F2 A req c st').
Proof.
  intros [Hl Hnd Hdom Hdisj Hlay Hbrk Hmax] Ha Hreq Hd8.
  assert (Hsz : sizes st !! a = Some (size c)) by (by rewrite lookup_sizes Ha).
  destruct (lay_in _ _ _ Hlay _ _ Hsz) as (?&?&?&?&?). unfold POOL_SIZE in Hmax.
  apply lseg_app in Hl as (r&Hl1&->&Ha0&hd&Ha'&Hl2).
  assert (hd = c) as -> by congruence.
  apply NoDup_middle in Hnd as [HaF Hnd]. apply not_elem_of_app in HaF as HaF'.
  assert (Hnd' := Hnd). apply NoDup_app in Hnd' as (Hnd1&Hnd12&_).
  assert (HF12 : ∀ x, x ∈ F2 → (x ∉ F1) ∧ x ≠ a).
  { intros x Hx. split; [by intros ?%Hnd12|]. intros ->. by apply HaF'. }
  rewrite /taken /take_block u32_small; [lia|]. rewrite /sizeof_free_block. zcase.
  - rewrite bool_decide_true; [lia|].
    destruct (layout_split _ _ _ _ _ req Hlay Hsz) as [Hfresh Hlay']; [lia|done|lia|].
    assert (HnewF := Hfresh). apply not_elem_of_dom in HnewF. rewrite Hdom in HnewF.
    apply not_elem_of_union in HnewF as [HnF HnA]. rewrite elem_of_list_to_set in HnF.
    apply not_in_middle in HnF as [Hna HnF]. apply not_elem_of_app in HnF as HnF'.
    destruct (dom_take_split F1 a (a + 8 + req) F2 A) as [HD1 HD2]; [done..|].
    rewrite u32_small; [lia|]. rewrite /store_size /store. wp_steps.
    eapply wp_load; [simpl; rewrite lookup_insert_ne; [lia|done]|]. wp_steps.
    set st1 := set_hdrs _ _. eapply wp_mono.
    { apply (relink_spec st1 _ a); [done|].
      eapply lseg_frame; [done|]. intros x Hx. simpl.
      rewrite !lookup_insert_ne //; intros <-; naive_solver. }
    simpl. intros _ st' o (->&[Hb1 Hb2]&Hs&Hl1'&Hoth). wp_steps.
    assert (Hs' : sizes st' = <[a + 8 + req:=size c - req - 8]> (<[a:=req]> (sizes st))).
    { rewrite Hs /sizes /= !fmap_insert /=. rewrite insert_insert_ne; [lia|]. done. }
    split_and!; [done..|]. split; [| |by rewrite Hs' !dom_insert_L Hdom HD1|done|..].
    + apply lseg_app. exists (a + 8 + req). split; [done|]. simpl. split_and!; [done|lia|].
      rewrite Hoth; [naive_solver|]. simpl. rewrite lookup_insert_ne; [lia|].
      rewrite lookup_insert_eq. eexists; split; [done|].
      eapply lseg_frame; [done|]. intros x Hx2. destruct (HF12 x Hx2) as [Hx1 Hxa].
      rewrite Hoth //= !lookup_insert_ne //. intros <-; naive_solver.
    + by apply NoDup_middle.
    + by rewrite Hb1 Hs'.
    + by rewrite Hb1 Hb2.
    + by rewrite Hb2.
  - rewrite bool_decide_false; [lia|]. wp_steps.
    destruct (dom_take_whole F1 a F2 A) as [HD1 HD2]; [done..|].
    eapply wp_mono; [by apply (relink_spec st _ a)|].
    simpl. intros _ st' o (->&[Hb1 Hb2]&Hs&Hl1'&Hoth). wp_steps.
    split_and!; [done..|]. split; [|done|by rewrite Hs Hdom|done|..].
    + apply lseg_app. eexists; split; [done|].
      eapply lseg_frame; [done|]. intros x [Hx1 Hx2]%HF12. by apply Hoth.
    + by rewrite Hb1 Hs.
    + by rewrite Hb1 Hb2.
    + by rewrite Hb2.
Qed.

Lemma req_size_of_spec n :
  0 < n ≤ 4294967288 →
  n ≤ req_size_of n ∧ req_size_of n < n + 8 ∧ 8 ≤ req_size_of n ∧ (8 | req_size_of n).
Proof.
  intros ?. rewrite /req_size_of ALIGN_UP_spec; [lia|]. zcase; [dlia|].
  split_and!; [dlia..|]. by apply Z.divide_factor_l.
Qed.

(** Every block of [F] is too small for [req]. *)
Definition none_fits (st : state) (req : Z) (F : list Z) : Prop :=
  ∀ b n, b ∈ F → sizes st !! b = Some n → n < req.

(** Either some block fits, and then a first one does, or none does. *)
Lemma fit_cases st F req p :
  lseg (hdrs st) p F 0 →
  (∃ F1 a F2 c, F = F1 ++ a :: F2 ∧ none_fits st req F1 ∧ hdrs st !! a = Some c ∧ req ≤ size c)
  ∨ none_fits st req F.
Proof.
  revert p. induction F as [|b F IH]; intros p Hl; [right; intros ??[]%elem_of_nil|].
  destruct Hl as (->&?&c&Hb&Hl). destruct (decide (req ≤ size c)).
  { left. exists [], b, F, c. split_and!; [done| |done..]. intros ??[]%elem_of_nil. }
  assert (Hs : sizes st !! b = Some (size c)) by (by rewrite lookup_sizes Hb).
  assert (Hnone : ∀ F', none_fits st req F' → none_fits st req (b :: F')).
  { intros F' HF' x m [->|Hx]%elem_of_cons Hm; [simplify_eq; lia|eauto]. }
  destruct (IH _ Hl) as [(F1&a&F2&ca&->&?&?&?)|?]; [left|right; auto].
  exists (b :: F1), a, F2, ca. auto.
Qed.

Lemma wf_length e st F A : wf e st F A → (length F ≤ base.size (hdrs st))%nat.
Proof.
  intros Hwf. pose proof (wf_nodup _ _ _ _ Hwf) as Hnd.
  rewrite -(size_list_to_set (C:=gset Z)) // -(map_size_fmap size) -size_dom.
  apply subseteq_size. change (size <$> hdrs st) with (sizes st).
  rewrite (wf_dom _ _ _ _ Hwf). set_solver.
Qed.

Lemma request_memory_spec st n :
  0 ≤ n ≤ 4294967288 → (8 | n) → 0 ≤ heap_brk st → heap_brk st + n < 4294967296 →
  wp (request_memory n) st (λ r st' _,
    if bool_decide (heap_brk st + n ≤ heap_max st)
    then r = heap_brk st ∧ st' = set_heap_brk (heap_brk st + n) st
    else r = 0 ∧ st' = st).
Proof.
  intros ? [k ->] ??. rewrite /request_memory ALIGN_UP_spec; [lia|].
  replace (8 * ((k * 8 + 7) / 8)) with (k * 8) by dlia. wp_steps.
  rewrite u32_small; [lia|]. zcase; wp_steps.
  - by rewrite bool_decide_false; [lia|].
  - by rewrite bool_decide_true; [lia|].
Qed.

Lemma expand_heap_spec e st F A :
  wf e st F A →
  wp expand_heap st (λ r st' _,
    if bool_decide (heap_brk st + POOL_SIZE ≤ heap_max st)
    then r = 0 ∧ wf e st' (heap_brk st :: F) A ∧
         sizes st' = <[heap_brk st := POOL_SIZE - 8]> (sizes st) ∧
         sizes st !! heap_brk st = None ∧
         heap_brk st' = heap_brk st + POOL_SIZE ∧ heap_max st' = heap_max st
    else r = -1 ∧ st' = st).
Proof.
  intros [Hl Hnd Hdom Hdisj Hlay Hbrk Hmax]. unfold POOL_SIZE in Hmax.
  destruct (layout_grow _ _ _ (POOL_SIZE - 8) Hlay) as [Hfresh Hlay'];
    [lia|naive_solver|done|by exists 2097151|].
  rewrite /expand_heap. wp_steps. eapply wp_mono.
  { apply request_memory_spec; unfold POOL_SIZE; try lia. by exists 2097152. }
  intros r st1 o. case_bool_decide as Hfit; intros [-> ->]; [|by wp_steps].
  zcase; [lia|]. rewrite /store. wp_steps. simpl.
  set h := Header _ _. assert (Hfr := Hfresh). apply not_elem_of_dom in Hfr.
  rewrite Hdom not_elem_of_union elem_of_list_to_set in Hfr. destruct Hfr as [HF HA].
  assert (Hs : size <$> <[heap_brk st:=h]> (hdrs st) = <[heap_brk st:=POOL_SIZE - 8]> (sizes st)).
  { by rewrite fmap_insert. }
  split_and!; [done| |done..]. split; simpl.
  - split_and!; [done|lia|]. eexists; split; [apply lookup_insert_eq|]. simpl.
    eapply lseg_frame; [done|]. intros x Hx. rewrite lookup_insert_ne //. by intros <-.
  - by apply NoDup_cons.
  - rewrite /sizes /= Hs dom_insert_L Hdom. clear; set_solver.
  - clear -Hdisj HA. set_solver.
  - rewrite /sizes /= Hs. by replace (heap_brk st + POOL_SIZE) with
      (heap_brk st + 8 + (POOL_SIZE - 8)) by lia.
  - split_and!; [unfold POOL_SIZE in *; lia..|].
    replace (_ - e) with (heap_brk st - e + POOL_SIZE) by lia.
    apply Z.divide_add_r; [naive_solver|by exists 2097152].
  - unfold POOL_SIZE in *; lia.
Qed.

(** The outcome of a call [malloc n] on a heap with the live blocks [A]:
    [NULL], only when no free block fits and no pool is left, or a block
    that was not live, is big enough, and is live now.  The other live
    blocks keep their sizes. *)
Definition alloc_post (e : Z) (A : gset Z) (n : Z) (st : state)
    (r : Z) (st' : state) : Prop :=
  heap_max st' = heap_max st ∧ (∀ a, a ∈ A → sizes st' !! a = sizes st !! a) ∧
  ((r = 0 ∧ ∃ F, wf e st' F A ∧ none_fits st' (req_size_of n) F ∧
     heap_max st' < heap_brk st' + POOL_SIZE)
   ∨ ∃ a m F, r = a + 8 ∧ (a ∉ A) ∧ sizes st' !! a = Some m ∧ n ≤ m ∧
     wf e st' F ({[a]} ∪ A)).

Lemma wf_live e st F A a : wf e st F A → a ∈ A → is_Some (sizes st !! a).
Proof.
  intros Hwf Ha. apply elem_of_dom. rewrite (wf_dom _ _ _ _ Hwf). set_solver.
Qed.

Lemma wf_free_not_live e st F1 a F2 A : wf e st (F1 ++ a :: F2) A → a ∉ A.
Proof. intros Hwf. pose proof (wf_disj _ _ _ _ Hwf). set_solver. Qed.

Lemma find_fit_fit e st F1 a F2 A c req fuel :
  wf e st (F1 ++ a :: F2) A → none_fits st req F1 → hdrs st !! a = Some c →
  8 ≤ req ≤ size c → (8 | req) → (length F1 < fuel)%nat →
  wp (find_fit fuel req 0 (free_list st)) st (λ r st' o,
    r = Some (a + 8) ∧ o = [] ∧ taken e st F1 a F2 A req c st').
Proof.
  intros Hwf HF1 Ha ???.
  rewrite /wp (find_fit_found st F1 a F2 c) //; [by eapply wf_list|lia|].
  change (wp (Some <$> take_block req (prev_of F1) a c) st (λ r st' o,
    r = Some (a + 8) ∧ o = [] ∧ taken e st F1 a F2 A req c st')).
  wp_steps. eapply wp_mono; [by eapply take_block_spec|]. by intros r st' o (->&?).
Qed.

Lemma find_fit_empty e st F A req fuel :
  wf e st F A → none_fits st req F → (length F < fuel)%nat →
  wp (find_fit fuel req 0 (free_list st)) st (λ r st' o, r = None ∧ st' = st ∧ o = []).
Proof.
  intros Hwf HF ?. by rewrite /wp (find_fit_none st F); [by eapply wf_list| | |].
Qed.

Lemma malloc_rec_fit e st F1 a F2 A c n fuel :
  wf e st (F1 ++ a :: F2) A → 0 < n ≤ 4294967288 →
  none_fits st (req_size_of n) F1 → hdrs st !! a = Some c → req_size_of n ≤ size c →
  (length F1 < fuel)%nat →
  wp (malloc_rec fuel n) st (λ r st' o,
    r = a + 8 ∧ o = [] ∧ taken e st F1 a F2 A (req_size_of n) c st').
Proof.
  intros Hwf Hn HF1 Ha Hc Hf. destruct (req_size_of_spec n Hn) as (?&?&?&?).
  destruct fuel as [|fuel]; [lia|]. cbn [malloc_rec]. zcase; [lia|]. wp_steps.
  eapply wp_mono.
  { by eapply (find_fit_fit e st F1 a F2 A c). }
  intros r st' o (->&->&?). by wp_steps.
Qed.

Lemma taken_alloc_post e st F1 a F2 A n c st' :
  wf e st (F1 ++ a :: F2) A → 0 < n ≤ 4294967288 → hdrs st !! a = Some c →
  req_size_of n ≤ size c → taken e st F1 a F2 A (req_size_of n) c st' →
  alloc_post e A n st (a + 8) st'.
Proof.
  intros Hwf Hn Ha Hc ([Hb Hm]&Hs&Hwf'). destruct (req_size_of_spec n Hn) as (?&?&?&?).
  pose proof (wf_free_not_live _ _ _ _ _ _ Hwf) as HaA.
  assert (Hsz : sizes st !! a = Some (size c)) by (by rewrite lookup_sizes Ha).
  split_and!; [done| |right].
  - intros b Hb'. rewrite Hs. case_bool_decide; [|done].
    destruct (wf_live _ _ _ _ _ Hwf Hb') as [m Hbm].
    pose proof (lay_sep _ _ _ (wf_layout _ _ _ _ Hwf) _ _ _ Hsz (mk_is_Some _ _ Hbm)).
    rewrite lookup_insert_ne; [lia|]. rewrite lookup_insert_ne //. congruence.
  - rewrite Hs. exists a, (if bool_decide (req_size_of n + 16 ≤ size c) then req_size_of n else size c).
    eexists. split_and!; [done..| | |exact Hwf']; case_bool_decide; try lia; [|done].
    rewrite lookup_insert_ne; [lia|]. by rewrite lookup_insert_eq.
Qed.

Lemma malloc_rec_spec e A n fuel : ∀ st F,
  wf e st F A → 0 < n ≤ 4294967288 → (malloc_fuel st ≤ fuel)%nat →
  wp (malloc_rec fuel n) st (λ r st' _, alloc_post e A n st r st').
Proof.
  induction fuel as [|fuel IH]; intros st F Hwf Hn Hfuel; [unfold malloc_fuel in *; lia|].
  pose proof (wf_length _ _ _ _ Hwf) as Hlen. unfold malloc_fuel in Hfuel.
  destruct (fit_cases st F (req_size_of n) _ (wf_list _ _ _ _ Hwf))
    as [(F1&a&F2&c&->&HF1&Ha&Hc)|Hnone].
  { rewrite length_app in Hlen.
    eapply wp_mono; [eapply (malloc_rec_fit e st F1); eauto; lia|].
    intros r st' o (->&->&?). by eapply taken_alloc_post. }
  cbn [malloc_rec]. zcase; [lia|]. wp_steps.
  eapply wp_mono; [by eapply (find_fit_empty e st F); eauto; lia|].
  intros r st1 o (->&->&->). wp_steps.
  eapply wp_mono; [by eapply expand_heap_spec|].
  intros r st1 o. case_bool_decide as Hroom; intros Hexp.
  - destruct Hexp as (->&Hwf1&Hs&Hfr&Hb&Hm). simpl.
    eapply wp_mono; [eapply IH; [done..|]|].
    + rewrite /malloc_fuel Hb Hm -(map_size_fmap size (hdrs st1)).
      change (size <$> hdrs st1) with (sizes st1). rewrite Hs map_size_insert_None //.
      rewrite /sizes map_size_fmap. unfold POOL_SIZE in *. dlia.
    + intros r st2 o1 (Hm2&HA2&Hpost). split_and!; [congruence| |done].
      intros a Ha. rewrite HA2 // Hs lookup_insert_ne //.
      destruct (wf_live _ _ _ _ _ Hwf Ha) as [? ?]. congruence.
  - destruct Hexp as [-> ->]. simpl. wp_steps.
    split_and!; [done..|left]. split; [done|]. exists F. split_and!; [done..|lia].
Qed.

Lemma malloc_unfold n st : malloc n st = malloc_rec (malloc_fuel st) n st.
Proof. by rewrite /malloc (bind_ok _ _ _ st st). Qed.

Lemma wp_malloc n st Q : wp (malloc_rec (malloc_fuel st) n) st Q → wp (malloc n) st Q.
Proof. by rewrite /wp malloc_unfold. Qed.

Lemma free_wf e st F A p :
  wf e st F A → p - 8 ∈ A →
  wp (free p) st (λ _ st' o, o = [] ∧ same_bounds st st' ∧ sizes st' = sizes st ∧
    wf e st' (p - 8 :: F) (A ∖ {[p - 8]})).
Proof.
  intros Hwf HA. destruct (wf_live _ _ _ _ _ Hwf HA) as [m Hm].
  pose proof Hwf as [Hl Hnd Hdom Hdisj Hlay Hbrk Hmax].
  destruct (lay_in _ _ _ Hlay _ _ Hm) as (?&?&?&?&?).
  rewrite /free. zcase; [lia|]. rewrite /sizeof_free_block /store_next /store. wp_steps.
  rewrite lookup_sizes in Hm. destruct (hdrs st !! (p - 8)) as [h|] eqn:Hh; simplify_eq/=.
  eapply wp_load; [done|]. wp_steps. simpl.
  assert (HpF : p - 8 ∉ F) by (clear -Hdisj HA; set_solver).
  assert (Hs : size <$> <[p - 8:=Header (size h) (free_list st)]> (hdrs st) = sizes st).
  { rewrite fmap_insert insert_id // lookup_fmap Hh //. }
  split_and!; [done..|]. split; simpl.
  - split_and!; [done|lia|]. eexists; split; [apply lookup_insert_eq|]. simpl.
    eapply lseg_frame; [done|]. intros x Hx. rewrite lookup_insert_ne //. by intros <-.
  - by apply NoDup_cons.
  - rewrite /sizes /= Hs Hdom. apply set_eq. intros x.
    destruct (decide (x = p - 8)) as [->|]; set_solver.
  - clear -Hdisj HpF. set_solver.
  - by rewrite /sizes /= Hs.
  - done.
  - done.
Qed.

Lemma malloc_init_wf e mb :
  0 < e → 0 ≤ mb → e + mb * 1048576 + POOL_SIZE < 4294967296 →
  wp (malloc_init e mb) (boot e) (λ _ st' _,
    heap_max st' = e + mb * 1048576 ∧
    if bool_decide (16 ≤ mb)
    then wf e st' [e] ∅ ∧ sizes st' = <[e := POOL_SIZE - 8]> ∅ ∧ heap_brk st' = e + POOL_SIZE
    else wf e st' [] ∅ ∧ heap_brk st' = e).
Proof.
  intros He Hmb Hmax. unfold POOL_SIZE in Hmax. rewrite /malloc_init.
  do 5 wp_step. rewrite (u32_small (mb * 1024 * 1024)); [lia|]. rewrite u32_small; [lia|].
  wp_steps. eapply wp_mono.
  { apply request_memory_spec; simpl; unfold POOL_SIZE; try lia. by exists 2097152. }
  assert (Hempty : layout e e ∅).
  { split; intros; simplify_map_eq; [..|]; rewrite /total ?map_fold_empty; lia. }
  intros r st1 o. simpl. case_bool_decide as Hfit; intros [-> ->].
  - rewrite bool_decide_true; [unfold POOL_SIZE in *; lia|].
    zcase; [lia|]. rewrite /store. wp_steps. simpl.
    assert (Hs : size <$> (<[e:=Header (POOL_SIZE - sizeof_free_block) 0]> ∅ : gmap Z header)
      = <[e := POOL_SIZE - 8]> ∅) by by rewrite fmap_insert fmap_empty.
    destruct (layout_grow e e ∅ (POOL_SIZE - 8) Hempty) as [_ Hlay];
      [lia|exists 0; lia|done|by exists 2097151|].
    split_and!; [lia| |done..]. split; simpl.
    + split_and!; [done|lia|]. eexists; split; [apply lookup_insert_eq|done].
    + apply NoDup_singleton.
    + rewrite /sizes /= Hs dom_insert_L dom_empty_L. set_solver.
    + set_solver.
    + rewrite /sizes /= Hs. by replace (e + POOL_SIZE) with (e + 8 + (POOL_SIZE - 8)) by lia.
    + split_and!; [unfold POOL_SIZE in *; lia..|].
      replace (e + POOL_SIZE - e) with POOL_SIZE by lia. by exists 2097152.
    + unfold POOL_SIZE; lia.
  - rewrite bool_decide_false; [unfold POOL_SIZE in *; lia|]. zcase; [|done]. wp_steps. simpl.
    split_and!; [lia| |done].
    split; simpl; [done|apply NoDup_nil_2|done|set_solver|done| |unfold POOL_SIZE; lia].
    split_and!; [lia..|]. exists 0. lia.
Qed.

(** * The allocator interface *)

(** The user pointers of the live blocks of a consistent heap, [_end] being
    in or after the image. *)
Definition live (st : state) (L : gset Z) : Prop :=
  ∃ e F A, Alloc.IMAGE_BASE ≤ e ∧ wf e st F A ∧ L = set_map (λ a, a + sizeof_free_block) A.

Lemma wf_user_ptr e st F A p :
  wf e st F A → p ∈ (set_map (λ a, a + sizeof_free_block) A : gset Z) ↔ p - 8 ∈ A.
Proof.
  intros _. rewrite elem_of_map /sizeof_free_block. split.
  - intros (a&->&?). by replace (a + 8 - 8) with a by lia.
  - intros ?. exists (p - 8). split; [lia|done].
Qed.

Lemma wf_above e st F A a : wf e st F A → a ∈ A → 0 < a ∧ e ≤ a.
Proof.
  intros Hwf Ha. destruct (wf_live _ _ _ _ _ Hwf Ha) as [m Hm].
  pose proof (lay_in _ _ _ (wf_layout _ _ _ _ Hwf) _ _ Hm).
  pose proof (wf_brk _ _ _ _ Hwf). lia.
Qed.

#[global] Instance heap_allocator : Alloc.Allocator state := {|
  Alloc.malloc := malloc;
  Alloc.free := free;
  Alloc.live := live
|}.

#[global] Instance heap_allocator_laws : Alloc.AllocatorLaws state.
Proof.
  split.
  - intros st L p (e&F&A&He&Hwf&->) Hp. rewrite (wf_user_ptr e st F) // in Hp.
    pose proof (wf_above _ _ _ _ _ Hwf Hp). lia.
  - intros st. rewrite /= malloc_unfold /malloc_fuel Nat.add_comm. done.
  - intros st L n (e&F&A&He&Hwf&->) Hn. apply wp_malloc.
    eapply wp_mono; [by eapply malloc_rec_spec|].
    intros p st' _ (_&_&[(->&F'&Hwf'&_)|(a&m&F'&->&HaA&_&_&Hwf')]).
    + left. split; [done|]. by exists e, F', A.
    + right. assert (0 < a ∧ e ≤ a) as [? _] by (apply (wf_above _ _ _ _ _ Hwf'); set_solver).
      split; [lia|]. split.
      * rewrite (wf_user_ptr e st F) //. by replace (a + 8 - 8) with a by lia.
      * exists e, F', ({[a]} ∪ A). split_and!; [done|done|]. by rewrite set_map_union_L set_map_singleton_L.
  - done.
  - intros st L p (e&F&A&He&Hwf&->) Hp. rewrite (wf_user_ptr e st F) // in Hp.
    eapply wp_mono; [by eapply free_wf|]. intros _ st' _ (_&_&_&Hwf').
    exists e, (p - 8 :: F), (A ∖ {[p - 8]}). split_and!; [done|done|].
    apply set_eq. intros q. rewrite elem_of_difference elem_of_singleton.
    rewrite (wf_user_ptr _ _ _ _ _ Hwf) (wf_user_ptr _ _ _ _ _ Hwf').
    rewrite elem_of_difference elem_of_singleton. split; intros [? Hne]; (split; [done|]);
      intros ?; apply Hne; lia.
Qed.

(** * Properties *)

(** A heap with 40 MB above address 0x200000, after boot. *)
Definition demo : state :=
  State 2097152 18874368 44040192 {[2097152 := Header 16777208 0]}.

Lemma none_fits_nil st req : none_fits st req [].
Proof. by intros b m []%elem_of_nil. Qed.

Lemma demo_wf : wf 2097152 demo [2097152] ∅.
Proof.
  assert (Hrun : ∃ o, malloc_init 2097152 40 (boot 2097152) = Ok (tt, demo, o))
    by (eexists; by vm_compute).
  destruct Hrun as [o Hrun].
  by destruct (wp_known _ _ _ _ _ _ (malloc_init_wf 2097152 40 ltac:(done) ltac:(done) ltac:(done))
    Hrun) as (_&?&_).
Qed.

(** C8: [malloc] returns on every consistent heap, within its fuel. It
    answers NULL only when no free block fits and no pool is left, and
    otherwise a block of at least the requested size that no live block
    overlaps; the heap stays consistent, with exactly that block more
    allocated, and no live block is resized. *)
Theorem malloc_spec e st F A n :
  wf e st F A → 0 < n ≤ 4294967288 →
  wp (malloc n) st (λ r st' _, alloc_post e A n st r st').
Proof. intros. apply wp_malloc. by eapply malloc_rec_spec. Qed.

Lemma malloc_spec_witness :
  wf 2097152 demo [2097152] ∅ ∧
  wp (malloc 100) demo (λ r st' _, alloc_post 2097152 ∅ 100 demo r st').
Proof. split; [exact demo_wf|]. apply (malloc_spec _ _ _ _ _ demo_wf). lia. Defined.

(** C35: [malloc] is first fit: it takes the first block of the free list
    that is large enough for the rounded size, returns the address after
    its header, and leaves in the list, at that place, the tail of the
    block when a header and 8 bytes remain, and nothing otherwise. *)
Theorem malloc_first_fit e st F1 a F2 A c n :
  wf e st (F1 ++ a :: F2) A → 0 < n ≤ 4294967288 →
  none_fits st (req_size_of n) F1 → hdrs st !! a = Some c → req_size_of n ≤ size c →
  wp (malloc n) st (λ r st' _, r = a + 8 ∧ taken e st F1 a F2 A (req_size_of n) c st').
Proof.
  intros Hwf ????. apply wp_malloc. pose proof (wf_length _ _ _ _ Hwf) as Hlen.
  rewrite length_app in Hlen. eapply wp_mono.
  { eapply malloc_rec_fit; [done..|]. unfold malloc_fuel. lia. }
  by intros r st' o (->&_&?).
Qed.

Lemma malloc_first_fit_witness :
  wp (malloc 100) demo (λ r st' _, r = 2097160 ∧
    taken 2097152 demo [] 2097152 [] ∅ 104 (Header 16777208 0) st').
Proof.
  apply (malloc_first_fit 2097152 demo [] 2097152 [] ∅ (Header 16777208 0) 100 demo_wf).
  - lia.
  - apply none_fits_nil.
  - by vm_compute.
  - by vm_compute.
Defined.

(** C9: [free] of a live block puts it at the head of the free list; the
    heap stays consistent and loses no byte: the blocks still tile the
    memory up to the break. *)
Theorem free_spec e st F A p :
  wf e st F A → p - 8 ∈ A →
  wp (free p) st (λ _ st' o, o = [] ∧ same_bounds st st' ∧ sizes st' = sizes st ∧
    wf e st' (p - 8 :: F) (A ∖ {[p - 8]})).
Proof. apply free_wf. Qed.

(** The demonstration heap after [malloc 100]. *)
Definition demo1 : state :=
  State 2097264 18874368 44040192
    (<[2097152 := Header 104 0]> {[2097264 := Header 16777096 0]}).

Example demo1_run : malloc 100 demo = Ok (2097160, demo1, []).
Proof. by vm_compute. Qed.

Lemma demo1_wf : wf 2097152 demo1 [2097264] ({[2097152]} ∪ ∅).
Proof.
  assert (H : wp (malloc 100) demo (λ r st' _, r = 2097160 ∧
    taken 2097152 demo [] 2097152 [] ∅ 104 (Header 16777208 0) st')).
  { apply wp_malloc. eapply wp_mono.
    - apply (malloc_rec_fit 2097152 demo [] 2097152 [] ∅ (Header 16777208 0) 100 _ demo_wf);
        [lia|apply none_fits_nil|by vm_compute|by vm_compute|]. rewrite /malloc_fuel. simpl. lia.
    - by intros r st' o (->&_&?). }
  by destruct (wp_known _ _ _ _ _ _ H demo1_run) as (_&_&_&Hwf).
Qed.

Lemma free_spec_witness :
  wp (free 2097160) demo1 (λ _ st' o, o = [] ∧ same_bounds demo1 st' ∧ sizes st' = sizes demo1 ∧
    wf 2097152 st' [2097160 - 8; 2097264] (({[2097152]} ∪ ∅) ∖ {[2097160 - 8]})).
Proof. apply (free_spec _ _ _ _ 2097160 demo1_wf). by apply elem_of_union_l, elem_of_singleton. Defined.

Lemma large_none_fits e st F A n fuel : ∀ F',
  wf e st F A → F' = F → none_fits st (req_size_of n) F →
  POOL_SIZE - 8 < req_size_of n → 0 < n ≤ 4294967288 → (malloc_fuel st ≤ fuel)%nat →
  wp (malloc_rec fuel n) st (λ r st' _, r = 0 ∧ heap_max st' < heap_brk st' + POOL_SIZE).
Proof.
  revert st F. induction fuel as [|fuel IH]; intros st F F' Hwf _ Hnone Hbig Hn Hfuel;
    [unfold malloc_fuel in *; lia|].
  pose proof (wf_length _ _ _ _ Hwf) as Hlen. unfold malloc_fuel in Hfuel.
  cbn [malloc_rec]. zcase; [lia|]. wp_steps.
  eapply wp_mono; [eapply (find_fit_empty e st F); eauto; lia|].
  intros r st1 o (->&->&->). wp_steps.
  eapply wp_mono; [by eapply expand_heap_spec|].
  intros r st1 o. case_bool_decide as Hroom; intros Hexp.
  - destruct Hexp as (->&Hwf1&Hs&Hfr&Hb&Hm). simpl.
    eapply wp_mono; [eapply IH; [done..| |done|done|]|by intros].
    + intros b m Hb' Hbm. rewrite Hs in Hbm.
      apply lookup_insert_Some in Hbm as [[<- <-]|[Hne Hbm]]; [done|].
      apply elem_of_cons in Hb' as [->|Hb']; [done|]. by eapply Hnone.
    + rewrite /malloc_fuel Hb Hm -(map_size_fmap size (hdrs st1)).
      change (size <$> hdrs st1) with (sizes st1). rewrite Hs map_size_insert_None //.
      rewrite /sizes map_size_fmap. unfold POOL_SIZE in *. dlia.
  - destruct Hexp as [-> ->]. simpl. wp_steps. split; [done|lia].
Qed.

(** A request above one pool (16 MB less its header) that no free block
    satisfies never succeeds, whatever memory is left: [malloc] turns every
    remaining pool into a separate 16 MB block of the free list, and
    returns NULL with the heap exhausted. *)
Lemma malloc_large_fails e st F A n :
  wf e st F A → none_fits st (req_size_of n) F →
  POOL_SIZE - 8 < req_size_of n → 0 < n ≤ 4294967288 →
  wp (malloc n) st (λ r st' _, r = 0 ∧ heap_max st' < heap_brk st' + POOL_SIZE).
Proof. intros. apply wp_malloc. by eapply large_none_fits. Qed.

Lemma malloc_large_fails_witness :
  wp (malloc 20000000) demo (λ r st' _, r = 0 ∧ heap_max st' < heap_brk st' + POOL_SIZE).
Proof.
  apply (malloc_large_fails 2097152 demo [2097152] ∅ 20000000 demo_wf); [|by vm_compute|lia].
  assert (Hs : sizes demo !! 2097152 = Some 16777208) by by vm_compute.
  intros b m Hb. apply list_elem_of_singleton in Hb as ->. rewrite Hs. by intros [= <-].
Defined.

(** The rounding of the size wraps: for the seven largest sizes
    [ALIGN_UP] gives 0 and [malloc] serves the request as one of 8 bytes. *)
Lemma malloc_size_wraps n st :
  4294967288 < n < 4294967296 → malloc n st = malloc 8 st.
Proof.
  intros Hn. rewrite !malloc_unfold. generalize (malloc_fuel st) as fuel. intros fuel.
  revert st. assert (Hreq : req_size_of n = 8).
  { by rewrite /req_size_of ALIGN_UP_wraps. }
  induction fuel as [|fuel IH]; intros st; [done|]. cbn [malloc_rec].
  zcase; [lia|]. rewrite Hreq. change (req_size_of 8) with 8.
  apply bind_ext. intros st1 st2. apply bind_ext. intros [r|] st3; [done|].
  apply bind_ext. intros e st4. by zcase.
Qed.

Lemma malloc_size_wraps_witness : malloc 4294967295 demo = malloc 8 demo.
Proof. apply malloc_size_wraps. lia. Defined.

(** Freeing a live block twice makes the free list cyclic: any later
    request larger than the block then runs around it forever, for no fuel
    returns. *)
Lemma double_free_hangs e st F A p m n :
  wf e st F A → p - 8 ∈ A → sizes st !! (p - 8) = Some m → m < req_size_of n → 0 < n →
  ∀ fuel, (free p;; free p;; malloc_rec fuel n) st = NoFuel.
Proof.
  intros Hwf HA Hm Hlt Hn fuel.
  destruct (lay_in _ _ _ (wf_layout _ _ _ _ Hwf) _ _ Hm) as (?&?&?&?&?).
  pose proof (wf_brk _ _ _ _ Hwf). rewrite lookup_sizes in Hm.
  destruct (hdrs st !! (p - 8)) as [h|] eqn:Hh; simplify_eq/=.
  assert (Hfree : ∀ st1 h1, hdrs st1 !! (p - 8) = Some h1 →
    free p st1 = Ok (tt, set_free_list (p - 8)
      (set_hdrs (<[p - 8 := Header (size h1) (free_list st1)]> (hdrs st1)) st1), [])).
  { intros st1 h1 Hh1. rewrite /free. zcase; [lia|].
    rewrite /sizeof_free_block /store_next (bind_ok _ _ _ _ _ eq_refl).
    rewrite {1}/mbind /M_bind (bind_ok _ _ _ _ _ (load_ok _ _ _ Hh1)). done. }
  rewrite (bind_ok _ _ _ _ _ (Hfree _ _ Hh)).
  erewrite bind_ok; [|apply Hfree; simpl; apply lookup_insert_eq]. simpl.
  set st2 := set_free_list _ _.
  assert (Hloop : ∀ k prev, find_fit k (req_size_of n) prev (p - 8) st2 = NoFuel).
  { induction k as [|k IHk]; intros prev; [done|]. cbn [find_fit]. zcase; [lia|].
    erewrite bind_ok; [|apply load_ok; apply lookup_insert_eq]. simpl. zcase; [lia|]. apply IHk. }
  destruct fuel as [|fuel]; [done|]. cbn [malloc_rec]. zcase; [lia|].
  rewrite (bind_ok _ _ _ _ _ eq_refl). by rewrite {1}/mbind /M_bind Hloop.
Qed.

Lemma double_free_hangs_witness :
  (free 2097160;; free 2097160;; malloc_rec 1000 200) demo1 = NoFuel.
Proof.
  apply (double_free_hangs _ _ _ _ 2097160 104 200 demo1_wf); [|by vm_compute..].
  by apply elem_of_union_l, elem_of_singleton.
Defined.

End Heap.
