(* ===== verification/CString.v ===== *)
(** C strings as values, and the string functions the kernel code calls on
    them.

    A [string] stands for the bytes of a C string before its terminator,
    so it holds no NUL character.  The functions of this file follow the
    loops of libc/src/string and of the private helpers of ramfs_hash.c and
    ramfs_hash_file.c, character by character. *)
From S2P Require Import Prelude.

Module CString.

(** The byte of a character, and its value as a (signed) [char]. *)
Definition byte_of (c : Ascii.ascii) : Z := Z.of_N (Ascii.N_of_ascii c).
Definition char_of (c : Ascii.ascii) : Z := s8 (byte_of c).

Definition strlen (s : string) : Z := Z.of_nat (String.length s).

(** libc strcmp: the loop runs while the characters agree, and the result
    is the difference of the two [char]s where it stops. *)
Fixpoint strcmp (s t : string) : Z :=
  match s, t with
  | EmptyString, EmptyString => 0
  | EmptyString, String d _ => 0 - char_of d
  | String c _, EmptyString => char_of c - 0
  | String c s', String d t' =>
      if Ascii.eqb c d then strcmp s' t' else char_of c - char_of d
  end.

(** libc strncmp: [n] is tested, then counted down, then tested again. *)
Fixpoint strncmp (s t : string) (n : Z) : Z :=
  match s, t with
  | EmptyString, EmptyString => 0
  | EmptyString, String d _ => 0 - char_of d
  | String c _, EmptyString => char_of c - 0
  | String c s', String d t' =>
      if Ascii.eqb c d && negb (n =? 0) then
        let n := s32 (n - 1) in
        if n =? 0 then 0 else strncmp s' t' n
      else char_of c - char_of d
  end.

(** libc memcmp on [n] bytes.  Its second test repeats the first with the
    operands swapped, so a larger byte on the left ends no iteration. *)
Fixpoint memcmp (a b : string) (n : nat) : Z :=
  match n, a, b with
  | S n, String c a', String d b' =>
      if byte_of c <? byte_of d then -1
      else if byte_of d >? byte_of c then 1
      else memcmp a' b' n
  | _, _, _ => 0
  end.

(** [_streq] of ramfs_hash.c. *)
Fixpoint _streq (a b : string) : bool :=
  match a, b with
  | String c a', String d b' => if negb (Ascii.eqb c d) then false else _streq a' b'
  | EmptyString, EmptyString => true
  | _, _ => false
  end.

(** [_file_streq] of ramfs_hash_file.c. *)
Definition _file_streq (a b : string) : bool :=
  let len_a := String.length a in
  let len_b := String.length b in
  if negb (Nat.eqb len_a len_b) then false else memcmp a b len_a =? 0.

(** [_strcpy] of ramfs_hash.c and [_file_strcpy] of ramfs_hash_file.c: the
    copy stops after 127 characters. *)
Fixpoint strcpy_from (i : nat) (src : string) : string :=
  match src with
  | String c src' => if Nat.ltb i 127 then String c (strcpy_from (S i) src') else EmptyString
  | EmptyString => EmptyString
  end.
Definition _strcpy (src : string) : string := strcpy_from 0 src.

(** The djb2 loop of [_hash] and [_file_hash], on a 32-bit unsigned long;
    [c] is a sign-extended [char]. *)
Fixpoint djb2 (h : Z) (key : string) : Z :=
  match key with
  | EmptyString => h
  | String c key' => djb2 (u32 (u32 (u32 (Z.shiftl h 5) + h) + char_of c)) key'
  end.

Definition RAMFS_HASH_BUCKET_SIZE : nat := 16.
Definition _hash (key : string) : Z := djb2 5381 key mod Z.of_nat RAMFS_HASH_BUCKET_SIZE.

(** strrchr(s, c), as the prefix before and the suffix after the last [c]. *)
Fixpoint strrchr (s : string) (c : Ascii.ascii) : option (string * string) :=
  match s with
  | EmptyString => None
  | String d s' =>
      match strrchr s' c with
      | Some (p, q) => Some (String d p, q)
      | None => if Ascii.eqb d c then Some (EmptyString, s') else None
      end
  end.

Definition slash : Ascii.ascii := Ascii.ascii_of_nat 47.

(** * Facts *)

Lemma byte_of_range c : 0 ≤ byte_of c < 256.
Proof. pose proof (Ascii.N_ascii_bounded c). rewrite /byte_of. lia. Qed.

Lemma byte_of_inj c d : byte_of c = byte_of d → c = d.
Proof.
  rewrite /byte_of. intros H%N2Z.inj. by rewrite -(Ascii.ascii_N_embedding c) H Ascii.ascii_N_embedding.
Qed.

Lemma char_of_inj c d : char_of c = char_of d → c = d.
Proof.
  pose proof (byte_of_range c); pose proof (byte_of_range d).
  rewrite /char_of /s8. intros Hcd. apply byte_of_inj. dlia.
Qed.

(** A well-formed C string holds no terminator. *)
Fixpoint no_nul (s : string) : Prop :=
  match s with
  | EmptyString => True
  | String c s' => c ≠ Ascii.zero ∧ no_nul s'
  end.

Lemma char_of_zero c : char_of c = 0 → c = Ascii.zero.
Proof. by intros Hc; apply char_of_inj. Qed.

Lemma strcmp_zero s t : no_nul s → no_nul t → strcmp s t = 0 ↔ s = t.
Proof.
  revert t. induction s as [|c s IH]; intros [|d t] Hs Ht; simpl in *.
  - done.
  - split; [|done]. intros Hd. exfalso. apply Ht, char_of_zero. lia.
  - split; [|done]. intros Hc. exfalso. apply Hs, char_of_zero. lia.
  - destruct (Ascii.eqb_spec c d) as [->|Hne].
    + rewrite IH; [naive_solver..|]. split; [by intros ->|by intros [= ->]].
    + split; [|congruence]. intros Hcd. exfalso. apply Hne, char_of_inj. lia.
Qed.

(** [strncmp] compares the first [n] characters, when [n] is positive; with
    [n] zero it compares one. *)
Lemma strncmp_zero s t n : no_nul s → no_nul t → 0 < n < 2147483648 →
  strncmp s t n = 0 ↔ String.substring 0 (Z.to_nat n) s = String.substring 0 (Z.to_nat n) t.
Proof.
  revert t n. induction s as [|c s IH]; intros [|d t] n Hs Ht Hn; cbn [strncmp no_nul] in *;
    rewrite (_ : Z.to_nat n = S (Z.to_nat (n - 1))); try lia; cbn [String.substring].
  - done.
  - split; [|done]. intros Hd. exfalso. apply Ht, char_of_zero. lia.
  - split; [|done]. intros Hc. exfalso. apply Hs, char_of_zero. lia.
  - destruct (Ascii.eqb_spec c d) as [->|Hne]; cbn [andb].
    + rewrite (proj2 (Z.eqb_neq n 0)); [lia|]. cbn [negb]. rewrite s32_small; [lia|].
      destruct (Z.eqb_spec (n - 1) 0) as [->|]; [by destruct s, t|]. rewrite IH; [naive_solver..|lia|].
      split; [by intros ->|by intros [= ->]].
    + split; [|congruence]. intros Hcd. exfalso. apply Hne, char_of_inj. lia.
Qed.
Example strncmp_no_characters : strncmp "a" "b" 0 = -1.
Proof. reflexivity. Qed.

Lemma _streq_spec a b : _streq a b = bool_decide (a = b).
Proof.
  revert b. induction a as [|c a IH]; intros [|d b]; simpl; try done.
  destruct (Ascii.eqb_spec c d) as [->|Hne]; simpl.
  - rewrite IH. apply bool_decide_ext. split; [by intros ->|by intros [= ->]].
  - rewrite bool_decide_false //. congruence.
Qed.

(** Two strings of the same length in which no byte of [a] is below the
    byte of [b] at the same place. *)
Inductive dominates : string → string → Prop :=
  | dominates_nil : dominates EmptyString EmptyString
  | dominates_cons c d a b :
      byte_of d ≤ byte_of c → dominates a b → dominates (String c a) (String d b).

Lemma _file_streq_spec a b : _file_streq a b = true ↔ dominates a b.
Proof.
  rewrite /_file_streq. revert b. induction a as [|c a IH]; intros [|d b]; simpl.
  - split; [by constructor|done].
  - split; [done|inversion 1].
  - split; [done|inversion 1].
  - specialize (IH b). destruct (Nat.eqb_spec (String.length a) (String.length b)) as [Hl|Hl]; simpl in *.
    + destruct (Z.ltb_spec (byte_of c) (byte_of d)).
      { split; [done|inversion 1; subst; lia]. }
      rewrite Z.gtb_ltb. zcase; [lia|]. rewrite IH.
      split; [by constructor|by inversion 1].
    + split; [done|]. inversion 1; subst. by apply IH.
Qed.

Lemma _file_streq_refl a : _file_streq a a = true.
Proof. apply _file_streq_spec. induction a; by constructor. Qed.

Lemma strcpy_from_short i s : (i + String.length s ≤ 127)%nat → strcpy_from i s = s.
Proof.
  revert i. induction s as [|c s IH]; intros i Hi; simpl in *; [done|].
  rewrite (proj2 (Nat.ltb_lt i 127)); [lia|]. rewrite IH //. lia.
Qed.

Lemma _strcpy_short s : (String.length s ≤ 127)%nat → _strcpy s = s.
Proof. intros. by apply (strcpy_from_short 0). Qed.

Lemma strcpy_from_length i s : (String.length (strcpy_from i s) ≤ 127 - i)%nat.
Proof.
  revert i. induction s as [|c s IH]; intros i; simpl; [lia|].
  destruct (Nat.ltb_spec i 127); simpl; [|lia]. specialize (IH (S i)). lia.
Qed.

Lemma _strcpy_length s : (String.length (_strcpy s) ≤ 127)%nat.
Proof. pose proof (strcpy_from_length 0 s). rewrite /_strcpy. lia. Qed.

Lemma _hash_range key : 0 ≤ _hash key < 16.
Proof. apply Z.mod_pos_bound. lia. Qed.

Lemma strrchr_spec s c p q :
  strrchr s c = Some (p, q) → s = p +:+ String c q ∧ strrchr q c = None.
Proof.
  revert p. induction s as [|d s IH]; intros p; simpl; [done|].
  destruct (strrchr s c) as [[p' q']|] eqn:Hs.
  - intros [= <- <-]. by destruct (IH p' eq_refl) as [-> ?].
  - destruct (Ascii.eqb_spec d c) as [->|]; [|done]. by intros [= <- <-].
Qed.

End CString.
