(* ===== verification/RamfsTypes.v ===== *)
(** The data types of the RAM file system, kernel/includes/ramfs_types.h.

    A [char name[128]] field is the C string it holds.  A pointer is its
    address, 0 for NULL. *)
From S2P Require Import Prelude.

Module RamfsTypes.

Record ramfs_file_info : Type := FileInfo {
  fi_name : string;
  fi_type : Z;
  fi_length : Z;
  fi_ptr : Z;
  fi_drive_addr : Z
}.

Record ramfs_foder_info : Type := FoderInfo {
  di_name : string;
  di_type : Z;
  di_ptr : Z;
  di_drive_addr : Z
}.

(** Values of the [type] field of a folder. *)
Definition RAMFS_FOLDER_TYPE_MEM : Z := 0.
Definition RAMFS_FOLDER_TYPE_DISK_CLEAN : Z := 1.
Definition RAMFS_FOLDER_TYPE_NEW : Z := 2.
Definition RAMFS_FOLDER_TYPE_DIRTY : Z := 3.

(** Values of the [type] field of a file. *)
Definition RAMFS_TYPE_MEM : Z := 0.
Definition RAMFS_TYPE_NEW : Z := 1.
Definition RAMFS_TYPE_DIRTY : Z := 2.

(** A node of a hash table, with the address [malloc] gave it, and a table:
    the chains of the buckets, each in list order, and the entry count. *)
Record node (V : Type) : Type := Node { n_addr : Z; n_key : string; n_value : V }.
Arguments Node {V} _ _ _.
Arguments n_addr {V} _.
Arguments n_key {V} _.
Arguments n_value {V} _.

Record hashmap (V : Type) : Type := HashMap { buckets : list (list (node V)); count : Z }.
Arguments HashMap {V} _ _.
Arguments buckets {V} _.
Arguments count {V} _.

Abbreviation ramfs_hashmap := (hashmap ramfs_foder_info).
Abbreviation ramfs_file_hashmap := (hashmap ramfs_file_info).

Record ramfs_foder : Type := Foder {
  fo_name : string;
  fo_type : Z;
  foder_map : ramfs_hashmap;
  file_map : ramfs_file_hashmap;
  fo_mount : Z;
  fo_parent : Z;
  fo_drive_addr : Z;
  fo_is_mount_root : bool
}.

(** i386 sizes, with the padding the compiler inserts. *)
Definition sizeof_foder_info : Z := 128 + 4 + 4 + 4.
Definition sizeof_hash_node : Z := 128 + sizeof_foder_info + 4.
Definition sizeof_file_info : Z := 128 + 4 + 8 + 4 + 4.
Definition sizeof_file_hash_node : Z := 128 + sizeof_file_info + 4.
Definition sizeof_foder : Z := 128 + 4 + (16 * 4 + 4) + (16 * 4 + 4) + 4 + 4 + 8 + 4.

#[export] Instance ramfs_file_info_eq_dec : EqDecision ramfs_file_info.
Proof. solve_decision. Defined.
#[export] Instance ramfs_foder_info_eq_dec : EqDecision ramfs_foder_info.
Proof. solve_decision. Defined.

End RamfsTypes.
