(* ===== verification/HashTable.v ===== *)
(** The chained hash tables of ramfs_hash.c and ramfs_hash_file.c.

    The two files are the same code over two value types, except for the
    comparison of keys; this file is that code over a type [V] with the
    interface [Entry], and RamfsHash.v and RamfsHashFile.v instantiate it.
    A chain is the list of its nodes in the order of their [next] pointers,
    each with its heap address: the code never shares a node between chains
    nor keeps a pointer to one across calls, and HashChain.v proves that the
    linked nodes compute what the lists do. Every pointer argument
    of these functions is a valid one at every call, so a model argument is
    the object pointed to and the NULL tests do not arise. *)
From S2P Require Import Prelude.
From S2P Require Import Allocator.
From S2P Require Import CString.
From S2P Require Import RamfsTypes.
Import CString RamfsTypes.

Module HashTable.

(** What a table asks of its values: the key comparison of its file, the
    [name] field [insert] overwrites, and the size of a node. *)
Class Entry (V : Type) := {
  eqkey : string → string → bool;
  set_name : V → string → V;
  node_size : Z
}.

(** Keys compare equal to themselves, and a node can be allocated. *)
Class EntryLaws (V : Type) `{!Entry V} : Prop := {
  eqkey_refl k : eqkey k k = true;
  node_size_ok : 0 < node_size ≤ 4294967288
}.

Section ops.
Context {V : Type} `{!Entry V} {A : Type} `{!Alloc.Allocator A}.

Definition init : hashmap V := HashMap (replicate RAMFS_HASH_BUCKET_SIZE []) 0.

Definition idx (key : string) : nat := Z.to_nat (_hash key).
Definition bucket (m : hashmap V) (i : nat) : list (node V) := default [] (buckets m !! i).
Definition set_bucket (i : nat) (c : list (node V)) (m : hashmap V) : hashmap V :=
  HashMap (<[i := c]> (buckets m)) (count m).
Definition set_count (n : Z) (m : hashmap V) : hashmap V := HashMap (buckets m) n.

(** The search loop: the first node of the chain whose key compares equal. *)
Fixpoint chain_find (key : string) (c : list (node V)) : option (node V) :=
  match c with
  | [] => None
  | n :: c => if eqkey (n_key n) key then Some n else chain_find key c
  end.

(** A write through the pointer to the value of the node the search finds. *)
Fixpoint chain_set (key : string) (f : V → V) (c : list (node V)) : list (node V) :=
  match c with
  | [] => []
  | n :: c => if eqkey (n_key n) key then Node (n_addr n) (n_key n) (f (n_value n)) :: c
              else n :: chain_set key f c
  end.

(** Unlinking the node the search finds. *)
Fixpoint chain_delete (key : string) (c : list (node V)) : list (node V) :=
  match c with
  | [] => []
  | n :: c => if eqkey (n_key n) key then c else n :: chain_delete key c
  end.

Definition insert (m : hashmap V) (key : string) (value : V) : M A (Z * hashmap V) :=
  let i := idx key in
  match chain_find key (bucket m i) with
  | Some _ =>
      mret (1, set_bucket i (chain_set key (λ _, set_name value (_strcpy key)) (bucket m i)) m)
  | None =>
      p ← Alloc.malloc node_size;
      if p =? 0 then mret (0, m)
      else
        let n := Node p (_strcpy key) (set_name value (_strcpy key)) in
        mret (1, set_count (count m + 1) (set_bucket i (n :: bucket m i) m))
  end.

(** The value the returned pointer points to. *)
Definition find (m : hashmap V) (key : string) : option V :=
  n_value <$> chain_find key (bucket m (idx key)).

(** [*find(m, key) = f( *find(m, key))]: what a caller does through the
    pointer [find] returned. *)
Definition update (m : hashmap V) (key : string) (f : V → V) : hashmap V :=
  set_bucket (idx key) (chain_set key f (bucket m (idx key))) m.

Definition delete (m : hashmap V) (key : string) : M A (Z * hashmap V) :=
  let i := idx key in
  match chain_find key (bucket m i) with
  | Some n =>
      Alloc.free (n_addr n);;
      mret (1, set_count (count m - 1) (set_bucket i (chain_delete key (bucket m i)) m))
  | None => mret (0, m)
  end.

(** The pointer to the array of names, NULL when the table is empty or the
    allocation fails, and the rows written in it. *)
Definition list_keys (m : hashmap V) : M A (Z * list string) :=
  if count m =? 0 then mret (0, [])
  else
    p ← Alloc.malloc (u32 (count m * 128));
    if p =? 0 then mret (0, [])
    else mret (p, (λ n, _strcpy (n_key n)) <$> concat (buckets m)).

Fixpoint free_chain (c : list (node V)) : M A unit :=
  match c with
  | [] => mret tt
  | n :: c => Alloc.free (n_addr n);; free_chain c
  end.

Fixpoint free_buckets (bs : list (list (node V))) : M A unit :=
  match bs with
  | [] => mret tt
  | c :: bs => free_chain c;; free_buckets bs
  end.

Definition destroy (m : hashmap V) : M A (hashmap V) :=
  free_buckets (buckets m);;
  mret init.

End ops.

(** * Correctness against finite maps *)

Section theory.
Context {V : Type} `{!Entry V, !EntryLaws V}.
Implicit Types (m : hashmap V) (n : node V) (c : list (node V)).

Definition nodes m : list (node V) := concat (buckets m).
Definition entry n : string * V := (n_key n, n_value n).
(** The finite map a table stands for, and the memory it owns. *)
Definition contents m : gmap string V := list_to_map (entry <$> nodes m).
Definition addrs m : gset Z := list_to_set (n_addr <$> nodes m).

(** The invariant of a table: 16 buckets, every key in the bucket of its
    hash and at most 127 characters long, keys and nodes distinct, and the
    counter exact. *)
Record wf m : Prop := {
  wf_buckets : length (buckets m) = RAMFS_HASH_BUCKET_SIZE;
  wf_hash i c n : buckets m !! i = Some c → n ∈ c → idx (n_key n) = i;
  wf_keys : NoDup (n_key <$> nodes m);
  wf_addrs : NoDup (n_addr <$> nodes m);
  wf_short n : n ∈ nodes m → (String.length (n_key n) ≤ 127)%nat;
  wf_count : count m = Z.of_nat (length (nodes m))
}.

(** Within the bucket of [k], only [k] itself compares equal to [k]. *)
Definition separated m (k : string) : Prop :=
  ∀ n, n ∈ bucket m (idx k) → eqkey (n_key n) k = true → n_key n = k.

Lemma idx_lt k : (idx k < RAMFS_HASH_BUCKET_SIZE)%nat.
Proof. pose proof (_hash_range k). rewrite /idx /RAMFS_HASH_BUCKET_SIZE. lia. Qed.

Lemma bucket_lookup m k : wf m → buckets m !! idx k = Some (bucket m (idx k)).
Proof.
  intros Hwf. pose proof (idx_lt k). rewrite -(wf_buckets _ Hwf) in H.
  apply lookup_lt_is_Some in H as [c Hc]. by rewrite /bucket Hc.
Qed.

Lemma chain_find_Some k c n :
  chain_find k c = Some n → ∃ c1 c2, c = c1 ++ n :: c2 ∧ eqkey (n_key n) k = true ∧
    chain_delete k c = c1 ++ c2 ∧
    ∀ f, chain_set k f c = c1 ++ Node (n_addr n) (n_key n) (f (n_value n)) :: c2.
Proof.
  induction c as [|n' c IH]; simpl; [done|]. destruct (eqkey (n_key n') k) eqn:Hk.
  - intros [= ->]. by exists [], c.
  - intros (c1&c2&->&?&->&Hset)%IH. exists (n' :: c1), c2. split_and!; [done..|].
    intros f. by rewrite Hset.
Qed.

Lemma chain_find_None k c : chain_find k c = None → ∀ n, n ∈ c → eqkey (n_key n) k = false.
Proof.
  induction c as [|n' c IH]; simpl; [set_solver|].
  destruct (eqkey (n_key n') k) eqn:Hk; [done|].
  intros Hc n [->|Hn]%elem_of_cons; [done|by apply IH].
Qed.

Lemma elem_of_nodes m n : n ∈ nodes m ↔ ∃ i c, buckets m !! i = Some c ∧ n ∈ c.
Proof.
  rewrite /nodes list_elem_of_In in_concat. setoid_rewrite <- list_elem_of_In.
  split; [intros (c&[i Hi]%list_elem_of_lookup&?)|intros (i&c&?&?)]; eauto.
  exists c. split; [by eapply list_elem_of_lookup_2|done].
Qed.

Lemma contents_lookup m k v :
  wf m → contents m !! k = Some v ↔ ∃ n, n ∈ nodes m ∧ entry n = (k, v).
Proof.
  intros Hwf. rewrite /contents -elem_of_list_to_map.
  - rewrite -list_fmap_compose. apply (wf_keys _ Hwf).
  - rewrite list_elem_of_fmap. naive_solver.
Qed.

Lemma key_bucket m n : wf m → n ∈ nodes m → n ∈ bucket m (idx (n_key n)).
Proof.
  intros Hwf (i&c&Hi&Hn)%elem_of_nodes. by rewrite (wf_hash _ Hwf i c n) // /bucket Hi.
Qed.

Lemma bucket_nodes m k n : wf m → n ∈ bucket m (idx k) → n ∈ nodes m.
Proof. intros Hwf Hn. apply elem_of_nodes. eauto using bucket_lookup. Qed.

(** The search finds the entry of the key. *)
Lemma find_contents m k : wf m → separated m k → find m k = contents m !! k.
Proof.
  intros Hwf Hsep. rewrite /find. destruct (chain_find k _) as [n|] eqn:Hf; simpl.
  - apply chain_find_Some in Hf as (c1&c2&Hc&Hk&_). symmetry. apply contents_lookup; [done|].
    assert (Hn : n ∈ bucket m (idx k)) by (rewrite Hc; set_solver).
    exists n. split; [by eapply bucket_nodes|]. by rewrite /entry (Hsep n Hn Hk).
  - symmetry. apply eq_None_not_Some. intros [v (n&Hn&[= <- <-])%contents_lookup]; [|done].
    pose proof (chain_find_None _ _ Hf n (key_bucket _ _ Hwf Hn)) as Hne.
    by rewrite eqkey_refl in Hne.
Qed.

Lemma contents_perm l1 l2 :
  l1 ≡ₚ l2 → NoDup (n_key <$> l1) →
  (list_to_map (entry <$> l1) : gmap string V) = list_to_map (entry <$> l2).
Proof.
  intros Hl Hnd. apply list_to_map_proper; [|by rewrite Hl].
  by rewrite -list_fmap_compose.
Qed.

(** Focusing on the node a search finds. *)
Lemma focus m k n :
  wf m → chain_find k (bucket m (idx k)) = Some n →
  ∃ rest, nodes m ≡ₚ n :: rest ∧
    nodes (set_bucket (idx k) (chain_delete k (bucket m (idx k))) m) ≡ₚ rest ∧
    ∀ f, nodes (set_bucket (idx k) (chain_set k f (bucket m (idx k))) m)
      ≡ₚ Node (n_addr n) (n_key n) (f (n_value n)) :: rest.
Proof.
  intros Hwf (c1&c2&Hc&_&Hd&Hs)%chain_find_Some.
  destruct (concat_insert _ _ _ (bucket_lookup m k Hwf)) as (rest&Hn&Hins).
  exists (c1 ++ c2 ++ rest). rewrite /nodes /set_bucket /=.
  split; [|split].
  - by rewrite Hn Hc -!app_assoc -Permutation_middle.
  - by rewrite Hins Hd -app_assoc.
  - intros f. by rewrite Hins Hs -!app_assoc -Permutation_middle.
Qed.

Lemma bucket_insert_cases m k c i c' :
  wf m → buckets (set_bucket (idx k) c m) !! i = Some c' →
  (i = idx k ∧ c' = c) ∨ buckets m !! i = Some c'.
Proof.
  intros Hwf. simpl. rewrite list_lookup_insert. case_decide as Hi; [|by right].
  destruct Hi as [-> _]. intros [= ->]. by left.
Qed.
(** Rebuilding the invariant after one bucket changed. *)
Lemma wf_rebuild m k c cnt l :
  wf m → nodes (set_count cnt (set_bucket (idx k) c m)) ≡ₚ l →
  (∀ n, n ∈ c → idx (n_key n) = idx k) →
  NoDup (n_key <$> l) → NoDup (n_addr <$> l) →
  (∀ n, n ∈ l → (String.length (n_key n) ≤ 127)%nat) → cnt = Z.of_nat (length l) →
  wf (set_count cnt (set_bucket (idx k) c m)).
Proof.
  intros Hwf Hl Hc Hk Ha Hs Hcnt. split.
  - rewrite /= length_insert. apply (wf_buckets _ Hwf).
  - intros i c' n Hi Hn. apply bucket_insert_cases in Hi as [[-> ->]|Hi]; [by apply Hc| |done].
    by eapply wf_hash.
  - by rewrite Hl.
  - by rewrite Hl.
  - intros n. rewrite Hl. apply Hs.
  - by rewrite Hl.
Qed.

Lemma bucket_hash m k n : wf m → n ∈ bucket m (idx k) → idx (n_key n) = idx k.
Proof. intros Hwf Hn. eapply wf_hash; [done|by apply bucket_lookup|done]. Qed.

Lemma contents_focus m l : wf m → nodes m ≡ₚ l → contents m = list_to_map (entry <$> l).
Proof. intros Hwf Hl. apply contents_perm; [done|apply (wf_keys _ Hwf)]. Qed.

Lemma addrs_focus m l : nodes m ≡ₚ l → addrs m = list_to_set (n_addr <$> l).
Proof. intros Hl. rewrite /addrs. by rewrite Hl. Qed.

Lemma set_count_id m : set_count (count m) m = m.
Proof. by destruct m. Qed.

(** Writing through the pointer [find] returns changes that entry only. *)
Lemma update_wf m k f v :
  wf m → separated m k → contents m !! k = Some v →
  wf (update m k f) ∧ contents (update m k f) = <[k := f v]> (contents m) ∧
  addrs (update m k f) = addrs m ∧ count (update m k f) = count m.
Proof.
  intros Hwf Hsep. rewrite -(find_contents m k) // /find.
  destruct (chain_find k _) as [n|] eqn:Hf; [|done]. simpl. intros [= <-].
  pose proof (chain_find_Some _ _ _ Hf) as (c1&c2&Hc&Hk&_&Hset).
  assert (Hkey : n_key n = k) by (apply Hsep; [rewrite Hc; set_solver|done]).
  destruct (focus m k n Hwf Hf) as (rest&Hn&_&Hu). specialize (Hu f). subst k.
  assert (Hwf' : wf (update m (n_key n) f)).
  { rewrite /update -(set_count_id (set_bucket _ _ _)). eapply wf_rebuild; [done|by rewrite set_count_id| | | | |].
    - rewrite Hset. intros n' [Hn'|[->|Hn']%elem_of_cons]%elem_of_app; [|done|];
        (eapply bucket_hash; [done|]; rewrite Hc; set_solver).
    - pose proof (wf_keys _ Hwf) as Hnd. by rewrite Hn in Hnd.
    - pose proof (wf_addrs _ Hwf) as Hnd. by rewrite Hn in Hnd.
    - intros n' Hn'. assert (∃ n0, n0 ∈ nodes m ∧ n_key n0 = n_key n') as (n0&Hn0&<-).
      { apply elem_of_cons in Hn' as [->|Hn']; [exists n|exists n']; (split; [|done]); rewrite Hn; set_solver. }
      by apply (wf_short _ Hwf).
    - rewrite /= (wf_count _ Hwf) Hn. done. }
  split_and!; [done| | |done].
  - rewrite (contents_focus _ _ Hwf' Hu) (contents_focus _ _ Hwf Hn) /=. by rewrite insert_insert_eq.
  - by rewrite (addrs_focus _ _ Hu) (addrs_focus _ _ Hn).
Qed.
Lemma insert_new_wf m k p v :
  wf m → separated m k → (String.length k ≤ 127)%nat → contents m !! k = None → p ∉ addrs m →
  let m' := set_count (count m + 1) (set_bucket (idx k) (Node p k v :: bucket m (idx k)) m) in
  wf m' ∧ contents m' = <[k := v]> (contents m) ∧ addrs m' = {[p]} ∪ addrs m.
Proof.
  intros Hwf Hsep Hlen Hnone Hp m'.
  destruct (concat_insert _ _ _ (bucket_lookup m k Hwf)) as (rest&Hn&Hins).
  assert (Hl : nodes m' ≡ₚ Node p k v :: nodes m).
  { rewrite /nodes /m' /= Hins Hn. done. }
  assert (Hwf' : wf m').
  { eapply wf_rebuild; [done|exact Hl| | | | |].
    - intros n [->|Hn']%elem_of_cons; [done|by eapply bucket_hash].
    - apply NoDup_cons. split; [|apply (wf_keys _ Hwf)].
      intros (n&Hkn&Hn')%list_elem_of_fmap. simpl in Hkn.
      assert (Hc : contents m !! k = Some (n_value n)).
      { apply contents_lookup; [done|]. exists n. by rewrite /entry Hkn. }
      congruence.
    - apply NoDup_cons. split; [|apply (wf_addrs _ Hwf)].
      intros Hin. apply Hp. by apply elem_of_list_to_set.
    - intros n [->|Hn']%elem_of_cons; [done|by apply (wf_short _ Hwf)].
    - rewrite (wf_count _ Hwf) /=. lia. }
  split_and!; [done| |].
  - by rewrite (contents_focus _ _ Hwf' Hl).
  - by rewrite (addrs_focus _ _ Hl).
Qed.

Lemma delete_wf m k n :
  wf m → separated m k → chain_find k (bucket m (idx k)) = Some n →
  let m' := set_count (count m - 1) (set_bucket (idx k) (chain_delete k (bucket m (idx k))) m) in
  wf m' ∧ contents m' = base.delete k (contents m) ∧ n_addr n ∈ addrs m ∧
  addrs m' = addrs m ∖ {[n_addr n]}.
Proof.
  intros Hwf Hsep Hf m'.
  pose proof (chain_find_Some _ _ _ Hf) as (c1&c2&Hc&Hk&Hdel&_).
  assert (Hkey : n_key n = k) by (apply Hsep; [rewrite Hc; set_solver|done]).
  destruct (focus m k n Hwf Hf) as (rest&Hn&Hd&_).
  assert (Hl : nodes m' ≡ₚ rest) by done.
  pose proof (wf_keys _ Hwf) as Hndk. rewrite Hn in Hndk. apply NoDup_cons in Hndk as [Hnk Hndk].
  pose proof (wf_addrs _ Hwf) as Hnda. rewrite Hn in Hnda. apply NoDup_cons in Hnda as [Hna Hnda].
  assert (Hwf' : wf m').
  { eapply wf_rebuild; [done|exact Hl| |done|done| |].
    - rewrite Hdel. intros n' Hn'. eapply bucket_hash; [done|]. rewrite Hc. set_solver.
    - intros n' Hn'. apply (wf_short _ Hwf). rewrite Hn. set_solver.
    - rewrite (wf_count _ Hwf) Hn /=. lia. }
  assert (Hrest : (list_to_map (entry <$> rest) : gmap string V) !! k = None).
  { apply not_elem_of_list_to_map. rewrite -list_fmap_compose. by subst k. }
  split_and!; [done| | |].
  - rewrite (contents_focus _ _ Hwf' Hl) (contents_focus _ _ Hwf Hn) /= Hkey.
    by rewrite delete_insert_id.
  - rewrite (addrs_focus _ _ Hn). set_solver.
  - rewrite (addrs_focus _ _ Hl) (addrs_focus _ _ Hn) /=. apply set_eq. intros a.
    destruct (decide (a = n_addr n)) as [->|]; [|set_solver].
    split; [|set_solver]. intros Ha%elem_of_list_to_set. by destruct Hna.
Qed.

Lemma init_wf : wf init ∧ contents init = ∅ ∧ addrs init = ∅.
Proof.
  split_and!; [|done..]. split; [done| |apply NoDup_nil_2|apply NoDup_nil_2| |done].
  - intros i c n Hc Hn. apply lookup_replicate in Hc as [-> _]. by apply elem_of_nil in Hn.
  - intros n Hn. by apply elem_of_nil in Hn.
Qed.

Lemma count_contents m : wf m → count m = Z.of_nat (base.size (contents m)).
Proof.
  intros Hwf. rewrite (wf_count _ Hwf) /contents -size_dom dom_list_to_map_L size_list_to_set.
  - rewrite -list_fmap_compose. apply (wf_keys _ Hwf).
  - by rewrite !length_fmap.
Qed.

Section effects.
Context {A : Type} `{!Alloc.Allocator A, !Alloc.AllocatorLaws A}.

(** A table operation started on a heap with the live blocks [L] ends on a
    heap whose live blocks are those of [L] that are not the table's, and
    the table's. *)
Definition owns (L : gset Z) (m : hashmap V) (s : A) : Prop :=
  Alloc.live s L ∧ addrs m ⊆ L.

Lemma insert_spec m k v s L :
  wf m → separated m k → (String.length k ≤ 127)%nat → owns L m s →
  wp (insert m k v) s (λ '(r, m') s' _,
    (r = 1 ∧ wf m' ∧ contents m' = <[k := set_name v k]> (contents m) ∧
     addrs m ⊆ addrs m' ∧ (addrs m' ∖ addrs m) ## L ∧ owns (L ∪ addrs m') m' s')
    ∨ (r = 0 ∧ m' = m ∧ contents m !! k = None ∧ owns L m s')).
Proof.
  intros Hwf Hsep Hlen [Hlive Hown]. rewrite /insert _strcpy_short //.
  pose proof (find_contents m k Hwf Hsep) as Hfind. rewrite /find in Hfind.
  destruct (chain_find k _) as [n|] eqn:Hf; simpl in Hfind.
  - wp_steps. left. split; [done|].
    destruct (update_wf m k (λ _, set_name v k) (n_value n)) as (Hwf'&Hc&Ha&_); [done..|].
    change (set_bucket _ _ m) with (update m k (λ _, set_name v k)).
    rewrite /owns Hc Ha. split_and!; [done..|set_solver| |set_solver].
    by replace (L ∪ addrs m) with L by set_solver.
  - wp_steps. eapply wp_mono; [apply Alloc.malloc_live; [done|apply node_size_ok]|].
    intros p s' o [[-> Hl]|(Hp&HpL&Hl)]; (zcase; [|try done]); wp_steps; [by right| |].
    + done.
    + left. destruct (insert_new_wf m k p (set_name v k)) as (Hwf'&Hc&Ha); [done..|set_solver|].
      rewrite /owns Ha. split_and!; [done..|set_solver|set_solver| |set_solver].
      by replace (L ∪ ({[p]} ∪ addrs m)) with ({[p]} ∪ L) by set_solver.
Qed.

Lemma delete_spec m k s L :
  wf m → separated m k → owns L m s →
  wp (delete m k) s (λ '(r, m') s' _,
    match contents m !! k with
    | Some _ => r = 1 ∧ wf m' ∧ contents m' = base.delete k (contents m) ∧
        ∃ p, p ∈ addrs m ∧ addrs m' = addrs m ∖ {[p]} ∧ Alloc.live s' (L ∖ {[p]})
    | None => r = 0 ∧ m' = m ∧ s' = s
    end).
Proof.
  intros Hwf Hsep [Hlive Hown]. rewrite /delete -(find_contents m k) // /find.
  destruct (chain_find k _) as [n|] eqn:Hf; simpl; [|by wp_steps].
  destruct (delete_wf m k n Hwf Hsep Hf) as (Hwf'&Hc&Hin&Ha).
  wp_steps. eapply wp_mono; [apply Alloc.free_live; [done|set_solver]|].
  intros [] s' o Hl. wp_steps. split_and!; [done..|]. by exists (n_addr n).
Qed.

Lemma free_chain_spec c L s :
  Alloc.live s L → NoDup (n_addr <$> c) → list_to_set (n_addr <$> c) ⊆ L →
  wp (free_chain c) s (λ _ s' _, Alloc.live s' (L ∖ list_to_set (n_addr <$> c))).
Proof.
  revert L s. induction c as [|n c IH]; intros L s Hl Hnd Hsub; simpl in *.
  - wp_steps. by rewrite difference_empty_L.
  - apply NoDup_cons in Hnd as [Hn Hnd]. wp_steps.
    eapply wp_mono; [apply Alloc.free_live; [done|set_solver]|]. intros [] s' o Hl'.
    eapply wp_mono; [apply (IH _ _ Hl' Hnd)|].
    + intros x Hx. apply elem_of_difference. split; [set_solver|].
      intros ->%elem_of_singleton. by apply elem_of_list_to_set in Hx.
    + intros [] s2 o2. by rewrite difference_difference_l_L.
Qed.

Lemma free_buckets_spec (bs : list (list (node V))) L s :
  Alloc.live s L → NoDup (n_addr <$> concat bs) → list_to_set (n_addr <$> concat bs) ⊆ L →
  wp (free_buckets bs) s (λ _ s' _, Alloc.live s' (L ∖ list_to_set (n_addr <$> concat bs))).
Proof.
  revert L s. induction bs as [|c bs IH]; intros L s Hl Hnd Hsub; simpl in *.
  - wp_steps. by rewrite difference_empty_L.
  - rewrite fmap_app in Hnd Hsub |- *. apply NoDup_app in Hnd as (Hc&Hdisj&Hbs).
    rewrite list_to_set_app_L in Hsub |- *. wp_steps.
    eapply wp_mono; [apply free_chain_spec; [done..|set_solver]|]. intros [] s' o Hl'.
    eapply wp_mono; [apply (IH _ _ Hl' Hbs)|].
    + intros x Hx. apply elem_of_difference. split; [set_solver|].
      intros Hx'. apply elem_of_list_to_set in Hx', Hx. by eapply Hdisj.
    + intros [] s2 o2. by rewrite difference_difference_l_L.
Qed.

Lemma destroy_spec m s L :
  wf m → owns L m s →
  wp (destroy m) s (λ m' s' _, m' = init ∧ Alloc.live s' (L ∖ addrs m)).
Proof.
  intros Hwf [Hl Hown]. rewrite /destroy. wp_steps.
  eapply wp_mono; [apply free_buckets_spec; [done|apply (wf_addrs _ Hwf)|done]|].
  intros [] s' o Hl'. by wp_steps.
Qed.

Lemma list_keys_spec m s L :
  wf m → owns L m s → count m < 33554432 →
  wp (list_keys m) s (λ '(p, ks) s' _,
    (p = 0 ∧ ks = []) ∨
    (p ≠ 0 ∧ ks ≡ₚ elements (dom (contents m)) ∧ (p ∉ L) ∧ Alloc.live s' ({[p]} ∪ L))).
Proof.
  intros Hwf [Hl Hown] Hcnt. rewrite /list_keys.
  zcase; wp_steps; [by left|]. pose proof (wf_count _ Hwf).
  eapply wp_mono; [apply Alloc.malloc_live; [done|rewrite u32_small; lia]|].
  intros p s' o [[-> Hl']|(Hp&HpL&Hl')]; [by wp_steps; left|]. zcase; [done|].
  wp_steps. right. split_and!; [done| |done..].
  rewrite (list_fmap_ext _ n_key).
  { intros i x Hx. apply _strcpy_short, (wf_short _ Hwf). by eapply list_elem_of_lookup_2. }
  apply NoDup_Permutation; [apply (wf_keys _ Hwf)|apply NoDup_elements|].
  intros k. rewrite elem_of_elements elem_of_dom. split.
  - intros (x&->&Hx)%list_elem_of_fmap. exists (n_value x). apply contents_lookup; [done|]. by exists x.
  - intros [v (x&Hx&[= <- <-])%contents_lookup]; [|done]. by apply list_elem_of_fmap_2.
Qed.
End effects.
End theory.

(** * Calls, their specification on finite maps, and the refinement *)

Section calls.
Context {V : Type} `{!Entry V, !EntryLaws V}.
Implicit Types (m : hashmap V) (n : node V).

(** A call on the table, and its result. *)
Inductive call : Type :=
  | Insert (key : string) (value : V)
  | Delete (key : string)
  | Find (key : string)
  | Count.

Inductive answer : Type :=
  | Status (r : Z)
  | Found (v : option V).

Definition key_of (c : call) : string :=
  match c with Insert k _ | Delete k | Find k => k | Count => EmptyString end.

(** The specification of a call on a finite map; an insertion of a new key
    may also fail, for lack of memory, and then changes nothing. *)
Inductive spec_call : gmap string V → call → answer →
    gmap string V → Prop :=
  | spec_insert t k v : spec_call t (Insert k v) (Status 1)
      (<[k := set_name v k]> t)
  | spec_insert_oom t k v : t !! k = None → spec_call t (Insert k v) (Status 0) t
  | spec_delete t k : is_Some (t !! k) → spec_call t (Delete k) (Status 1) (base.delete k t)
  | spec_delete_absent t k : t !! k = None → spec_call t (Delete k) (Status 0) t
  | spec_find t k : spec_call t (Find k) (Found (t !! k)) t
  | spec_count t : spec_call t Count (Status (Z.of_nat (base.size t))) t.

Inductive spec_calls : gmap string V → list call → list answer →
    gmap string V → Prop :=
  | spec_nil t : spec_calls t [] [] t
  | spec_cons t c a t1 cs rs t2 :
      spec_call t c a t1 → spec_calls t1 cs rs t2 → spec_calls t (c :: cs) (a :: rs) t2.

Section run.
Context {A : Type} `{!Alloc.Allocator A, !Alloc.AllocatorLaws A}.

Definition do_call (m : hashmap V) (c : call) : M A (answer * hashmap V) :=
  match c with
  | Insert k v => '(r, m) ← insert m k v; mret (Status r, m)
  | Delete k => '(r, m) ← delete m k; mret (Status r, m)
  | Find k => mret (Found (find m k), m)
  | Count => mret (Status (count m), m)
  end.

Fixpoint do_calls (m : hashmap V) (cs : list call) : M A (list answer * hashmap V) :=
  match cs with
  | [] => mret ([], m)
  | c :: cs =>
      '(a, m1) ← do_call m c;
      '(rs, m2) ← do_calls m1 cs;
      mret (a :: rs, m2)
  end.

(** The names in use: two of them compare equal only when they are. *)
Definition distinguishable (K : string → Prop) : Prop :=
  ∀ a b, K a → K b → eqkey a b = true → a = b.

(** What a call sequence keeps: the invariant, names of [K] only, and the
    ownership of the nodes. *)
Definition good (K : string → Prop) (L : gset Z) (m : hashmap V) (s : A) : Prop :=
  wf m ∧ owns L m s ∧ ∀ n, n ∈ nodes m → K (n_key n).

Lemma good_separated K L m s k : distinguishable K → good K L m s → K k → separated m k.
Proof.
  intros HK (Hwf&_&Hks) Hk n Hn Heq. apply HK; [|done..]. apply Hks. by eapply bucket_nodes.
Qed.

Lemma dom_keys m (K : string → Prop) :
  wf m → (∀ n, n ∈ nodes m → K (n_key n)) ↔ (∀ k, k ∈ dom (contents m) → K k).
Proof.
  intros Hwf. split.
  - intros HK k [v (n&Hn&[= <- <-])%contents_lookup]%elem_of_dom; [|done]. by apply HK.
  - intros HK n Hn. apply HK, elem_of_dom. exists (n_value n).
    apply contents_lookup; [done|]. by exists n.
Qed.

Lemma do_call_spec K m c (s : A) L :
  distinguishable K → good K L m s →
  (String.length (key_of c) ≤ 127)%nat ∧ K (key_of c) →
  wp (do_call m c) s (λ '(a, m') s' _,
    spec_call (contents m) c a (contents m') ∧ ∃ L', good K L' m' s').
Proof.
  intros HK Hgood [Hlen Hkey]. pose proof (good_separated _ _ _ _ _ HK Hgood Hkey) as Hsep.
  pose proof Hgood as (Hwf&Hown&Hks). rewrite (dom_keys m) // in Hks.
  destruct c as [k v|k|k|]; simpl in *; wp_steps.
  - eapply wp_mono; [by apply insert_spec|].
    intros [r m'] s' o [(->&Hwf'&Hc&_&_&Hown')|(->&->&Hn&Hown')]; wp_steps.
    + split; [rewrite Hc; constructor|]. eexists. split; [done|]. split; [done|].
      apply dom_keys; [done|]. intros k'. rewrite Hc dom_insert_L.
      intros [->%elem_of_singleton|?]%elem_of_union; auto.
    + split; [by constructor|]. exists L. split_and!; [done|done|by apply dom_keys].
  - eapply wp_mono; [by apply delete_spec|].
    intros [r m'] s' o. destruct (_ !! k) as [v|] eqn:Hk.
    + intros (->&Hwf'&Hc&p&Hp&Ha&Hl). wp_steps.
      split; [rewrite Hc; constructor; by eexists|].
      exists (L ∖ {[p]}). split; [done|]. split.
      * split; [done|]. rewrite Ha. destruct Hown. set_solver.
      * apply dom_keys; [done|]. intros k'. rewrite Hc dom_delete_L.
        intros [? _]%elem_of_difference; auto.
    + intros (->&->&->). wp_steps. split; [by constructor|by eexists].
  - split; [rewrite find_contents //; constructor|by eexists].
  - split; [rewrite count_contents //; constructor|by eexists].
Qed.

(** Any call sequence on an initialised table answers as a finite map. *)
Lemma calls_refine K cs (s : A) L :
  distinguishable K → Alloc.live s L →
  Forall (λ c, (String.length (key_of c) ≤ 127)%nat ∧ K (key_of c)) cs →
  wp (do_calls init cs) s (λ '(rs, m) _ _, wf m ∧ spec_calls ∅ cs rs (contents m)).
Proof.
  intros HK Hl. destruct (init_wf (V:=V)) as (Hwf&<-&Ha).
  assert (Hgood : good K L init s).
  { split; [done|]. split; [by rewrite /owns Ha|]. intros n Hn. by apply elem_of_nil in Hn. }
  clear Hl Hwf Ha. revert L s Hgood. generalize (init (V:=V)) as m.
  induction cs as [|c cs IH]; intros m L s Hgood Hcs; simpl; wp_steps.
  { split; [apply Hgood|constructor]. }
  apply Forall_cons in Hcs as [Hc Hcs].
  eapply wp_mono; [by eapply do_call_spec|]. intros [a m1] s1 o (Hs1&L1&Hgood1). wp_steps.
  eapply wp_mono; [by eapply IH|]. intros [rs m2] s2 o2 (Hwf2&Hs2). wp_steps.
  split; [done|by econstructor].
Qed.
End run.
End calls.

End HashTable.
