(* ===== verification/RamfsHash.v ===== *)
(** kernel/src/ramfs_hash.c: the table of the sub-folders of a folder. *)
From S2P Require Import Prelude.
From S2P Require Import Allocator.
From S2P Require Import Malloc.
From S2P Require Import CString.
From S2P Require Import RamfsTypes.
From S2P Require Import HashTable.
Import CString RamfsTypes.

Module RamfsHash.

#[global] Instance foder_entry : HashTable.Entry ramfs_foder_info := {|
  HashTable.eqkey := _streq;
  HashTable.set_name v key := FoderInfo key (di_type v) (di_ptr v) (di_drive_addr v);
  HashTable.node_size := sizeof_hash_node
|}.

#[global] Instance foder_entry_laws : HashTable.EntryLaws ramfs_foder_info.
Proof.
  split; [|done]. intros k. by rewrite /= _streq_spec bool_decide_true.
Qed.

Section ops.
Context {A : Type} `{!Alloc.Allocator A}.

Definition ramfs_hashmap_init : ramfs_hashmap := HashTable.init.
Definition ramfs_hashmap_insert (map : ramfs_hashmap) (key : string) (value : ramfs_foder_info) :
  M A (Z * ramfs_hashmap) := HashTable.insert map key value.
Definition ramfs_hashmap_find (map : ramfs_hashmap) (key : string) : option ramfs_foder_info :=
  HashTable.find map key.
Definition ramfs_hashmap_delete (map : ramfs_hashmap) (key : string) : M A (Z * ramfs_hashmap) :=
  HashTable.delete map key.
Definition ramfs_hashmap_count (map : ramfs_hashmap) : Z := count map.
Definition ramfs_hashmap_list (map : ramfs_hashmap) : M A (Z * list string) :=
  HashTable.list_keys map.
Definition ramfs_hashmap_destroy (map : ramfs_hashmap) : M A ramfs_hashmap :=
  HashTable.destroy map.
End ops.

Lemma folder_separated (m : ramfs_hashmap) k : HashTable.separated m k.
Proof. intros n _ Hk. rewrite /= _streq_spec in Hk. by apply bool_decide_eq_true in Hk. Qed.

Section theory.
Context {A : Type} `{!Alloc.Allocator A, !Alloc.AllocatorLaws A}.

(** C10: Every sequence of insertions, deletions, lookups and counts with
    names of at most 127 characters, on an initialised table and any
    allocator that keeps its contract, answers exactly as a finite map
    does: the folder table refines the map specification. *)
Theorem ramfs_hashmap_refines cs (s : A) L :
  Alloc.live s L → Forall (λ c, String.length (HashTable.key_of c) ≤ 127)%nat cs →
  wp (HashTable.do_calls ramfs_hashmap_init cs) s (λ '(rs, m) _ _,
    HashTable.wf m ∧ HashTable.spec_calls ∅ cs rs (HashTable.contents m)).
Proof.
  intros Hl Hcs. apply (HashTable.calls_refine (λ _, True)) with L; [|done|].
  - intros a b _ _ Hab. rewrite /= _streq_spec in Hab. by apply bool_decide_eq_true in Hab.
  - eapply Forall_impl; [done|]. by intros c Hc.
Qed.

(** A name of 128 characters or more is accepted and lost: [insert]
    reports success, stores the first 127 characters, and a lookup of the
    name still finds nothing, before and after. *)
Lemma ramfs_hashmap_long_key_lost m k v (s : A) L :
  HashTable.wf m → Alloc.live s L → (128 ≤ String.length k)%nat →
  ramfs_hashmap_find m k = None ∧
  wp (ramfs_hashmap_insert m k v) s (λ '(r, m') s' _,
    ramfs_hashmap_find m' k = None ∧ (r = 1 → count m' = count m + 1)).
Proof.
  intros Hwf Hl Hk.
  assert (Hnone : ∀ c : list (node ramfs_foder_info),
    (∀ n, n ∈ c → (String.length (n_key n) ≤ 127)%nat) → HashTable.chain_find k c = None).
  { induction c as [|n c IH]; intros Hc; [done|]. simpl.
    rewrite _streq_spec bool_decide_false; [|apply IH; set_solver].
    intros Hn. specialize (Hc n ltac:(left)). rewrite Hn in Hc. lia. }
  assert (Hm : HashTable.chain_find k (HashTable.bucket m (HashTable.idx k)) = None).
  { apply Hnone. intros n Hn. by eapply HashTable.wf_short, HashTable.bucket_nodes. }
  split; [by rewrite /ramfs_hashmap_find /HashTable.find Hm|].
  rewrite /ramfs_hashmap_insert /HashTable.insert Hm. wp_steps.
  eapply wp_mono; [apply Alloc.malloc_live; [done|apply HashTable.node_size_ok]|].
  intros p s' o _. zcase; wp_steps.
  { split; [by rewrite /ramfs_hashmap_find /HashTable.find Hm|done]. }
  split; [|done]. rewrite /ramfs_hashmap_find /HashTable.find.
  set b := HashTable.bucket (HashTable.set_count _ _) _.
  assert (Hb : b = Node p (_strcpy k) (HashTable.set_name v (_strcpy k))
    :: HashTable.bucket m (HashTable.idx k)).
  { subst b. rewrite /HashTable.bucket /=.
    rewrite list_lookup_insert_eq //. rewrite HashTable.wf_buckets //. apply HashTable.idx_lt. }
  rewrite Hb Hnone //. intros x [->|Hx]%elem_of_cons; [apply _strcpy_length|].
  by eapply HashTable.wf_short, HashTable.bucket_nodes.
Qed.
End theory.

(** * The properties at concrete tables, on the kernel heap *)

Definition docs : ramfs_foder_info := FoderInfo "docs" 0 4096 0.

Lemma ramfs_hashmap_refines_witness :
  wp (HashTable.do_calls ramfs_hashmap_init [HashTable.Insert "docs" docs; HashTable.Find "docs"; HashTable.Delete "docs"; HashTable.Count])
    Heap.demo (λ '(rs, m) _ _, HashTable.wf m ∧
      HashTable.spec_calls ∅ [HashTable.Insert "docs" docs; HashTable.Find "docs"; HashTable.Delete "docs"; HashTable.Count] rs (HashTable.contents m)).
Proof.
  eapply (ramfs_hashmap_refines _ Heap.demo (set_map (λ a, a + 8) (∅ : gset Z))).
  - exists 2097152, [2097152], ∅. split_and!; [done|exact Heap.demo_wf|done].
  - repeat constructor; simpl; lia.
Defined.

Fixpoint long_name (n : nat) : string :=
  match n with O => EmptyString | S n => String (Ascii.ascii_of_nat 97) (long_name n) end.

Lemma ramfs_hashmap_long_key_lost_witness :
  ramfs_hashmap_find ramfs_hashmap_init (long_name 128) = None ∧
  wp (ramfs_hashmap_insert ramfs_hashmap_init (long_name 128) docs) Heap.demo
    (λ '(r, m') s' _, ramfs_hashmap_find m' (long_name 128) = None ∧
      (r = 1 → count m' = count ramfs_hashmap_init + 1)).
Proof.
  eapply (ramfs_hashmap_long_key_lost _ _ _ Heap.demo (set_map (λ a, a + 8) (∅ : gset Z))).
  - apply HashTable.init_wf.
  - exists 2097152, [2097152], ∅. split_and!; [done|exact Heap.demo_wf|done].
  - vm_compute. lia.
Defined.

End RamfsHash.
