(* ===== verification/RamfsHashFile.v ===== *)
(** kernel/src/ramfs_hash_file.c: the table of the files of a folder.

    The code is that of ramfs_hash.c but for the comparison of names, which
    goes through libc [memcmp] and therefore holds for names that differ. *)
From S2P Require Import Prelude.
From S2P Require Import Allocator.
From S2P Require Import Malloc.
From S2P Require Import CString.
From S2P Require Import RamfsTypes.
From S2P Require Import HashTable.
Import CString RamfsTypes.

Module RamfsHashFile.

#[global] Instance file_entry : HashTable.Entry ramfs_file_info := {|
  HashTable.eqkey := _file_streq;
  HashTable.set_name v key :=
    FileInfo key (fi_type v) (fi_length v) (fi_ptr v) (fi_drive_addr v);
  HashTable.node_size := sizeof_file_hash_node
|}.

#[global] Instance file_entry_laws : HashTable.EntryLaws ramfs_file_info.
Proof. split; [|done]. intros k. apply _file_streq_refl. Qed.

Section ops.
Context {A : Type} `{!Alloc.Allocator A}.

Definition ramfs_file_hashmap_init : ramfs_file_hashmap := HashTable.init.
Definition ramfs_file_hashmap_insert (map : ramfs_file_hashmap) (key : string)
  (value : ramfs_file_info) : M A (Z * ramfs_file_hashmap) := HashTable.insert map key value.
Definition ramfs_file_hashmap_find (map : ramfs_file_hashmap) (key : string) :
  option ramfs_file_info := HashTable.find map key.
Definition ramfs_file_hashmap_delete (map : ramfs_file_hashmap) (key : string) :
  M A (Z * ramfs_file_hashmap) := HashTable.delete map key.
Definition ramfs_file_hashmap_count (map : ramfs_file_hashmap) : Z := count map.
Definition ramfs_file_hashmap_list (map : ramfs_file_hashmap) : M A (Z * list string) :=
  HashTable.list_keys map.
Definition ramfs_file_hashmap_destroy (map : ramfs_file_hashmap) : M A ramfs_file_hashmap :=
  HashTable.destroy map.
End ops.

Section theory.
Context {A : Type} `{!Alloc.Allocator A, !Alloc.AllocatorLaws A}.

(** C38: On names of which no two of the same length have all the bytes of
    one at or above those of the other, the file table too refines the
    finite map: every call sequence from an initialised table answers as
    the map does. *)
Theorem ramfs_file_hashmap_refines (K : string → Prop) cs (s : A) L :
  (∀ a b, K a → K b → dominates a b → a = b) → Alloc.live s L →
  Forall (λ c, (String.length (HashTable.key_of c) ≤ 127)%nat ∧ K (HashTable.key_of c)) cs →
  wp (HashTable.do_calls ramfs_file_hashmap_init cs) s (λ '(rs, m) _ _,
    HashTable.wf m ∧ HashTable.spec_calls ∅ cs rs (HashTable.contents m)).
Proof.
  intros HK Hl Hcs. apply (HashTable.calls_refine K) with L; [|done..].
  intros a b Ha Hb Hab. apply HK; [done..|]. by apply _file_streq_spec.
Qed.

(** Two different names of the same bucket and length, of which the
    first has no byte below the second's, are one name to the table: with
    a file [a] in it, looking [b] up yields the entry of [a], inserting [b]
    overwrites that entry, and deleting [b] deletes it. *)
Lemma ramfs_file_hashmap_confuses a b v w p (s : A) L :
  dominates a b → _hash a = _hash b → Alloc.live s L → p ∈ L →
  let m := HashTable.set_count 1
    (HashTable.set_bucket (HashTable.idx a) [Node p a v] ramfs_file_hashmap_init) in
  ramfs_file_hashmap_find m b = Some v ∧
  ramfs_file_hashmap_insert m b w s =
    Ok ((1, HashTable.set_bucket (HashTable.idx a)
              [Node p a (HashTable.set_name w (_strcpy b))] m), s, []) ∧
  wp (ramfs_file_hashmap_delete m b) s (λ '(r, m') _ _, r = 1 ∧ HashTable.contents m' = ∅).
Proof.
  intros Hab Hh Hl Hp m. apply _file_streq_spec in Hab.
  assert (Hidx : HashTable.idx b = HashTable.idx a) by by rewrite /HashTable.idx Hh.
  pose proof (HashTable.idx_lt a) as Hlt. unfold RAMFS_HASH_BUCKET_SIZE in Hlt.
  assert (Hb : HashTable.bucket m (HashTable.idx b) = [Node p a v]).
  { rewrite Hidx /HashTable.bucket /m /= list_lookup_insert_eq //. }
  rewrite /ramfs_file_hashmap_find /HashTable.find /ramfs_file_hashmap_insert /HashTable.insert.
  rewrite /ramfs_file_hashmap_delete /HashTable.delete Hb /= Hab Hidx.
  split_and!; [done..|]. wp_steps.
  eapply wp_mono; [by apply Alloc.free_live|]. intros ? s' o _. wp_steps. split; [done|].
  rewrite /HashTable.contents /HashTable.nodes /= list_insert_insert_eq.
  generalize dependent (HashTable.idx a). intros i _ _ Hi _.
  do 16 (destruct i as [|i]; [done|]). lia.
Qed.
End theory.

(** * The properties at concrete tables, on the kernel heap *)

Definition notes : ramfs_file_info := FileInfo "notes" 0 3 4096 0.

Lemma demo_live : Alloc.live Heap.demo (set_map (λ a, a + 8) (∅ : gset Z)).
Proof. exists 2097152, [2097152], ∅. split_and!; [done|exact Heap.demo_wf|done]. Qed.

Lemma ramfs_file_hashmap_refines_witness :
  wp (HashTable.do_calls ramfs_file_hashmap_init
      [HashTable.Insert "notes" notes; HashTable.Find "todo"; HashTable.Delete "notes"])
    Heap.demo (λ '(rs, m) _ _, HashTable.wf m ∧
      HashTable.spec_calls ∅
        [HashTable.Insert "notes" notes; HashTable.Find "todo"; HashTable.Delete "notes"]
        rs (HashTable.contents m)).
Proof.
  eapply (ramfs_file_hashmap_refines (λ k, k = "notes" ∨ k = "todo") _ Heap.demo _).
  - intros a b [-> | ->] [-> | ->] Hd; try done; apply _file_streq_spec in Hd; done.
  - exact demo_live.
  - repeat constructor; simpl; lia || tauto.
Defined.

Lemma ramfs_file_hashmap_confuses_witness :
  let m := HashTable.set_count 1
    (HashTable.set_bucket (HashTable.idx "q") [Node 2097160 "q" notes] ramfs_file_hashmap_init) in
  ramfs_file_hashmap_find m "a" = Some notes ∧
  ramfs_file_hashmap_insert m "a" notes Heap.demo1 =
    Ok ((1, HashTable.set_bucket (HashTable.idx "q")
              [Node 2097160 "q" (HashTable.set_name notes (_strcpy "a"))] m), Heap.demo1, []) ∧
  wp (ramfs_file_hashmap_delete m "a") Heap.demo1 (λ '(r, m') _ _, r = 1 ∧ HashTable.contents m' = ∅).
Proof.
  apply (ramfs_file_hashmap_confuses "q" "a" notes notes 2097160 Heap.demo1
    (set_map (λ a, a + 8) ({[2097152]} ∪ ∅ : gset Z))).
  - by apply _file_streq_spec.
  - done.
  - exists 2097152, [2097264], ({[2097152]} ∪ ∅). split_and!; [done|exact Heap.demo1_wf|done].
  - apply (Heap.wf_user_ptr _ _ _ _ _ Heap.demo1_wf). by apply elem_of_union_l, elem_of_singleton.
Defined.

End RamfsHashFile.
