(* ===== verification/HashChain.v ===== *)
(** The chains of the hash tables in memory: the operations of ramfs_hash.c
    and ramfs_hash_file.c on nodes linked by [next] pointers, and the proof
    that they compute what HashTable.v computes on lists. *)
From S2P Require Import Prelude.
From S2P Require Import Allocator.
From S2P Require Import Malloc.
From S2P Require Import CString.
From S2P Require Import RamfsTypes.
From S2P Require Import HashTable.
From S2P Require Import RamfsHash.
Import CString RamfsTypes HashTable.
#[local] Open Scope general_if_scope.

Module HashChain.

(** ramfs_hash_node in memory, and the table structure of pointers. *)
Record cnode (V : Type) : Type := CNode { c_key : string; c_value : V; c_next : Z }.
Arguments CNode {V} _ _ _.
Arguments c_key {V} _.
Arguments c_value {V} _.
Arguments c_next {V} _.

Record table : Type := Table { t_buckets : list Z; t_count : Z }.

(** The memory of the nodes, beside the allocator that places them. *)
Record mem (A V : Type) : Type := Mem { m_alloc : A; m_nodes : gmap Z (cnode V) }.
Arguments Mem {A V} _ _.
Arguments m_alloc {A V} _.
Arguments m_nodes {A V} _.

Section ops.
Context {V : Type} `{!Entry V} {A : Type} `{!Alloc.Allocator A}.

Definition load (p : Z) : M (mem A V) (cnode V) := s ← get; unwrap (m_nodes s !! p).
Definition store (p : Z) (n : cnode V) : M (mem A V) unit :=
  modify (λ s, Mem (m_alloc s) (<[p := n]> (m_nodes s))).
Definition c_malloc (size : Z) : M (mem A V) Z :=
  zoom m_alloc (λ a s, Mem a (m_nodes s)) (Alloc.malloc size).
(** [free] ends the life of the node: reading it afterwards is a fault. *)
Definition c_free (p : Z) : M (mem A V) unit :=
  zoom m_alloc (λ a s, Mem a (m_nodes s)) (Alloc.free p);;
  modify (λ s, Mem (m_alloc s) (base.delete p (m_nodes s))).

Definition head (t : table) (i : nat) : Z := default 0 (t_buckets t !! i).
Definition set_head (i : nat) (p : Z) (t : table) : table :=
  Table (<[i := p]> (t_buckets t)) (t_count t).

(** The search loop, with the node before the one found: [(prev, node)],
    [node] NULL when the key is absent. *)
Fixpoint walk (fuel : nat) (key : string) (prev node : Z) : M (mem A V) (Z * Z) :=
  match fuel with
  | O => nofuel
  | S fuel =>
      if node =? 0 then mret (prev, 0) else
      n ← load node;
      if eqkey (c_key n) key then mret (prev, node)
      else walk fuel key node (c_next n)
  end.

(** No chain is longer than the number of nodes in memory. *)
Definition walk_fuel (s : mem A V) : nat := S (base.size (m_nodes s)).

Definition c_insert (t : table) (key : string) (value : V) : M (mem A V) (Z * table) :=
  let i := idx key in
  s ← get;
  '(_, node) ← walk (walk_fuel s) key 0 (head t i);
  if negb (node =? 0) then
    n ← load node;
    store node (CNode (c_key n) (set_name value (_strcpy key)) (c_next n));;
    mret (1, t)
  else
    p ← c_malloc node_size;
    if p =? 0 then mret (0, t)
    else
      store p (CNode (_strcpy key) (set_name value (_strcpy key)) (head t i));;
      mret (1, Table (t_buckets (set_head i p t)) (t_count t + 1)).

(** What a caller reads and writes through the pointer [find] returns. *)
Definition c_find (t : table) (key : string) : M (mem A V) (option V) :=
  s ← get;
  '(_, node) ← walk (walk_fuel s) key 0 (head t (idx key));
  if node =? 0 then mret None
  else n ← load node; mret (Some (c_value n)).

Definition c_delete (t : table) (key : string) : M (mem A V) (Z * table) :=
  let i := idx key in
  s ← get;
  '(prev, node) ← walk (walk_fuel s) key 0 (head t i);
  if node =? 0 then mret (0, t)
  else
    n ← load node;
    t ← (if negb (prev =? 0) then
           q ← load prev; store prev (CNode (c_key q) (c_value q) (c_next n));; mret t
         else mret (set_head i (c_next n) t));
    c_free node;;
    mret (1, Table (t_buckets t) (t_count t - 1)).

(** [list]: the keys of every chain in order. *)
Fixpoint c_keys (fuel : nat) (node : Z) : M (mem A V) (list string) :=
  match fuel with
  | O => nofuel
  | S fuel =>
      if node =? 0 then mret [] else
      n ← load node;
      ks ← c_keys fuel (c_next n);
      mret (_strcpy (c_key n) :: ks)
  end.
Fixpoint c_all_keys (ps : list Z) : M (mem A V) (list string) :=
  match ps with
  | [] => mret []
  | p :: ps =>
      s ← get;
      ks ← c_keys (walk_fuel s) p;
      ks' ← c_all_keys ps;
      mret (ks ++ ks')
  end.
Definition c_list (t : table) : M (mem A V) (Z * list string) :=
  if t_count t =? 0 then mret (0, [])
  else
    p ← c_malloc (u32 (t_count t * 128));
    if p =? 0 then mret (0, [])
    else ks ← c_all_keys (t_buckets t); mret (p, ks).

(** The loop of [destroy] over one chain: [next] is read before the node is
    freed. *)
Fixpoint c_free_chain (fuel : nat) (node : Z) : M (mem A V) unit :=
  match fuel with
  | O => nofuel
  | S fuel =>
      if node =? 0 then mret tt else
      n ← load node;
      c_free node;;
      c_free_chain fuel (c_next n)
  end.

Fixpoint c_free_buckets (ps : list Z) : M (mem A V) unit :=
  match ps with
  | [] => mret tt
  | p :: ps =>
      s ← get;
      c_free_chain (walk_fuel s) p;;
      c_free_buckets ps
  end.

Definition c_init : table := Table (replicate RAMFS_HASH_BUCKET_SIZE 0) 0.
Definition c_destroy (t : table) : M (mem A V) table :=
  c_free_buckets (t_buckets t);;
  mret c_init.

Definition c_do_call (t : table) (c : call (V:=V)) : M (mem A V) (answer * table) :=
  match c with
  | Insert k v => '(r, t) ← c_insert t k v; mret (Status r, t)
  | Delete k => '(r, t) ← c_delete t k; mret (Status r, t)
  | Find k => v ← c_find t k; mret (Found v, t)
  | Count => mret (Status (t_count t), t)
  end.
Fixpoint c_do_calls (t : table) (cs : list call) : M (mem A V) (list answer * table) :=
  match cs with
  | [] => mret ([], t)
  | c :: cs =>
      '(a, t1) ← c_do_call t c;
      '(rs, t2) ← c_do_calls t1 cs;
      mret (a :: rs, t2)
  end.
End ops.

(** * Chains and the lists they hold *)

Section chains.
Context {V : Type}.
Implicit Types (m : hashmap V) (c : list (node V)) (h : gmap Z (cnode V)).

(** From [p] the nodes [c] lead to [q]. *)
Fixpoint seg h (p : Z) c (q : Z) : Prop :=
  match c with
  | [] => p = q
  | n :: c => p = n_addr n ∧ p ≠ 0 ∧ ∃ r, h !! p = Some (CNode (n_key n) (n_value n) r) ∧ seg h r c q
  end.

Lemma seg_app h p c1 c2 q : seg h p (c1 ++ c2) q ↔ ∃ r, seg h p c1 r ∧ seg h r c2 q.
Proof.
  revert p. induction c1 as [|n c1 IH]; intros p; cbn [app seg]; [naive_solver|]. setoid_rewrite IH. naive_solver.
Qed.
Lemma seg_frame h h' p c q : seg h p c q → (∀ n, n ∈ c → h' !! n_addr n = h !! n_addr n) → seg h' p c q.
Proof.
  revert p. induction c as [|n c IH]; intros p; [done|]. cbn [seg]. intros (->&?&r&Hr&?) Hsame. split_and!; [done..|].
  exists r. rewrite Hsame; [by left|]. split; [done|]. apply IH; [done|]. intros; apply Hsame; by right.
Qed.
Lemma seg_node h p c q n : seg h p c q → n ∈ c → n_addr n ≠ 0 ∧ is_Some (h !! n_addr n).
Proof.
  revert p. induction c as [|n' c IH]; intros p; [by intros _ ?%elem_of_nil|]. cbn [seg].
  intros (->&?&r&Hr&Hc) [->|Hn]%elem_of_cons; [by split; [|eexists]|by eapply IH].
Qed.
Lemma seg_length h p c q : seg h p c q → NoDup (n_addr <$> c) → (length c ≤ base.size h)%nat.
Proof.
  intros Hc Hnd. rewrite -(length_fmap n_addr) -(size_list_to_set (C:=gset Z)) // -size_dom. apply subseteq_size.
  intros a (n&->&Hn)%elem_of_list_to_set%list_elem_of_fmap. apply elem_of_dom. by eapply seg_node.
Qed.

(** A node in the middle. *)
Lemma seg_middle h p c1 n c2 q : seg h p (c1 ++ n :: c2) q →
  ∃ r, h !! n_addr n = Some (CNode (n_key n) (n_value n) r) ∧ seg h p c1 (n_addr n) ∧ seg h r c2 q.
Proof. intros (r&H1&(->&_&r'&?&?))%seg_app. by exists r'. Qed.
Lemma middle_other (c1 c2 : list (node V)) n n' :
  NoDup (n_addr <$> c1 ++ n :: c2) → n' ∈ c1 ++ c2 → n_addr n' ≠ n_addr n.
Proof.
  rewrite fmap_app /= -Permutation_middle -fmap_app. intros [Hn _]%NoDup_cons Hin Heq. apply Hn. rewrite -Heq.
  by apply list_elem_of_fmap_2.
Qed.

(** A write to the value of a node. *)
Lemma seg_write h p c1 n c2 q r v :
  seg h p (c1 ++ n :: c2) q → NoDup (n_addr <$> c1 ++ n :: c2) →
  h !! n_addr n = Some (CNode (n_key n) (n_value n) r) →
  seg (<[n_addr n := CNode (n_key n) v r]> h) p (c1 ++ Node (n_addr n) (n_key n) v :: c2) q.
Proof.
  intros Hs Hnd Hn. pose proof Hs as Hs'. apply seg_middle in Hs as (r'&Hn'&H1&H2). rewrite Hn in Hn'. injection Hn' as <-.
  assert (Hframe : ∀ n', n' ∈ c1 ++ c2 → <[n_addr n := CNode (n_key n) v r]> h !! n_addr n' = h !! n_addr n').
  { intros n' Hin. rewrite lookup_insert_ne //. by eapply not_eq_sym, middle_other. }
  apply seg_app. exists (n_addr n). split; [eapply seg_frame; [exact H1|]; intros; apply Hframe; set_solver|].
  cbn [seg n_addr]. split; [done|]. split; [by eapply (seg_node _ _ _ _ n Hs'); set_solver|]. exists r.
  rewrite lookup_insert_eq. split; [done|]. eapply seg_frame; [exact H2|]. intros; apply Hframe. set_solver.
Qed.

(** Unlinking the node after [x]. *)
Lemma seg_unlink h p c1 x n c2 q r rx :
  seg h p ((c1 ++ [x]) ++ n :: c2) q → NoDup (n_addr <$> (c1 ++ [x]) ++ n :: c2) →
  h !! n_addr n = Some (CNode (n_key n) (n_value n) r) →
  h !! n_addr x = Some (CNode (n_key x) (n_value x) rx) →
  seg (base.delete (n_addr n) (<[n_addr x := CNode (n_key x) (n_value x) r]> h)) p ((c1 ++ [x]) ++ c2) q.
Proof.
  intros Hs Hnd Hn Hx. pose proof Hs as Hs'. apply seg_middle in Hs as (r'&Hn'&H1&H2). rewrite Hn in Hn'. injection Hn' as <-.
  apply seg_middle in H1 as (r1&Hx'&H1&_).
  assert (Hxn : n_addr x ≠ n_addr n) by (eapply middle_other; [exact Hnd|set_solver]).
  assert (Hndx : NoDup (n_addr <$> c1 ++ x :: n :: c2)) by by rewrite -app_assoc in Hnd.
  assert (Hframe : ∀ n', n' ∈ c1 ++ c2 →
    base.delete (n_addr n) (<[n_addr x := CNode (n_key x) (n_value x) r]> h) !! n_addr n' = h !! n_addr n').
  { intros n' Hin. rewrite lookup_delete_ne; [eapply not_eq_sym, middle_other; [exact Hnd|set_solver]|].
    rewrite lookup_insert_ne //. eapply not_eq_sym, middle_other; [exact Hndx|set_solver]. }
  rewrite -app_assoc. apply seg_app. exists (n_addr x).
  split; [eapply seg_frame; [exact H1|]; intros; apply Hframe; set_solver|]. cbn [app seg]. split; [done|].
  split; [by eapply (seg_node _ _ _ _ x Hs'); set_solver|]. exists r.
  rewrite lookup_delete_ne // lookup_insert_eq. split; [done|].
  eapply seg_frame; [exact H2|]. intros; apply Hframe. set_solver.
Qed.

(** * Tables *)

Definition repr h (t : table) m : Prop :=
  t_count t = count m ∧ length (t_buckets t) = length (buckets m) ∧
  ∀ i c, buckets m !! i = Some c → seg h (head t i) c 0.

(** Changing one bucket, and no memory of the others. *)
Lemma repr_set h h' t m i c p c' n :
  repr h t m → NoDup (n_addr <$> concat (buckets m)) → buckets m !! i = Some c → seg h' p c' 0 →
  (∀ x, x ∈ concat (buckets m) → n_addr x ∉ n_addr <$> c → h' !! n_addr x = h !! n_addr x) →
  repr h' (Table (<[i := p]> (t_buckets t)) n) (HashMap (<[i := c']> (buckets m)) n).
Proof.
  intros (_&Hlen&Hsegs) Hnd Hi Hp Hframe. destruct (concat_insert _ _ _ Hi) as (rest&Hall&Hins).
  split; [done|]. split; [by rewrite /= !length_insert|]. intros j cj Hj. rewrite /head /=.
  apply lookup_lt_Some in Hi as Hlt. destruct (decide (i = j)) as [->|Hne].
  - rewrite /= list_lookup_insert_eq // in Hj. injection Hj as <-. by rewrite list_lookup_insert_eq ?Hlen.
  - rewrite /= list_lookup_insert_ne // in Hj. rewrite list_lookup_insert_ne //.
    eapply seg_frame; [by apply Hsegs|]. intros x Hx.
    assert (Hrest : x ∈ rest).
    { specialize (Hins []). cbn [app] in Hins. rewrite -Hins. apply list_elem_of_In, in_concat. exists cj.
      split; [|by apply list_elem_of_In]. apply list_elem_of_In, (list_elem_of_lookup_2 _ j).
      by rewrite list_lookup_insert_ne. }
    apply Hframe; [rewrite Hall; set_solver|]. rewrite Hall fmap_app in Hnd. apply NoDup_app in Hnd as (_&Hdisj&_).
    intros Hc. apply (Hdisj _ Hc). by apply list_elem_of_fmap_2.
Qed.
Lemma set_head_id (t : table) i : (i < length (t_buckets t))%nat → <[i := head t i]> (t_buckets t) = t_buckets t.
Proof. intros [p Hp]%lookup_lt_is_Some_2. by rewrite list_insert_id // /head Hp. Qed.
End chains.

(** * The operations *)

Section refinement.
Context {V : Type} `{!Entry V, !EntryLaws V} {A : Type} `{!Alloc.Allocator A, !Alloc.AllocatorLaws A}.
Implicit Types (m : hashmap V) (c : list (node V)) (h : gmap Z (cnode V)) (a : A).

Lemma node_load_ok a h p n : h !! p = Some n → load p (Mem a h) = Ok (n, Mem a h, []).
Proof. intros Hp. rewrite /load (bind_ok _ _ _ _ _ eq_refl) /=. by rewrite Hp. Qed.

(** The walk finds what the search of the list finds, and the node before. *)
Lemma chain_walk_ok a h key c p prev fuel :
  seg h p c 0 → (length c < fuel)%nat →
  match chain_find key c with
  | None => ∃ prev', walk fuel key prev p (Mem a h) = Ok ((prev', 0), Mem a h, [])
  | Some n => ∃ c1 c2, c = c1 ++ n :: c2 ∧ chain_delete key c = c1 ++ c2 ∧
      (∀ f, chain_set key f c = c1 ++ Node (n_addr n) (n_key n) (f (n_value n)) :: c2) ∧
      walk fuel key prev p (Mem a h) = Ok ((from_option n_addr prev (last c1), n_addr n), Mem a h, [])
  end.
Proof.
  revert p prev fuel. induction c as [|n c IH]; intros p prev [|fuel]; cbn [seg length]; try lia.
  { intros -> _. cbn [chain_find walk]. rewrite Z.eqb_refl. by exists prev. }
  intros (->&Hp&r&Hr&Hc) Hf. cbn [chain_find chain_delete chain_set walk]. rewrite (proj2 (Z.eqb_neq _ 0)) //.
  rewrite (bind_ok _ _ _ _ _ (node_load_ok a h _ _ Hr)). cbn [c_key c_next]. destruct (eqkey (n_key n) key).
  - by exists [], c.
  - specialize (IH r (n_addr n) fuel Hc ltac:(lia)). destruct (chain_find key c) as [n'|]; [|done].
    destruct IH as (c1&c2&->&->&Hset&->). exists (n :: c1), c2. split; [done|]. split; [done|].
    split; [intros f; by rewrite Hset|]. rewrite last_cons. by destruct (last c1).
Qed.

Lemma bucket_seg h t m key : wf m → repr h t m → seg h (head t (idx key)) (bucket m (idx key)) 0.
Proof. intros Hwf (_&_&Hs). by apply Hs, bucket_lookup. Qed.
Lemma bucket_nodup m key : wf m → NoDup (n_addr <$> bucket m (idx key)).
Proof.
  intros Hwf. destruct (concat_insert _ _ _ (bucket_lookup m key Hwf)) as (rest&Hall&_).
  pose proof (wf_addrs _ Hwf) as Hnd. rewrite /nodes Hall fmap_app in Hnd. by apply NoDup_app in Hnd as [? _].
Qed.
Lemma bucket_length h t m key a : wf m → repr h t m → (length (bucket m (idx key)) < walk_fuel (Mem a h))%nat.
Proof.
  intros Hwf Hr. rewrite /walk_fuel /=. apply Nat.lt_succ_r.
  eapply seg_length; [by apply bucket_seg|by apply bucket_nodup].
Qed.

Lemma walk_bucket h t m key a : wf m → repr h t m →
  match chain_find key (bucket m (idx key)) with
  | None => ∃ prev', walk (walk_fuel (Mem a h)) key 0 (head t (idx key)) (Mem a h) = Ok ((prev', 0), Mem a h, [])
  | Some n => ∃ c1 c2, bucket m (idx key) = c1 ++ n :: c2 ∧ chain_delete key (bucket m (idx key)) = c1 ++ c2 ∧
      (∀ f, chain_set key f (bucket m (idx key)) = c1 ++ Node (n_addr n) (n_key n) (f (n_value n)) :: c2) ∧
      walk (walk_fuel (Mem a h)) key 0 (head t (idx key)) (Mem a h) =
        Ok ((from_option n_addr 0 (last c1), n_addr n), Mem a h, [])
  end.
Proof. intros Hwf Hr. apply chain_walk_ok; [by apply bucket_seg|by eapply bucket_length]. Qed.

Lemma table_index h t m key : wf m → repr h t m → (idx key < length (t_buckets t))%nat.
Proof. intros Hwf (_&->&_). rewrite (wf_buckets _ Hwf). apply idx_lt. Qed.

(** What lies outside of the table stays. *)
Definition elsewhere (X : gset Z) h h' : Prop := ∀ p, p ∉ X → h' !! p = h !! p.

Lemma c_insert_refines m t key value a h L r m' a' o :
  wf m → owns L m a → repr h t m →
  insert m key value a = Ok ((r, m'), a', o) →
  ∃ h' t', c_insert t key value (Mem a h) = Ok ((r, t'), Mem a' h', o) ∧ repr h' t' m' ∧
    elsewhere (addrs m ∪ addrs m') h h'.
Proof.
  intros Hwf [Hlive Hown] Hr. rewrite /insert /c_insert (bind_ok _ _ _ _ _ eq_refl).
  pose proof (walk_bucket h t m key a Hwf Hr) as Hwalk. pose proof (bucket_seg h t m key Hwf Hr) as Hseg.
  pose proof (bucket_nodup m key Hwf) as Hnd. destruct (chain_find key (bucket m (idx key))) as [n|] eqn:Hf.
  - destruct Hwalk as (c1&c2&Hc&_&Hset&Hwalk). intros [= <- <- <- <-]. rewrite (bind_ok _ _ _ _ _ Hwalk).
    rewrite Hc in Hseg Hnd. pose proof (seg_middle _ _ _ _ _ _ Hseg) as (q&Hq&_).
    destruct (seg_node _ _ _ _ n Hseg) as [Hn0 _]; [set_solver|]. rewrite (proj2 (Z.eqb_neq _ 0)) //. cbn [negb].
    rewrite (bind_ok _ _ _ _ _ (node_load_ok a h _ _ Hq)). eexists _, t. split; [done|].
    pose proof (seg_write _ _ _ _ _ _ _ (set_name value (_strcpy key)) Hseg Hnd Hq) as Hseg'.
    assert (Hnm : n_addr n ∈ addrs m).
    { apply elem_of_list_to_set, list_elem_of_fmap_2. apply (bucket_nodes m key); [done|]. rewrite Hc. set_solver. }
    split.
    + rewrite Hset. destruct t as [bs cnt]. pose proof Hr as (Hcnt&_). cbn [t_count] in Hcnt. subst cnt.
      pose proof (table_index h _ m key Hwf Hr) as Hi.
      rewrite (_ : Table bs (count m) = Table (<[idx key := head (Table bs (count m)) (idx key)]> bs) (count m)).
      { by rewrite (set_head_id (Table bs (count m))). }
      eapply (repr_set _ _ _ _ _ _ _ _ _ Hr); [apply (wf_addrs _ Hwf)|by apply bucket_lookup|exact Hseg'|].
      intros x _ Hx. apply lookup_insert_ne. intros Heq. apply Hx. rewrite -Heq Hc. apply list_elem_of_fmap_2. set_solver.
    + intros p Hp. rewrite lookup_insert_ne //. intros <-. apply Hp. set_solver.
  - destruct Hwalk as (prev&Hwalk). intros (p&a1&o1&o2&Hm&Hrun&->)%bind_inv. rewrite (bind_ok _ _ _ _ _ Hwalk).
    cbn [Z.eqb negb]. pose proof (Alloc.malloc_live a L node_size Hlive node_size_ok) as Hfresh.
    apply (wp_known _ _ _ _ _ _ Hfresh) in Hm as Hp. rewrite /c_malloc /zoom /mbind /M_bind /=. rewrite Hm.
    revert Hrun. destruct (Z.eqb_spec p 0) as [->|Hp0].
    + intros [= <- <- <- <-]. eexists _, _. by split_and!.
    + intros [= <- <- <- <-]. eexists _, _. split; [done|].
      destruct Hp as [[? _]|(_&HpL&_)]; [done|].
      assert (Hpm : ∀ n, n ∈ nodes m → n_addr n ≠ p).
      { intros n Hn <-. apply HpL, Hown, elem_of_list_to_set. by apply list_elem_of_fmap_2. }
      pose proof Hr as (Hcnt&_&_). rewrite /set_count /set_bucket /=. rewrite Hcnt. split.
      * eapply (repr_set _ _ _ _ _ _ _ _ _ Hr); [apply (wf_addrs _ Hwf)|by apply bucket_lookup| |].
        -- cbn [seg n_addr n_key n_value]. split_and!; [done..|]. exists (head t (idx key)). rewrite lookup_insert_eq.
           split; [done|]. eapply seg_frame; [exact Hseg|]. intros n Hn. rewrite lookup_insert_ne //.
           apply not_eq_sym, Hpm. by eapply bucket_nodes.
        -- intros n Hn _. rewrite lookup_insert_ne //. by apply not_eq_sym, Hpm.
      * intros q Hq. rewrite lookup_insert_ne //. intros <-. apply Hq, elem_of_union_r, elem_of_list_to_set.
        destruct (concat_insert _ _ _ (bucket_lookup m key Hwf)) as (rest&_&Hins).
        rewrite /nodes /= Hins. by left.
Qed.

Lemma c_find_ok m t key a h : wf m → repr h t m → c_find t key (Mem a h) = Ok (find m key, Mem a h, []).
Proof.
  intros Hwf Hr. rewrite /c_find /find (bind_ok _ _ _ _ _ eq_refl).
  pose proof (walk_bucket h t m key a Hwf Hr) as Hwalk. pose proof (bucket_seg h t m key Hwf Hr) as Hseg.
  destruct (chain_find key (bucket m (idx key))) as [n|] eqn:Hf.
  - destruct Hwalk as (c1&c2&Hc&_&_&Hwalk). rewrite (bind_ok _ _ _ _ _ Hwalk). rewrite Hc in Hseg.
    destruct (seg_node _ _ _ _ n Hseg) as [Hn0 _]; [set_solver|]. apply seg_middle in Hseg as (q&Hq&_).
    rewrite (proj2 (Z.eqb_neq _ 0)) //. by rewrite (bind_ok _ _ _ _ _ (node_load_ok a h _ _ Hq)).
  - destruct Hwalk as (prev&Hwalk). by rewrite (bind_ok _ _ _ _ _ Hwalk).
Qed.

Lemma c_free_ok a h p a' o : Alloc.free p a = Ok (tt, a', o) → c_free p (Mem a h) = Ok (tt, Mem a' (base.delete p h), o).
Proof. intros Hf. rewrite /c_free /zoom /mbind /M_bind /=. by rewrite Hf /= app_nil_r. Qed.

Lemma c_delete_refines m t key a h r m' a' o :
  wf m → repr h t m → delete m key a = Ok ((r, m'), a', o) →
  ∃ h' t', c_delete t key (Mem a h) = Ok ((r, t'), Mem a' h', o) ∧ repr h' t' m' ∧ elsewhere (addrs m) h h'.
Proof.
  intros Hwf Hr. rewrite /delete /c_delete (bind_ok _ _ _ _ _ eq_refl).
  pose proof (walk_bucket h t m key a Hwf Hr) as Hwalk. pose proof (bucket_seg h t m key Hwf Hr) as Hseg.
  pose proof (bucket_nodup m key Hwf) as Hnd. pose proof Hr as (Hcnt&_).
  destruct (chain_find key (bucket m (idx key))) as [n|] eqn:Hf.
  2:{ destruct Hwalk as (prev&Hwalk). intros [= <- <- <- <-]. rewrite (bind_ok _ _ _ _ _ Hwalk).
      exists h, t. by split_and!. }
  destruct Hwalk as (c1&c2&Hc&Hdel&_&Hwalk). rewrite (bind_ok _ _ _ _ _ Hwalk).
  intros ([]&a1&o1&o2&Hfree&Hrun&->)%bind_inv. injection Hrun as <- <- <- <-. rewrite app_nil_r.
  rewrite Hc in Hseg Hnd. pose proof (seg_middle _ _ _ _ _ _ Hseg) as (q&Hq&Hc1&Hc2).
  destruct (seg_node _ _ _ _ n Hseg) as [Hn0 _]; [set_solver|]. rewrite (proj2 (Z.eqb_neq _ 0)) //.
  rewrite (bind_ok _ _ _ _ _ (node_load_ok a h _ _ Hq)). cbn [c_next].
  assert (Hin : ∀ x, x ∈ c1 ++ n :: c2 → n_addr x ∈ addrs m).
  { intros x Hx. apply elem_of_list_to_set, list_elem_of_fmap_2, (bucket_nodes m key); [done|]. by rewrite Hc. }
  rewrite /set_count /set_bucket /= Hdel.
  destruct c1 as [|x c1 _] using rev_ind.
  - cbn [last from_option app] in *. rewrite (bind_ok _ _ _ (set_head (idx key) q t) (Mem a h)) //.
    eexists _, _. split; [rewrite /mbind /M_bind (c_free_ok _ _ _ _ _ Hfree) /= app_nil_r; reflexivity|].
    rewrite /set_head /= Hcnt. split.
    + eapply (repr_set _ _ _ _ _ _ _ _ _ Hr); [apply (wf_addrs _ Hwf)|by apply bucket_lookup| |].
      * eapply seg_frame; [exact Hc2|]. intros x Hx. apply lookup_delete_ne. eapply not_eq_sym, (middle_other [] c2); done.
      * intros x _ Hx. apply lookup_delete_ne. intros Heq. apply Hx. rewrite -Heq Hc. by left.
    + intros p Hp. apply lookup_delete_ne. intros <-. apply Hp, Hin. by left.
  - rewrite last_snoc. cbn [from_option].
    assert (Hx : x ∈ (c1 ++ [x]) ++ n :: c2) by set_solver. destruct (seg_node _ _ _ _ x Hseg Hx) as [Hx0 _].
    rewrite (proj2 (Z.eqb_neq _ 0)) //. cbn [negb].
    pose proof Hc1 as (qx&Hqx&_)%seg_middle.
    rewrite (bind_ok _ _ _ t (Mem a (<[n_addr x := CNode (n_key x) (n_value x) q]> h))).
    { by rewrite (bind_ok _ _ _ _ _ (node_load_ok a h _ _ Hqx)). }
    eexists _, _. split; [rewrite /mbind /M_bind (c_free_ok _ _ _ _ _ Hfree) /= app_nil_r; reflexivity|]. rewrite Hcnt.
    rewrite -{1}(set_head_id t (idx key)); [by eapply table_index|]. split.
    + eapply (repr_set _ _ _ _ _ _ _ _ _ Hr); [apply (wf_addrs _ Hwf)|by apply bucket_lookup| |].
      * by eapply seg_unlink.
      * intros y _ Hy. rewrite lookup_delete_ne; [|apply lookup_insert_ne]; intros Heq; apply Hy; rewrite -Heq Hc;
          apply list_elem_of_fmap_2; set_solver.
    + intros p Hp. rewrite lookup_delete_ne; [|apply lookup_insert_ne]; intros <-; apply Hp, Hin; set_solver.
Qed.

(** ** The loops over all chains *)

Lemma repr_chains h t m : repr h t m → Forall2 (λ p c, seg h p c 0) (t_buckets t) (buckets m).
Proof.
  intros (_&Hlen&Hs). apply Forall2_same_length_lookup. split; [done|]. intros i p c Hp Hc. specialize (Hs i c Hc).
  by rewrite /head Hp in Hs.
Qed.
Lemma nodup_chain (c : list (node V)) (bs : list (list (node V))) :
  NoDup (n_addr <$> concat (c :: bs)) → NoDup (n_addr <$> c) ∧ NoDup (n_addr <$> concat bs) ∧
  ∀ n, n ∈ concat bs → n_addr n ∉ n_addr <$> c.
Proof.
  rewrite /= fmap_app. intros (Hc&Hdisj&Hbs)%NoDup_app. split_and!; [done..|]. intros n Hn' Hin.
  apply (Hdisj _ Hin). by apply list_elem_of_fmap_2.
Qed.

Lemma chains_frame h h' ps (bs : list (list (node V))) :
  Forall2 (λ p c, seg h p c 0) ps bs → (∀ n, n ∈ concat bs → h' !! n_addr n = h !! n_addr n) →
  Forall2 (λ p c, seg h' p c 0) ps bs.
Proof.
  induction 1 as [|p c ps bs Hc _ IH]; intros Hsame; constructor.
  - eapply seg_frame; [exact Hc|]. intros n Hn. apply Hsame. cbn [concat]. set_solver.
  - apply IH. intros n Hn. apply Hsame. cbn [concat]. set_solver.
Qed.

Lemma c_keys_ok a h c p fuel : seg h p c 0 → (length c < fuel)%nat →
  c_keys fuel p (Mem a h) = Ok ((λ n, _strcpy (n_key n)) <$> c, Mem a h, []).
Proof.
  revert p fuel. induction c as [|n c IH]; intros p [|fuel]; cbn [seg length]; try lia; cbn [c_keys]; [by intros -> _|].
  intros (->&Hp&r&Hr&Hc) Hf. rewrite (proj2 (Z.eqb_neq _ 0)) // (bind_ok _ _ _ _ _ (node_load_ok a h _ _ Hr)).
  rewrite (bind_ok _ _ _ _ _ (IH r fuel Hc ltac:(lia))) //.
Qed.
Lemma c_list_refines m t a h p ks a' o :
  wf m → repr h t m → list_keys m a = Ok ((p, ks), a', o) → c_list t (Mem a h) = Ok ((p, ks), Mem a' h, o).
Proof.
  intros Hwf Hr. pose proof (repr_chains _ _ _ Hr) as Hchains. pose proof Hr as (Hcnt&_).
  rewrite /list_keys /c_list Hcnt. destruct (count m =? 0); [by intros [= <- <- <- <-]|].
  intros (q&a1&o1&o2&Hm&Hrun&->)%bind_inv. rewrite /c_malloc /zoom /mbind /M_bind /= Hm. revert Hrun.
  destruct (q =? 0); [by intros [= <- <- <- <-]|]. intros [= <- <- <- <-].
  assert (Hall : ∀ ps bs, Forall2 (λ p c, seg h p c 0) ps bs → NoDup (n_addr <$> concat bs) →
    c_all_keys ps (Mem a1 h) = Ok ((λ n, _strcpy (n_key n)) <$> concat bs, Mem a1 h, [])).
  { induction 1 as [|p1 c ps bs Hc _ IH]; [done|]. intros (Hndc&Hndb&_)%nodup_chain. cbn [c_all_keys concat].
    rewrite (bind_ok _ _ _ _ _ eq_refl) fmap_app.
    rewrite (bind_ok _ _ _ _ _ (c_keys_ok a1 h c p1 _ Hc _)); [rewrite /walk_fuel /=; apply Nat.lt_succ_r; by eapply seg_length|].
    by rewrite (bind_ok _ _ _ _ _ (IH Hndb)). }
  by rewrite (Hall _ _ Hchains (wf_addrs _ Hwf)).
Qed.

(** After the nodes [c] were freed. *)
Definition freed c h h' : Prop := ∀ q, h' !! q = if decide (q ∈ n_addr <$> c) then None else h !! q.

Lemma freed_one n h : freed [n] h (base.delete (n_addr n) h).
Proof.
  intros q. rewrite lookup_delete. destruct (decide (n_addr n = q)) as [<-|Hne].
  - rewrite decide_True //. by left.
  - rewrite decide_False //. by intros ->%list_elem_of_singleton.
Qed.
Lemma freed_trans c1 c2 h h1 h2 : freed c1 h h1 → freed c2 h1 h2 → freed (c1 ++ c2) h h2.
Proof.
  intros H1 H2 q. rewrite H2 H1 fmap_app. destruct (decide (q ∈ n_addr <$> c2)) as [Hq|Hq].
  - rewrite decide_True // elem_of_app. by right.
  - destruct (decide (q ∈ n_addr <$> c1)); [rewrite decide_True // elem_of_app; by left|].
    rewrite decide_False // elem_of_app. by intros [].
Qed.
Lemma free_chain_refines c p fuel a h a' o :
  seg h p c 0 → NoDup (n_addr <$> c) → (length c < fuel)%nat → free_chain c a = Ok (tt, a', o) →
  ∃ h', c_free_chain fuel p (Mem a h) = Ok (tt, Mem a' h', o) ∧ freed c h h'.
Proof.
  revert p fuel a h a' o. induction c as [|n c IH]; intros p [|fuel] a h a' o; cbn [seg length]; try lia; cbn [c_free_chain free_chain].
  { intros -> _ _ [= <- <-]. by exists h. }
  intros (->&Hp&r&Hr&Hc) [Hn Hnd]%NoDup_cons Hf ([]&a1&o1&o2&Hfree&Hrun&->)%bind_inv.
  rewrite (proj2 (Z.eqb_neq _ 0)) // (bind_ok _ _ _ _ _ (node_load_ok a h _ _ Hr)). cbn [c_next].
  destruct (IH r fuel a1 (base.delete (n_addr n) h) a' o2) as (h'&Hrun'&Hh'); [|done|lia|done|].
  { eapply seg_frame; [exact Hc|]. intros x Hx. apply lookup_delete_ne. intros Heq. apply Hn. rewrite Heq. by apply list_elem_of_fmap_2. }
  exists h'. rewrite {1}/mbind /M_bind (c_free_ok _ _ _ _ _ Hfree) Hrun'. split; [done|]. by apply (freed_trans [n] c _ _ _ (freed_one n h)).
Qed.
Lemma free_buckets_refines (bs : list (list (node V))) ps a h a' o :
  Forall2 (λ p c, seg h p c 0) ps bs → NoDup (n_addr <$> concat bs) → free_buckets bs a = Ok (tt, a', o) →
  ∃ h', c_free_buckets ps (Mem a h) = Ok (tt, Mem a' h', o) ∧ freed (concat bs) h h'.
Proof.
  intros HF. revert a h a' o HF. revert ps. induction bs as [|c bs IH]; intros ps a h a' o HF.
  { apply Forall2_nil_inv_r in HF as ->. intros _ [= <- <-]. by exists h. }
  apply Forall2_cons_inv_r in HF as (p&ps'&Hc&HF&->). intros (Hndc&Hndb&Hdisj)%nodup_chain.
  cbn [free_buckets c_free_buckets]. intros ([]&a1&o1&o2&Hfree&Hrun&->)%bind_inv. rewrite (bind_ok _ _ _ _ _ eq_refl).
  destruct (free_chain_refines c p (walk_fuel (Mem a h)) a h a1 o1) as (h1&Hr1&Hh1); [done..| |done|].
  { rewrite /walk_fuel /=. apply Nat.lt_succ_r. by eapply seg_length. }
  destruct (IH ps' a1 h1 a' o2) as (h'&Hr'&Hh'); [|done..|].
  { eapply chains_frame; [exact HF|]. intros x Hx. rewrite Hh1 decide_False //. by apply Hdisj. }
  exists h'. rewrite {1}/mbind /M_bind Hr1 Hr'. split; [done|]. by eapply freed_trans.
Qed.

Lemma c_destroy_refines m t a h m' a' o :
  wf m → repr h t m → destroy m a = Ok (m', a', o) →
  ∃ h', c_destroy t (Mem a h) = Ok (c_init, Mem a' h', o) ∧ repr h' c_init m' ∧ freed (nodes m) h h'.
Proof.
  intros Hwf Hr ([]&a1&o1&o2&Hf&[= <- <- <-]&->)%bind_inv.
  destruct (free_buckets_refines _ _ a h _ _ (repr_chains _ _ _ Hr) (wf_addrs _ Hwf) Hf) as (h'&Hrun&Hh').
  exists h'. rewrite /c_destroy {1}/mbind /M_bind Hrun. split; [done|]. split; [|done].
  split; [done|]. split; [done|]. intros i c [-> Hi]%lookup_replicate.
  unfold head, c_init, t_buckets. by rewrite lookup_replicate_2.
Qed.

(** ** Sequences of calls

    What is allocated beside the table's nodes is [L], throughout. *)
Record clean (K : string → Prop) (L : gset Z) m (t : table) (s : mem A V) : Prop := {
  cl_wf : wf m;
  cl_live : Alloc.live (m_alloc s) (L ∪ addrs m);
  cl_disjoint : addrs m ## L;
  cl_names n : n ∈ nodes m → K (n_key n);
  cl_repr : repr (m_nodes s) t m
}.

Lemma clean_good K L m t a h : clean K L m t (Mem a h) → good K (L ∪ addrs m) m a.
Proof. intros []. split; [done|]. split; [|done]. split; [done|set_solver]. Qed.

(** The list model keeps what is beside the table too. *)
Lemma insert_clean K L m k v a r m' a' o :
  distinguishable K → good K (L ∪ addrs m) m a → addrs m ## L → (String.length k ≤ 127)%nat → K k →
  insert m k v a = Ok ((r, m'), a', o) →
  Alloc.live a' (L ∪ addrs m') ∧ addrs m' ## L.
Proof.
  intros HK Hg Hd Hlen Hk Hrun. pose proof (good_separated _ _ _ _ _ HK Hg Hk) as Hsep. destruct Hg as (Hwf&Hown&_).
  pose proof (wp_known _ _ _ _ _ _ (insert_spec m k v a _ Hwf Hsep Hlen Hown) Hrun) as Hpost. cbn beta iota in Hpost.
  destruct Hpost as [(_&_&_&Hsub&Hnew&[Hl _])|(_&->&_&[Hl _])]; [|done]. split.
  - replace (L ∪ addrs m') with (L ∪ addrs m ∪ addrs m'); [done|]. set_solver.
  - intros x Hx HxL. destruct (decide (x ∈ addrs m)); set_solver.
Qed.
Lemma delete_clean K L m k a r m' a' o :
  distinguishable K → good K (L ∪ addrs m) m a → addrs m ## L → K k →
  delete m k a = Ok ((r, m'), a', o) →
  Alloc.live a' (L ∪ addrs m') ∧ addrs m' ## L.
Proof.
  intros HK Hg Hd Hk Hrun. pose proof (good_separated _ _ _ _ _ HK Hg Hk) as Hsep. destruct Hg as (Hwf&Hown&_).
  pose proof (wp_known _ _ _ _ _ _ (delete_spec m k a _ Hwf Hsep Hown) Hrun) as Hpost. cbn beta iota in Hpost.
  destruct (contents m !! k); [|by destruct Hpost as (_&->&->); split; [apply Hown|]].
  destruct Hpost as (_&_&_&p&Hp&->&Hl). split; [|set_solver].
  replace (L ∪ addrs m ∖ {[p]}) with ((L ∪ addrs m) ∖ {[p]}); [done|].
  apply set_eq. intros x. set_solver.
Qed.

Lemma do_call_clean K L m t (c : call (V:=V)) s :
  distinguishable K → clean K L m t s → (String.length (key_of c) ≤ 127)%nat ∧ K (key_of c) →
  wp (c_do_call t c) s (λ '(ans, t') s' _, ∃ m', clean K L m' t' s' ∧ spec_call (contents m) c ans (contents m')).
Proof.
  intros HK Hcl [Hlen Hkey]. destruct s as [a h]. pose proof (clean_good _ _ _ _ _ _ Hcl) as Hg.
  pose proof (do_call_spec K m c a _ HK Hg (conj Hlen Hkey)) as Hw. destruct Hcl as [Hwf Hl Hd Hn Hr]. cbn [m_alloc m_nodes] in *.
  apply wp_run in Hw as ([ans m']&a'&o&Hrun&Hspec&L'&(Hwf'&_&Hn')). destruct c as [k v|k|k|]; cbn [do_call c_do_call key_of] in *.
  - apply bind_inv in Hrun as ([r m1]&a1&o1&o2&Hrun&[= <- <- <- <-]&->).
    destruct (insert_clean K L m k v a r m1 a1 o1) as [Hl1 Hd1]; [done..|].
    destruct (c_insert_refines m t k v a h _ r m1 a1 o1 Hwf (proj1 (proj2 Hg)) Hr Hrun) as (h'&t'&Hrun'&Hr'&_).
    apply wp_bind. rewrite {1}/wp Hrun'. apply wp_ret. exists m1. split; [by split|done].
  - apply bind_inv in Hrun as ([r m1]&a1&o1&o2&Hrun&[= <- <- <- <-]&->).
    destruct (delete_clean K L m k a r m1 a1 o1) as [Hl1 Hd1]; [done..|].
    destruct (c_delete_refines m t k a h r m1 a1 o1 Hwf Hr Hrun) as (h'&t'&Hrun'&Hr'&_).
    apply wp_bind. rewrite {1}/wp Hrun'. apply wp_ret. exists m1. split; [by split|done].
  - injection Hrun as <- <- <- <-. eapply wp_bind_ok; [by apply c_find_ok|]. apply wp_ret. exists m. split; [by split|done].
  - injection Hrun as <- <- <- <-. apply wp_ret. exists m. pose proof Hr as (->&_). split; [by split|done].
Qed.

Lemma do_calls_clean K L m t (cs : list (call (V:=V))) s :
  distinguishable K → clean K L m t s →
  Forall (λ c : call (V:=V), (String.length (key_of c) ≤ 127)%nat ∧ K (key_of c)) cs →
  wp (c_do_calls t cs) s (λ '(rs, t') s' _, ∃ m', clean K L m' t' s' ∧ spec_calls (contents m) cs rs (contents m')).
Proof.
  intros HK Hcl Hcs. revert m t s Hcl. induction Hcs as [|c cs Hc _ IH]; intros m t s Hcl; cbn [c_do_calls].
  { apply wp_ret. exists m. split; [done|constructor]. }
  apply wp_bind. eapply wp_mono; [by apply (do_call_clean K L m)|]. intros [ans t1] s1 o1 (m1&Hcl1&Hs1).
  apply wp_bind. eapply wp_mono; [by apply IH|]. intros [rs t2] s2 o2 (m2&Hcl2&Hs2). apply wp_ret.
  exists m2. split; [done|by econstructor].
Qed.

Lemma init_clean K L a h : Alloc.live a L → clean K L init c_init (Mem a h).
Proof.
  intros Hl. destruct (init_wf (V:=V)) as (Hwf&_&Ha). split; [done|by rewrite Ha union_empty_r_L|by rewrite Ha| |].
  - intros n Hn. by apply elem_of_nil in Hn.
  - split; [done|]. split; [done|]. intros i c [-> Hi]%lookup_replicate.
    unfold head, c_init, t_buckets. by rewrite lookup_replicate_2.
Qed.

Lemma destroy_clean K L m t s : clean K L m t s →
  wp (c_destroy t) s (λ t' s' _, t' = c_init ∧ Alloc.live (m_alloc s') L ∧
    ∀ p, m_nodes s' !! p = if decide (p ∈ addrs m) then None else m_nodes s !! p).
Proof.
  destruct s as [a h]. intros [Hwf Hl Hd _ Hr]. cbn [m_alloc m_nodes] in *.
  pose proof (destroy_spec m a (L ∪ addrs m) Hwf) as Hw. apply wp_run in Hw as (m'&a'&o&Hrun&->&Hl'); [|split; [done|set_solver]].
  destruct (c_destroy_refines m t a h _ a' o Hwf Hr Hrun) as (h'&Hrun'&_&Hh'). rewrite /wp Hrun'. split; [done|].
  split; [|intros p; rewrite Hh'; apply decide_ext; by rewrite elem_of_list_to_set].
  cbn [m_alloc]. replace L with ((L ∪ addrs m) ∖ addrs m); [done|]. set_solver.
Qed.

End refinement.

(** * Two folders in one bucket, on the kernel heap

    The first is unlinked from behind the second. *)
Definition demo_calls : list (call (V:=ramfs_foder_info)) :=
  [Insert "b" RamfsHash.docs; Insert "r" RamfsHash.docs; Delete "b"; Find "b"; Count].
Example demo_bucket : idx "b" = idx "r".
Proof. by vm_compute. Qed.


End HashChain.
