(* ===== verification/Uthash.v ===== *)
(** kernel/includes/uthash.h: the hash table of the environment and of the
    command table, as far as the program expands it: [HASH_FIND_STR],
    [HASH_ADD_STR] and [HASH_ITER] with what they are made of.

    A bucket's chain is the list of the elements' addresses in the order of
    [hh_next], the application order the list in the order of [next]; the
    elements themselves are in one map, so that what is written through a
    pointer is seen by both. [out of memory] ends in [exit]. *)
From S2P Require Import Prelude.
From S2P Require Import Allocator.
From S2P Require Import Malloc.
From S2P Require Import CString.
Import CString.
#[local] Open Scope general_if_scope.

(** [exit] of kernel/src/stdlib.c: it resets the machine and never returns. *)
Definition exit {St X} (code : Z) : M St X :=
  printf ("System rebooting. Code: %d" +:+ nl) [AInt code];; nofuel.

Module Uthash.

(** * HASH_JEN *)

Definition HASH_JEN_MIX (a b c : Z) : Z * Z * Z :=
  let a := u32 (a - b) in let a := u32 (a - c) in let a := Z.lxor a (Z.shiftr c 13) in
  let b := u32 (b - c) in let b := u32 (b - a) in let b := Z.lxor b (u32 (Z.shiftl a 8)) in
  let c := u32 (c - a) in let c := u32 (c - b) in let c := Z.lxor c (Z.shiftr b 13) in
  let a := u32 (a - b) in let a := u32 (a - c) in let a := Z.lxor a (Z.shiftr c 12) in
  let b := u32 (b - c) in let b := u32 (b - a) in let b := Z.lxor b (u32 (Z.shiftl a 16)) in
  let c := u32 (c - a) in let c := u32 (c - b) in let c := Z.lxor c (Z.shiftr b 5) in
  let a := u32 (a - b) in let a := u32 (a - c) in let a := Z.lxor a (Z.shiftr c 3) in
  let b := u32 (b - c) in let b := u32 (b - a) in let b := Z.lxor b (u32 (Z.shiftl a 10)) in
  let c := u32 (c - a) in let c := u32 (c - b) in let c := Z.lxor c (Z.shiftr b 15) in
  (a, b, c).

Definition word (k0 k1 k2 k3 : Z) : Z :=
  u32 (k0 + u32 (Z.shiftl k1 8) + u32 (Z.shiftl k2 16) + u32 (Z.shiftl k3 24)).

(** The loop over blocks of twelve bytes, and the bytes that are left. *)
Fixpoint jen_blocks (key : list Z) (i j h : Z) : list Z * (Z * Z * Z) :=
  match key with
  | k0 :: k1 :: k2 :: k3 :: k4 :: k5 :: k6 :: k7 :: k8 :: k9 :: k10 :: k11 :: key =>
      let '(i, j, h) := HASH_JEN_MIX (u32 (i + word k0 k1 k2 k3)) (u32 (j + word k4 k5 k6 k7)) (u32 (h + word k8 k9 k10 k11)) in
      jen_blocks key i j h
  | _ => (key, (i, j, h))
  end.

(** The cases of the [switch] fall through: a byte that is not there adds
    nothing. *)
Definition HASH_JEN (key : list Z) : Z :=
  let '(rest, (i, j, h)) := jen_blocks key 2654435769 2654435769 4276993775 in
  let k n := nth n rest 0 in
  let h := u32 (h + Z.of_nat (length key)) in
  let h := u32 (h + u32 (Z.shiftl (k 10%nat) 24)) in
  let h := u32 (h + u32 (Z.shiftl (k 9%nat) 16)) in
  let h := u32 (h + u32 (Z.shiftl (k 8%nat) 8)) in
  let j := u32 (j + u32 (Z.shiftl (k 7%nat) 24)) in
  let j := u32 (j + u32 (Z.shiftl (k 6%nat) 16)) in
  let j := u32 (j + u32 (Z.shiftl (k 5%nat) 8)) in
  let j := u32 (j + k 4%nat) in
  let i := u32 (i + u32 (Z.shiftl (k 3%nat) 24)) in
  let i := u32 (i + u32 (Z.shiftl (k 2%nat) 16)) in
  let i := u32 (i + u32 (Z.shiftl (k 1%nat) 8)) in
  let i := u32 (i + k 0%nat) in
  snd (HASH_JEN_MIX i j h).

(** The hash of a C string. *)
Definition hash_str (s : string) : Z := HASH_JEN (byte_of <$> String.list_ascii_of_string s).

(** * Tables *)

Definition HASH_INITIAL_NUM_BUCKETS : Z := 32.
Definition HASH_INITIAL_NUM_BUCKETS_LOG2 : Z := 5.
Definition HASH_BKT_CAPACITY_THRESH : Z := 10.
Definition sizeof_UT_hash_table : Z := 44.
Definition sizeof_UT_hash_bucket : Z := 12.

Record UT_hash_bucket : Type := Bucket { hh_head : list Z; count : Z; expand_mult : Z }.
Record UT_hash_table : Type := Table {
  self : Z;
  buckets_at : Z;
  buckets : list UT_hash_bucket;
  num_buckets : Z;
  log2_num_buckets : Z;
  num_items : Z;
  ideal_chain_maxlen : Z;
  nonideal_items : Z;
  ineff_expands : Z;
  noexpand : Z
}.

(** An element: the key and its hash value of the handle, and what the
    application keeps beside them. *)
Record element (V : Type) : Type := Element { key : string; hashv : Z; value : V }.
Arguments Element {V} _ _ _.
Arguments key {V} _.
Arguments hashv {V} _.
Arguments value {V} _.

(** What a head that is not NULL leads to. *)
Record hash (V : Type) : Type := Hash { order : list Z; elements : gmap Z (element V); tbl : UT_hash_table }.
Arguments Hash {V} _ _ _.
Arguments order {V} _.
Arguments elements {V} _.
Arguments tbl {V} _.

Definition HASH_TO_BKT (hashv num_bkts : Z) : nat := Z.to_nat (Z.land hashv (u32 (num_bkts - 1))).

Section ops.
Context {V : Type}.
Implicit Types (els : gmap Z (element V)) (t : UT_hash_table).

(** The test of [HASH_FIND_IN_BKT]: hash values, lengths, [memcmp]. *)
Definition key_matches (k name : string) (h : Z) : bool :=
  (h =? hash_str name) && Nat.eqb (String.length k) (String.length name) &&
  (memcmp k name (String.length name) =? 0).

Fixpoint HASH_FIND_IN_BKT {St} els (chain : list Z) (name : string) : M St (option Z) :=
  match chain with
  | [] => mret None
  | out :: chain =>
      e ← unwrap (els !! out);
      if key_matches (key e) name (hashv e) then mret (Some out) else HASH_FIND_IN_BKT els chain name
  end.

(** NULL when the head is, or when no element is found. *)
Definition HASH_FIND_STR {St} (head : option (hash V)) (name : string) : M St (option Z) :=
  match head with
  | None => mret None
  | Some h =>
      b ← unwrap (buckets (tbl h) !! HASH_TO_BKT (hash_str name) (num_buckets (tbl h)));
      HASH_FIND_IN_BKT (elements h) (hh_head b) name
  end.

(** The elements [HASH_ITER] visits. *)
Definition HASH_ITER (head : option (hash V)) : option (list (element V)) :=
  match head with
  | None => Some []
  | Some h => mapM (λ p, elements h !! p) (order h)
  end.

(** A write to what the application keeps in an element. *)
Definition set_value (p : Z) (f : V → V) (head : option (hash V)) : option (hash V) :=
  (λ h, Hash (order h) (alter (λ e, Element (key e) (hashv e) (f (value e))) p (elements h)) (tbl h)) <$> head.

Definition set_buckets (bs : list UT_hash_bucket) t : UT_hash_table :=
  Table (self t) (buckets_at t) bs (num_buckets t) (log2_num_buckets t) (num_items t) (ideal_chain_maxlen t)
    (nonideal_items t) (ineff_expands t) (noexpand t).
Definition set_num_items (n : Z) t : UT_hash_table :=
  Table (self t) (buckets_at t) (buckets t) (num_buckets t) (log2_num_buckets t) n (ideal_chain_maxlen t)
    (nonideal_items t) (ineff_expands t) (noexpand t).

(** The body of the loops of [HASH_EXPAND_BUCKETS] for one element, and the
    loops: [bs] are the new buckets, [nonideal] counts. *)
Definition move_item els (num ideal : Z) (acc : list UT_hash_bucket * Z) (p : Z) : option (list UT_hash_bucket * Z) :=
  let '(bs, nonideal) := acc in
  e ← els !! p;
  let i := HASH_TO_BKT (hashv e) num in
  b ← bs !! i;
  let count := u32 (count b + 1) in
  let over := ideal <? count in
  let mult := if over && (u32 (expand_mult b * ideal) <? count) then u32 (expand_mult b + 1) else expand_mult b in
  Some (<[i := Bucket (p :: hh_head b) count mult]> bs, if over then u32 (nonideal + 1) else nonideal).
Fixpoint move_items els (num ideal : Z) (acc : list UT_hash_bucket * Z) (ps : list Z) : option (list UT_hash_bucket * Z) :=
  match ps with
  | [] => Some acc
  | p :: ps => acc ← move_item els num ideal acc p; move_items els num ideal acc ps
  end.

Context {A : Type} `{!Alloc.Allocator A}.

Definition HASH_MAKE_TABLE : M A UT_hash_table :=
  self ← Alloc.malloc sizeof_UT_hash_table;
  if self =? 0 then exit (-1)
  else
    bs ← Alloc.malloc (HASH_INITIAL_NUM_BUCKETS * sizeof_UT_hash_bucket);
    if bs =? 0 then exit (-1)
    else
      mret (Table self bs (replicate (Z.to_nat HASH_INITIAL_NUM_BUCKETS) (Bucket [] 0 0)) HASH_INITIAL_NUM_BUCKETS
        HASH_INITIAL_NUM_BUCKETS_LOG2 0 0 0 0 0).

Definition HASH_EXPAND_BUCKETS els t : M A UT_hash_table :=
  let size := u32 (u32 (sizeof_UT_hash_bucket * num_buckets t) * 2) in
  new ← Alloc.malloc size;
  if new =? 0 then exit (-1)
  else
    let num := u32 (num_buckets t * 2) in
    let ideal := u32 (Z.shiftr (num_items t) (log2_num_buckets t + 1) +
      (if Z.land (num_items t) (u32 (num - 1)) =? 0 then 0 else 1)) in
    '(bs, nonideal) ← unwrap (move_items els num ideal
      (replicate (Z.to_nat (size / sizeof_UT_hash_bucket)) (Bucket [] 0 0), 0) (concat (hh_head <$> buckets t)));
    Alloc.free (buckets_at t);;
    let ineff := if Z.shiftr (num_items t) 1 <? nonideal then u32 (ineff_expands t + 1) else 0 in
    mret (Table (self t) new bs num (log2_num_buckets t + 1) (num_items t) ideal nonideal ineff
      (if 1 <? ineff then 1 else noexpand t)).

Definition HASH_ADD_TO_BKT els t (i : nat) (add : Z) : M A UT_hash_table :=
  b ← unwrap (buckets t !! i);
  let b := Bucket (add :: hh_head b) (u32 (count b + 1)) (expand_mult b) in
  let t := set_buckets (<[i := b]> (buckets t)) t in
  if (u32 (u32 (expand_mult b + 1) * HASH_BKT_CAPACITY_THRESH) <=? count b) && (noexpand t =? 0)
  then HASH_EXPAND_BUCKETS els t else mret t.

Definition HASH_ADD_TO_TABLE els t (add : Z) (hashval : Z) : M A UT_hash_table :=
  let t := set_num_items (u32 (num_items t + 1)) t in
  HASH_ADD_TO_BKT els t (HASH_TO_BKT hashval (num_buckets t)) add.

(** [HASH_ADD_STR] of the element at [add] with this key; a first element
    gets a new table, another one is appended ([HASH_APPEND_LIST]). *)
Definition HASH_ADD_STR (head : option (hash V)) (add : Z) (k : string) (v : V) : M A (option (hash V)) :=
  let e := Element k (hash_str k) v in
  h ← match head with
      | None => t ← HASH_MAKE_TABLE; mret (Hash [add] {[add := e]} t)
      | Some h => mret (Hash (order h ++ [add]) (<[add := e]> (elements h)) (tbl h))
      end;
  t ← HASH_ADD_TO_TABLE (elements h) (tbl h) add (hash_str k);
  mret (Some (Hash (order h) (elements h) t)).
End ops.

(** The values of the C code. *)
Example hash_values : hash_str <$> ["help"; "pwd"; "backspace"; "*dcip"; "ABCDEFGHIJKLMNOPQRSTUVWXYZ"] =
  [4071961134; 547421019; 4214310527; 2962304152; 671033671].
Proof. vm_compute. reflexivity. Qed.

(** * Contents *)

Section theory.
Context {V : Type}.
Implicit Types (els : gmap Z (element V)) (t : UT_hash_table) (h : hash V) (bs : list UT_hash_bucket) (l : list (string * V)).

(** Two keys are the same to the table: its hash values and its [memcmp] do
    not tell them apart. *)
Definition same_key (k name : string) : bool := key_matches k name (hash_str k).

Fixpoint lookup (name : string) l : option V :=
  match l with
  | [] => None
  | (k, v) :: l => if same_key k name then Some v else lookup name l
  end.
Fixpoint assign (name : string) (f : V → V) l : list (string * V) :=
  match l with
  | [] => []
  | (k, v) :: l => if same_key k name then (k, f v) :: l else (k, v) :: assign name f l
  end.

Definition entry_at els (p : Z) : option (string * V) := (λ e, (key e, value e)) <$> els !! p.
Definition contents (head : option (hash V)) : list (string * V) :=
  match head with None => [] | Some h => omap (entry_at (elements h)) (order h) end.

(** Keys with different hash values are told apart. *)
Definition distinct_hashes l : Prop := NoDup (hash_str <$> l.*1).

Lemma same_key_hash k name : same_key k name = true → hash_str k = hash_str name.
Proof. rewrite /same_key /key_matches !andb_true_iff. intros [[Hh%Z.eqb_eq _] _]. done. Qed.
Lemma same_key_refl k : same_key k k = true.
Proof.
  rewrite /same_key /key_matches Z.eqb_refl Nat.eqb_refl /=. apply Z.eqb_eq. induction k as [|c k IH]; [done|]. simpl.
  rewrite Z.ltb_irrefl Z.gtb_ltb Z.ltb_irrefl. exact IH.
Qed.
Lemma same_key_file k name : same_key k name = true → dominates k name.
Proof.
  rewrite /same_key /key_matches !andb_true_iff. intros [[_ Hl%Nat.eqb_eq] Hm%Z.eqb_eq]. apply _file_streq_spec.
  by rewrite /_file_streq Hl Nat.eqb_refl /= Hm.
Qed.

Lemma lookup_middle name k v l1 l2 :
  distinct_hashes (l1 ++ (k, v) :: l2) → same_key k name = true →
  lookup name (l1 ++ (k, v) :: l2) = Some v ∧
  ∀ f, assign name f (l1 ++ (k, v) :: l2) = l1 ++ (k, f v) :: l2.
Proof.
  intros Hd Hk. induction l1 as [|[k1 v1] l1 IH]; cbn [app lookup assign]; [by rewrite Hk|].
  rewrite /distinct_hashes /= in Hd. apply NoDup_cons in Hd as [Hn Hd].
  assert (Hf : same_key k1 name = false).
  { apply not_true_iff_false. intros H1%same_key_hash. apply same_key_hash in Hk. apply Hn.
    rewrite H1 -Hk. apply list_elem_of_fmap_2, (list_elem_of_fmap_2 fst _ (k, v)). set_solver. }
  rewrite Hf. destruct (IH Hd) as [-> Ha]. split; [done|]. intros f. by rewrite Ha.
Qed.
Lemma distinct_inj l k1 v1 k2 v2 : distinct_hashes l → (k1, v1) ∈ l → (k2, v2) ∈ l → hash_str k1 = hash_str k2 → k1 = k2.
Proof.
  rewrite /distinct_hashes. induction l as [|[k v] l IH]; [by intros _ ?%elem_of_nil|]. cbn [fmap list_fmap fst].
  assert (Hin : ∀ k' v', (k', v') ∈ l → hash_str k' ∈ hash_str <$> l.*1).
  { intros k' v' Hkv. apply list_elem_of_fmap_2. by apply (list_elem_of_fmap_2 fst _ (k', v')). }
  intros [Hn Hd]%NoDup_cons [[= -> ->]|H1]%elem_of_cons [[= -> ->]|H2]%elem_of_cons Heq; [done|..|by eapply IH].
  - destruct Hn. rewrite Heq. by eapply Hin.
  - destruct Hn. rewrite -Heq. by eapply Hin.
Qed.
Lemma lookup_absent name l : (∀ k v, (k, v) ∈ l → same_key k name = false) → lookup name l = None.
Proof.
  induction l as [|[k v] l IH]; intros Hl; [done|]. cbn [lookup]. rewrite (Hl k v); [by left|].
  apply IH. intros k' v' Hin. apply (Hl k' v'). by right.
Qed.
Lemma assign_keys name f l : (assign name f l).*1 = l.*1.
Proof. induction l as [|[k v] l IH]; [done|]. cbn [assign]. destruct (same_key k name); [done|]. cbn. by rewrite IH. Qed.
Lemma lookup_assign name f l : lookup name (assign name f l) = f <$> lookup name l.
Proof.
  induction l as [|[k v] l IH]; [done|]. cbn [assign lookup]. destruct (same_key k name) eqn:Hk; cbn [lookup]; rewrite Hk //.
Qed.

(** * The invariant *)

Lemma to_bkt_lt x k : 0 ≤ k ≤ 31 → (HASH_TO_BKT x (2 ^ k) < Z.to_nat (2 ^ k))%nat.
Proof.
  intros Hk. assert (Hp : 0 < 2 ^ k ≤ 2 ^ 31) by (split; [apply Z.pow_pos_nonneg; lia|apply Z.pow_le_mono_r; lia]).
  rewrite /HASH_TO_BKT u32_small; [lia|]. rewrite (_ : 2 ^ k - 1 = Z.ones k); [by rewrite Z.ones_equiv; lia|].
  rewrite Z.land_ones; [lia|]. pose proof (Z.mod_pos_bound x (2 ^ k)). lia.
Qed.

(** Buckets that hold the elements [ps], each where its hash value says. *)
Record holds els (num : Z) bs (ps : list Z) : Prop := {
  hd_length : length bs = Z.to_nat num;
  hd_chains : concat (hh_head <$> bs) ≡ₚ ps;
  hd_place i b p : bs !! i = Some b → p ∈ hh_head b → ∃ e, els !! p = Some e ∧ HASH_TO_BKT (hashv e) num = i;
  hd_counts i b : bs !! i = Some b → count b = Z.of_nat (length (hh_head b)) ∧ 0 ≤ expand_mult b ≤ 268435456
}.
(** In an array of buckets that is being filled the multipliers are low. *)
Definition low bs : Prop := Forall (λ b, expand_mult b ≤ count b) bs.

Lemma concat_empty n : concat (hh_head <$> replicate n (Bucket [] 0 0)) = [].
Proof. induction n; [done|]. by cbn. Qed.
Lemma holds_nil els num n : n = Z.to_nat num → holds els num (replicate n (Bucket [] 0 0)) [].
Proof.
  intros ->. split; [by rewrite length_replicate|by rewrite concat_empty| |].
  - intros i b p [-> _]%lookup_replicate Hp. by apply elem_of_nil in Hp.
  - intros i b [-> _]%lookup_replicate. split; [done|simpl; lia].
Qed.
Lemma holds_perm els num bs ps ps' : holds els num bs ps → ps ≡ₚ ps' → holds els num bs ps'.
Proof. intros [] Hp. split; [done|by rewrite -Hp|done..]. Qed.
Lemma holds_els els els' num bs ps :
  holds els num bs ps → (∀ p e, p ∈ ps → els !! p = Some e → ∃ e', els' !! p = Some e' ∧ hashv e' = hashv e) →
  holds els' num bs ps.
Proof.
  intros [Hl Hc Hp Hn] Hsame. split; [done|done| |done]. intros i b p Hi Hin. destruct (Hp i b p Hi Hin) as (e&He&<-).
  destruct (Hsame p e) as (e'&He'&Heq); [|done|exists e'; by rewrite Heq]. rewrite -Hc.
  apply (elem_of_concat (hh_head <$> bs) (HASH_TO_BKT (hashv e) num) (hh_head b)); [by rewrite list_lookup_fmap Hi|done].
Qed.

(** An element is in the chain of its hash value. *)
Lemma in_bucket els num bs ps p e b :
  holds els num bs ps → p ∈ ps → els !! p = Some e → bs !! HASH_TO_BKT (hashv e) num = Some b → p ∈ hh_head b.
Proof.
  intros Hh Hp He Hb. rewrite -(hd_chains _ _ _ _ Hh) in Hp. apply list_elem_of_In, in_concat in Hp as (c&Hc&Hp).
  apply list_elem_of_In, list_elem_of_lookup in Hc as [j Hj]. rewrite list_lookup_fmap in Hj.
  apply fmap_Some in Hj as (b'&Hb'&->). apply list_elem_of_In in Hp.
  destruct (hd_place _ _ _ _ Hh _ _ _ Hb' Hp) as (e'&He'&Hj). rewrite He in He'. injection He' as <-.
  rewrite Hj Hb' in Hb. by injection Hb as <-.
Qed.

Lemma bucket_count els num bs ps i b : holds els num bs ps → bs !! i = Some b → (length (hh_head b) ≤ length ps)%nat.
Proof.
  intros [_ Hc _ _] Hi. destruct (concat_insert (hh_head <$> bs) i (hh_head b)) as (rest&Hall&_).
  { by rewrite list_lookup_fmap Hi. }
  rewrite -Hc Hall length_app. lia.
Qed.

(** One more element at the front of its chain. *)
Lemma holds_add els num bs ps p e i b m :
  holds els num bs ps → els !! p = Some e → HASH_TO_BKT (hashv e) num = i → bs !! i = Some b →
  Z.of_nat (length ps) + 1 < 4294967296 → 0 ≤ m ≤ 268435456 →
  holds els num (<[i := Bucket (p :: hh_head b) (u32 (count b + 1)) m]> bs) (p :: ps).
Proof.
  intros Hh Hp Hi Hb Hlen Hm. pose proof (bucket_count _ _ _ _ _ _ Hh Hb) as Hbl. destruct Hh as [Hl Hc Hpl Hn].
  destruct (Hn _ _ Hb) as [Hcnt _]. destruct (concat_insert (hh_head <$> bs) i (hh_head b)) as (rest&Hall&Hins).
  { by rewrite list_lookup_fmap Hb. }
  assert (Hlt : (i < length bs)%nat) by by eapply lookup_lt_Some.
  assert (Hcases : ∀ j b', <[i := Bucket (p :: hh_head b) (u32 (count b + 1)) m]> bs !! j = Some b' →
    (j = i ∧ b' = Bucket (p :: hh_head b) (u32 (count b + 1)) m) ∨ bs !! j = Some b').
  { intros j b'. destruct (decide (i = j)) as [<-|Hne]; [|rewrite list_lookup_insert_ne //; by right].
    rewrite list_lookup_insert_eq //. intros [= <-]. by left. }
  split.
  - by rewrite length_insert.
  - rewrite list_fmap_insert /= Hins -Hc Hall. done.
  - intros j b' q [[-> ->]|Hj]%Hcases Hq; [|by eapply Hpl]. cbn [hh_head] in Hq.
    apply elem_of_cons in Hq as [->|Hq]; [by exists e|]. by eapply Hpl.
  - intros j b' [[-> ->]|Hj]%Hcases; [|by eapply Hn]. cbn [count hh_head expand_mult length].
    rewrite u32_small; [lia|]. lia.
Qed.

Lemma move_item_holds els k ideal bs nonideal ps p e :
  holds els (2 ^ k) bs ps → low bs → 0 ≤ k ≤ 31 → els !! p = Some e → Z.of_nat (length ps) + 1 < 268435456 →
  ∃ bs' nonideal', move_item els (2 ^ k) ideal (bs, nonideal) p = Some (bs', nonideal') ∧ holds els (2 ^ k) bs' (p :: ps) ∧
    low bs'.
Proof.
  intros Hh Hlow Hk He Hlen. rewrite /move_item He /=. pose proof (to_bkt_lt (hashv e) k Hk) as Hlt.
  rewrite -(hd_length _ _ _ _ Hh) in Hlt. destruct (lookup_lt_is_Some_2 _ _ Hlt) as [b Hb]. rewrite Hb /=.
  destruct (hd_counts _ _ _ _ Hh _ _ Hb) as [Hc Hm]. pose proof (bucket_count _ _ _ _ _ _ Hh Hb).
  pose proof (Forall_lookup_1 _ _ _ _ Hlow Hb) as Hlb. cbv beta in Hlb.
  eexists _, _. split; [done|]. set m := if _ && _ then _ else _. assert (Hmb : 0 ≤ m ≤ count b + 1).
  { rewrite /m. case_match; [|lia]. rewrite u32_small; lia. }
  split; [eapply holds_add; [done..|lia|lia]|]. apply Forall_insert; [done|]. cbn [expand_mult count].
  rewrite u32_small; lia.
Qed.
Lemma move_items_holds els k ideal bs nonideal ps qs :
  holds els (2 ^ k) bs ps → low bs → 0 ≤ k ≤ 31 → Forall (λ p, is_Some (els !! p)) qs →
  Z.of_nat (length ps + length qs) < 268435456 →
  ∃ bs' nonideal', move_items els (2 ^ k) ideal (bs, nonideal) qs = Some (bs', nonideal') ∧ holds els (2 ^ k) bs' (qs ++ ps).
Proof.
  intros Hh Hlow Hk Hqs. revert bs nonideal ps Hh Hlow. induction Hqs as [|q qs [e He] _ IH]; intros bs nonideal ps Hh Hlow Hlen.
  { by exists bs, nonideal. }
  cbn [length] in Hlen. destruct (move_item_holds els k ideal bs nonideal ps q e Hh Hlow Hk He) as (bs1&n1&Hr1&Hh1&Hlow1); [lia|].
  destruct (IH bs1 n1 (q :: ps) Hh1 Hlow1) as (bs2&n2&Hr2&Hh2); [cbn [length]; lia|].
  exists bs2, n2. cbn [move_items]. rewrite Hr1 /=. split; [done|]. eapply holds_perm; [done|]. by rewrite -Permutation_middle.
Qed.

(** [n] is the number of elements that were ever added: the buckets have not
    been doubled more often than that allows. *)
Record wf_in (n : nat) h : Prop := {
  wf_log : 5 ≤ log2_num_buckets (tbl h) ≤ 5 + Z.max 0 (Z.of_nat n - 9);
  wf_num : num_buckets (tbl h) = 2 ^ log2_num_buckets (tbl h);
  wf_holds : holds (elements h) (num_buckets (tbl h)) (buckets (tbl h)) (order h);
  wf_order : NoDup (order h);
  wf_elements p : p ∈ order h ↔ is_Some (elements h !! p);
  wf_hashv p e : elements h !! p = Some e → hashv e = hash_str (key e);
  wf_items : num_items (tbl h) = Z.of_nat (length (order h));
  wf_small : (length (order h) ≤ n ≤ 30)%nat;
  wf_addrs : self (tbl h) ≠ buckets_at (tbl h)
}.
Definition order_of (head : option (hash V)) : list Z := match head with None => [] | Some h => order h end.
Definition head_in (n : nat) (head : option (hash V)) : Prop :=
  match head with None => True | Some h => wf_in n h end.
(** Every element that was added is still there. *)
Abbreviation wf h := (wf_in (length (order h)) h).
Definition head_ok (head : option (hash V)) : Prop := head_in (length (order_of head)) head.
Definition size (head : option (hash V)) : Z := Z.of_nat (length (contents head)).

Lemma contents_length n h : wf_in n h → length (contents (Some h)) = length (order h).
Proof.
  intros Hwf. cbn [contents]. assert (Hall : Forall (λ p, is_Some (elements h !! p)) (order h)).
  { apply Forall_forall. intros p. apply (wf_elements _ _ Hwf). }
  induction Hall as [|p ps [e He] _ IH]; [done|]. cbn [omap list_omap]. by rewrite /entry_at He /= IH.
Qed.
Lemma contents_split els ps1 p ps2 e :
  els !! p = Some e → omap (entry_at els) (ps1 ++ p :: ps2) =
    omap (entry_at els) ps1 ++ (key e, value e) :: omap (entry_at els) ps2.
Proof. intros He. by rewrite omap_app /= {2}/entry_at He. Qed.
Lemma entries_ext els els' (ps : list Z) :
  (∀ p, p ∈ ps → els' !! p = els !! p) → omap (entry_at els') ps = omap (entry_at els) ps.
Proof.
  induction ps as [|p ps IH]; intros Hsame; [done|]. cbn [omap list_omap]. rewrite IH.
  - intros q Hq. apply Hsame. by right.
  - rewrite /entry_at Hsame //. by left.
Qed.
Lemma elem_of_contents h k v : (k, v) ∈ contents (Some h) ↔
  ∃ p e, p ∈ order h ∧ elements h !! p = Some e ∧ k = key e ∧ v = value e.
Proof.
  cbn [contents]. rewrite list_elem_of_omap /entry_at. setoid_rewrite fmap_Some. naive_solver.
Qed.

(** * Operations *)

Lemma find_in_bkt_run {St} els (chain : list Z) name (st : St) :
  (∀ p, p ∈ chain → ∃ e, els !! p = Some e ∧ hashv e = hash_str (key e)) →
  ∃ o, HASH_FIND_IN_BKT els chain name st = Ok (o, st, []) ∧
    match o with
    | Some p => p ∈ chain ∧ ∃ e, els !! p = Some e ∧ same_key (key e) name = true
    | None => ∀ p e, p ∈ chain → els !! p = Some e → same_key (key e) name = false
    end.
Proof.
  induction chain as [|p chain IH]; intros Hels; cbn [HASH_FIND_IN_BKT].
  { exists None. split; [done|]. by intros p e ?%elem_of_nil. }
  destruct (Hels p) as (e&He&Hh); [by left|]. rewrite He (bind_ok _ _ st e st) //.
  rewrite Hh.
  fold (same_key (key e) name). destruct (same_key (key e) name) eqn:Hk.
  { exists (Some p). split; [done|]. split; [by left|by exists e]. }
  destruct IH as (o&Hr&Ho); [intros q Hq; apply Hels; by right|]. exists o. split; [done|].
  destruct o as [q|]; [destruct Ho; split; [by right|done]|].
  intros q e' [->|Hq]%elem_of_cons Hq'; [congruence|by eapply Ho].
Qed.

(** The search ends, and finds an element the key is the same as, in the
    whole table: equal hash values lead to one bucket. *)
Lemma find_run {St} n head name (st : St) : head_in n head →
  ∃ o, HASH_FIND_STR head name st = Ok (o, st, []) ∧
    match o with
    | Some p => ∃ h e, head = Some h ∧ elements h !! p = Some e ∧ same_key (key e) name = true
    | None => ∀ k v, (k, v) ∈ contents head → same_key k name = false
    end.
Proof.
  destruct head as [h|]; intros Hwf; [|exists None; split; [done|by intros k v ?%elem_of_nil]].
  pose proof (wf_log _ _ Hwf) as Hlog. pose proof (wf_holds _ _ Hwf) as Hh. pose proof (wf_num _ _ Hwf) as Hnum.
  pose proof (wf_small _ _ Hwf) as Hsmall. pose proof (to_bkt_lt (hash_str name) (log2_num_buckets (tbl h)) ltac:(lia)) as Hlt.
  rewrite -Hnum -(hd_length _ _ _ _ Hh) in Hlt. destruct (lookup_lt_is_Some_2 _ _ Hlt) as [b Hb].
  assert (Hels : ∀ p, p ∈ hh_head b → ∃ e, elements h !! p = Some e ∧ hashv e = hash_str (key e)).
  { intros p Hp. destruct (hd_place _ _ _ _ Hh _ _ _ Hb Hp) as (e&He&_). exists e. split; [done|]. by eapply wf_hashv. }
  destruct (find_in_bkt_run (elements h) (hh_head b) name st Hels) as (o&Hr&Ho). exists o.
  cbn [HASH_FIND_STR]. rewrite Hb (bind_ok _ _ st b st) //. split; [done|]. destruct o as [p|].
  { destruct Ho as (_&e&He&Hk). by exists h, e. }
  intros k v (p&e&Hp&He&->&->)%elem_of_contents. apply not_true_iff_false. intros Hk.
  assert (Hin : p ∈ hh_head b); [|by rewrite (Ho p e Hin He) in Hk]. apply (in_bucket _ _ _ _ _ e _ Hh Hp He).
  by rewrite (wf_hashv _ _ Hwf p e He) (same_key_hash _ _ Hk).
Qed.

(** A write into an element: its entry in the contents, and nothing else. *)
Lemma set_value_ok n h p e ps1 ps2 f : wf_in n h → elements h !! p = Some e → order h = ps1 ++ p :: ps2 →
  contents (Some h) = omap (entry_at (elements h)) ps1 ++ (key e, value e) :: omap (entry_at (elements h)) ps2 ∧
  head_in n (set_value p f (Some h)) ∧
  contents (set_value p f (Some h)) =
    omap (entry_at (elements h)) ps1 ++ (key e, f (value e)) :: omap (entry_at (elements h)) ps2.
Proof.
  intros Hok He Ho. split; [cbn [contents]; rewrite Ho; by apply contents_split|].
  cbn [set_value fmap option_fmap option_map]. set els' := alter _ p (elements h).
  assert (Hels : ∀ q, els' !! q = if decide (q = p) then Some (Element (key e) (hashv e) (f (value e))) else elements h !! q).
  { intros q. rewrite /els'. case_decide as Hq; [subst; by rewrite lookup_alter_eq He|by rewrite lookup_alter_ne]. }
  pose proof (wf_order _ _ Hok) as Hnd. rewrite Ho in Hnd. apply NoDup_app in Hnd as (_&Hn1&[Hn2 _]%NoDup_cons).
  assert (Hp : p ∈ order h) by (apply (wf_elements _ _ Hok); by eexists). split.
  - destruct Hok as [? ? Hh ? Hel Hhv ? ? ?]. split; try done.
    + eapply holds_els; [exact Hh|]. intros q e' _ He'. cbn [elements]. rewrite Hels. case_decide; [|by exists e'].
      subst q. rewrite He in He'. injection He' as <-. by eexists.
    + intros q. cbn [elements order]. rewrite Hels. case_decide; [|by apply Hel]. subst q. split; [by eexists|]. intros _. by apply Hel.
    + intros q e'. cbn [elements]. rewrite Hels. case_decide; [|by apply Hhv]. intros [= <-]. cbn [hashv key]. by apply (Hhv p).
  - cbn [contents elements order]. rewrite Ho (contents_split _ _ _ _ (Element (key e) (hashv e) (f (value e)))).
    { by rewrite Hels decide_True. }
    assert (Hsame : ∀ qs : list Z, p ∉ qs → omap (entry_at els') qs = omap (entry_at (elements h)) qs).
    { intros qs Hqs. apply entries_ext. intros q Hq. rewrite Hels decide_False //. by intros ->. }
    rewrite !Hsame //. intros Hp1. apply (Hn1 p Hp1). by left.
Qed.
(** The element added last. *)
Lemma set_last h p k v l f : wf h → contents (Some h) = l ++ [(k, v)] → last (order h) = Some p →
  head_ok (set_value p f (Some h)) ∧ contents (set_value p f (Some h)) = l ++ [(k, f v)].
Proof.
  intros Hok Hc [ps Ho]%last_Some. assert (Hp : p ∈ order h) by (rewrite Ho; set_solver).
  destruct (proj1 (wf_elements _ _ Hok p) Hp) as [e He].
  destruct (set_value_ok _ h p e ps [] f Hok He Ho) as (Hc0&Hok'&Hc'). split; [done|].
  rewrite Hc in Hc0. apply app_inj_tail in Hc0 as [-> [= -> ->]]. exact Hc'.
Qed.

(** As a list: the first match, for keys with different hash values. *)
Lemma find_element_in {St} n head name (st : St) : head_in n head → distinct_hashes (contents head) →
  ∃ o, HASH_FIND_STR head name st = Ok (o, st, []) ∧
    match o with
    | Some p => ∃ h e, head = Some h ∧ elements h !! p = Some e ∧ lookup name (contents head) = Some (value e) ∧
        same_key (key e) name = true ∧
        ∀ f, head_in n (set_value p f head) ∧ contents (set_value p f head) = assign name f (contents head)
    | None => lookup name (contents head) = None
    end.
Proof.
  intros Hok Hd. destruct (find_run n head name st Hok) as (o&Hr&Ho). exists o. split; [done|].
  destruct o as [p|]; [|by apply lookup_absent]. destruct Ho as (h&e&->&He&Hk). exists h, e. split; [done|]. split; [done|].
  assert (Hp : p ∈ order h) by (apply (wf_elements _ _ Hok); by eexists).
  apply list_elem_of_split in Hp as (o1&o2&Ho).
  destruct (set_value_ok n h p e o1 o2 id Hok He Ho) as [Hc _].
  rewrite Hc in Hd. destruct (lookup_middle name (key e) (value e) _ _ Hd Hk) as [Hl Ha].
  split; [by rewrite Hc|]. split; [done|]. intros f. rewrite Hc Ha.
  by destruct (set_value_ok n h p e o1 o2 f Hok He Ho) as [_ ?].
Qed.

Lemma find_entry_run {St} head name (st : St) : head_ok head → distinct_hashes (contents head) →
  ∃ o, HASH_FIND_STR head name st = Ok (o, st, []) ∧
    match o with
    | Some p => ∃ h e, head = Some h ∧ elements h !! p = Some e ∧ lookup name (contents head) = Some (value e) ∧
        same_key (key e) name = true ∧
        ∀ f, head_ok (set_value p f head) ∧ contents (set_value p f head) = assign name f (contents head)
    | None => lookup name (contents head) = None
    end.
Proof.
  intros Hok Hd. destruct (find_element_in _ head name st Hok Hd) as (o&Hr&Ho). exists o. split; [done|].
  destruct o as [p|]; [|done]. destruct Ho as (h&e&->&Ho). by exists h, e.
Qed.

(** [HASH_ITER] visits the contents. *)
Lemma iter_run n head : head_in n head →
  ∃ es, HASH_ITER head = Some es ∧ (λ e, (key e, value e)) <$> es = contents head.
Proof.
  destruct head as [h|]; [|by exists []]. intros Hwf. cbn [HASH_ITER contents].
  assert (Hall : Forall (λ p, is_Some (elements h !! p)) (order h)).
  { apply Forall_forall. intros p. apply (wf_elements _ _ Hwf). }
  induction Hall as [|p ps [e He] _ (es&Hes&IH)]; [by exists []|]. exists (e :: es). cbn [mapM omap list_omap fmap list_fmap].
  by rewrite /entry_at He /= Hes /= IH.
Qed.

(** The run does not fault, and gives [Q] unless it ends in [exit]. *)
Definition or_exits {St X} (m : M St X) (st : St) (Q : X → St → list event → Prop) : Prop :=
  match m st with Ok (a, st', o) => Q a st' o | Fault => False | NoFuel => True end.
Lemma or_exits_bind {St X Y} (m : M St X) (f : X → M St Y) st Q :
  or_exits m st (λ a st1 o1, or_exits (f a) st1 (λ b st2 o2, Q b st2 (o1 ++ o2))) → or_exits (m ≫= f) st Q.
Proof.
  rewrite /or_exits /mbind /M_bind. destruct (m st) as [[[a st1] o1]| |]; [|done..].
  by destruct (f a st1) as [[[b st2] o2]| |].
Qed.
Lemma or_exits_wp {St X} (m : M St X) st Q : wp m st Q → or_exits m st Q.
Proof. rewrite /wp /or_exits. by destruct (m st) as [[[??]?]| |]. Qed.
Lemma or_exits_mono {St X} (m : M St X) st (P Q : X → St → list event → Prop) :
  or_exits m st P → (∀ a st' o, P a st' o → Q a st' o) → or_exits m st Q.
Proof. rewrite /or_exits. destruct (m st) as [[[a st1] o1]| |]; naive_solver. Qed.
Lemma or_exits_ret {St X} (a : X) (st : St) (Q : X → St → list event → Prop) : Q a st [] → or_exits (mret a) st Q.
Proof. done. Qed.
Lemma or_exits_exit {St X} code (st : St) (Q : X → St → list event → Prop) : or_exits (exit code) st Q.
Proof. done. Qed.

Section add.
Context {A : Type} `{!Alloc.Allocator A, !Alloc.AllocatorLaws A}.
Implicit Types (a : A) (L : gset Z).

Definition blocks t : gset Z := {[self t; buckets_at t]}.
Definition head_blocks (head : option (hash V)) : gset Z :=
  match head with None => ∅ | Some h => blocks (tbl h) end.

Lemma malloc_or_exit n a L {X} (f : Z → M A X) Q :
  Alloc.live a L → 0 < n ≤ 4294967288 →
  (∀ p a' o, p ≠ 0 → p ∉ L → Alloc.live a' ({[p]} ∪ L) → or_exits (f p) a' (λ x a2 o2, Q x a2 (o ++ o2))) →
  or_exits (p ← Alloc.malloc n; if p =? 0 then exit (-1) else f p) a Q.
Proof.
  intros Hl Hn Hf. apply or_exits_bind. eapply or_exits_mono; [apply or_exits_wp; by apply Alloc.malloc_live|].
  intros p a' o [[-> _]|(Hp&HpL&Hl')]; [done|]. rewrite (proj2 (Z.eqb_neq p 0)) //. by apply Hf.
Qed.

(** A new table: two blocks, and no element. *)
Lemma make_table_ok a L els : Alloc.live a L →
  or_exits HASH_MAKE_TABLE a (λ t a' _, holds els 32 (buckets t) [] ∧ num_buckets t = 32 ∧ log2_num_buckets t = 5 ∧
    num_items t = 0 ∧ self t ≠ buckets_at t ∧ blocks t ## L ∧ Alloc.live a' (blocks t ∪ L)).
Proof.
  intros Hl. rewrite /HASH_MAKE_TABLE. apply malloc_or_exit with L; [done|done|]. intros p a1 o1 _ Hp Hl1.
  apply malloc_or_exit with ({[p]} ∪ L); [done|done|]. intros q a2 o2 _ Hq Hl2. apply or_exits_ret.
  cbn [buckets num_buckets log2_num_buckets num_items self buckets_at blocks].
  split; [by apply holds_nil|]. split_and!; [done..|set_solver|set_solver|].
  rewrite /blocks /=. by replace ({[p; q]} ∪ L) with ({[q]} ∪ ({[p]} ∪ L)) by set_solver.
Qed.

(** Growing keeps every element, and exchanges the array of buckets. *)
Lemma grow_ok els t ps a L k :
  holds els (2 ^ k) (buckets t) ps → num_buckets t = 2 ^ k → log2_num_buckets t = k → 0 ≤ k ≤ 25 →
  Forall (λ p, is_Some (els !! p)) ps → Z.of_nat (length ps) < 268435456 →
  Alloc.live a L → blocks t ⊆ L → self t ≠ buckets_at t →
  or_exits (HASH_EXPAND_BUCKETS els t) a (λ t' a' _, holds els (2 ^ (k + 1)) (buckets t') ps ∧
    num_buckets t' = 2 ^ (k + 1) ∧ log2_num_buckets t' = k + 1 ∧ num_items t' = num_items t ∧ self t' = self t ∧
    (buckets_at t' ∉ L) ∧ Alloc.live a' ({[buckets_at t']} ∪ L ∖ {[buckets_at t]})).
Proof.
  intros Hh Hnum Hlog Hk Hps Hlen Hl Hsub Hne. rewrite /HASH_EXPAND_BUCKETS.
  assert (Hp : 1 ≤ 2 ^ k ≤ 2 ^ 25).
  { split; [|apply Z.pow_le_mono_r; lia]. apply (Z.pow_le_mono_r 2 0 k); lia. }
  change (2 ^ 25) with 33554432 in Hp. assert (Hdouble : 2 ^ (k + 1) = 2 * 2 ^ k) by (rewrite Z.pow_add_r; lia).
  rewrite /sizeof_UT_hash_bucket Hnum (u32_small (12 * 2 ^ k)); [lia|]. rewrite (u32_small (12 * 2 ^ k * 2)); [lia|].
  apply malloc_or_exit with L; [done|lia|]. intros new a1 o1 Hnew HnewL Hl1.
  rewrite (_ : 12 * 2 ^ k * 2 = 2 ^ (k + 1) * 12); [lia|]. rewrite Z.div_mul //.
  rewrite (_ : u32 (2 ^ k * 2) = 2 ^ (k + 1)); [rewrite u32_small; lia|].
  set ideal := u32 (_ + _). set qs := concat (hh_head <$> buckets t).
  assert (Hqs : qs ≡ₚ ps) by apply (hd_chains _ _ _ _ Hh).
  destruct (move_items_holds els (k + 1) ideal _ 0 [] qs (holds_nil els (2 ^ (k + 1)) _ eq_refl)) as (bs&n&Hrun&Hbs);
    [by apply Forall_replicate|lia|by rewrite Hqs|rewrite Hqs /=; lia|].
  rewrite app_nil_r in Hbs. rewrite Hrun. apply or_exits_bind, or_exits_ret.
  apply or_exits_bind. eapply or_exits_mono; [apply or_exits_wp, (Alloc.free_live a1 ({[new]} ∪ L)); [done|]|].
  { rewrite /blocks in Hsub. set_solver. }
  intros [] a2 o2 Hl2. apply or_exits_ret. cbn [buckets num_buckets log2_num_buckets num_items self buckets_at].
  split; [by eapply holds_perm|]. rewrite Hlog. split_and!; [done..|].
  assert (Hnb : new ≠ buckets_at t) by (rewrite /blocks in Hsub; set_solver).
  by replace ({[new]} ∪ L ∖ {[buckets_at t]}) with (({[new]} ∪ L) ∖ {[buckets_at t]}) by set_solver.
Qed.

(** What the table is after an element was added: the same, or grown. *)
Record added els (ps : list Z) (add : Z) (k : Z) t t' : Prop := {
  ad_log : log2_num_buckets t' = k ∨ (10 ≤ Z.of_nat (length (add :: ps)) ∧ log2_num_buckets t' = k + 1);
  ad_num : num_buckets t' = 2 ^ log2_num_buckets t';
  ad_holds : holds els (num_buckets t') (buckets t') (add :: ps);
  ad_items : num_items t' = num_items t + 1;
  ad_self : self t' = self t ∧ self t' ≠ buckets_at t'
}.
(** A bucket below its threshold takes the element as it is. *)
Lemma add_to_table_quiet els t ps add e a k :
  holds els (2 ^ k) (buckets t) ps → num_buckets t = 2 ^ k → log2_num_buckets t = k → 0 ≤ k ≤ 31 →
  els !! add = Some e → (length ps ≤ 29)%nat → num_items t = Z.of_nat (length ps) → self t ≠ buckets_at t →
  ∃ b, buckets t !! HASH_TO_BKT (hashv e) (2 ^ k) = Some b ∧
    let t' := set_buckets (<[HASH_TO_BKT (hashv e) (2 ^ k) := Bucket (add :: hh_head b) (count b + 1) (expand_mult b)]> (buckets t))
      (set_num_items (num_items t + 1) t) in
    added els ps add k t t' ∧
    HASH_ADD_TO_TABLE els t add (hashv e) a =
      (if ((expand_mult b + 1) * HASH_BKT_CAPACITY_THRESH <=? count b + 1) && (noexpand t =? 0)
       then HASH_EXPAND_BUCKETS els t' else mret t') a.
Proof.
  intros Hh Hnum Hlog Hk He Hlen Hitems Hne. rewrite /HASH_ADD_TO_TABLE /HASH_ADD_TO_BKT.
  cbn [num_buckets set_num_items buckets set_buckets noexpand]. rewrite Hnum Hitems (u32_small (_ + 1)); [lia|].
  pose proof (to_bkt_lt (hashv e) k Hk) as Hlt. rewrite -(hd_length _ _ _ _ Hh) in Hlt.
  destruct (lookup_lt_is_Some_2 _ _ Hlt) as [b Hb]. exists b. split; [done|].
  destruct (hd_counts _ _ _ _ Hh _ _ Hb) as [Hcnt Hmult]. pose proof (bucket_count _ _ _ _ _ _ Hh Hb) as Hbl.
  pose proof (holds_add els _ _ ps add e _ b (expand_mult b) Hh He eq_refl Hb ltac:(lia) ltac:(lia)) as Hh'.
  rewrite Hb (bind_ok _ _ a b a) //. cbn [expand_mult count]. rewrite (u32_small (count b + 1)) in Hh' |- *; [lia|].
  rewrite (u32_small (expand_mult b + 1)); [lia|]. rewrite /HASH_BKT_CAPACITY_THRESH (u32_small (_ * 10)); [lia|].
  split; [|done]. split; cbn [log2_num_buckets num_buckets num_items self buckets_at buckets set_buckets set_num_items].
  - by left.
  - by rewrite Hlog.
  - by rewrite Hnum.
  - by rewrite Hitems.
  - done.
Qed.
Lemma add_to_table_ok els t ps add e a L k :
  holds els (2 ^ k) (buckets t) ps → num_buckets t = 2 ^ k → log2_num_buckets t = k → 0 ≤ k ≤ 25 →
  Forall (λ p, is_Some (els !! p)) ps → els !! add = Some e → (length ps ≤ 29)%nat → num_items t = Z.of_nat (length ps) →
  Alloc.live a L → blocks t ⊆ L → self t ≠ buckets_at t →
  or_exits (HASH_ADD_TO_TABLE els t add (hashv e)) a (λ t' a' _, added els ps add k t t' ∧
    Alloc.live a' (blocks t' ∪ L ∖ blocks t) ∧ (blocks t' ∖ blocks t) ## L).
Proof.
  intros Hh Hnum Hlog Hk Hps He Hlen Hitems Hl Hsub Hne.
  destruct (add_to_table_quiet els t ps add e a k) as (b&Hb&Had&Hrun); [done..|lia|done|done|done|done|].
  rewrite /or_exits Hrun. set t1 := set_buckets _ _ in Had |- *.
  destruct (hd_counts _ _ _ _ Hh _ _ Hb) as [_ Hmult]. pose proof (bucket_count _ _ _ _ _ _ Hh Hb) as Hbl.
  destruct (hd_counts _ _ _ _ Hh _ _ Hb) as [Hcnt _]. destruct (_ && _) eqn:Hfull.
  - apply andb_true_iff in Hfull as [Hfull%Z.leb_le _]. rewrite /HASH_BKT_CAPACITY_THRESH in Hfull.
    pose proof (ad_holds _ _ _ _ _ _ Had) as Hh1. rewrite [num_buckets t1]Hnum in Hh1.
    eapply or_exits_mono; [apply (grow_ok els t1 (add :: ps) a L k); try done; cbn [length]|].
    + by constructor.
    + lia.
    + intros t' a' o2 (Hh2&Hn2&Hl2&Hi2&Hs2&Hfresh&Hlive). split; [split|].
      * right. cbn [length]. split; [lia|done].
      * by rewrite Hn2 Hl2.
      * by rewrite Hn2.
      * by rewrite Hi2.
      * rewrite Hs2. split; [done|]. intros Heq. apply Hfresh. rewrite -Heq. apply Hsub. rewrite /blocks. set_solver.
      * rewrite /blocks Hs2 in Hsub |- *. cbn [self buckets_at t1 set_buckets set_num_items] in *. split; [|set_solver].
        replace ({[self t; buckets_at t']} ∪ L ∖ {[self t; buckets_at t]}) with ({[buckets_at t']} ∪ L ∖ {[buckets_at t]}); [done|].
        apply set_eq. intros x. destruct (decide (x = self t)) as [->|]; set_solver.
  - split; [done|]. split; [|set_solver]. rewrite /blocks /= in Hsub |- *.
    replace ({[self t; buckets_at t]} ∪ L ∖ {[self t; buckets_at t]}) with L; [done|].
    apply set_eq. intros x. destruct (decide (x ∈ ({[self t; buckets_at t]} : gset Z))); set_solver.
Qed.

(** The invariant of the table with its new element, wherever it is put in
    the order. *)
Lemma wf_placed n els ps os add k t t' : added els ps add k t t' → 5 ≤ k ≤ 5 + Z.max 0 (Z.of_nat n - 9) →
  NoDup ps → add ∉ ps → (length ps ≤ n ≤ 29)%nat → num_items t = Z.of_nat (length ps) → os ≡ₚ add :: ps →
  (∀ p, p ∈ add :: ps ↔ is_Some (els !! p)) → (∀ p e, els !! p = Some e → hashv e = hash_str (key e)) →
  wf_in (S n) (Hash os els t').
Proof.
  intros [Hlog Hnum Hh Hit [_ Hs]] Hk Hnd Hin Hps Hi Hos Hel Hhv.
  split; cbn [tbl order elements]; try done; rewrite ?Hos; cbn [length] in *; try lia.
  - by eapply holds_perm.
  - by apply NoDup_cons.
  - intros p. by rewrite Hos.
Qed.
Lemma wf_added els ps add k t t' : added els ps add k t t' → 5 ≤ k ≤ 5 + Z.max 0 (Z.of_nat (length ps) - 9) →
  NoDup ps → add ∉ ps → (length ps ≤ 29)%nat → num_items t = Z.of_nat (length ps) →
  (∀ p, p ∈ ps ++ [add] ↔ is_Some (els !! p)) → (∀ p e, els !! p = Some e → hashv e = hash_str (key e)) →
  wf (Hash (ps ++ [add]) els t').
Proof.
  intros Had Hk Hnd Hin Hps Hi Hel Hhv. cbn [order]. rewrite length_app Nat.add_comm.
  eapply wf_placed; try done.
  - by rewrite Permutation_app_comm.
  - intros p. rewrite -Hel. set_solver.
Qed.
Lemma wf_mono n m h : wf_in n h → (n ≤ m ≤ 30)%nat → wf_in m h.
Proof. intros [] Hm. split; try done; lia. Qed.
Lemma first_wf add k v t t' : num_items t = 0 → added {[add := Element k (hash_str k) v]} [] add 5 t t' →
  wf (Hash [add] {[add := Element k (hash_str k) v]} t').
Proof.
  intros Hit Had. apply (wf_added _ [] _ _ _ _ Had); try done.
  - by apply NoDup_nil_2.
  - by apply not_elem_of_nil.
  - simpl; lia.
  - intros p. rewrite list_elem_of_singleton lookup_singleton_is_Some. naive_solver.
  - intros p e' [_ <-]%lookup_singleton_Some. done.
Qed.
(** An element more, before the table takes it. *)
Lemma insert_elements n h add e : wf_in n h → add ∉ order h → hashv e = hash_str (key e) →
  let els := <[add := e]> (elements h) in
  (∀ p e', elements h !! p = Some e' → els !! p = Some e') ∧
  holds els (num_buckets (tbl h)) (buckets (tbl h)) (order h) ∧
  (∀ p, p ∈ order h ++ [add] ↔ is_Some (els !! p)) ∧ (∀ p e, els !! p = Some e → hashv e = hash_str (key e)) ∧
  omap (entry_at els) (order h ++ [add]) = contents (Some h) ++ [(key e, value e)].
Proof.
  intros [Hlog Hnum Hh Hnd Hel Hhv Hit Hsmall Hself] Hadd He els.
  assert (Hnew : elements h !! add = None).
  { apply eq_None_not_Some. intros Hs. by apply Hadd, Hel. }
  assert (Hels : ∀ p e', elements h !! p = Some e' → els !! p = Some e').
  { intros p e' He'. rewrite /els lookup_insert_ne //. congruence. }
  split; [done|]. split; [|split; [|split]].
  - eapply holds_els; [exact Hh|]. intros p e' _ He'. exists e'. split; [by apply Hels|done].
  - intros p. rewrite elem_of_app list_elem_of_singleton Hel lookup_insert_is_Some. naive_solver.
  - intros p e'. rewrite /els lookup_insert. case_decide; [by intros [= <-]|by apply Hhv].
  - rewrite omap_app. f_equal; [|by rewrite /= /entry_at /els lookup_insert_eq].
    apply entries_ext. intros p Hp. rewrite /els lookup_insert_ne //. by intros ->.
Qed.

(** The table takes an element that is put anywhere in the order. *)
Lemma place_ok n h os add e a L :
  wf_in n h → add ∉ order h → (n ≤ 29)%nat → os ≡ₚ add :: order h → hashv e = hash_str (key e) →
  Alloc.live a L → blocks (tbl h) ⊆ L →
  or_exits (HASH_ADD_TO_TABLE (<[add := e]> (elements h)) (tbl h) add (hashv e)) a (λ t' a' _,
    wf_in (S n) (Hash os (<[add := e]> (elements h)) t') ∧
    Alloc.live a' (blocks t' ∪ L ∖ blocks (tbl h)) ∧ (blocks t' ∖ blocks (tbl h)) ## L).
Proof.
  intros Hok Hadd Hn Hos Hhash Hl Hsub. destruct (insert_elements _ h add e Hok Hadd Hhash) as (Hels&Hh&Hel&Hhv&_).
  pose proof Hok as [Hlog Hnum _ Hnd Hel0 _ Hit Hsmall Hself]. rewrite Hnum in Hh. eapply or_exits_mono.
  { apply (add_to_table_ok _ (tbl h) (order h) add e a L (log2_num_buckets (tbl h))); try done; [lia| | |lia].
    - apply Forall_forall. intros p [e' He']%Hel0. exists e'. by apply Hels.
    - by rewrite lookup_insert_eq. }
  intros t' a' o2 [Had Hlive]. split; [|done]. eapply wf_placed; [done..|lia|done|done| |done].
  intros p. rewrite -Hel. set_solver.
Qed.
Lemma first_ok add k v a L : Alloc.live a L →
  or_exits (t ← HASH_MAKE_TABLE; HASH_ADD_TO_TABLE {[add := Element k (hash_str k) v]} t add (hash_str k)) a (λ t' a' _,
    wf_in 1 (Hash [add] {[add := Element k (hash_str k) v]} t') ∧ Alloc.live a' (blocks t' ∪ L) ∧ blocks t' ## L).
Proof.
  intros Hl. set e := Element k (hash_str k) v.
  apply or_exits_bind. eapply or_exits_mono; [by apply (make_table_ok a L {[add := e]})|].
  intros t a1 o1 (Hh&Hn&Hlog&Hit&Hself&Hfresh&Hl1).
  change (hash_str k) with (hashv e). eapply or_exits_mono.
  { apply (add_to_table_ok _ t [] add e a1 (blocks t ∪ L) 5); try done; [by rewrite lookup_singleton_eq|simpl; lia|set_solver]. }
  intros t' a' o2 [Had [Hl2 Hf2]]. split; [by apply (first_wf _ _ _ t)|]. split.
  - replace (blocks t' ∪ L) with (blocks t' ∪ (blocks t ∪ L) ∖ blocks t); [done|]. set_solver.
  - intros x Hx HxL. destruct (decide (x ∈ blocks t)) as [Hb|Hb]; [by apply (Hfresh x)|]. apply (Hf2 x); set_solver.
Qed.

(** [HASH_ADD_STR] appends the entry, with the table grown or not. *)
Lemma add_in n head add k v a L :
  head_in n head → add ∉ order_of head → (n ≤ 29)%nat →
  Alloc.live a L → head_blocks head ⊆ L →
  or_exits (HASH_ADD_STR head add k v) a (λ head' a' _, head_in (S n) head' ∧
    contents head' = contents head ++ [(k, v)] ∧ order_of head' = order_of head ++ [add] ∧
    Alloc.live a' (head_blocks head' ∪ L ∖ head_blocks head) ∧ (head_blocks head' ∖ head_blocks head) ## L).
Proof.
  intros Hok Hadd Hn Hl Hsub. rewrite /HASH_ADD_STR. set e := Element k (hash_str k) v.
  destruct head as [h|]; cbn [order_of head_blocks] in *.
  - apply or_exits_bind, or_exits_ret. cbn [elements tbl order]. change (hash_str k) with (hashv e). apply or_exits_bind.
    eapply or_exits_mono; [by apply (place_ok n h (order h ++ [add]) add e a L); rewrite // Permutation_app_comm|].
    intros t' a' o2 [Hwf Hlive]. apply or_exits_ret. split; [done|].
    by destruct (insert_elements _ h add e Hok Hadd eq_refl) as (_&_&_&_&Hc).
  - pose proof (first_ok add k v a L Hl) as Hfirst. revert Hfirst. rewrite /or_exits /mbind /M_bind.
    destruct (HASH_MAKE_TABLE a) as [[[t a1] o1]| |]; [|done..]. cbn [mret M_ret elements tbl order]. fold e.
    destruct (HASH_ADD_TO_TABLE _ t add _ a1) as [[[t' a2] o2]| |]; [|done..]. intros (Hwf&Hlive&Hd).
    cbn [head_in contents order_of head_blocks order elements tbl].
    split; [eapply wf_mono; [done|lia]|]. split; [by rewrite /= /entry_at lookup_singleton_eq|]. split; [done|].
    rewrite !difference_empty_L. by split.
Qed.
Lemma add_ok head add k v a L :
  head_ok head → add ∉ order_of head → (length (order_of head) ≤ 29)%nat →
  Alloc.live a L → head_blocks head ⊆ L →
  or_exits (HASH_ADD_STR head add k v) a (λ head' a' _, head_ok head' ∧
    contents head' = contents head ++ [(k, v)] ∧ order_of head' = order_of head ++ [add] ∧
    Alloc.live a' (head_blocks head' ∪ L ∖ head_blocks head) ∧ (head_blocks head' ∖ head_blocks head) ## L).
Proof.
  intros Hok Hadd Hlen Hl Hsub. eapply or_exits_mono; [by apply (add_in (length (order_of head)))|].
  intros head' a' _ (Hok'&Hc&Ho&Hlive). split; [|done]. by rewrite /head_ok Ho length_app Nat.add_comm.
Qed.

(** ** Without growing

    A table of 32 buckets stays one while each bucket has fewer than nine
    other elements. *)
Definition small (head : option (hash V)) : Prop :=
  match head with None => True | Some h => log2_num_buckets (tbl h) = 5 end.
Definition crowd (k : string) (ks : list string) : nat :=
  length (filter (λ k', HASH_TO_BKT (hash_str k') 32 = HASH_TO_BKT (hash_str k) 32) ks).

Lemma crowd_cons k k' ks : crowd k (k' :: ks) =
  if decide (HASH_TO_BKT (hash_str k') 32 = HASH_TO_BKT (hash_str k) 32) then S (crowd k ks) else crowd k ks.
Proof. rewrite /crowd filter_cons. by case_decide. Qed.

Lemma bucket_crowd h b k : wf h → log2_num_buckets (tbl h) = 5 →
  buckets (tbl h) !! HASH_TO_BKT (hash_str k) 32 = Some b → (length (hh_head b) ≤ crowd k (contents (Some h)).*1)%nat.
Proof.
  intros Hwf Hlog Hb. pose proof (wf_holds _ _ Hwf) as Hh. rewrite (wf_num _ _ Hwf) Hlog in Hh. change (2 ^ 5) with 32 in Hh.
  set P := λ p, ∃ e, elements h !! p = Some e ∧ HASH_TO_BKT (hash_str (key e)) 32 = HASH_TO_BKT (hash_str k) 32.
  assert (Hin : ∀ p, p ∈ hh_head b → p ∈ order h ∧ P p).
  { intros p Hp. destruct (hd_place _ _ _ _ Hh _ _ _ Hb Hp) as (e&He&Hplace). split; [apply (wf_elements _ _ Hwf); by eexists|].
    exists e. split; [done|]. by rewrite -(wf_hashv _ _ Hwf p e He). }
  assert (Hnd : NoDup (hh_head b)).
  { destruct (concat_insert (hh_head <$> buckets (tbl h)) (HASH_TO_BKT (hash_str k) 32) (hh_head b)) as (rest&Hall&_).
    { by rewrite list_lookup_fmap Hb. }
    pose proof (wf_order _ _ Hwf) as Ho. rewrite -(hd_chains _ _ _ _ Hh) Hall in Ho. by apply NoDup_app in Ho as [? _]. }
  assert (Hall : ∀ ps qs : list Z, NoDup qs → (∀ p, p ∈ ps → is_Some (elements h !! p)) → (∀ p, p ∈ qs → p ∈ ps ∧ P p) →
    (length qs ≤ crowd k (omap (entry_at (elements h)) ps).*1)%nat).
  { clear Hin Hnd. induction ps as [|p ps IH]; intros qs Hnd Hel Hqs.
    - destruct qs as [|q qs]; [done|]. destruct (Hqs q ltac:(by left)) as [?%elem_of_nil _]. done.
    - destruct (Hel p ltac:(by left)) as [e He]. rewrite (_ : omap (entry_at (elements h)) (p :: ps) =
        (key e, value e) :: omap (entry_at (elements h)) ps); [by rewrite /= {1}/entry_at He|].
      rewrite fmap_cons crowd_cons. cbn [fst]. destruct (decide (p ∈ qs)) as [Hp|Hp].
      + apply list_elem_of_split in Hp as (q1&q2&->). destruct (Hqs p ltac:(set_solver)) as [_ (e'&He'&Hbkt)].
        rewrite He in He'. injection He' as <-. rewrite decide_True //.
        rewrite -Permutation_middle /= in Hnd |- *. apply NoDup_cons in Hnd as [Hn Hnd]. apply le_n_S, IH; [done| |].
        * intros q Hq. apply Hel. by right.
        * intros q Hq. destruct (Hqs q ltac:(set_solver)) as [[->|Hps]%elem_of_cons HP]; [done|by split].
      + assert (Hle : (length qs ≤ crowd k (omap (entry_at (elements h)) ps).*1)%nat).
        { apply IH; [done| |].
          - intros q Hq. apply Hel. by right.
          - intros q Hq. destruct (Hqs q Hq) as [[->|Hps]%elem_of_cons HP]; [done|by split]. }
        case_decide; lia. }
  apply (Hall (order h)); [done| |done]. intros p. apply (wf_elements _ _ Hwf).
Qed.

Lemma add_quiet h add k v a : wf h → log2_num_buckets (tbl h) = 5 → add ∉ order h → (length (order h) ≤ 29)%nat →
  (crowd k (contents (Some h)).*1 < 9)%nat →
  ∃ h', HASH_ADD_STR (Some h) add k v a = Ok (Some h', a, []) ∧ wf h' ∧ log2_num_buckets (tbl h') = 5 ∧
    contents (Some h') = contents (Some h) ++ [(k, v)] ∧ order h' = order h ++ [add].
Proof.
  intros Hok Hlog Hadd Hlen Hcrowd. set e := Element k (hash_str k) v.
  destruct (insert_elements _ h add e Hok Hadd eq_refl) as (Hels&Hh&Hel&Hhv&Hc).
  pose proof Hok as [Hlog0 Hnum _ Hnd Hel0 _ Hit Hsmall Hself]. rewrite Hnum Hlog in Hh.
  destruct (add_to_table_quiet (<[add := e]> (elements h)) (tbl h) (order h) add e a 5) as (b&Hb&Had&Hrun); [done| |done|done| |done..|].
  { by rewrite Hnum Hlog. } { by rewrite lookup_insert_eq. }
  pose proof (bucket_crowd h b k Hok Hlog Hb) as Hlb.
  pose proof (wf_holds _ _ Hok) as Hh0. rewrite Hnum Hlog in Hh0. destruct (hd_counts _ _ _ _ Hh0 _ _ Hb) as [Hcnt Hmult].
  rewrite (proj2 (Z.leb_gt _ _)) in Hrun; [rewrite /HASH_BKT_CAPACITY_THRESH; lia|]. cbn [andb] in Hrun.
  set t' := set_buckets _ _ in Had, Hrun. exists (Hash (order h ++ [add]) (<[add := e]> (elements h)) t').
  split; [|split; [|split; [done|split; [exact Hc|done]]]].
  - rewrite /HASH_ADD_STR (bind_ok _ _ a _ a eq_refl). cbn [elements tbl order]. change (hash_str k) with (hashv e).
    by rewrite (bind_ok _ _ _ _ _ Hrun).
  - eapply wf_added; [exact Had|lia|done..].
Qed.
(** The first element of a table. *)
Lemma add_first_quiet t add k v a a1 o :
  HASH_MAKE_TABLE a = Ok (t, a1, o) → (holds {[add := Element k (hash_str k) v]} 32 (buckets t) [] ∧ num_buckets t = 32 ∧
    log2_num_buckets t = 5 ∧ num_items t = 0 ∧ self t ≠ buckets_at t) →
  ∃ h', HASH_ADD_STR None add k v a = Ok (Some h', a1, o) ∧ wf h' ∧ log2_num_buckets (tbl h') = 5 ∧
    contents (Some h') = [(k, v)] ∧ order h' = [add].
Proof.
  intros Hmake (Hh&Hn&Hlog&Hit&Hself). set e := Element k (hash_str k) v.
  destruct (add_to_table_quiet {[add := e]} t [] add e a1 5) as (b&Hb&Had&Hrun); try done.
  { by rewrite lookup_singleton_eq. } { simpl. lia. }
  destruct (hd_counts _ _ _ _ Hh _ _ Hb) as [Hcnt Hmult]. pose proof (bucket_count _ _ _ _ _ _ Hh Hb) as Hbl. cbn [length] in Hbl.
  rewrite (proj2 (Z.leb_gt _ _)) in Hrun; [rewrite /HASH_BKT_CAPACITY_THRESH; lia|]. cbn [andb] in Hrun.
  set t' := set_buckets _ _ in Had, Hrun. exists (Hash [add] {[add := e]} t').
  split; [|split; [by eapply first_wf|split; [done|split; [by rewrite /= /entry_at lookup_singleton_eq|done]]]].
  rewrite /HASH_ADD_STR {1}/mbind /M_bind {1}/mbind /M_bind Hmake. cbn [elements tbl order mret M_ret].
  change (hash_str k) with (hashv e). by rewrite (bind_ok _ _ _ _ _ Hrun) /= !app_nil_r.
Qed.
End add.

(** * Sequences of calls *)

Inductive call : Type := Add (p : Z) (k : string) (v : V) | Find (name : string) | Iter.
Inductive answer : Type := Added | Found (v : option V) | Visited (l : list (string * V)).

(** On a list of entries in the order they were added. *)
Fixpoint spec_calls l (cs : list call) : list answer * list (string * V) :=
  match cs with
  | [] => ([], l)
  | c :: cs =>
      let '(a, l) := match c with
        | Add _ k v => (Added, l ++ [(k, v)])
        | Find name => (Found (lookup name l), l)
        | Iter => (Visited l, l)
        end in
      let '(rs, l) := spec_calls l cs in (a :: rs, l)
  end.
Definition additions (cs : list call) : list (Z * string) :=
  omap (λ c, match c with Add p k _ => Some (p, k) | _ => None end) cs.

Section calls.
Context {A : Type} `{!Alloc.Allocator A, !Alloc.AllocatorLaws A}.
Implicit Types (a : A) (L : gset Z).

Definition do_call (head : option (hash V)) (c : call) : M A (answer * option (hash V)) :=
  match c with
  | Add p k v => head ← HASH_ADD_STR head p k v; mret (Added, head)
  | Find name =>
      o ← HASH_FIND_STR head name;
      match o with
      | None => mret (Found None, head)
      | Some p => h ← unwrap head; e ← unwrap (elements h !! p); mret (Found (Some (value e)), head)
      end
  | Iter => es ← unwrap (HASH_ITER head); mret (Visited ((λ e, (key e, value e)) <$> es), head)
  end.
Fixpoint do_calls (head : option (hash V)) (cs : list call) : M A (list answer * option (hash V)) :=
  match cs with
  | [] => mret ([], head)
  | c :: cs =>
      '(a, head) ← do_call head c;
      '(rs, head) ← do_calls head cs;
      mret (a :: rs, head)
  end.

(** A table whose blocks are beside [L]. *)
Record owned head L a : Prop := {
  ow_ok : head_ok head;
  ow_live : Alloc.live a (head_blocks head ∪ L);
  ow_apart : head_blocks head ## L
}.
Lemma add_owned head p k v L a : owned head L a → p ∉ order_of head → (length (order_of head) ≤ 29)%nat →
  or_exits (HASH_ADD_STR head p k v) a (λ head' a' _, owned head' L a' ∧
    contents head' = contents head ++ [(k, v)] ∧ order_of head' = order_of head ++ [p]).
Proof.
  intros [Hok Hl Hd] Hp Hlen. eapply or_exits_mono; [apply (add_ok head p k v a (head_blocks head ∪ L)); try done; set_solver|].
  intros head' a' _ (Hok'&Hc&Ho&Hl'&Hd'). split; [split; [done| |]|done].
  - by replace (head_blocks head' ∪ L) with (head_blocks head' ∪ (head_blocks head ∪ L) ∖ head_blocks head) by set_solver.
  - intros x Hx HxL. destruct (decide (x ∈ head_blocks head)); set_solver.
Qed.

Lemma do_calls_ok cs head L a :
  owned head L a → NoDup (order_of head ++ (additions cs).*1) →
  NoDup (hash_str <$> (contents head).*1 ++ (additions cs).*2) →
  (length (order_of head) + length (additions cs) ≤ 30)%nat →
  or_exits (do_calls head cs) a (λ '(rs, head') a' _, owned head' L a' ∧ (rs, contents head') = spec_calls (contents head) cs).
Proof.
  revert head a. induction cs as [|c cs IH]; intros head a How Hnd Hk Hlen; cbn [do_calls spec_calls].
  { by apply or_exits_ret. }
  assert (Hd : distinct_hashes (contents head)).
  { rewrite fmap_app in Hk. by apply NoDup_app in Hk as [? _]. }
  pose proof How as [Hok _ _]. apply or_exits_bind. destruct c as [p k v|name|]; cbn [do_call].
  - change (additions (Add p k v :: cs)) with ((p, k) :: additions cs) in *. cbn [fmap list_fmap fst snd length] in *.
    apply or_exits_bind. eapply or_exits_mono; [apply (add_owned head p k v L a How)|].
    { intros Hin. apply NoDup_app in Hnd as (_&Hnd&_). apply (Hnd _ Hin). by left. }
    { lia. }
    intros head1 a1 o1 (How1&Hc1&Ho1). apply or_exits_ret. apply or_exits_bind. eapply or_exits_mono; [apply (IH head1 a1 How1)|].
    + rewrite Ho1 -app_assoc. exact Hnd.
    + rewrite Hc1 (fmap_app fst) -app_assoc. exact Hk.
    + rewrite Ho1 length_app /=. lia.
    + intros [rs head'] a' o' [How' Hspec]. apply or_exits_ret. rewrite Hc1 in Hspec. by rewrite -Hspec.
  - destruct (find_entry_run head name a Hok Hd) as (o&Hr&Ho).
    assert (Hrun : do_call head (Find name) a = Ok ((Found (lookup name (contents head)), head), a, [])).
    { cbn [do_call]. rewrite (bind_ok _ _ _ _ _ Hr). destruct o as [p|]; [|by rewrite Ho].
      destruct Ho as (h&e&->&He&->&_). rewrite (bind_ok _ _ a h a) // He (bind_ok _ _ a e a) //. }
    rewrite /do_call in Hrun. rewrite {1}/or_exits Hrun. apply or_exits_bind. eapply or_exits_mono; [by apply (IH head a How)|].
    intros [rs head'] a' o' [How' Hspec]. apply or_exits_ret. by rewrite -Hspec.
  - destruct (iter_run _ head Hok) as (es&Hes&Hc). rewrite Hes. apply or_exits_bind, or_exits_ret, or_exits_ret. rewrite Hc.
    apply or_exits_bind. eapply or_exits_mono; [by apply (IH head a How)|].
    intros [rs head'] a' o' [How' Hspec]. apply or_exits_ret. by rewrite -Hspec.
Qed.

(** The hash table is a list of entries in insertion order. From a NULL
    head any additions of up to thirty elements with different hash values,
    searches and iterations, on any allocator that keeps its contract, never
    fault and answer as on such a list, whatever bucket arrays are grown and
    freed on the way: a search returns the entry whose key the table's
    comparison takes for the name, an iteration visits every entry once in
    order; or the run ends in [exit] because memory ran out. Beside its
    blocks nothing is allocated or freed. *)
Lemma uthash_refines cs a L :
  Alloc.live a L → NoDup (additions cs).*1 → NoDup (hash_str <$> (additions cs).*2) → (length (additions cs) ≤ 30)%nat →
  or_exits (do_calls None cs) a (λ '(rs, head) a' _, head_ok head ∧ (rs, contents head) = spec_calls [] cs ∧
    Alloc.live a' (head_blocks head ∪ L)).
Proof.
  intros Hl Hp Hk Hlen. eapply or_exits_mono; [by apply (do_calls_ok cs None L a); [split; [done|rewrite /= union_empty_l_L|done]|..]|].
  intros [rs head] a' _ [[? ? ?] ?]. done.
Qed.
End calls.
End theory.

(** * A table that grows, on the kernel heap

    Twelve keys of one bucket: the tenth doubles the buckets. *)
Section demo.
Definition demo_keys : list string := ["bv"; "cd"; "dr"; "dv"; "eb"; "et"; "ff"; "gu"; "kv"; "mt"; "nc"; "og"].
Definition demo_calls : list (call (V:=Z)) :=
  imap (λ i k, Add (100 + Z.of_nat i) k (Z.of_nat i)) demo_keys ++ [Find "cd"; Find "none"; Iter].
Example demo_grows :
  match do_calls None demo_calls Heap.demo with
  | Ok (rs, Some h, _, _) => Some (num_buckets (tbl h), (λ k, length (hh_head k)) <$> take 3 (buckets (tbl h)), take 2 (drop 12 rs))
  | _ => None
  end = Some (64, [0; 0; 2]%nat, [Found (Some 1); Found None]).
Proof. vm_compute. reflexivity. Qed.

Lemma uthash_refines_witness :
  or_exits (do_calls None demo_calls) Heap.demo (λ '(rs, head) a' _, head_ok head ∧ (rs, contents head) = spec_calls [] demo_calls ∧
    Alloc.live a' (head_blocks head ∪ set_map (λ a, a + 8) (∅ : gset Z))).
Proof.
  apply (uthash_refines demo_calls Heap.demo (set_map (λ a, a + 8) (∅ : gset Z))).
  - exists 2097152, [2097152], ∅. split_and!; [done|exact Heap.demo_wf|done].
  - apply (bool_decide_unpack _). vm_compute. exact I.
  - apply (bool_decide_unpack _). vm_compute. exact I.
  - apply (Nat.leb_le 12 30). reflexivity.
Defined.
End demo.
End Uthash.
