(* ===== verification/UthashSort.v ===== *)
(** kernel/includes/uthash.h, [HASH_SRT]: the merge sort of the application
    order, bottom up on a linked list.

    The list is cut into runs of [insize] elements; a pass merges them two by
    two, and the size doubles until one merge was all there was to do. The
    reference is insertion: the theorem is that the passes compute it, so
    that the sort ends, permutes, orders and is stable. *)
From Stdlib Require Import Sorted.
From S2P Require Import Prelude.
#[local] Open Scope general_if_scope.

Module UthashSort.

Section sort.
Context {X : Type} (cmpfcn : X → X → Z).
Implicit Types (l ps qs : list X).

(** * The macro *)

(** The innermost loop, on the [psize] elements at [p] and the [qsize] at
    [q]: an empty [p], an empty [q], the comparison. *)
Fixpoint merge (ps : list X) : list X → list X :=
  match ps with
  | [] => λ qs, qs
  | p :: ps' => fix merge_q qs :=
      match qs with
      | [] => p :: ps'
      | q :: qs' => if cmpfcn p q <=? 0 then p :: merge ps' qs else q :: merge_q qs'
      end
  end.
(** One pass: the list it leaves and the merges it took. *)
Fixpoint merge_pass (fuel insize : nat) (p : list X) : option (list X * nat) :=
  match p, fuel with
  | [], _ => Some ([], 0%nat)
  | _, O => None
  | _, S fuel =>
      let q := drop insize p in
      '(rest, nmerges) ← merge_pass fuel insize (drop insize q);
      Some (merge (take insize p) (take insize q) ++ rest, S nmerges)
  end.
(** The passes; [insize] is an unsigned int. *)
Fixpoint sort_passes (fuel : nat) (insize : Z) l : option (list X) :=
  match fuel with
  | O => None
  | S fuel =>
      '(l, nmerges) ← merge_pass (length l) (Z.to_nat insize) l;
      if Nat.leb nmerges 1 then Some l else sort_passes fuel (u32 (insize * 2)) l
  end.
Definition sort_list (fuel : nat) l : option (list X) := sort_passes fuel 1 l.

(** * The reference *)

Fixpoint insert x l : list X :=
  match l with
  | [] => [x]
  | y :: l => if cmpfcn x y <=? 0 then x :: y :: l else y :: insert x l
  end.
Definition isort : list X → list X := foldr insert [].

Class Comparison : Prop := {
  cmp_total x y : cmpfcn x y ≤ 0 ∨ cmpfcn y x ≤ 0;
  cmp_trans x y z : cmpfcn x y ≤ 0 → cmpfcn y z ≤ 0 → cmpfcn x z ≤ 0
}.
Definition ordered (x y : X) : Prop := cmpfcn x y ≤ 0.

Lemma insert_perm x l : insert x l ≡ₚ x :: l.
Proof.
  induction l as [|y l IH]; [done|]. cbn [insert]. destruct (cmpfcn x y <=? 0); [done|]. rewrite IH. apply perm_swap.
Qed.
Lemma isort_perm l : isort l ≡ₚ l.
Proof. induction l as [|x l IH]; [done|]. cbn. by rewrite insert_perm IH. Qed.
Lemma isort_length l : length (isort l) = length l.
Proof. by rewrite isort_perm. Qed.

Section laws.
Context `{!Comparison}.

Lemma not_le x y : ¬ cmpfcn x y ≤ 0 → cmpfcn y x ≤ 0.
Proof. intros Hn. by destruct (cmp_total x y). Qed.
Lemma insert_sorted x l : StronglySorted ordered l → StronglySorted ordered (insert x l).
Proof.
  induction 1 as [|y l Hl IH Hy]; cbn [insert]; [by repeat constructor|].
  destruct (Z.leb_spec (cmpfcn x y) 0) as [Hxy|Hxy].
  - constructor; [by constructor|]. constructor; [done|]. eapply Forall_impl; [done|]. intros z. by apply cmp_trans.
  - constructor; [done|]. rewrite insert_perm. constructor; [apply not_le; lia|done].
Qed.
Lemma isort_sorted l : StronglySorted ordered (isort l).
Proof. induction l; [constructor|by apply insert_sorted]. Qed.

(** Insertions of two elements that are strictly ordered commute. *)
Lemma insert_head x l : Forall (ordered x) l → insert x l = x :: l.
Proof. destruct 1 as [|y l Hy _]; [done|]. cbn. by rewrite (proj2 (Z.leb_le _ _) Hy). Qed.
Lemma insert_swap x y l : ¬ cmpfcn x y ≤ 0 → insert y (insert x l) = insert x (insert y l).
Proof.
  intros Hxy. pose proof (not_le _ _ Hxy) as Hyx. assert (Hb : (cmpfcn x y <=? 0) = false) by (apply Z.leb_gt; lia).
  induction l as [|z l IH]; cbn [insert]; [by rewrite (proj2 (Z.leb_le _ _) Hyx) Hb|].
  destruct (Z.leb_spec (cmpfcn x z) 0) as [Hxz|Hxz].
  - rewrite (proj2 (Z.leb_le (cmpfcn y z) 0)); [by eapply cmp_trans|]. cbn [insert].
    by rewrite (proj2 (Z.leb_le _ _) Hyx) Hb (proj2 (Z.leb_le _ _) Hxz).
  - destruct (Z.leb_spec (cmpfcn y z) 0) as [Hyz|Hyz]; cbn [insert].
    + by rewrite (proj2 (Z.leb_le _ _) Hyz) Hb (proj2 (Z.leb_gt _ _) Hxz).
    + by rewrite (proj2 (Z.leb_gt _ _) Hyz) (proj2 (Z.leb_gt _ _) Hxz) IH.
Qed.

(** Merging a sorted list inserts its elements. *)
Lemma merge_insert x l qs : Forall (ordered x) l → merge (x :: l) qs = insert x (merge l qs).
Proof.
  intros Hx. induction qs as [|q qs IH].
  { rewrite (_ : merge l [] = l); [by destruct l|]. by rewrite insert_head. }
  cbn [merge]. destruct (Z.leb_spec (cmpfcn x q) 0) as [Hq|Hq].
  - symmetry. destruct Hx as [|y l Hy Hx]; cbn [merge insert].
    + by rewrite (proj2 (Z.leb_le _ _) Hq).
    + destruct (cmpfcn y q <=? 0); cbn [insert]; by rewrite (proj2 (Z.leb_le _ _)).
  - change ((fix merge_q qs := match qs with [] => x :: l | q :: qs' => if cmpfcn x q <=? 0 then x :: merge l qs else q :: merge_q qs' end) qs)
      with (merge (x :: l) qs). rewrite IH.
    destruct Hx as [|y l Hy Hx]; cbn [merge insert]; [by rewrite (proj2 (Z.leb_gt _ _) Hq)|].
    rewrite (proj2 (Z.leb_gt (cmpfcn y q) 0)).
    { apply Z.nle_gt. intros Hyq. assert (cmpfcn x q ≤ 0) by (by eapply cmp_trans). lia. }
    cbn [insert]. by rewrite (proj2 (Z.leb_gt _ _) Hq).
Qed.
Lemma merge_foldr l qs : StronglySorted ordered l → merge l qs = foldr insert qs l.
Proof. induction 1 as [|x l _ IH Hx]; [done|]. by rewrite merge_insert // IH. Qed.
Lemma foldr_insert x l qs : foldr insert qs (insert x l) = insert x (foldr insert qs l).
Proof.
  induction l as [|y l IH]; [done|]. cbn [insert]. destruct (Z.leb_spec (cmpfcn x y) 0) as [Hxy|Hxy]; [done|].
  cbn [foldr]. rewrite IH. apply insert_swap. lia.
Qed.
Lemma merge_isort l qs : merge (isort l) (isort qs) = isort (l ++ qs).
Proof.
  rewrite merge_foldr; [apply isort_sorted|]. rewrite /isort foldr_app -/(isort qs).
  induction l as [|x l IH]; [done|]. cbn. by rewrite foldr_insert IH.
Qed.

(** * The passes *)

(** [r] is [l] with its runs of [k] elements sorted. *)
Inductive runs (k : nat) : list X → list X → Prop :=
  | runs_nil : runs k [] []
  | runs_cons l r : l ≠ [] → runs k (drop k l) r → runs k l (isort (take k l) ++ r).

Lemma runs_one l : runs 1 l l.
Proof. induction l as [|x l IH]; [constructor|]. by apply (runs_cons 1 (x :: l) l). Qed.
Lemma runs_length k l r : runs k l r → length r = length l.
Proof.
  induction 1 as [|l r _ _ IH]; [done|]. rewrite length_app isort_length IH -length_app. by rewrite take_drop.
Qed.
Lemma runs_head k l r : runs k l r → take k r = isort (take k l) ∧ runs k (drop k l) (drop k r).
Proof.
  destruct 1 as [|l r Hl Hr]; [rewrite !take_nil !drop_nil; split; [done|constructor]|].
  pose proof (runs_length _ _ _ Hr) as Hlen. rewrite length_drop in Hlen.
  destruct (decide (k ≤ length l)%nat) as [Hk|Hk].
  - assert (Hi : length (isort (take k l)) = k) by (rewrite isort_length length_take; lia).
    by rewrite take_app_length' // drop_app_length'.
  - assert (r = []) as -> by (apply length_zero_iff_nil; lia). rewrite app_nil_r.
    rewrite take_ge; [rewrite isort_length length_take; lia|]. split; [done|].
    rewrite (drop_ge (isort _)); [rewrite isort_length length_take; lia|]. rewrite drop_ge; [lia|constructor].
Qed.
Lemma runs_all k l r : runs k l r → (length l ≤ k)%nat → r = isort l.
Proof.
  intros Hr Hk. destruct (runs_head _ _ _ Hr) as [Ht _]. rewrite take_ge in Ht; [by rewrite (runs_length _ _ _ Hr)|].
  by rewrite take_ge in Ht.
Qed.

Lemma pass_runs fuel k l r : (0 < k)%nat → runs k l r → (length r ≤ fuel)%nat →
  ∃ r' m, merge_pass fuel k r = Some (r', m) ∧ runs (k + k) l r' ∧ (m = 0%nat ↔ l = []) ∧
    ((m ≤ 1)%nat ↔ (length l ≤ k + k)%nat).
Proof.
  intros Hk. revert l r. induction fuel as [|fuel IH]; intros l r Hr Hf; pose proof (runs_length _ _ _ Hr) as Hlen.
  { assert (r = []) as -> by (apply length_zero_iff_nil; lia). assert (l = []) as -> by (apply length_zero_iff_nil; done).
    exists [], 0%nat. cbn. split_and!; [done|constructor|done|lia]. }
  destruct r as [|x r].
  { assert (l = []) as -> by (apply length_zero_iff_nil; done). exists [], 0%nat. split_and!; [done|constructor|done|cbn; lia]. }
  destruct (runs_head _ _ _ Hr) as [Ht1 Hr1]. destruct (runs_head _ _ _ Hr1) as [Ht2 Hr2].
  destruct (IH _ _ Hr2) as (r'&m&Hrun&Hr'&Hm0&_); [rewrite !length_drop; cbn [length] in *; lia|].
  cbn [merge_pass]. rewrite Ht1 Ht2 merge_isort Hrun /=. eexists _, _. split; [done|].
  rewrite take_take_drop. rewrite drop_drop in Hr', Hm0. assert (Hl : l ≠ []) by (by intros ->).
  split; [by constructor|]. split; [by split|]. split.
  - intros H1. assert (drop (k + k) l = []) as Hd by (apply Hm0; lia). apply (f_equal length) in Hd.
    rewrite length_drop /= in Hd. lia.
  - intros H1. assert (m = 0%nat) as ->; [|lia]. apply Hm0, drop_ge. lia.
Qed.

(** With fuel for the doublings the sort ends, and is the reference. *)
Lemma passes_run fuel k l r : (0 < k)%nat → runs k l r → (length l ≤ k * 2 ^ fuel)%nat → (0 < fuel)%nat →
  Z.of_nat (length l) < 2147483648 →
  sort_passes fuel (Z.of_nat k) r = Some (isort l).
Proof.
  revert k r. induction fuel as [|fuel IH]; intros k r Hk Hr Hl Hf Hlen; [lia|]. cbn [sort_passes].
  destruct (pass_runs (length r) k l r Hk Hr) as (r'&m&Hrun&Hr'&_&Hm); [done|]. rewrite Nat2Z.id Hrun /=.
  destruct (Nat.leb_spec m 1) as [H1|H1].
  - f_equal. eapply runs_all; [done|]. by apply Hm.
  - assert (Hbig : (k + k < length l)%nat) by lia.
    rewrite u32_small; [lia|]. replace (Z.of_nat k * 2) with (Z.of_nat (k + k)) by lia.
    rewrite Nat.pow_succ_r' in Hl. apply IH; [lia|done|lia| |done].
    destruct fuel; [cbn in Hl; lia|lia].
Qed.
Lemma sort_list_run fuel l : (length l ≤ 2 ^ fuel)%nat → (0 < fuel)%nat → Z.of_nat (length l) < 2147483648 →
  sort_list fuel l = Some (isort l).
Proof. intros Hl Hf Hlen. apply (passes_run fuel 1); [lia|apply runs_one|lia|done|done]. Qed.

(** Two elements the comparison does not tell apart keep their order: the
    sort keeps every class of them as it is. *)
Lemma insert_class x y l : cmpfcn x y ≤ 0 → cmpfcn y x ≤ 0 →
  filter (λ z, cmpfcn x z ≤ 0 ∧ cmpfcn z x ≤ 0) (insert y l) =
  y :: filter (λ z, cmpfcn x z ≤ 0 ∧ cmpfcn z x ≤ 0) l.
Proof.
  intros Hxy Hyx. induction l as [|z l IH]; cbn [insert]; [by rewrite filter_cons_True|].
  destruct (Z.leb_spec (cmpfcn y z) 0) as [Hyz|Hyz]; [by rewrite filter_cons_True|].
  assert (Hz : ¬ (cmpfcn x z ≤ 0 ∧ cmpfcn z x ≤ 0)).
  { intros [Hxz _]. assert (cmpfcn y z ≤ 0) by (by eapply cmp_trans). lia. }
  by rewrite !filter_cons_False.
Qed.
Lemma insert_other x y l : ¬ (cmpfcn x y ≤ 0 ∧ cmpfcn y x ≤ 0) →
  filter (λ z, cmpfcn x z ≤ 0 ∧ cmpfcn z x ≤ 0) (insert y l) = filter (λ z, cmpfcn x z ≤ 0 ∧ cmpfcn z x ≤ 0) l.
Proof.
  intros Hy. induction l as [|z l IH]; cbn [insert]; [by rewrite filter_cons_False|].
  destruct (cmpfcn y z <=? 0); [by rewrite filter_cons_False|]. rewrite !filter_cons IH. done.
Qed.
Lemma isort_stable x l :
  filter (λ z, cmpfcn x z ≤ 0 ∧ cmpfcn z x ≤ 0) (isort l) = filter (λ z, cmpfcn x z ≤ 0 ∧ cmpfcn z x ≤ 0) l.
Proof.
  induction l as [|y l IH]; [done|]. change (isort (y :: l)) with (insert y (isort l)).
  destruct (decide (cmpfcn x y ≤ 0 ∧ cmpfcn y x ≤ 0)) as [[Hxy Hyx]|Hy].
  - by rewrite insert_class // IH filter_cons_True.
  - by rewrite insert_other // IH filter_cons_False.
Qed.

(** C22: The sort of a table. For any comparison that orders the elements and
    fewer than 2^31 of them, the passes of [HASH_SRT] end, with fuel for the
    doublings of the run size, and what they leave is what inserting the
    elements one by one gives: a permutation, in order, and elements the
    comparison does not tell apart stay in the order they were in. *)
Theorem sort_list_sorts fuel l : (length l ≤ 2 ^ fuel)%nat → (0 < fuel)%nat → Z.of_nat (length l) < 2147483648 →
  ∃ r, sort_list fuel l = Some r ∧ r = isort l ∧ r ≡ₚ l ∧ StronglySorted ordered r ∧
    ∀ x, filter (λ z, cmpfcn x z ≤ 0 ∧ cmpfcn z x ≤ 0) r = filter (λ z, cmpfcn x z ≤ 0 ∧ cmpfcn z x ≤ 0) l.
Proof.
  intros Hl Hf Hlen. exists (isort l). split; [by apply sort_list_run|]. split; [done|].
  split; [apply isort_perm|]. split; [apply isort_sorted|]. intros x. apply isort_stable.
Qed.
End laws.
End sort.

(** * An example: pairs compared by their first component *)
Section demo.
Definition by_first (x y : Z * Z) : Z := x.1 - y.1.
#[local] Instance by_first_comparison : Comparison by_first.
Proof. split; rewrite /by_first; intros; lia. Qed.
Definition demo_pairs : list (Z * Z) := [(3, 1); (1, 2); (2, 3); (1, 4); (3, 5); (0, 6); (2, 7)].

Example demo_sorts : sort_list by_first 3 demo_pairs = Some [(0, 6); (1, 2); (1, 4); (2, 3); (2, 7); (3, 1); (3, 5)].
Proof. reflexivity. Qed.
Lemma sort_list_sorts_witness :
  ∃ r, sort_list by_first 3 demo_pairs = Some r ∧ r = isort by_first demo_pairs ∧ r ≡ₚ demo_pairs ∧
    StronglySorted (ordered by_first) r ∧
    ∀ x, filter (λ z, by_first x z ≤ 0 ∧ by_first z x ≤ 0) r = filter (λ z, by_first x z ≤ 0 ∧ by_first z x ≤ 0) demo_pairs.
Proof.
  apply (sort_list_sorts by_first 3 demo_pairs); [apply (Nat.leb_le 7 8); reflexivity|lia|reflexivity].
Defined.
End demo.
End UthashSort.
