(* ===== verification/UthashEdit.v ===== *)
(** kernel/includes/uthash.h beyond what the program expands: deletion,
    replacement, insertion in order, sorting, emptying and counting.

    The tables are those of [Uthash]. A deletion takes the element out of the
    map as well: the table no longer leads to it. The comparison functions
    see the keys and values of elements. *)
From Stdlib Require Import Sorted.
From S2P Require Import Prelude.
From S2P Require Import Allocator.
From S2P Require Import Malloc.
From S2P Require Import CString.
From S2P Require Import Uthash.
From S2P Require Import UthashSort.
Import Uthash.
#[local] Open Scope general_if_scope.

Module UthashEdit.

(** * The macros *)

Definition sizeof_UT_hash_handle : Z := 32.

(** What is left of a doubly linked list without an element. *)
Fixpoint unlink (del : Z) (l : list Z) : list Z :=
  match l with
  | [] => []
  | p :: l => if p =? del then l else p :: unlink del l
  end.

Section ops.
Context {V A : Type} `{!Alloc.Allocator A}.
Implicit Types (head : option (hash V)).

Definition HASH_DEL_IN_BKT (b : UT_hash_bucket) (delhh : Z) : UT_hash_bucket :=
  Bucket (unlink delhh (hh_head b)) (u32 (count b - 1)) (expand_mult b).

Definition HASH_DELETE head (delptr : Z) : M A (option (hash V)) :=
  h ← unwrap head;
  e ← unwrap (elements h !! delptr);
  if bool_decide (order h = [delptr]) then
    Alloc.free (buckets_at (tbl h));;
    Alloc.free (self (tbl h));;
    mret None
  else
    let i := HASH_TO_BKT (hashv e) (num_buckets (tbl h)) in
    b ← unwrap (buckets (tbl h) !! i);
    let t := set_buckets (<[i := HASH_DEL_IN_BKT b delptr]> (buckets (tbl h))) (tbl h) in
    mret (Some (Hash (unlink delptr (order h)) (delete delptr (elements h)) (set_num_items (u32 (num_items t - 1)) t))).

(** The element replaced, NULL if there was none, and the table. *)
Definition HASH_REPLACE_STR head (add : Z) (k : string) (v : V) : M A (option Z * option (hash V)) :=
  replaced ← HASH_FIND_STR head k;
  head ← match replaced with Some p => HASH_DELETE head p | None => mret head end;
  head ← HASH_ADD_STR head add k v;
  mret (replaced, head).

(** The elements before the first one that compares greater, and the rest. *)
Fixpoint HASH_AKBI_INNER_LOOP (els : gmap Z (element V)) (cmpfcn : string * V → string * V → Z) (add : string * V)
    (iter : list Z) : option (list Z * list Z) :=
  match iter with
  | [] => Some ([], [])
  | p :: ps =>
      e ← entry_at els p;
      if 0 <? cmpfcn e add then Some ([], p :: ps)
      else '(l1, l2) ← HASH_AKBI_INNER_LOOP els cmpfcn add ps; Some (p :: l1, l2)
  end.
Definition HASH_ADD_INORDER (cmpfcn : string * V → string * V → Z) head (add : Z) (k : string) (v : V) :
    M A (option (hash V)) :=
  let e := Element k (hash_str k) v in
  h ← match head with
      | None => t ← HASH_MAKE_TABLE; mret (Hash [add] {[add := e]} t)
      | Some h =>
          '(l1, l2) ← unwrap (HASH_AKBI_INNER_LOOP (elements h) cmpfcn (k, v) (order h));
          mret (Hash (l1 ++ add :: l2) (<[add := e]> (elements h)) (tbl h))
      end;
  t ← HASH_ADD_TO_TABLE (elements h) (tbl h) add (hash_str k);
  mret (Some (Hash (order h) (elements h) t)).

(** The sort relinks the elements; [fuel] is for the doublings of the runs. *)
Definition HASH_SRT (fuel : nat) (cmpfcn : string * V → string * V → Z) head : M A (option (hash V)) :=
  match head with
  | None => mret None
  | Some h =>
      es ← unwrap (mapM (λ p, (λ e, (p, e)) <$> entry_at (elements h) p) (order h));
      match UthashSort.sort_list (λ x y, cmpfcn (snd x) (snd y)) fuel es with
      | None => nofuel
      | Some es => mret (Some (Hash es.*1 (elements h) (tbl h)))
      end
  end.

Definition HASH_CLEAR head : M A (option (hash V)) :=
  match head with
  | None => mret None
  | Some h =>
      Alloc.free (buckets_at (tbl h));;
      Alloc.free (self (tbl h));;
      mret None
  end.
Definition HASH_COUNT head : Z := match head with None => 0 | Some h => num_items (tbl h) end.
Definition HASH_OVERHEAD head : Z :=
  match head with
  | None => 0
  | Some h => u32 (u32 (u32 (num_items (tbl h) * sizeof_UT_hash_handle) + u32 (num_buckets (tbl h) * sizeof_UT_hash_bucket))
      + sizeof_UT_hash_table)
  end.
End ops.

(** * Deletion *)

Lemma unlink_split p l1 l2 : p ∉ l1 → unlink p (l1 ++ p :: l2) = l1 ++ l2.
Proof.
  induction l1 as [|q l1 IH]; intros Hp; cbn [app unlink]; [by rewrite Z.eqb_refl|].
  rewrite (proj2 (Z.eqb_neq q p)); [by intros ->; apply Hp; left|]. rewrite IH //. intros Hin. apply Hp. by right.
Qed.

Section delete.
Context {V : Type}.
Implicit Types (els : gmap Z (element V)) (h : hash V) (head : option (hash V)).

Lemma holds_remove els num bs ps p e i b :
  holds els num bs (p :: ps) → NoDup (p :: ps) → els !! p = Some e → HASH_TO_BKT (hashv e) num = i → bs !! i = Some b →
  Z.of_nat (length ps) < 4294967295 →
  holds els num (<[i := HASH_DEL_IN_BKT b p]> bs) ps.
Proof.
  intros Hh Hnd He Hi Hb Hlen. destruct (concat_insert (hh_head <$> bs) i (hh_head b)) as (rest&Hall&Hins).
  { by rewrite list_lookup_fmap Hb. }
  pose proof (hd_chains _ _ _ _ Hh) as Hc. rewrite Hall in Hc.
  assert (Hp : p ∈ hh_head b) by (eapply (in_bucket _ _ _ _ _ e); [exact Hh|by left|done|by rewrite Hi]).
  apply list_elem_of_split in Hp as (c1&c2&Hch). pose proof Hnd as Hnd'. rewrite -Hc Hch in Hnd'.
  assert (Hp1 : p ∉ c1).
  { intros Hin. rewrite -app_assoc in Hnd'. apply NoDup_app in Hnd' as (_&Hn&_). apply (Hn p Hin). by left. }
  assert (Hp2 : p ∉ c2).
  { intros Hin. rewrite -app_assoc in Hnd'. apply NoDup_app in Hnd' as (_&_&[Hn _]%NoDup_cons). apply Hn, elem_of_app. by left. }
  assert (Hun : unlink p (hh_head b) = c1 ++ c2) by (rewrite Hch; by apply unlink_split).
  assert (Hcases : ∀ j b', <[i := HASH_DEL_IN_BKT b p]> bs !! j = Some b' →
    (j = i ∧ b' = HASH_DEL_IN_BKT b p) ∨ (j ≠ i ∧ bs !! j = Some b')).
  { intros j b'. destruct (decide (i = j)) as [<-|Hne]; [|rewrite list_lookup_insert_ne //; right; by split].
    rewrite list_lookup_insert_eq; [by eapply lookup_lt_Some|]. intros [= <-]. by left. }
  pose proof (bucket_count _ _ _ _ _ _ Hh Hb) as Hbl. cbn [length] in Hbl.
  destruct Hh as [Hl _ Hpl Hn]. destruct (Hn _ _ Hb) as [Hcnt Hmult]. split.
  - by rewrite length_insert.
  - rewrite list_fmap_insert /= Hun Hins. rewrite Hch -app_assoc /= -Permutation_middle in Hc.
    rewrite -app_assoc. by apply Permutation_cons_inv in Hc.
  - intros j b' q [[-> ->]|[_ Hj]]%Hcases Hq; [|by eapply Hpl]. cbn [hh_head HASH_DEL_IN_BKT] in Hq.
    rewrite Hun in Hq. apply (Hpl i b q Hb). rewrite Hch. set_solver.
  - intros j b' [[-> ->]|[_ Hj]]%Hcases; [|by eapply Hn]. cbn [count hh_head expand_mult HASH_DEL_IN_BKT].
    rewrite Hun Hcnt Hch !length_app /= u32_small; [rewrite Hch length_app /= in Hbl; lia|]. lia.
Qed.

(** The entries with the addresses of their elements. *)
Definition entries head : list (Z * (string * V)) := zip (order_of head) (contents head).

Lemma head_length n head : head_in n head → length (contents head) = length (order_of head).
Proof. destruct head as [h|]; [|done]. apply contents_length. Qed.
Lemma entries_order n head : head_in n head → (entries head).*1 = order_of head.
Proof. intros Hok. apply fst_zip. by rewrite (head_length n). Qed.
Lemma entries_contents n head : head_in n head → (entries head).*2 = contents head.
Proof. intros Hok. apply snd_zip. by rewrite (head_length n). Qed.
Lemma entry_lookup n h p e : wf_in n h → (p, e) ∈ entries (Some h) → entry_at (elements h) p = Some e.
Proof.
  intros Hok. rewrite /entries /=. assert (Hall : Forall (λ p, is_Some (elements h !! p)) (order h)).
  { apply Forall_forall. intros q. apply (wf_elements _ _ Hok). }
  clear Hok. induction Hall as [|q ps [e' He'] _ IH]; [by intros ?%elem_of_nil|]. cbn [omap list_omap].
  rewrite {1}/entry_at He' /=. intros [[= -> ->]|Hin]%elem_of_cons; [by rewrite /entry_at He'|by apply IH].
Qed.
Lemma entries_omap n h ps : wf_in n h → (∀ p, p ∈ ps → p ∈ order h) →
  length (omap (entry_at (elements h)) ps) = length ps.
Proof.
  intros Hok. induction ps as [|p ps IH]; intros Hps; [done|]. destruct (proj1 (wf_elements _ _ Hok p)) as [e He].
  { apply Hps. by left. }
  cbn [omap list_omap]. rewrite {1}/entry_at He /= IH //. intros q Hq. apply Hps. by right.
Qed.

(** The table without one of its elements. *)
Lemma remove_in n h p e ps1 ps2 b :
  wf_in n h → elements h !! p = Some e → order h = ps1 ++ p :: ps2 →
  let i := HASH_TO_BKT (hashv e) (num_buckets (tbl h)) in
  buckets (tbl h) !! i = Some b →
  let h' := Hash (unlink p (order h)) (delete p (elements h))
    (set_num_items (u32 (num_items (tbl h) - 1)) (set_buckets (<[i := HASH_DEL_IN_BKT b p]> (buckets (tbl h))) (tbl h))) in
  wf_in n h' ∧ order h' = ps1 ++ ps2 ∧
  contents (Some h) = omap (entry_at (elements h)) ps1 ++ (key e, value e) :: omap (entry_at (elements h)) ps2 ∧
  contents (Some h') = omap (entry_at (elements h)) ps1 ++ omap (entry_at (elements h)) ps2.
Proof.
  intros Hok He Ho i Hb h'. pose proof Hok as [Hlog Hnum Hh Hnd Hel Hhv Hit Hsmall Hself].
  assert (Hperm : order h ≡ₚ p :: (ps1 ++ ps2)) by (rewrite Ho; by rewrite Permutation_middle).
  pose proof Hnd as Hnd'. rewrite Hperm in Hnd'. pose proof Hnd' as [Hp _]%NoDup_cons.
  assert (Hun : unlink p (order h) = ps1 ++ ps2) by (rewrite Ho; apply unlink_split; set_solver).
  assert (Hlen : length (order h) = S (length (ps1 ++ ps2))) by by rewrite Hperm.
  assert (Hsame : ∀ qs : list Z, p ∉ qs → omap (entry_at (delete p (elements h))) qs = omap (entry_at (elements h)) qs).
  { intros qs Hqs. apply entries_ext. intros q Hq. rewrite lookup_delete_ne //. by intros ->. }
  split; [|split; [exact Hun|split]].
  - split; cbn [tbl h' log2_num_buckets num_buckets buckets set_num_items set_buckets order elements num_items self buckets_at];
      rewrite ?Hun; try done.
    + apply (holds_els (elements h)).
      * apply (holds_remove _ _ _ _ _ e _ b); [by eapply holds_perm|done..|lia].
      * intros q e' Hq He'. exists e'. split; [|done]. rewrite lookup_delete_ne //. by intros ->.
    + by apply NoDup_cons in Hnd' as [_ ?].
    + intros q. rewrite lookup_delete_is_Some -Hel Hperm. set_solver.
    + intros q e' [_ He']%lookup_delete_Some. by apply (Hhv q).
    + rewrite Hit Hlen u32_small; lia.
    + lia.
  - cbn [contents]. rewrite Ho. by apply contents_split.
  - cbn [contents h' order elements]. rewrite Hun Hsame // omap_app. done.
Qed.

Lemma entries_split n h p e ps1 ps2 : wf_in n h → elements h !! p = Some e → order h = ps1 ++ p :: ps2 →
  entries (Some h) = zip ps1 (omap (entry_at (elements h)) ps1) ++
    (p, (key e, value e)) :: zip ps2 (omap (entry_at (elements h)) ps2).
Proof.
  intros Hok He Ho. rewrite /entries /= Ho (contents_split _ _ _ _ _ He) zip_with_app //.
  rewrite (entries_omap n h) //. intros q Hq. rewrite Ho. set_solver.
Qed.
End delete.

(** * The tables as lists of entries *)

Section spec.
Context {V : Type} (cmpfcn : string * V → string * V → Z).
Abbreviation entry := (Z * (string * V))%type.
Implicit Types (l : list entry).

Fixpoint find (name : string) l : option entry :=
  match l with
  | [] => None
  | x :: l => if same_key (fst (snd x)) name then Some x else find name l
  end.
Fixpoint remove (name : string) l : list entry :=
  match l with
  | [] => []
  | x :: l => if same_key (fst (snd x)) name then l else x :: remove name l
  end.
(** Before the first entry that compares greater. *)
Fixpoint place (x : entry) l : list entry :=
  match l with
  | [] => [x]
  | y :: l => if 0 <? cmpfcn (snd y) (snd x) then x :: y :: l else y :: place x l
  end.
Definition by_entry (x y : entry) : Z := cmpfcn (snd x) (snd y).

Inductive call : Type :=
  | Add (p : Z) (k : string) (v : V)
  | AddInorder (p : Z) (k : string) (v : V)
  | Replace (p : Z) (k : string) (v : V)
  | Delete (name : string)
  | Sort
  | Clear
  | Find (name : string)
  | Iter
  | Count.
Inductive answer : Type :=
  | Done
  | Found (v : option V)
  | Visited (es : list (string * V))
  | Counted (n : Z).

Definition found (name : string) l : answer := Found ((λ x, snd (snd x)) <$> find name l).
Definition spec_call (c : call) l : answer * list entry :=
  match c with
  | Add p k v => (Done, l ++ [(p, (k, v))])
  | AddInorder p k v => (Done, place (p, (k, v)) l)
  | Replace p k v => (found k l, remove k l ++ [(p, (k, v))])
  | Delete name => (found name l, remove name l)
  | Sort => (Done, UthashSort.isort by_entry l)
  | Clear => (Done, [])
  | Find name => (found name l, l)
  | Iter => (Visited l.*2, l)
  | Count => (Counted (Z.of_nat (length l)), l)
  end.
Fixpoint spec_calls (cs : list call) l : list answer * list entry :=
  match cs with
  | [] => ([], l)
  | c :: cs =>
      let '(r, l) := spec_call c l in
      let '(rs, l) := spec_calls cs l in (r :: rs, l)
  end.

(** An element that is added is not in the table, and its key has a hash
    value of its own. *)
Definition new (p : Z) (k : string) l : Prop := (p ∉ l.*1) ∧ hash_str k ∉ (hash_str <$> l.*2.*1).
Definition allowed (c : call) l : Prop :=
  match c with
  | Add p k _ | AddInorder p k _ => new p k l
  | Replace p k _ => (p ∉ l.*1) ∧ new p k (remove k l)
  | _ => True
  end.
Fixpoint all_allowed (cs : list call) l : Prop :=
  match cs with
  | [] => True
  | c :: cs => allowed c l ∧ all_allowed cs (snd (spec_call c l))
  end.
Definition adds (c : call) : nat := match c with Add _ _ _ | AddInorder _ _ _ | Replace _ _ _ => 1 | _ => 0 end.

(** Different elements with different hash values. *)
Record distinct l : Prop := { di_addrs : NoDup l.*1; di_keys : NoDup (hash_str <$> l.*2.*1) }.

Lemma distinct_perm l l' : distinct l → l ≡ₚ l' → distinct l'.
Proof. intros [Ha Hk] Hp. by split; rewrite -Hp. Qed.
Lemma distinct_cons p k v l : distinct l → new p k l → distinct ((p, (k, v)) :: l).
Proof. intros [Ha Hk] [Hp Hn]. split; cbn; by apply NoDup_cons. Qed.
Lemma place_perm x l : place x l ≡ₚ x :: l.
Proof.
  induction l as [|y l IH]; [done|]. cbn [place]. destruct (0 <? _); [done|]. rewrite IH. apply perm_swap.
Qed.

(** The one entry the key is the same as. *)
Lemma find_middle name p k v l1 l2 : distinct (l1 ++ (p, (k, v)) :: l2) → same_key k name = true →
  find name (l1 ++ (p, (k, v)) :: l2) = Some (p, (k, v)) ∧ remove name (l1 ++ (p, (k, v)) :: l2) = l1 ++ l2.
Proof.
  intros Hd Hk. induction l1 as [|[p1 [k1 v1]] l1 IH]; cbn [app find remove fst snd]; [by rewrite Hk|].
  destruct Hd as [Ha Hh]. cbn in Ha, Hh. apply NoDup_cons in Ha as [_ Ha]. apply NoDup_cons in Hh as [Hn Hh].
  destruct (same_key k1 name) eqn:H1.
  - destruct Hn. rewrite (same_key_hash _ _ H1) -(same_key_hash _ _ Hk).
    apply list_elem_of_fmap_2, (list_elem_of_fmap_2 fst _ (k, v)), (list_elem_of_fmap_2 snd _ (p, (k, v))). set_solver.
  - destruct IH as [-> ->]; by split.
Qed.
Lemma find_nothing name l : (∀ k v, (k, v) ∈ l.*2 → same_key k name = false) → find name l = None ∧ remove name l = l.
Proof.
  induction l as [|[p [k v]] l IH]; intros Hl; [done|]. cbn [find remove fst snd].
  rewrite (Hl k v); [by left|]. destruct IH as [-> ->]; [intros k' v' Hin; apply (Hl k' v'); by right|done].
Qed.
Lemma remove_sublist name l : remove name l `sublist_of` l.
Proof.
  induction l as [|x l IH]; [done|]. cbn [remove]. destruct (same_key _ name); [by apply sublist_cons|by apply sublist_skip].
Qed.
Lemma remove_distinct name l : distinct l → distinct (remove name l).
Proof.
  intros [Ha Hk]. pose proof (remove_sublist name l) as Hs. split.
  - eapply sublist_NoDup; [exact Ha|]. by apply fmap_sublist.
  - eapply sublist_NoDup; [exact Hk|]. by do 3 apply fmap_sublist.
Qed.

Lemma spec_distinct c l : distinct l → allowed c l → distinct (snd (spec_call c l)).
Proof.
  intros Hd Hc. destruct c; cbn [spec_call snd allowed] in *; try done.
  - apply (distinct_perm ((p, (k, v)) :: l)); [by apply distinct_cons|]. by rewrite Permutation_app_comm.
  - apply (distinct_perm ((p, (k, v)) :: l)); [by apply distinct_cons|]. by rewrite place_perm.
  - apply (distinct_perm ((p, (k, v)) :: remove k l)); [|by rewrite Permutation_app_comm].
    apply distinct_cons; [by apply remove_distinct|by destruct Hc].
  - by apply remove_distinct.
  - eapply distinct_perm; [done|]. by rewrite UthashSort.isort_perm.
  - split; apply NoDup_nil_2.
Qed.
End spec.

(** * The macros compute that *)

Section refine.
Context {V A : Type} `{!Alloc.Allocator A, !Alloc.AllocatorLaws A}.
Context (cmpfcn : string * V → string * V → Z) `{!UthashSort.Comparison cmpfcn} (fuel : nat).
Implicit Types (head : option (hash V)) (a : A) (L : gset Z) (l : list (Z * (string * V))).

Definition value_at head (o : option Z) : option V :=
  h ← head; p ← o; value <$> elements h !! p.
Definition do_call head (c : call) : M A (answer * option (hash V)) :=
  match c with
  | Add p k v => head ← HASH_ADD_STR head p k v; mret (Done, head)
  | AddInorder p k v => head ← HASH_ADD_INORDER cmpfcn head p k v; mret (Done, head)
  | Replace p k v => '(replaced, head') ← HASH_REPLACE_STR head p k v; mret (Found (value_at head replaced), head')
  | Delete name =>
      o ← HASH_FIND_STR head name;
      head' ← match o with Some p => HASH_DELETE head p | None => mret head end;
      mret (Found (value_at head o), head')
  | Sort => head ← HASH_SRT fuel cmpfcn head; mret (Done, head)
  | Clear => head ← HASH_CLEAR head; mret (Done, head)
  | Find name => o ← HASH_FIND_STR head name; mret (Found (value_at head o), head)
  | Iter => es ← unwrap (HASH_ITER head); mret (Visited ((λ e, (key e, value e)) <$> es), head)
  | Count => mret (Counted (HASH_COUNT head), head)
  end.
Fixpoint do_calls head (cs : list call) : M A (list answer * option (hash V)) :=
  match cs with
  | [] => mret ([], head)
  | c :: cs =>
      '(r, head) ← do_call head c;
      '(rs, head) ← do_calls head cs;
      mret (r :: rs, head)
  end.

(** A table of at most [n] additions whose blocks are beside [L], and whose
    entries are [l]. *)
Record table n head L a l : Prop := {
  tb_ok : head_in n head;
  tb_live : Alloc.live a (head_blocks head ∪ L);
  tb_apart : head_blocks head ## L;
  tb_entries : entries head = l;
  tb_distinct : distinct l
}.

Lemma table_order n head L a l : table n head L a l → order_of head = l.*1.
Proof. intros [Hok _ _ <- _]. by rewrite (entries_order n). Qed.
Lemma table_contents n head L a l : table n head L a l → contents head = l.*2.
Proof. intros [Hok _ _ <- _]. by rewrite (entries_contents n). Qed.

(** Blocks exchanged by an operation on the table. *)
Lemma exchange {B L L' C : gset Z} :
  L' = C ∪ (B ∪ L) ∖ B → B ## L → C ∖ B ## B ∪ L → L' = C ∪ L ∧ C ## L.
Proof.
  intros -> HB HC. split; [set_solver|]. intros x Hx HxL. destruct (decide (x ∈ B)); set_solver.
Qed.

Lemma add_table n head p k v L a l : table n head L a l → new p k l → (n ≤ 29)%nat →
  or_exits (HASH_ADD_STR head p k v) a (λ head' a' _, table (S n) head' L a' (l ++ [(p, (k, v))])).
Proof.
  intros Ht Hnew Hn. pose proof (table_order _ _ _ _ _ Ht) as Ho. pose proof Hnew as [Hp _]. pose proof Ht as [Hok Hl Hd He Hdi].
  eapply or_exits_mono; [apply (add_in n head p k v a (head_blocks head ∪ L)); [done|by rewrite Ho|done|done|set_solver]|].
  intros head' a' _ (Hok'&Hc'&Ho'&Hl'&Hd'). destruct (exchange eq_refl Hd Hd') as [Heq Hd2]. rewrite Heq in Hl'.
  split; [done..| |].
  - rewrite /entries Hc' Ho' zip_with_app; [by rewrite (head_length n)|]. by rewrite -/(entries head) He.
  - eapply distinct_perm; [by apply (distinct_cons p k v l)|]. by rewrite Permutation_app_comm.
Qed.

(** The place the loop finds. *)
Lemma inner_loop_run n h (x : Z * (string * V)) ps : wf_in n h → (∀ p, p ∈ ps → p ∈ order h) →
  ∃ l1 l2 : list Z, HASH_AKBI_INNER_LOOP (elements h) cmpfcn (snd x) ps = Some (l1, l2) ∧ ps = l1 ++ l2 ∧
    place cmpfcn x (zip ps (omap (entry_at (elements h)) ps)) =
      zip l1 (omap (entry_at (elements h)) l1) ++ x :: zip l2 (omap (entry_at (elements h)) l2).
Proof.
  intros Hok. induction ps as [|p ps IH]; intros Hps; [by exists [], []|].
  destruct (proj1 (wf_elements _ _ Hok p)) as [e He]; [apply Hps; by left|].
  assert (Hat : entry_at (elements h) p = Some (key e, value e)) by by rewrite /entry_at He.
  cbn [HASH_AKBI_INNER_LOOP omap list_omap]. rewrite Hat /=. destruct (0 <? cmpfcn (key e, value e) (snd x)) eqn:Hcmp.
  - exists [], (p :: ps). split; [done|]. split; [done|]. by rewrite /= Hat /=.
  - destruct IH as (l1&l2&Hrun&->&Hpl); [intros q Hq; apply Hps; by right|].
    exists (p :: l1), l2. rewrite Hrun Hpl /=. split; [done|]. split; [done|]. by rewrite Hat.
Qed.
Lemma inorder_table n head p k v L a l : table n head L a l → new p k l → (n ≤ 29)%nat →
  or_exits (HASH_ADD_INORDER cmpfcn head p k v) a (λ head' a' _, table (S n) head' L a' (place cmpfcn (p, (k, v)) l)).
Proof.
  intros Ht Hnew Hn. destruct head as [h|].
  2:{ (* on no table it is [HASH_ADD_STR] *)
      pose proof (tb_entries _ _ _ _ _ Ht) as He. cbn in He. subst l. by apply (add_table n None p k v L a []). }
  pose proof (table_order _ _ _ _ _ Ht) as Ho. cbn [order_of] in Ho. pose proof Hnew as [Hp _].
  pose proof Ht as [Hok Hl Hd He Hdi]. rewrite /HASH_ADD_INORDER.
  destruct (inner_loop_run n h (p, (k, v)) (order h) Hok) as (l1&l2&Hrun&Hsplit&Hpl); [done|].
  rewrite Hrun. apply or_exits_bind, or_exits_bind, or_exits_ret, or_exits_ret. cbn [elements tbl order].
  set e := Element k (hash_str k) v. change (hash_str k) with (hashv e). apply or_exits_bind. eapply or_exits_mono.
  { apply (place_ok n h (l1 ++ p :: l2) p e a (head_blocks (Some h) ∪ L)); try done; [by rewrite Ho| |set_solver].
    by rewrite Hsplit Permutation_middle. }
  intros t' a' _ (Hwf&Hl'&Hd'). apply or_exits_ret. destruct (exchange eq_refl Hd Hd') as [Heq Hd2]. rewrite Heq in Hl'.
  assert (Hent : entries (Some (Hash (l1 ++ p :: l2) (<[p := e]> (elements h)) t')) = place cmpfcn (p, (k, v)) l).
  { rewrite -He /entries. cbn [order_of contents order elements].
    rewrite (contents_split _ l1 p l2 e); [by rewrite lookup_insert_eq|].
    assert (Hsame : ∀ qs : list Z, (∀ q, q ∈ qs → q ∈ order h) →
      omap (entry_at (<[p := e]> (elements h))) qs = omap (entry_at (elements h)) qs).
    { intros qs Hqs. apply entries_ext. intros q Hq. rewrite lookup_insert_ne //. intros ->. apply Hp. rewrite -Ho. by apply Hqs. }
    assert (Hq1 : ∀ q, q ∈ l1 → q ∈ order h) by (intros q Hq; rewrite Hsplit; set_solver).
    assert (Hq2 : ∀ q, q ∈ l2 → q ∈ order h) by (intros q Hq; rewrite Hsplit; set_solver).
    by rewrite !Hsame // zip_with_app ?(entries_omap n h) // Hpl. }
  split; [done..| |].
  - exact Hent.
  - eapply distinct_perm; [by apply (distinct_cons p k v l)|]. by rewrite place_perm.
Qed.

(** The search finds the entry. *)
Lemma find_table n head name L a l : table n head L a l →
  ∃ o, HASH_FIND_STR head name a = Ok (o, a, []) ∧ value_at head o = (λ x, snd (snd x)) <$> find name l ∧
    match o with
    | Some p => ∃ h e, head = Some h ∧ elements h !! p = Some e ∧ same_key (key e) name = true
    | None => remove name l = l
    end.
Proof.
  intros Ht. pose proof (table_contents _ _ _ _ _ Ht) as Hc. pose proof Ht as [Hok _ _ He Hdi].
  destruct (find_run n head name a Hok) as (o&Hr&Ho). exists o. split; [done|]. destruct o as [p|].
  - destruct Ho as (h&e&->&Hp&Hk). split; [|by exists h, e].
    assert (Hin : p ∈ order h) by (apply (wf_elements _ _ Hok); by eexists).
    apply list_elem_of_split in Hin as (ps1&ps2&Ho). rewrite (entries_split _ _ _ _ _ _ Hok Hp Ho) in He. subst l.
    destruct (find_middle name _ _ _ _ _ Hdi Hk) as [-> _]. by rewrite /value_at /= Hp.
  - rewrite Hc in Ho. destruct (find_nothing name l Ho) as [-> ->]. split; [|done]. by destruct head.
Qed.

Lemma free_or_exits p a L Q : Alloc.live a L → p ∈ L → (∀ a' o, Alloc.live a' (L ∖ {[p]}) → Q tt a' o) → or_exits (Alloc.free p) a Q.
Proof.
  intros Hl Hp HQ. eapply or_exits_mono; [apply or_exits_wp; by apply Alloc.free_live|]. intros [] a' o. apply HQ.
Qed.
(** The two blocks of a table are freed. *)
Lemma free_table (h : hash V) L a : Alloc.live a (blocks (tbl h) ∪ L) → blocks (tbl h) ## L → self (tbl h) ≠ buckets_at (tbl h) →
  or_exits (Alloc.free (buckets_at (tbl h));; Alloc.free (self (tbl h));; mret None) a
    (λ head' a' _, head' = None (A := hash V) ∧ Alloc.live a' L).
Proof.
  intros Hl Hd Hne. rewrite /blocks in Hl, Hd. apply or_exits_bind. eapply free_or_exits; [done|set_solver|]. intros a1 o1 Hl1.
  apply or_exits_bind. eapply free_or_exits; [done|set_solver|]. intros a2 o2 Hl2. apply or_exits_ret. split; [done|].
  replace L with (({[self (tbl h); buckets_at (tbl h)]} ∪ L) ∖ {[buckets_at (tbl h)]} ∖ {[self (tbl h)]}); [done|].
  apply set_eq. intros x. destruct (decide (x = self (tbl h))) as [->|]; set_solver.
Qed.
Lemma no_table n L a : Alloc.live a L → table n None L a [].
Proof. intros Hl. split; [done|by rewrite /= union_empty_l_L|set_solver|done|by split; apply NoDup_nil_2]. Qed.

Lemma delete_table n h p e name L a l : table n (Some h) L a l → elements h !! p = Some e → same_key (key e) name = true →
  or_exits (HASH_DELETE (Some h) p) a (λ head' a' _, table n head' L a' (remove name l)).
Proof.
  intros [Hok Hl Hd He Hdi] Hp Hk. cbn [head_in head_blocks] in *. rewrite /HASH_DELETE.
  apply or_exits_bind, or_exits_ret. rewrite Hp. apply or_exits_bind, or_exits_ret.
  case_bool_decide as Hlast.
  - rewrite (entries_split n h p e [] [] Hok Hp Hlast) in He. subst l. cbn. rewrite Hk.
    eapply or_exits_mono; [apply (free_table h L a Hl Hd), (wf_addrs _ _ Hok)|]. intros head' a' _ [-> Hl']. by apply no_table.
  - assert (Hin : p ∈ order h) by (apply (wf_elements _ _ Hok); by eexists).
    apply list_elem_of_split in Hin as (ps1&ps2&Ho).
    pose proof (entries_split _ _ _ _ _ _ Hok Hp Ho) as Hsplit. rewrite He in Hsplit. subst l.
    pose proof Hdi as Hdi'. rewrite Hsplit in Hdi'. destruct (find_middle name _ _ _ _ _ Hdi' Hk) as [_ Hrem].
    pose proof (to_bkt_lt (hashv e) (log2_num_buckets (tbl h))) as Hlt. pose proof (wf_log _ _ Hok). pose proof (wf_small _ _ Hok).
    rewrite -(wf_num _ _ Hok) -(hd_length _ _ _ _ (wf_holds _ _ Hok)) in Hlt.
    destruct (lookup_lt_is_Some_2 _ _ (Hlt ltac:(lia))) as [b Hb]. rewrite Hb. apply or_exits_bind, or_exits_ret, or_exits_ret.
    destruct (remove_in n h p e ps1 ps2 b Hok Hp Ho Hb) as (Hok'&Ho'&_&Hc').
    split; [exact Hok'|done|done| |by apply remove_distinct].
    rewrite Hsplit Hrem /entries Hc' [order_of _]Ho' zip_with_app //. symmetry.
    apply (entries_omap n h ps1 Hok). intros q Hq. rewrite Ho. set_solver.
Qed.
(** What [HASH_FIND_STR] found is deleted. *)
Lemma remove_found n head name o L a l : table n head L a l →
  match o with
  | Some p => ∃ h e, head = Some h ∧ elements h !! p = Some e ∧ same_key (key e) name = true
  | None => remove name l = l
  end →
  or_exits (match o with Some p => HASH_DELETE head p | None => mret head end) a (λ head' a' _, table n head' L a' (remove name l)).
Proof.
  intros Ht Ho. destruct o as [p|]; [|by apply or_exits_ret; rewrite Ho].
  destruct Ho as (h&e&->&He&Hk). by eapply delete_table.
Qed.

Lemma table_mono n m head L a l : table n head L a l → (n ≤ m ≤ 30)%nat → table m head L a l.
Proof.
  intros [Hok ????] Hm. split; try done. destruct head as [h|]; [|done]. by eapply wf_mono.
Qed.
Lemma replace_table n head p k v L a l : table n head L a l → new p k (remove k l) → (n ≤ 29)%nat →
  or_exits (HASH_REPLACE_STR head p k v) a (λ '(o, head') a' _,
    value_at head o = (λ x, snd (snd x)) <$> find k l ∧ table (S n) head' L a' (remove k l ++ [(p, (k, v))])).
Proof.
  intros Ht Hnew Hn. rewrite /HASH_REPLACE_STR. destruct (find_table n head k L a l Ht) as (o&Hr&Hv&Ho).
  apply or_exits_bind. rewrite {1}/or_exits Hr. apply or_exits_bind.
  eapply or_exits_mono; [by apply (remove_found n head k o L a l)|]. intros head1 a1 o1 Ht1.
  apply or_exits_bind. eapply or_exits_mono; [exact (add_table n head1 p k v L a1 _ Ht1 Hnew Hn)|]. intros head2 a2 o2 Ht2. by apply or_exits_ret.
Qed.

(** The order is rearranged, the table is not touched. *)
Lemma wf_order_perm n os els t os' : wf_in n (Hash os els t) → os' ≡ₚ os → wf_in n (Hash os' els t : hash V).
Proof.
  intros [Hlog Hnum Hh Hnd Hel Hhv Hit Hsmall Hself] Hp. cbn [order elements tbl] in *.
  split; cbn [order elements tbl]; rewrite ?Hp; try done.
  - by eapply holds_perm.
  - intros q. by rewrite Hp.
Qed.
Lemma read_entries n (h : hash V) : wf_in n h →
  mapM (λ p, (λ e, (p, e)) <$> entry_at (elements h) p) (order h) = Some (entries (Some h)).
Proof.
  intros Hok. rewrite /entries /=. assert (Hall : Forall (λ p, is_Some (elements h !! p)) (order h)).
  { apply Forall_forall. intros q. apply (wf_elements _ _ Hok). }
  clear Hok. induction Hall as [|p ps [e He] _ IH]; [done|]. cbn [mapM omap list_omap].
  by rewrite /entry_at He /= IH.
Qed.
Lemma sort_table n head L a l : table n head L a l → (30 ≤ 2 ^ fuel)%nat →
  or_exits (HASH_SRT fuel cmpfcn head) a (λ head' a' _, table n head' L a' (UthashSort.isort (by_entry cmpfcn) l)).
Proof.
  intros Ht Hf. pose proof Ht as [Hok Hl Hd He Hdi]. destruct head as [h|].
  2:{ cbn in He. subst l. by apply or_exits_ret. }
  cbn [HASH_SRT]. rewrite (read_entries n h Hok) He. apply or_exits_bind, or_exits_ret.
  assert (Hcmp : UthashSort.Comparison (by_entry cmpfcn)).
  { split; rewrite /by_entry; [intros x y; apply (UthashSort.cmp_total cmpfcn)|intros x y z; apply (UthashSort.cmp_trans cmpfcn)]. }
  pose proof (table_order _ _ _ _ _ Ht) as Ho. cbn [order_of] in Ho.
  assert (Hlen : (length l ≤ 30)%nat).
  { pose proof (wf_small _ _ Hok) as Hs. rewrite Ho length_fmap in Hs. lia. }
  change (λ x y : Z * (string * V), cmpfcn x.2 y.2) with (by_entry cmpfcn).
  rewrite (UthashSort.sort_list_run (by_entry cmpfcn) fuel l); [lia|destruct fuel; [simpl in Hf; lia|lia]|lia|].
  apply or_exits_ret. set r := UthashSort.isort _ l. assert (Hr : r ≡ₚ l) by apply UthashSort.isort_perm.
  assert (Hwf : wf_in n (Hash r.*1 (elements h) (tbl h))).
  { eapply (wf_order_perm n (order h)); [by destruct h|]. by rewrite Hr Ho. }
  split; [exact Hwf|done|done| |by eapply distinct_perm].
  assert (Hat : Forall (λ x, entry_at (elements h) x.1 = Some x.2) r).
  { apply Forall_forall. intros [p e]. rewrite Hr -He. apply (entry_lookup n h p e Hok). }
  rewrite /entries /=. clear -Hat. induction Hat as [|[p e] r Hx _ IH]; [done|].
  cbn in Hx. cbn [fmap list_fmap omap list_omap fst]. by rewrite Hx /= IH.
Qed.
Lemma clear_table n head L a l : table n head L a l →
  or_exits (HASH_CLEAR head) a (λ head' a' _, table n head' L a' []).
Proof.
  intros [Hok Hl Hd He Hdi]. destruct head as [h|].
  2:{ apply or_exits_ret, no_table. cbn [head_blocks] in Hl. by rewrite union_empty_l_L in Hl. }
  eapply or_exits_mono; [apply (free_table h L a Hl Hd), (wf_addrs _ _ Hok)|]. intros head' a' _ [-> Hl']. by apply no_table.
Qed.
Lemma count_table n head L a l : table n head L a l → HASH_COUNT head = Z.of_nat (length l).
Proof.
  intros Ht. pose proof (table_order _ _ _ _ _ Ht) as Ho. pose proof Ht as [Hok _ _ He _]. destruct head as [h|].
  - cbn. by rewrite (wf_items _ _ Hok) [order h]Ho length_fmap.
  - cbn in He. by subst l.
Qed.

Lemma do_call_table n head c L a l : table n head L a l → allowed c l → (n + adds c ≤ 30)%nat → (30 ≤ 2 ^ fuel)%nat →
  or_exits (do_call head c) a (λ '(r, head') a' _, r = fst (spec_call cmpfcn c l) ∧
    table (n + adds c) head' L a' (snd (spec_call cmpfcn c l))).
Proof.
  intros Ht Hc Hn Hf. destruct c as [p k v|p k v|p k v|name| | |name| |]; cbn [do_call spec_call allowed adds fst snd] in *;
    rewrite ?Nat.add_0_r ?Nat.add_1_r.
  - apply or_exits_bind. eapply or_exits_mono; [apply (add_table n head p k v L a l Ht Hc); lia|]. intros head' a' o' Ht'. by apply or_exits_ret.
  - apply or_exits_bind. eapply or_exits_mono; [apply (inorder_table n head p k v L a l Ht Hc); lia|]. intros head' a' o' Ht'. by apply or_exits_ret.
  - apply or_exits_bind. eapply or_exits_mono; [apply (replace_table n head p k v L a l Ht); [by destruct Hc|lia]|].
    intros [o head'] a' o' [Hv Ht']. apply or_exits_ret. by rewrite Hv.
  - destruct (find_table n head name L a l Ht) as (o&Hr&Hv&Ho). apply or_exits_bind. rewrite {1}/or_exits Hr.
    apply or_exits_bind. eapply or_exits_mono; [by apply (remove_found n head name o L a l)|]. intros head1 a1 o1 Ht1.
    apply or_exits_ret. by rewrite Hv.
  - apply or_exits_bind. eapply or_exits_mono; [exact (sort_table n head L a l Ht Hf)|]. intros head' a' o' Ht'. by apply or_exits_ret.
  - apply or_exits_bind. eapply or_exits_mono; [exact (clear_table n head L a l Ht)|]. intros head' a' o' Ht'. by apply or_exits_ret.
  - destruct (find_table n head name L a l Ht) as (o&Hr&Hv&Ho). apply or_exits_bind. rewrite {1}/or_exits Hr.
    apply or_exits_ret. by rewrite Hv.
  - destruct (iter_run n head (tb_ok _ _ _ _ _ Ht)) as (es&Hes&Hc'). rewrite Hes. apply or_exits_bind, or_exits_ret, or_exits_ret.
    by rewrite Hc' (table_contents _ _ _ _ _ Ht).
  - apply or_exits_ret. by rewrite (count_table _ _ _ _ _ Ht).
Qed.
Lemma do_calls_table cs n head L a l : table n head L a l → all_allowed cmpfcn cs l → (n + sum_list (adds <$> cs) ≤ 30)%nat →
  (30 ≤ 2 ^ fuel)%nat →
  or_exits (do_calls head cs) a (λ '(rs, head') a' _, ∃ l', (rs, l') = spec_calls cmpfcn cs l ∧
    table (n + sum_list (adds <$> cs)) head' L a' l').
Proof.
  revert n head a l. induction cs as [|c cs IH]; intros n head a l Ht Hall Hn Hf; cbn [do_calls spec_calls].
  { apply or_exits_ret. exists l. by rewrite Nat.add_0_r. }
  destruct Hall as [Hc Hall]. cbn [fmap list_fmap sum_list sum_list_with] in Hn. apply or_exits_bind.
  eapply or_exits_mono; [apply (do_call_table n head c L a l Ht Hc); [cbn in Hn; lia|done]|].
  intros [r head1] a1 o1 [-> Ht1]. destruct (spec_call cmpfcn c l) as [r l1]. cbn [fst snd] in *.
  apply or_exits_bind. eapply or_exits_mono; [apply (IH _ _ _ _ Ht1 Hall); [cbn in Hn |- *; lia|done]|].
  intros [rs head2] a2 o2 (l2&Hspec&Ht2). apply or_exits_ret. exists l2. rewrite -Hspec. split; [done|].
  cbn. by rewrite Nat.add_assoc.
Qed.

End refine.

(** * A table on the kernel heap

    Twelve keys of one bucket, so that the buckets are doubled; then entries
    are deleted, replaced, put in order and sorted, and the table emptied. *)
Section demo.
Definition by_value (x y : string * Z) : Z := snd x - snd y.
#[local] Instance by_value_comparison : UthashSort.Comparison by_value.
Proof. split; rewrite /by_value; intros; lia. Qed.

Definition demo_edits : list (call (V:=Z)) :=
  imap (λ i k, Add (100 + Z.of_nat i) k ((7 * Z.of_nat i) mod 12)) demo_keys ++
  [Delete "cd"; Delete "none"; Replace 200 "dr" 20; Find "dr"; Count; Sort; AddInorder 201 "cd" 4; Iter].

Example demo_edits_run :
  match do_calls by_value 5 None demo_edits Heap.demo with
  | Ok (rs, Some h, _, _) => Some (drop 12 rs, num_buckets (tbl h), (λ k, length (hh_head k)) <$> take 3 (buckets (tbl h)))
  | _ => None
  end =
  Some ([Found (Some 7); Found None; Found (Some 2); Found (Some 20); Counted 11; Done; Done;
         Visited [("bv", 0); ("gu", 1); ("mt", 3); ("eb", 4); ("cd", 4); ("og", 5); ("ff", 6); ("kv", 8); ("dv", 9);
                  ("nc", 10); ("et", 11); ("dr", 20)]], 64, [0; 0; 2]%nat).
Proof. vm_compute. reflexivity. Qed.
Example demo_emptied :
  match do_calls by_value 5 None [Add 100 "a" 1; Delete "a"; Add 101 "b" 2; Clear; Count] Heap.demo with
  | Ok (rs, head, _, _) => Some (rs, head)
  | _ => None
  end = Some ([Done; Found (Some 1); Done; Done; Counted 0], None).
Proof. vm_compute. reflexivity. Qed.

Lemma demo_allowed : all_allowed by_value demo_edits [].
Proof. repeat split; apply (bool_decide_unpack _); vm_compute; exact I. Qed.
End demo.
End UthashEdit.
