(* ===== verification/UthashHash.v ===== *)
(** kernel/includes/uthash.h: the hash functions a program may choose instead
    of [HASH_JEN].

    A key is the list of its bytes, a hash value a 32-bit word. Of three of
    the functions every step can be undone, so that they tell keys apart that
    differ in one byte. *)
From S2P Require Import Prelude.
From S2P Require Import CString.
From S2P Require Import Uthash.
#[local] Open Scope general_if_scope.

Module UthashHash.

(** * The macros *)

Definition ber_step (hashv c : Z) : Z := u32 (u32 (u32 (Z.shiftl hashv 5) + hashv) + c).
Definition HASH_BER (key : list Z) : Z := foldl ber_step 0 key.

Definition sax_step (hashv c : Z) : Z :=
  Z.lxor hashv (u32 (u32 (u32 (Z.shiftl hashv 5) + Z.shiftr hashv 2) + c)).
Definition HASH_SAX (key : list Z) : Z := foldl sax_step 0 key.

Definition fnv_step (hashv c : Z) : Z :=
  let hashv := Z.lxor hashv c in
  u32 (hashv * 16777619).
Definition HASH_FNV (key : list Z) : Z := foldl fnv_step 2166136261 key.

Definition oat_step (hashv c : Z) : Z :=
  let hashv := u32 (hashv + c) in
  let hashv := u32 (hashv + u32 (Z.shiftl hashv 10)) in
  Z.lxor hashv (Z.shiftr hashv 6).
Definition oat_final (hashv : Z) : Z :=
  let hashv := u32 (hashv + u32 (Z.shiftl hashv 3)) in
  let hashv := Z.lxor hashv (Z.shiftr hashv 11) in
  u32 (hashv + u32 (Z.shiftl hashv 15)).
Definition HASH_OAT (key : list Z) : Z := oat_final (foldl oat_step 0 key).

(** A 16-bit word of the key, as the processor reads it. *)
Definition get16bits (k0 k1 : Z) : Z := k0 + 256 * k1.
Fixpoint sfh_loop (key : list Z) (hashv : Z) : list Z * Z :=
  match key with
  | k0 :: k1 :: k2 :: k3 :: key =>
      let hashv := u32 (hashv + get16bits k0 k1) in
      let _sfh_tmp := Z.lxor (u32 (Z.shiftl (get16bits k2 k3) 11)) hashv in
      let hashv := Z.lxor (u32 (Z.shiftl hashv 16)) _sfh_tmp in
      sfh_loop key (u32 (hashv + Z.shiftr hashv 11))
  | _ => (key, hashv)
  end.
Definition sfh_rem (rest : list Z) (hashv : Z) : Z :=
  match rest with
  | [k0; k1; k2] =>
      let hashv := u32 (hashv + get16bits k0 k1) in
      let hashv := Z.lxor hashv (u32 (Z.shiftl hashv 16)) in
      let hashv := Z.lxor hashv (u32 (Z.shiftl k2 18)) in
      u32 (hashv + Z.shiftr hashv 11)
  | [k0; k1] =>
      let hashv := u32 (hashv + get16bits k0 k1) in
      let hashv := Z.lxor hashv (u32 (Z.shiftl hashv 11)) in
      u32 (hashv + Z.shiftr hashv 17)
  | [k0] =>
      let hashv := u32 (hashv + k0) in
      let hashv := Z.lxor hashv (u32 (Z.shiftl hashv 10)) in
      u32 (hashv + Z.shiftr hashv 1)
  | _ => hashv
  end.
Definition sfh_avalanche (hashv : Z) : Z :=
  let hashv := Z.lxor hashv (u32 (Z.shiftl hashv 3)) in
  let hashv := u32 (hashv + Z.shiftr hashv 5) in
  let hashv := Z.lxor hashv (u32 (Z.shiftl hashv 4)) in
  let hashv := u32 (hashv + Z.shiftr hashv 17) in
  let hashv := Z.lxor hashv (u32 (Z.shiftl hashv 25)) in
  u32 (hashv + Z.shiftr hashv 6).
Definition HASH_SFH (key : list Z) : Z :=
  let '(rest, hashv) := sfh_loop key 3405691582 in
  sfh_avalanche (sfh_rem rest hashv).

Example other_hash_values :
  (λ s, let k := CString.byte_of <$> String.list_ascii_of_string s in
        [HASH_BER k; HASH_SAX k; HASH_FNV k; HASH_OAT k; HASH_SFH k]) <$> ["pwd"; "help"; "backspace"; "mkdir a"] =
  [[125995; 126623; 1433271620; 1879413337; 3521578548]; [3851113; 3438487; 946971642; 1957613548; 541795640];
   [3813833661; 3973717222; 2235328556; 1484714737; 3549298186]; [3346065688; 400107789; 1493232939; 3550360916; 1312393121]].
Proof. vm_compute. reflexivity. Qed.

(** * Words *)

Definition word (z : Z) : Prop := 0 ≤ z < 4294967296.
Definition byte (z : Z) : Prop := 0 ≤ z < 256.

Lemma word_u32 z : word (u32 z).
Proof. apply u32_range. Qed.
Lemma word_byte z : byte z → word z.
Proof. rewrite /byte /word. lia. Qed.
Lemma word_lxor x y : word x → word y → word (Z.lxor x y).
Proof.
  rewrite /word. change 4294967296 with (2 ^ 32). intros Hx Hy. assert (Hn : 0 ≤ Z.lxor x y) by (apply Z.lxor_nonneg; lia).
  split; [done|]. apply Z.bounded_iff_bits_nonneg; [done|done|]. intros l Hl.
  rewrite Z.lxor_spec !(proj1 (Z.bounded_iff_bits_nonneg 32 _ _ _)) //; lia.
Qed.
Lemma word_shiftr x k : word x → 0 ≤ k → word (Z.shiftr x k).
Proof.
  rewrite /word. intros Hx Hk. rewrite Z.shiftr_div_pow2 //. pose proof (Z.pow_pos_nonneg 2 k ltac:(lia) Hk).
  split; [apply Z.div_pos; lia|]. apply Z.div_lt_upper_bound; nia.
Qed.

(** * Steps that can be undone *)

(** An odd factor: [y] is its inverse. *)
Lemma odd_factor x y a b : u32 (x * y) = 1 → word a → word b → u32 (a * x) = u32 (b * x) → a = b.
Proof.
  rewrite /u32 /word. intros Hxy Ha Hb Heq.
  assert (Hu : ∀ z, word z → (z * x) mod 4294967296 * y mod 4294967296 = z).
  { intros z Hz. rewrite Zmult_mod_idemp_l -Z.mul_assoc -Zmult_mod_idemp_r Hxy Z.mul_1_r Z.mod_small //. }
  rewrite -(Hu a Ha) -(Hu b Hb) Heq. done.
Qed.
Lemma add_same a b c : word a → word b → u32 (a + c) = u32 (b + c) → a = b.
Proof. rewrite /u32 /word. intros. dlia. Qed.
Lemma add_byte a c d : byte c → byte d → u32 (a + c) = u32 (a + d) → c = d.
Proof. rewrite /u32 /byte. intros. dlia. Qed.
Lemma lxor_same a b c : Z.lxor a c = Z.lxor b c → a = b.
Proof. intros H. by rewrite -(Z.lxor_0_r a) -(Z.lxor_nilpotent c) -Z.lxor_assoc H Z.lxor_assoc Z.lxor_nilpotent Z.lxor_0_r. Qed.
(** A shift to the right only mixes higher bits into lower ones. *)
Lemma xorshift_inj k a b : 0 < k → word a → word b → Z.lxor a (Z.shiftr a k) = Z.lxor b (Z.shiftr b k) → a = b.
Proof.
  intros Hk Ha Hb Heq. assert (Hbits : ∀ n : nat, ∀ i, 0 ≤ i → 32 - Z.of_nat n ≤ i → Z.testbit a i = Z.testbit b i).
  { induction n as [|n IH]; intros i Hi Hn.
    - rewrite /word in Ha, Hb. change 4294967296 with (2 ^ 32) in Ha, Hb.
      rewrite !(proj1 (Z.bounded_iff_bits_nonneg 32 _ _ _)) //; lia.
    - pose proof (f_equal (λ z, Z.testbit z i) Heq) as Hbit. cbv beta in Hbit.
      rewrite !Z.lxor_spec !Z.shiftr_spec // (IH (i + k)) in Hbit; [lia|lia|].
      by destruct (Z.testbit a i), (Z.testbit b i), (Z.testbit b (i + k)). }
  apply Z.bits_inj'. intros i Hi. by apply (Hbits 32%nat).
Qed.
(** Adding the word shifted to the left is multiplying. *)
Lemma shift_add z k : 0 ≤ k → u32 (z + u32 (Z.shiftl z k)) = u32 (z * (1 + 2 ^ k)).
Proof. intros Hk. rewrite /u32 Zplus_mod_idemp_r Z.shiftl_mul_pow2 //. f_equal. lia. Qed.

(** Functions whose steps can be undone tell apart keys of one length that
    differ in one byte. *)
Class Invertible (step : Z → Z → Z) : Prop := {
  step_word h c : word h → byte c → word (step h c);
  step_inj h h' c : word h → word h' → byte c → step h c = step h' c → h = h';
  step_byte h c d : word h → byte c → byte d → step h c = step h d → c = d
}.
Section step.
Context (step : Z → Z → Z) `{!Invertible step}.
Lemma steps_word h key : word h → Forall byte key → word (foldl step h key).
Proof. intros Hh Hk. revert h Hh. induction Hk as [|c key Hc _ IH]; intros h Hh; [done|]. by apply IH, step_word. Qed.
Lemma steps_inj h h' key : word h → word h' → Forall byte key → foldl step h key = foldl step h' key → h = h'.
Proof.
  intros Hh Hh' Hk. revert h h' Hh Hh'. induction Hk as [|c key Hc _ IH]; intros h h' Hh Hh' Heq; [done|].
  eapply step_inj; [done..|]. apply (IH (step h c)); [by apply step_word..|done].
Qed.
Lemma steps_differ h key1 key2 c d : word h → Forall byte (key1 ++ c :: key2) → byte d →
  foldl step h (key1 ++ c :: key2) = foldl step h (key1 ++ d :: key2) → c = d.
Proof.
  intros Hh [Hk1 [Hc Hk2]%Forall_cons]%Forall_app Hd. rewrite !foldl_app /=. intros Heq.
  pose proof (steps_word h key1 Hh Hk1) as Hw. eapply step_byte; [exact Hw|done..|].
  eapply steps_inj; [by apply step_word..|exact Hk2|exact Heq].
Qed.
End step.

#[export] Instance ber_invertible : Invertible ber_step.
Proof.
  split.
  - intros. apply word_u32.
  - rewrite /ber_step. intros h h' c Hh Hh' _ Heq%add_same; [|apply word_u32..].
    rewrite !(Z.add_comm (u32 _)) !shift_add // in Heq. by apply (odd_factor (1 + 2 ^ 5) 1041204193).
  - rewrite /ber_step. intros h c d _ Hc Hd. by apply add_byte.
Qed.
#[export] Instance fnv_invertible : Invertible fnv_step.
Proof.
  split.
  - intros. apply word_u32.
  - rewrite /fnv_step. intros h h' c Hh Hh' Hc%word_byte Heq. apply (lxor_same _ _ c).
    by apply (odd_factor 16777619 899433627); try apply word_lxor.
  - rewrite /fnv_step. intros h c d Hh Hc%word_byte Hd%word_byte Heq. apply (lxor_same _ _ h). rewrite !(Z.lxor_comm _ h).
    by apply (odd_factor 16777619 899433627); try apply word_lxor.
Qed.
Lemma oat_mix_inj x y : word x → word y →
  Z.lxor (u32 (x + u32 (Z.shiftl x 10))) (Z.shiftr (u32 (x + u32 (Z.shiftl x 10))) 6) =
  Z.lxor (u32 (y + u32 (Z.shiftl y 10))) (Z.shiftr (u32 (y + u32 (Z.shiftl y 10))) 6) → x = y.
Proof.
  intros Hx Hy Heq%xorshift_inj; [|done|apply word_u32..]. rewrite !shift_add // in Heq. by apply (odd_factor (1 + 2 ^ 10) 3222273025).
Qed.
#[export] Instance oat_invertible : Invertible oat_step.
Proof.
  split.
  - intros. by apply word_lxor; [|apply word_shiftr]; try apply word_u32.
  - rewrite /oat_step. intros h h' c Hh Hh' _ Heq%oat_mix_inj; [|apply word_u32..]. by apply add_same in Heq.
  - rewrite /oat_step. intros h c d _ Hc Hd Heq%oat_mix_inj; [|apply word_u32..]. by apply add_byte in Heq.
Qed.
Lemma oat_final_inj x y : word x → word y → oat_final x = oat_final y → x = y.
Proof.
  intros Hx Hy. rewrite /oat_final. rewrite (shift_add _ 15) // (shift_add (Z.lxor (u32 (y + _)) _) 15) //.
  intros Heq%(odd_factor (1 + 2 ^ 15) 1073709057); [|done|by apply word_lxor; [|apply word_shiftr]; try apply word_u32..].
  apply xorshift_inj in Heq; [|done|apply word_u32..]. rewrite !shift_add // in Heq. by apply (odd_factor (1 + 2 ^ 3) 954437177).
Qed.

Lemma sax_word key : word (HASH_SAX key).
Proof.
  rewrite /HASH_SAX. assert (H0 : word 0) by done. revert H0. generalize 0.
  induction key as [|c key IH]; intros h Hh; [done|]. apply IH, word_lxor; [done|apply word_u32].
Qed.
Lemma sfh_word key : word (HASH_SFH key).
Proof. rewrite /HASH_SFH. destruct (sfh_loop _ _). apply word_u32. Qed.

(** Three of the hash functions tell close keys apart: two keys of the
    same length that differ in exactly one byte never have the same value of
    [HASH_BER], of [HASH_FNV] or of [HASH_OAT]. The values of all five are
    32-bit words. *)
Lemma one_byte_told_apart key1 key2 c d :
  Forall byte (key1 ++ c :: key2) → byte d → c ≠ d →
  (HASH_BER (key1 ++ c :: key2) ≠ HASH_BER (key1 ++ d :: key2)) ∧
  (HASH_FNV (key1 ++ c :: key2) ≠ HASH_FNV (key1 ++ d :: key2)) ∧
  (HASH_OAT (key1 ++ c :: key2) ≠ HASH_OAT (key1 ++ d :: key2)) ∧
  Forall word [HASH_BER (key1 ++ c :: key2); HASH_SAX (key1 ++ c :: key2); HASH_FNV (key1 ++ c :: key2);
    HASH_OAT (key1 ++ c :: key2); HASH_SFH (key1 ++ c :: key2)].
Proof.
  intros Hk Hd Hne. assert (Hk' : Forall byte (key1 ++ d :: key2)).
  { apply Forall_app in Hk as [? [_ ?]%Forall_cons]. apply Forall_app. split; [done|by constructor]. }
  assert (H0 : word 0) by done. assert (H1 : word 2166136261) by done. split_and!.
  - intros Heq%(steps_differ ber_step 0); done.
  - intros Heq%(steps_differ fnv_step 2166136261); done.
  - intros Heq%oat_final_inj; [|by apply (steps_word oat_step)..]. by apply (steps_differ oat_step 0) in Heq.
  - repeat apply Forall_cons_2; [by apply (steps_word ber_step)|apply sax_word|by apply (steps_word fnv_step)|
      apply word_u32|apply sfh_word|done].
Qed.

(** "cat" and "cut". *)
Lemma one_byte_told_apart_witness :
  (HASH_BER [99; 97; 116] ≠ HASH_BER [99; 117; 116]) ∧ (HASH_FNV [99; 97; 116] ≠ HASH_FNV [99; 117; 116]) ∧
  (HASH_OAT [99; 97; 116] ≠ HASH_OAT [99; 117; 116]) ∧
  Forall word [HASH_BER [99; 97; 116]; HASH_SAX [99; 97; 116]; HASH_FNV [99; 97; 116]; HASH_OAT [99; 97; 116];
    HASH_SFH [99; 97; 116]].
Proof.
  apply (one_byte_told_apart [99] [116] 97 117).
  - repeat constructor; unfold byte; lia.
  - unfold byte. lia.
  - lia.
Defined.
End UthashHash.
