(* ===== verification/Numbers.v ===== *)
(** libc/src/ctype/ctype.c, libc/src/stdlib (atoi.c, itoa.c) and
    libc/src/string/reverse.c: character classes and the conversions
    between integers and their digits.

    A character argument is an [int]; a [char] read from a string is sign
    extended ([char_of]). Signed arithmetic that overflows wraps, as the
    code compiled for i386 does. *)
From S2P Require Import Prelude.
From stdpp Require Import pretty.
From S2P Require Import CString.
Import CString.
#[local] Open Scope Z_scope.

Module Numbers.

(** * ctype.c *)
Definition isdigit (c : Z) : bool := (47 <? c) && (c <? 64).
Definition islower (c : Z) : bool := (96 <? c) && (c <? 123).
Definition isupper (c : Z) : bool := (64 <? c) && (c <? 91).
Definition isalpha (c : Z) : bool := isupper c || islower c.
Definition isalnum (c : Z) : bool := isalpha c || isdigit c.
Definition isblank (c : Z) : bool := (c =? 32) || (c =? 9).
Definition isspace (c : Z) : bool :=
  (c =? 10) || isblank c || (c =? 13) || (c =? 11) || (c =? 12).
Definition iscntrl (c : Z) : bool := (c <? 32) || (c =? 127).
Definition isprint (c : Z) : bool := (31 <? c) && (c <? 127).
Definition isgraph (c : Z) : bool := (32 <? c) && (c <? 126).
Definition ispunct (c : Z) : bool :=
  ((32 <? c) && (c <? 48)) || ((57 <? c) && (c <? 65)) ||
  ((90 <? c) && (c <? 97)) || ((124 <? c) && (c <? 127)).
Definition isxdigit (c : Z) : bool :=
  isdigit c || ((64 <? c) && (c <? 71)) || ((96 <? c) && (c <? 104)).
Definition tolower (c : Z) : Z := if isupper c then c + 32 else c.
Definition toupper (c : Z) : Z := if islower c then c - 32 else c.

(** * atoi.c *)
Fixpoint skip_space (s : string) : string :=
  match s with
  | String c s' => if isspace (char_of c) then skip_space s' else s
  | EmptyString => s
  end.

(** The character at index [i]; the terminator is 0. *)
Fixpoint char_at (s : string) (i : nat) : Z :=
  match s, i with
  | EmptyString, _ => 0
  | String c _, O => char_of c
  | String _ s, S i => char_at s i
  end.
Fixpoint drop_chars (n : nat) (s : string) : string :=
  match n, s with
  | S n, String _ s => drop_chars n s
  | _, _ => s
  end.

(** The digit loop; [None] when it returns 0 from inside. *)
Fixpoint atoi_loop (base val : Z) (s : string) : option Z :=
  match s with
  | EmptyString => Some val
  | String c s =>
      if isalnum (char_of c) then
        let tmp := char_of c - 48 in
        let tmp := if base <=? 10 then tmp else tmp - (if islower (char_of c) then 39 else 7) in
        if base <=? tmp then None else atoi_loop base (s32 (val * base + tmp)) s
      else Some val
  end.

Definition atoi (str : string) (base : Z) : Z :=
  if (36 <? base) || (base <? 2) then 0
  else
    let s := skip_space str in
    let digits sign s :=
      match atoi_loop base 0 s with
      | Some val => if base =? 10 then s32 (sign * val) else val
      | None => 0
      end in
    let c := char_at s 0 in
    if (c =? 43) || (c =? 45) then
      if base =? 10 then digits (if c =? 45 then -1 else 1) (drop_chars 1 s) else 0
    else if c =? 48 then
      let d := char_at s 1 in
      if (d =? 98) || (d =? 66) then
        if base =? 2 then digits 1 (drop_chars 2 s) else 0
      else if d =? 120 then
        if base =? 16 then digits 1 (drop_chars 2 s) else 0
      else digits 1 s
    else digits 1 s.

(** * reverse.c

    The exchange loop on the characters [str[i .. x]]. *)
Fixpoint reverse_loop (fuel : nat) (i x : Z) (str : list Ascii.ascii) : list Ascii.ascii :=
  match fuel with
  | O => str
  | S fuel =>
      if i <? x then
        match str !! Z.to_nat i, str !! Z.to_nat x with
        | Some y, Some z => reverse_loop fuel (i + 1) (x - 1) (<[Z.to_nat x := y]> (<[Z.to_nat i := z]> str))
        | _, _ => str
        end
      else str
  end.
Definition reverse (str : string) : string :=
  let l := String.list_ascii_of_string str in
  String.string_of_list_ascii (reverse_loop (length l) 0 (Z.of_nat (length l) - 1) l).

(** * itoa.c *)
Definition digits : string := "zyxwvutsrqponmlkjihgfedcba9876543210123456789abcdefghijklmnopqrstuvwxyz".
Definition digit (i : Z) : Ascii.ascii := default Ascii.zero (String.get (Z.to_nat (35 + i)) digits).

(** The two digit loops; [fuel] bounds the number of digits. *)
Fixpoint itoa_neg (fuel : nat) (value base : Z) : string :=
  match fuel with
  | O => EmptyString
  | S fuel =>
      let q := Z.quot value base in
      String (digit (value - q * base)) (if q =? 0 then EmptyString else itoa_neg fuel q base)
  end.
Fixpoint itoa_pos (fuel : nat) (value base : Z) : string :=
  match fuel with
  | O => EmptyString
  | S fuel =>
      let q := value / base in
      String (digit (value - q * base)) (if q =? 0 then EmptyString else itoa_pos fuel q base)
  end.

Definition itoa (value base : Z) : string :=
  if (base <? 2) || (36 <? base) then EmptyString
  else
    reverse (if (value <? 0) && (base =? 10) then itoa_neg 32 value base +:+ "-"
             else itoa_pos 32 (u32 value) base).

Example itoa_negative : itoa (-2147483648) 10 = "-2147483648".
Proof. by vm_compute. Qed.
Example itoa_hex : itoa (-1) 16 = "ffffffff".
Proof. by vm_compute. Qed.
Example atoi_trailing : atoi "12a" 10 = 0 ∧ atoi " -12 a" 10 = -12.
Proof. by vm_compute. Qed.


(** * Correctness *)

(** The exchange loop reverses what lies between its indices. *)
Lemma reverse_loop_lookup fuel l i k :
  (length l ≤ 2 * i + 2 * fuel)%nat → (k < length l)%nat → (2 * i ≤ length l)%nat →
  reverse_loop fuel (Z.of_nat i) (Z.of_nat (length l) - 1 - Z.of_nat i) l !! k =
    if bool_decide (i ≤ k ∧ k + i < length l)%nat then l !! (length l - 1 - k)%nat else l !! k.
Proof.
  revert l i. induction fuel as [|fuel IH]; intros l i Hf Hk Hi; simpl.
  { rewrite bool_decide_false //. lia. }
  destruct (Z.ltb_spec (Z.of_nat i) (Z.of_nat (length l) - 1 - Z.of_nat i)) as [Hlt|Hge].
  - rewrite Nat2Z.id. replace (Z.to_nat (Z.of_nat (length l) - 1 - Z.of_nat i)) with (length l - 1 - i)%nat by lia.
    destruct (lookup_lt_is_Some_2 l i) as [y Hy]; [lia|].
    destruct (lookup_lt_is_Some_2 l (length l - 1 - i)) as [z Hz]; [lia|]. rewrite Hy Hz.
    set l' := <[_ := y]> _. assert (Hl' : length l' = length l) by rewrite /l' !length_insert //.
    replace (Z.of_nat i + 1) with (Z.of_nat (S i)) by lia.
    replace (Z.of_nat (length l) - 1 - Z.of_nat i - 1) with (Z.of_nat (length l') - 1 - Z.of_nat (S i)) by lia.
    rewrite IH Hl'; [lia..|]. rewrite /l'.
    destruct (decide (k = i)) as [->|Hki]; [|destruct (decide (k = length l - 1 - i)%nat) as [->|Hkx]].
    + rewrite bool_decide_false; [lia|]. rewrite bool_decide_true; [lia|].
      rewrite list_lookup_insert_ne; [lia|]. rewrite list_lookup_insert_eq; [lia|]. by rewrite Hz.
    + rewrite bool_decide_false; [lia|]. rewrite bool_decide_true; [lia|].
      rewrite list_lookup_insert_eq; [rewrite length_insert; lia|].
      replace (length l - 1 - (length l - 1 - i))%nat with i by lia. by rewrite Hy.
    + rewrite !(list_lookup_insert_ne _ _ k); [lia..|].
      rewrite !(list_lookup_insert_ne _ _ (length l - 1 - k)); [lia..|].
      repeat case_bool_decide; done || lia.
  - case_bool_decide; [|done]. f_equal. lia.
Qed.

Lemma reverse_spec str :
  String.list_ascii_of_string (reverse str) = rev (String.list_ascii_of_string str).
Proof.
  rewrite /reverse String.list_ascii_of_string_of_list_ascii.
  set l := String.list_ascii_of_string str.
  assert (Hlen : length (reverse_loop (length l) 0 (Z.of_nat (length l) - 1) l) = length l).
  { generalize (length l) at 1 as fuel. intros fuel. generalize 0 as i. generalize (Z.of_nat (length l) - 1) as x.
    generalize l as l'. induction fuel as [|fuel IH]; intros l' x i; simpl; [done|].
    destruct (i <? x); [|done]. destruct (l' !! _); [|done]. destruct (l' !! _); [|done].
    by rewrite IH !length_insert. }
  apply list_eq. intros k. destruct (decide (k < length l)%nat) as [Hk|Hk].
  - pose proof (reverse_loop_lookup (length l) l 0 k) as Hr. rewrite Z.sub_0_r in Hr.
    rewrite Hr; [lia..|]. rewrite bool_decide_true; [lia|].
    rewrite rev_alt reverse_lookup //. f_equal. lia.
  - rewrite !lookup_ge_None_2 //; rewrite ?Hlen ?length_rev; lia.
Qed.


Definition chars : string → list Ascii.ascii := String.list_ascii_of_string.
Definition of_chars : list Ascii.ascii → string := String.string_of_list_ascii.

Lemma of_chars_chars s : of_chars (chars s) = s.
Proof. apply String.string_of_list_ascii_of_string. Qed.
Lemma of_chars_app l1 l2 : of_chars (l1 ++ l2) = of_chars l1 +:+ of_chars l2.
Proof.
  induction l1 as [|c l1 IH]; [done|].
  change (String c (of_chars (l1 ++ l2)) = String c (of_chars l1 +:+ of_chars l2)). by rewrite IH.
Qed.
Lemma chars_app s1 s2 : chars (s1 +:+ s2) = chars s1 ++ chars s2.
Proof. induction s1 as [|c s1 IH]; [done|]. change (c :: chars (s1 +:+ s2) = c :: (chars s1 ++ chars s2)). by rewrite IH. Qed.
Lemma reverse_chars s : reverse s = of_chars (rev (chars s)).
Proof. rewrite -(of_chars_chars (reverse s)) /chars reverse_spec //. Qed.

Lemma digit_pretty d : 0 ≤ d < 10 → digit d = pretty_N_char (Z.to_N d) ∧ digit (- d) = digit d.
Proof.
  intros Hd. assert (d = 0 ∨ d = 1 ∨ d = 2 ∨ d = 3 ∨ d = 4 ∨ d = 5 ∨ d = 6 ∨ d = 7 ∨ d = 8 ∨ d = 9) as Hc by lia.
  by destruct Hc as [->|[->|[->|[->|[->|[->|[->|[->|[->| ->]]]]]]]]].
Qed.

Lemma itoa_neg_pos fuel v : 0 ≤ v → itoa_neg fuel (- v) 10 = itoa_pos fuel v 10.
Proof.
  revert v. induction fuel as [|fuel IH]; intros v Hv; [done|]. cbn [itoa_neg itoa_pos].
  assert (Hq : Z.quot (- v) 10 = - (v / 10)).
  { rewrite Z.quot_opp_l // Z.quot_div_nonneg; lia. }
  rewrite Hq. replace (- v - - (v / 10) * 10) with (- (v - v / 10 * 10)) by lia.
  destruct (digit_pretty (v - v / 10 * 10)) as [_ ->]; [dlia|].
  rewrite IH; [dlia|]. destruct (Z.eqb_spec (- (v / 10)) 0), (Z.eqb_spec (v / 10) 0); try lia; done.
Qed.

Lemma itoa_pos_pretty fuel v s : 0 < v < 10 ^ Z.of_nat fuel →
  of_chars (rev (chars (itoa_pos fuel v 10))) +:+ s = pretty_N_go (Z.to_N v) s.
Proof.
  revert v s. induction fuel as [|fuel IH]; intros v s Hv; [simpl in Hv; lia|].
  rewrite pretty_N_go_step; [lia|].
  assert (Hdiv : (Z.to_N v `div` 10)%N = Z.to_N (v / 10)) by (by rewrite Z2N.inj_div //; lia).
  assert (Hmod : (Z.to_N v `mod` 10)%N = Z.to_N (v - v / 10 * 10)).
  { change 10%N with (Z.to_N 10). rewrite -Z2N.inj_mod; [lia..|]. f_equal. rewrite Z.mod_eq //. lia. }
  rewrite Hdiv Hmod. destruct (digit_pretty (v - v / 10 * 10)) as [Hd _]; [dlia|]. rewrite -Hd.
  cbn [itoa_pos]. set d := digit (v - v / 10 * 10).
  match goal with |- context [chars (String d ?x)] => change (chars (String d x)) with (d :: chars x) end.
  cbn [rev].
  rewrite of_chars_app. destruct (Z.eqb_spec (v / 10) 0) as [Hz|Hz].
  - by rewrite Hz pretty_N_go_0.
  - rewrite -IH; [|].
    + rewrite Nat2Z.inj_succ Z.pow_succ_r in Hv; [lia|]. dlia.
    + change (of_chars [d]) with (String d EmptyString).
      generalize (of_chars (rev (chars (itoa_pos fuel (v / 10) 10)))) as u. intros u. clear.
      induction u as [|c u IH]; [done|].
      change (String c ((u +:+ String d EmptyString) +:+ s) = String c (u +:+ String d s)). by rewrite IH.
Qed.

Lemma append_nil (s : string) : s +:+ EmptyString = s.
Proof. induction s as [|c s IH]; [done|]. change (String c (s +:+ EmptyString) = String c s). by rewrite IH. Qed.

Lemma itoa_pos_pretty_N v : 0 ≤ v < 4294967296 →
  of_chars (rev (chars (itoa_pos 32 v 10))) = pretty (Z.to_N v).
Proof.
  intros Hv. rewrite /pretty /pretty_N. destruct (decide (v = 0)) as [->|Hne]; [done|].
  rewrite decide_False; [lia|]. rewrite -(itoa_pos_pretty 32).
  - split; [lia|]. apply Z.lt_trans with 4294967296; [lia|done].
  - by rewrite append_nil.
Qed.

Lemma pretty_Z_cases i :
  pretty i = if i <? 0 then "-" +:+ pretty (Z.to_N (- i)) else pretty (Z.to_N i).
Proof. by destruct i. Qed.

Lemma itoa_pretty i : -2147483648 ≤ i < 2147483648 → itoa i 10 = pretty i.
Proof.
  intros Hi. rewrite /itoa reverse_chars pretty_Z_cases. cbn [orb Z.ltb Z.compare Pos.compare Pos.compare_cont andb Z.eqb Pos.eqb].
  rewrite andb_true_r. destruct (Z.ltb_spec i 0).
  - rewrite chars_app rev_app_distr. change (rev (chars "-")) with [Ascii.Ascii true false true true false true false false].
    replace i with (- - i) at 1 by lia. rewrite itoa_neg_pos; [lia|].
    rewrite -itoa_pos_pretty_N; [lia|]. done.
  - rewrite u32_small; [lia|]. apply itoa_pos_pretty_N. lia.
Qed.

(** The characters of a decimal number. *)
Fixpoint decimal_digits (s : string) : Prop :=
  match s with EmptyString => True | String c s => 48 ≤ char_of c ≤ 57 ∧ decimal_digits s end.

Lemma pretty_char n : (n < 10)%N → char_of (pretty_N_char n) = 48 + Z.of_N n.
Proof.
  intros Hn. assert (n = 0 ∨ n = 1 ∨ n = 2 ∨ n = 3 ∨ n = 4 ∨ n = 5 ∨ n = 6 ∨ n = 7 ∨ n = 8 ∨ n = 9)%N as Hc by lia.
  by destruct Hc as [->|[->|[->|[->|[->|[->|[->|[->|[->| ->]]]]]]]]].
Qed.

Lemma pretty_digits n s : decimal_digits s → decimal_digits (pretty_N_go n s).
Proof.
  revert s. induction (N.lt_wf_0 n) as [n _ IH]; intros s Hs.
  destruct (decide (n = 0)%N) as [->|Hne]; [by rewrite pretty_N_go_0|].
  rewrite pretty_N_go_step; [lia|]. apply IH; [by apply N.div_lt; lia|].
  assert (Hm : (n `mod` 10 < 10)%N) by by apply N.mod_lt.
  split; [|done]. revert Hm. generalize (n `mod` 10)%N. intros m Hm. rewrite pretty_char //. lia.
Qed.

Lemma s32_mul_add a b : s32 (s32 a * 10 + b) = s32 (a * 10 + b).
Proof. rewrite /s32. dlia. Qed.

Lemma atoi_loop_digit c s val : 48 ≤ char_of c ≤ 57 →
  atoi_loop 10 val (String c s) = atoi_loop 10 (s32 (val * 10 + (char_of c - 48))) s.
Proof.
  intros Hc. cbn [atoi_loop]. assert (isalnum (char_of c) = true) as ->.
  { rewrite /isalnum /isdigit (proj2 (Z.ltb_lt _ _)); [lia|]. rewrite (proj2 (Z.ltb_lt _ 64)); [lia|]. apply orb_true_r. }
  change (10 <=? 10) with true. cbn iota. by rewrite (proj2 (Z.leb_gt _ _)); [lia|].
Qed.

Lemma atoi_loop_pretty n s : atoi_loop 10 0 (pretty_N_go n s) = atoi_loop 10 (s32 (Z.of_N n)) s.
Proof.
  revert s. induction (N.lt_wf_0 n) as [n _ IH]; intros s.
  destruct (decide (n = 0)%N) as [->|Hne]; [by rewrite pretty_N_go_0|].
  rewrite pretty_N_go_step; [lia|]. rewrite IH; [by apply N.div_lt; lia|].
  assert (Hm : (n `mod` 10 < 10)%N) by by apply N.mod_lt.
  rewrite atoi_loop_digit; [revert Hm; generalize (n `mod` 10)%N; intros m Hm; rewrite pretty_char //; lia|]. rewrite s32_mul_add pretty_char //. f_equal. f_equal.
  rewrite {3}(N.div_mod n 10) //. revert Hm. generalize (n `mod` 10)%N (n `div` 10)%N. lia.
Qed.

(** The numeral of a natural number: what it starts with, and its value. *)
Lemma pretty_N_value n : decimal_digits (pretty n) ∧ pretty n ≠ EmptyString ∧
  atoi_loop 10 0 (pretty n) = Some (s32 (Z.of_N n)).
Proof.
  rewrite /pretty /pretty_N. case_decide as Hn; [by subst|]. split_and!.
  - by apply pretty_digits.
  - rewrite pretty_N_go_step; [lia|]. intros He.
    assert (Hlen : ∀ m s, (String.length s ≤ String.length (pretty_N_go m s))%nat).
    { clear. intros m. induction (N.lt_wf_0 m) as [m _ IH]; intros s.
      destruct (decide (m = 0)%N) as [->|Hne]; [by rewrite pretty_N_go_0|].
      rewrite pretty_N_go_step; [lia|]. etrans; [|apply IH, N.div_lt; lia]. simpl. lia. }
    specialize (Hlen (n `div` 10)%N (String (pretty_N_char (n `mod` 10)) EmptyString)).
    rewrite He /= in Hlen. lia.
  - by rewrite atoi_loop_pretty.
Qed.

Lemma atoi_digits s v : decimal_digits s → s ≠ EmptyString → atoi_loop 10 0 s = Some v → v = s32 v → atoi s 10 = v.
Proof.
  destruct s as [|c s]; [done|]. intros [Hc Hs] _ Hl Hv. rewrite /atoi.
  assert (Hsp : isspace (char_of c) = false).
  { rewrite /isspace /isblank. rewrite !(proj2 (Z.eqb_neq _ _)) //; lia. }
  cbn -[isspace Z.eqb char_of atoi_loop]. rewrite Hsp. cbn [char_at].
  rewrite (proj2 (Z.eqb_neq _ 43)); [lia|]. rewrite (proj2 (Z.eqb_neq _ 45)); [lia|]. cbn [orb].
  rewrite Hl. assert (Hres : s32 (1 * v) = v) by (rewrite Z.mul_1_l; done).
  destruct (char_of c =? 48); [|done]. destruct s as [|d s]; [done|]. destruct Hs as [Hd _]. cbn [char_at].
  rewrite (proj2 (Z.eqb_neq _ 98)); [lia|]. rewrite (proj2 (Z.eqb_neq _ 66)); [lia|].
  rewrite (proj2 (Z.eqb_neq _ 120)); [lia|]. done.
Qed.

Lemma atoi_pretty i : -2147483648 ≤ i < 2147483648 → atoi (pretty i) 10 = i.
Proof.
  intros Hi. rewrite pretty_Z_cases. destruct (Z.ltb_spec i 0).
  - destruct (pretty_N_value (Z.to_N (- i))) as (_&_&Hl).
    change (match atoi_loop 10 0 (pretty (Z.to_N (- i))) with Some val => s32 (-1 * val) | None => 0 end = i).
    rewrite Hl Z2N.id; [lia|]. rewrite /s32. dlia.
  - destruct (pretty_N_value (Z.to_N i)) as (Hd&Hne&Hl). rewrite Z2N.id // in Hl.
    rewrite s32_small in Hl; [lia|]. apply atoi_digits; [done..|]. by rewrite s32_small; [lia|].
Qed.

(** C32: In base 10, [itoa] writes the decimal numeral of every [int], the
    smallest included, as a reference printer does, and [atoi] reads it
    back. *)
Theorem atoi_itoa i : -2147483648 ≤ i < 2147483648 → itoa i 10 = pretty i ∧ atoi (itoa i 10) 10 = i.
Proof. intros Hi. rewrite itoa_pretty //. split; [done|by apply atoi_pretty]. Qed.

Lemma atoi_itoa_witness :
  itoa (-2147483648) 10 = pretty (-2147483648) ∧ atoi (itoa (-2147483648) 10) 10 = -2147483648.
Proof. by apply (atoi_itoa (-2147483648)). Defined.

(** A digit in base 16 loses seven, and [isxdigit] admits one letter too
    many, as [isdigit] does the six characters after 9. *)
Example atoi_hex_digit : atoi "5" 16 = -2 ∧ atoi "a" 16 = 10.
Proof. by vm_compute. Qed.
Example ctype_ranges : isdigit 58 = true ∧ isdigit 63 = true ∧ isxdigit 103 = true ∧ isgraph 126 = false.
Proof. by vm_compute. Qed.

End Numbers.
