(* ===== verification/Io.v ===== *)
(** drivers/includes/io.h: the I/O ports, as an interface.

    [outb] and [inb] are assembly; behind them is hardware. [PortIO] names
    the two operations, for a state that stands for the devices. [Log] is
    the device that records what is written to it. *)
From S2P Require Import Prelude.

Module Io.

Class PortIO (P : Type) := {
  outb : Z → Z → M P unit;
  inb : Z → M P Z
}.

(** A bus without devices: it keeps the writes, oldest first, and reads as
    all ones. *)
Definition log : Type := list (Z * Z).
#[global] Instance log_io : PortIO log := {|
  outb port data := modify (λ l, l ++ [(port, data)]);
  inb port := mret 255
|}.

End Io.
