(* ===== verification/Tty.v ===== *)
(** drivers/src/tty.c and libc/src/stdio/putchar.c: the text screen.

    The video memory is a finite map from cell indices; the screen is the
    first 2000. The cursor lives in two registers of the display
    controller, which is reached by I/O ports: [Crtc] states what the code
    relies on. [putc_spec] is the terminal the code means to be. *)
From S2P Require Import Prelude.
From S2P Require Import Io.
#[local] Open Scope general_if_scope.

Module Tty.

Definition VGA_HEIGHT : Z := 25.
Definition VGA_WIDTH : Z := 80.
Definition TTY_COMMAND_PORT : Z := 980.
Definition TTY_DATA_PORT : Z := 981.
Definition TTY_HIGH_BYTE_CMD : Z := 14.
Definition TTY_LOW_BYTE_CMD : Z := 15.
Definition COLOUR_BLACK : Z := 0.
Definition COLOUR_WHITE : Z := 15.

Definition memory : Type := gmap Z Z.

Record tty (P : Type) : Type := Tty {
  terminal_row : Z;
  terminal_column : Z;
  terminal_colour : Z;
  terminal_buffer : memory;
  ports : P
}.
Arguments Tty {P} _ _ _ _ _.
Arguments terminal_row {P} _.
Arguments terminal_column {P} _.
Arguments terminal_colour {P} _.
Arguments terminal_buffer {P} _.
Arguments ports {P} _.

Definition makeColour (fg bg : Z) : Z := u8 (Z.lor fg (Z.shiftl bg 4)).
Definition makeVGAEntry (c colour : Z) : Z := u16 (Z.lor (u16 c) (Z.shiftl colour 8)).
Definition getCharOffset (x y : Z) : Z := u32 (u32 y * VGA_WIDTH + u32 x).
Definition cell (b : memory) (i : Z) : Z := default 0 (b !! i).

Section ops.
Context {P : Type} `{!Io.PortIO P}.
Abbreviation tty := (tty P).
Implicit Types (s : tty).

Definition set_pos (row col : Z) s : tty :=
  Tty row col (terminal_colour s) (terminal_buffer s) (ports s).
Definition set_colour (c : Z) s : tty :=
  Tty (terminal_row s) (terminal_column s) c (terminal_buffer s) (ports s).
Definition set_memory (b : memory) s : tty :=
  Tty (terminal_row s) (terminal_column s) (terminal_colour s) b (ports s).
Definition set_ports (p : P) s : tty :=
  Tty (terminal_row s) (terminal_column s) (terminal_colour s) (terminal_buffer s) p.
Definition on_ports {X} (m : M P X) : M tty X := zoom ports set_ports m.

(** [memcpy] of one row of cells, and a store to a run of cells. *)
Definition copy_cells (dst src n : Z) (b : memory) : memory :=
  fold_left (λ b i, <[dst + i := cell b (src + i)]> b) (seqZ 0 n) b.
Definition fill (dst n v : Z) (b : memory) : memory :=
  fold_left (λ b i, <[dst + i := v]> b) (seqZ 0 n) b.

Definition ttySetCursor (offset : Z) : M tty unit :=
  let offset := u16 offset in
  on_ports (Io.outb TTY_COMMAND_PORT TTY_HIGH_BYTE_CMD;;
    Io.outb TTY_DATA_PORT (u8 (Z.land (Z.shiftr offset 8) 255));;
    Io.outb TTY_COMMAND_PORT TTY_LOW_BYTE_CMD;;
    Io.outb TTY_DATA_PORT (u8 (Z.land (u8 offset) 255))).

Definition ttyGetCursor : M tty Z :=
  on_ports (Io.outb TTY_COMMAND_PORT TTY_HIGH_BYTE_CMD;;
    hi ← Io.inb TTY_DATA_PORT;
    Io.outb TTY_COMMAND_PORT TTY_LOW_BYTE_CMD;;
    lo ← Io.inb TTY_DATA_PORT;
    mret (u16 (u16 (Z.shiftl hi 8) + lo))).

(** The two loops of [clearTerminal]. *)
Definition clearTerminal : M tty unit :=
  modify (λ s, set_memory
    (fold_left (λ b y, fill (getCharOffset 0 y) VGA_WIDTH (makeVGAEntry 32 (terminal_colour s)) b)
       (seqZ 0 VGA_HEIGHT) (terminal_buffer s)) s).

Definition initTerminal : M tty unit :=
  modify (λ s, set_colour (makeColour COLOUR_WHITE COLOUR_BLACK) (set_pos 0 0 s));;
  clearTerminal.

(** The last loop of [doScroll] runs over twice the width of a row. *)
Definition scroll (colour : Z) (b : memory) : memory :=
  fill (getCharOffset 0 (VGA_HEIGHT - 1)) (VGA_WIDTH * 2) (makeVGAEntry 0 colour)
    (fold_left (λ b y, copy_cells (getCharOffset 0 (y - 1)) (getCharOffset 0 y) VGA_WIDTH b)
       (seqZ 1 (VGA_HEIGHT - 1)) b).
Definition doScroll : M tty unit :=
  modify (λ s, set_memory (scroll (terminal_colour s) (terminal_buffer s)) s).

Definition checkScroll : M tty unit :=
  modify (λ s,
    let col := terminal_column s + 1 in
    if col =? VGA_WIDTH then set_pos (terminal_row s + 1) 0 s else set_pos (terminal_row s) col s);;
  s ← get;
  if terminal_row s =? VGA_HEIGHT then
    doScroll;; modify (λ s, set_pos (terminal_row s - 1) (terminal_column s) s)
  else mret tt.

Definition terminalSetColour (colour : Z) : M tty unit := modify (set_colour (u8 colour)).

Definition terminalMvPutC (c colour col row : Z) : M tty unit :=
  modify (λ s, set_memory (<[getCharOffset col row := makeVGAEntry c colour]> (terminal_buffer s)) s).

Definition terminalPutC (c : Z) : M tty unit :=
  (if c =? 10 then
     modify (λ s, set_pos (terminal_row s + 1) (terminal_column s) s);;
     checkScroll;;
     modify (λ s, set_pos (terminal_row s) 0 s)
   else if c =? 13 then modify (λ s, set_pos (terminal_row s) 0 s)
   else if c =? 8 then
     cursorPos ← ttyGetCursor;
     let cursorPos := if cursorPos =? 0 then 0 else cursorPos - 1 in
     modify (set_pos (cursorPos / VGA_WIDTH) (cursorPos mod VGA_WIDTH))
   else
     s ← get;
     terminalMvPutC c (terminal_colour s) (terminal_column s) (terminal_row s);;
     checkScroll);;
  s ← get;
  ttySetCursor (getCharOffset (terminal_column s) (terminal_row s)).

(** The characters of the string up to its terminator. *)
Fixpoint put_chars (str : list Z) : M tty Z :=
  match str with
  | [] => mret 0
  | c :: str => if c =? 0 then mret 0 else terminalPutC c;; n ← put_chars str; mret (n + 1)
  end.
Definition terminalPutS (str : list Z) : M tty Z := put_chars str.

Definition putchar (c : Z) : M tty Z :=
  let cc := s8 c in terminalPutC cc;; mret cc.
End ops.

(** * The display controller

    An index register selects the data register the data port reads and
    writes. *)
Class Crtc (P : Type) `{!Io.PortIO P} := {
  index : P → Z;
  reg : P → Z → Z;
  crtc_select p v : ∃ p', Io.outb TTY_COMMAND_PORT v p = Ok (tt, p', []) ∧ index p' = v ∧
    ∀ r, reg p' r = reg p r;
  crtc_write p v : ∃ p', Io.outb TTY_DATA_PORT v p = Ok (tt, p', []) ∧ index p' = index p ∧
    ∀ r, reg p' r = if decide (r = index p) then v else reg p r;
  crtc_read p : Io.inb TTY_DATA_PORT p = Ok (reg p (index p), p, [])
}.

(** * The terminal meant

    A screen of 2000 cells and a position. *)
Record screen : Type := Screen { pos : Z; at_ : Z → Z }.
Definition scrolled (blank : Z) (f : Z → Z) : Z → Z := λ i, if i <? 1920 then f (i + 80) else blank.
Definition advance (blank p : Z) (f : Z → Z) : screen :=
  if p =? 2000 then Screen 1920 (scrolled blank f) else Screen p f.
Definition putc_spec (colour c : Z) (s : screen) : screen :=
  let blank := makeVGAEntry 0 colour in
  if c =? 10 then advance blank ((pos s / 80 + 1) * 80) (at_ s)
  else if c =? 13 then Screen (pos s / 80 * 80) (at_ s)
  else if c =? 8 then Screen (Z.max 0 (pos s - 1)) (at_ s)
  else advance blank (pos s + 1) (λ i, if i =? pos s then makeVGAEntry c colour else at_ s i).

Section facts.
Context {P : Type} `{!Io.PortIO P, !Crtc P}.
Implicit Types (s : tty P).

Definition position s : Z := terminal_row s * 80 + terminal_column s.
Definition cursor s : Z := reg (ports s) 14 * 256 + reg (ports s) 15.

(** The state is on the screen; and the cursor is where the next character
    goes. *)
Definition inside s : Prop := 0 ≤ terminal_row s < 25 ∧ 0 ≤ terminal_column s < 80.
Definition on_screen s : Prop :=
  0 ≤ terminal_row s < 25 ∧ 0 ≤ terminal_column s < 80 ∧ cursor s = position s.

(** The screen [s] shows. *)
Definition shows s (v : screen) : Prop :=
  pos v = position s ∧ ∀ i, 0 ≤ i < 2000 → cell (terminal_buffer s) i = at_ v i.

Lemma cell_insert b i v j : cell (<[i := v]> b) j = if decide (i = j) then v else cell b j.
Proof. rewrite /cell. case_decide; [subst; by rewrite lookup_insert_eq|by rewrite lookup_insert_ne]. Qed.

Lemma cell_fill dst n v b j : 0 ≤ n →
  cell (fill dst n v b) j = if decide (dst ≤ j < dst + n) then v else cell b j.
Proof.
  intros Hn. rewrite /fill. revert n Hn. apply natlike_ind; [simpl|].
  - rewrite decide_False //. lia.
  - intros n Hn IH. rewrite -Z.add_1_r seqZ_app // fold_left_app /= cell_insert IH.
    repeat case_decide; try done; lia.
Qed.

Lemma cell_copy dst src n b j : 0 ≤ n → (∀ i, 0 ≤ i < n → ¬ dst ≤ src + i < dst + n) →
  cell (copy_cells dst src n b) j = if decide (dst ≤ j < dst + n) then cell b (src + (j - dst)) else cell b j.
Proof.
  intros Hn Hdisj. rewrite /copy_cells.
  assert (Hall : ∀ m, 0 ≤ m → m ≤ n → ∀ j,
    cell (fold_left (λ b i, <[dst + i := cell b (src + i)]> b) (seqZ 0 m) b) j =
      if decide (dst ≤ j < dst + m) then cell b (src + (j - dst)) else cell b j); [|by apply Hall].
  refine (natlike_ind _ _ _).
  - simpl. intros _ k. rewrite decide_False //. lia.
  - intros m Hm IH Hmn k. rewrite -Z.add_1_r seqZ_app // fold_left_app /= cell_insert !IH; [lia..|].
    rewrite Z.add_0_l. rewrite (decide_False (P := dst ≤ src + m < dst + m)); [specialize (Hdisj m); lia|].
    repeat case_decide; try done; try lia. f_equal. lia.
Qed.

Lemma offset_small x y : 0 ≤ x < 80 → 0 ≤ y < 1000 → getCharOffset x y = y * 80 + x.
Proof. intros Hx Hy. rewrite /getCharOffset /VGA_WIDTH (u32_small y) ?(u32_small x) ?u32_small; lia. Qed.

(** Scrolling moves every row up and blanks the last one, and 80 cells past
    the screen. *)
Lemma cell_scroll colour b j :
  cell (scroll colour b) j =
    if decide (0 ≤ j < 1920) then cell b (j + 80)
    else if decide (1920 ≤ j < 2080) then makeVGAEntry 0 colour else cell b j.
Proof.
  rewrite /scroll cell_fill // offset_small //. change ((VGA_HEIGHT - 1) * 80 + 0) with 1920.
  change (VGA_WIDTH * 2) with 160.
  assert (Hall : ∀ m, 0 ≤ m → m ≤ 24 → ∀ j,
    cell (fold_left (λ b y, copy_cells (getCharOffset 0 (y - 1)) (getCharOffset 0 y) VGA_WIDTH b)
      (seqZ 1 m) b) j = if decide (0 ≤ j < m * 80) then cell b (j + 80) else cell b j).
  { refine (natlike_ind _ _ _); [intros _ k; rewrite decide_False //; lia|].
    intros m Hm IH Hmn k. rewrite -Z.add_1_r seqZ_app // fold_left_app.
    rewrite (seqZ_cons (1 + m) 1) // (seqZ_nil _ (Z.pred 1)) //. cbn [fold_left].
    rewrite (offset_small 0 (1 + m)) ?(offset_small 0 (1 + m - 1)); [lia..|].
    rewrite cell_copy //; [rewrite /VGA_WIDTH; lia|].
    rewrite /VGA_WIDTH !IH; [lia..|]. repeat case_decide; try lia; try done; f_equal; lia. }
  rewrite (Hall 24) //. repeat case_decide; try lia; done.
Qed.

(** The screen after [initTerminal]: spaces, and the position in the corner. *)
Definition blank : screen := Screen 0 (λ _, makeVGAEntry 32 COLOUR_WHITE).

Lemma cell_clear v b m j : 0 ≤ m ≤ 25 → 0 ≤ j →
  cell (fold_left (λ b y, fill (getCharOffset 0 y) VGA_WIDTH v b) (seqZ 0 m) b) j =
    if decide (j < m * 80) then v else cell b j.
Proof.
  intros [Hm Hle] Hj. revert Hle. revert m Hm. refine (natlike_ind _ _ _).
  - intros _. rewrite decide_False //. lia.
  - intros m Hm IH Hle. rewrite -Z.add_1_r seqZ_app // fold_left_app /= cell_fill // IH; [lia|].
    rewrite offset_small; [lia..|]. rewrite /VGA_WIDTH. repeat case_decide; try lia; done.
Qed.
Lemma initTerminal_run s : ∃ s', initTerminal s = Ok (tt, s', []) ∧
  inside s' ∧ shows s' blank ∧ terminal_colour s' = COLOUR_WHITE ∧ ports s' = ports s.
Proof.
  eexists. split; [reflexivity|]. split; [by split|]. split; [|done]. split; [done|]. intros i Hi.
  cbn [terminal_buffer set_memory set_colour set_pos]. change VGA_HEIGHT with 25. rewrite cell_clear; [lia..|].
  by rewrite decide_True; [lia|].
Qed.

Lemma set_cursor_ok s o : 0 ≤ o < 65536 →
  ∃ p', ttySetCursor o s = Ok (tt, set_ports p' s, []) ∧ reg p' 14 * 256 + reg p' 15 = o.
Proof.
  intros Ho. rewrite /ttySetCursor /on_ports /zoom.
  destruct (crtc_select (ports s) TTY_HIGH_BYTE_CMD) as (p1&Hp1&Hi1&Hr1).
  destruct (crtc_write p1 (u8 (Z.land (Z.shiftr (u16 o) 8) 255))) as (p2&Hp2&Hi2&Hr2).
  destruct (crtc_select p2 TTY_LOW_BYTE_CMD) as (p3&Hp3&Hi3&Hr3).
  destruct (crtc_write p3 (u8 (Z.land (u8 (u16 o)) 255))) as (p4&Hp4&Hi4&Hr4).
  rewrite (bind_ok _ _ _ _ _ Hp1) (bind_ok _ _ _ _ _ Hp2) (bind_ok _ _ _ _ _ Hp3) Hp4.
  exists p4. split; [done|]. rewrite !Hr4 Hi3 /TTY_LOW_BYTE_CMD /= !Hr3 !Hr2 Hi1 /TTY_HIGH_BYTE_CMD /=.
  rewrite u16_small //. change 255 with (Z.ones 8). rewrite !Z.land_ones // Z.shiftr_div_pow2 //.
  rewrite /u8. change (2 ^ 8) with 256. dlia.
Qed.

Lemma get_cursor_ok s :
  ∃ p', ttyGetCursor s = Ok (u16 (cursor s), set_ports p' s, []) ∧ (∀ r, reg p' r = reg (ports s) r).
Proof.
  rewrite /ttyGetCursor /on_ports /zoom.
  destruct (crtc_select (ports s) TTY_HIGH_BYTE_CMD) as (p1&Hp1&Hi1&Hr1).
  destruct (crtc_select p1 TTY_LOW_BYTE_CMD) as (p2&Hp2&Hi2&Hr2).
  rewrite (bind_ok _ _ _ _ _ Hp1) (bind_ok _ _ _ _ _ (crtc_read p1)) (bind_ok _ _ _ _ _ Hp2)
    (bind_ok _ _ _ _ _ (crtc_read p2)).
  exists p2. split; [|intros r; by rewrite Hr2 Hr1].
  rewrite Hi1 Hi2 Hr2 !Hr1 /cursor /TTY_HIGH_BYTE_CMD /TTY_LOW_BYTE_CMD. do 3 f_equal.
  rewrite /u16 Z.shiftl_mul_pow2 //. change (2 ^ 8) with 256.
  by rewrite Zplus_mod_idemp_l.
Qed.

(** The effect of [checkScroll]. *)
Definition checked s : tty P :=
  let s := if terminal_column s + 1 =? VGA_WIDTH then set_pos (terminal_row s + 1) 0 s
           else set_pos (terminal_row s) (terminal_column s + 1) s in
  if terminal_row s =? VGA_HEIGHT then
    set_pos (terminal_row s - 1) (terminal_column s)
      (set_memory (scroll (terminal_colour s) (terminal_buffer s)) s)
  else s.
Lemma checkScroll_run s : checkScroll s = Ok (tt, checked s, []).
Proof.
  rewrite /checkScroll (bind_ok _ _ s tt (if terminal_column s + 1 =? VGA_WIDTH then set_pos (terminal_row s + 1) 0 s
           else set_pos (terminal_row s) (terminal_column s + 1) s)) //.
  rewrite /checked. set s1 := if terminal_column s + 1 =? VGA_WIDTH then _ else _.
  rewrite (bind_ok _ _ s1 s1 s1) //. by destruct (terminal_row s1 =? VGA_HEIGHT).
Qed.

(** The cursor follows the position at the end of each character. *)
Lemma putc_finish s s1 (m : M (tty P) unit) (Q : tty P → Prop) :
  m s = Ok (tt, s1, []) → 0 ≤ terminal_row s1 < 800 → 0 ≤ terminal_column s1 < 80 →
  (∀ p', let s2 := set_ports p' s1 in cursor s2 = position s1 → Q s2) →
  wp (m;; s ← get; ttySetCursor (getCharOffset (terminal_column s) (terminal_row s))) s (λ _ s' _, Q s').
Proof.
  intros Hm Hr Hc HQ. eapply wp_bind_ok; [exact Hm|]. apply wp_bind, wp_get.
  rewrite offset_small; [lia..|].
  destruct (set_cursor_ok s1 (terminal_row s1 * 80 + terminal_column s1)) as (p'&Hrun&Hreg); [lia|].
  rewrite /wp Hrun. apply HQ. done.
Qed.

Lemma newline_run s :
  (modify (λ s, set_pos (terminal_row s + 1) (terminal_column s) s);; checkScroll;;
   modify (λ s, set_pos (terminal_row s) 0 s)) s =
  Ok (tt, let s1 := checked (set_pos (terminal_row s + 1) (terminal_column s) s) in set_pos (terminal_row s1) 0 s1, []).
Proof.
  rewrite (bind_ok _ _ s tt (set_pos (terminal_row s + 1) (terminal_column s) s)) //.
  by rewrite (bind_ok _ _ _ _ _ (checkScroll_run _)).
Qed.

(** A character that is printed. *)
Definition printed c s : tty P :=
  checked (set_memory (<[getCharOffset (terminal_column s) (terminal_row s) := makeVGAEntry c (terminal_colour s)]>
    (terminal_buffer s)) s).
Lemma print_run c s :
  (s ← get; terminalMvPutC c (terminal_colour s) (terminal_column s) (terminal_row s);; checkScroll) s =
  Ok (tt, printed c s, []).
Proof.
  rewrite (bind_ok _ _ s s s) //. rewrite /terminalMvPutC (bind_ok _ _ s tt _ eq_refl).
  by rewrite checkScroll_run.
Qed.

Lemma shows_advance colour b p f i :
  0 ≤ i < 2000 → (∀ i, 0 ≤ i < 2000 → cell b i = f i) →
  cell (if p =? 2000 then scroll colour b else b) i = at_ (advance (makeVGAEntry 0 colour) p f) i.
Proof.
  intros Hi Hf. rewrite /advance. destruct (Z.eqb_spec p 2000); simpl; [|by apply Hf].
  rewrite cell_scroll /scrolled. destruct (Z.ltb_spec i 1920).
  - rewrite decide_True ?Hf //; lia.
  - rewrite decide_False ?decide_True //; lia.
Qed.

Lemma pos_advance blank p f : pos (advance blank p f) = if p =? 2000 then 1920 else p.
Proof. rewrite /advance. by destruct (p =? 2000). Qed.

(** Case analysis on where the position is. *)
Ltac tty_cases :=
  unfold checked, VGA_WIDTH, VGA_HEIGHT, position in *; simpl in *; repeat (zcase; simpl in *).

(** Only a backspace reads the cursor. *)
Lemma putc_ok c s v :
  inside s → shows s v → (c = 8 → cursor s = position s) → ¬ (c = 10 ∧ terminal_column s = 79) →
  wp (terminalPutC c) s (λ _ s' _, on_screen s' ∧ shows s' (putc_spec (terminal_colour s) c v) ∧
    terminal_colour s' = terminal_colour s).
Proof.
  intros (Hr&Hc) (Hpos&Hcells) Hcur Hexc. rewrite /terminalPutC /putc_spec.
  assert (Hdiv : pos v / 80 = terminal_row s) by (rewrite Hpos /position; dlia).
  destruct (Z.eqb_spec c 10) as [->|Hn10]; [|destruct (Z.eqb_spec c 13) as [->|Hn13];
    [|destruct (Z.eqb_spec c 8) as [->|Hn8]]].
  - assert (Hcol : terminal_column s ≠ 79) by tauto.
    eapply putc_finish; [apply newline_run| | |].
    1-2: tty_cases; lia.
    intros p' s2 Hcur2. split_and!.
    + split_and!; [..|exact Hcur2]; subst s2; tty_cases; lia.
    + rewrite Hdiv. split.
      * rewrite pos_advance /s2 /position. tty_cases; lia.
      * intros i Hi. rewrite -(shows_advance (terminal_colour s) (terminal_buffer s)) //.
        subst s2. tty_cases; try lia; done.
    + subst s2. by tty_cases.
  - eapply putc_finish; [done|simpl; lia..|]. intros p' s2 Hcur2.
    split_and!; [split_and!; [subst s2; simpl; lia..|done]| |done].
    split; [|done]. rewrite Hdiv /s2 /position /=. lia.
  - destruct (get_cursor_ok s) as (p1&Hget&_).
    rewrite Hcur // u16_small in Hget; [rewrite /position; lia|].
    eapply putc_finish; [rewrite (bind_ok _ _ _ _ _ Hget); reflexivity|..].
    1-2: tty_cases; dlia.
    intros p' s2 Hcur2.
    split_and!; [split_and!; [..|exact Hcur2]; subst s2; tty_cases; dlia| |done].
    split; [|done]. rewrite /s2 Hpos. tty_cases; dlia.
  - eapply putc_finish; [apply print_run| | |]; [rewrite /printed; tty_cases; lia..|].
    intros p' s2 Hcur2. split_and!.
    + split_and!; [..|exact Hcur2]; rewrite /s2 /printed; tty_cases; lia.
    + split.
      * rewrite pos_advance /s2 /printed Hpos. tty_cases; lia.
      * intros i Hi. rewrite -(shows_advance (terminal_colour s)
          (<[getCharOffset (terminal_column s) (terminal_row s) := makeVGAEntry c (terminal_colour s)]>
             (terminal_buffer s))) //.
        { intros k Hk. rewrite cell_insert offset_small; [lia..|]. rewrite Hpos /position.
          destruct (Z.eqb_spec k (terminal_row s * 80 + terminal_column s)); case_decide; try lia; try done.
          by apply Hcells. }
        rewrite /s2 /printed Hpos. tty_cases; try lia; done.
    + rewrite /s2 /printed. by tty_cases.
Qed.

(** C18: From a state on the screen every character does to the screen, the
    position and the cursor what a terminal does: it prints and wraps,
    starts a line, returns, steps back, and scrolls by one line at the end
    of the screen. The one exception is a newline in the last column. *)
Theorem terminalPutC_spec c s v :
  on_screen s → shows s v → ¬ (c = 10 ∧ terminal_column s = 79) →
  wp (terminalPutC c) s (λ _ s' _, on_screen s' ∧ shows s' (putc_spec (terminal_colour s) c v) ∧
    terminal_colour s' = terminal_colour s).
Proof. intros (?&?&?) Hs Hexc. by apply putc_ok. Qed.

(** Below the screen nothing scrolls any more. *)
Definition below s : Prop := 26 ≤ terminal_row s < 700 ∧ 0 ≤ terminal_column s < 80.

Lemma below_putc c s : below s → c ≠ 8 →
  wp (terminalPutC c) s (λ _ s' _, 26 ≤ terminal_row s' ≤ terminal_row s + 2 ∧ 0 ≤ terminal_column s' < 80 ∧
    ∀ i, 0 ≤ i < 2000 → cell (terminal_buffer s') i = cell (terminal_buffer s) i).
Proof.
  intros [Hr Hc] Hn8. rewrite /terminalPutC.
  destruct (Z.eqb_spec c 10) as [->|Hn10]; [|destruct (Z.eqb_spec c 13) as [->|Hn13];
    [|destruct (Z.eqb_spec c 8) as [->|_]; [done|]]].
  - eapply putc_finish; [apply newline_run|tty_cases; lia..|]. intros p' s2 _.
    split_and!; [subst s2; tty_cases; lia..|]. intros i Hi. subst s2. tty_cases; try lia; done.
  - eapply putc_finish; [done|simpl; lia..|]. intros p' s2 _. split_and!; [subst s2; simpl; lia..|done].
  - eapply putc_finish; [apply print_run|rewrite /printed; tty_cases; lia..|]. intros p' s2 _.
    split_and!; [rewrite /s2 /printed; tty_cases; lia..|]. intros i Hi.
    assert (Hi' : getCharOffset (terminal_column s) (terminal_row s) ≠ i) by (rewrite offset_small; lia).
    rewrite /s2 /printed. tty_cases; try lia; rewrite cell_insert decide_False //.
Qed.

Lemma below_puts str s : below s → terminal_row s + 2 * Z.of_nat (length str) < 700 → 8 ∉ str →
  wp (terminalPutS str) s (λ _ s' _, 26 ≤ terminal_row s' ∧
    ∀ i, 0 ≤ i < 2000 → cell (terminal_buffer s') i = cell (terminal_buffer s) i).
Proof.
  rewrite /terminalPutS. revert s. induction str as [|c str IH]; intros s Hb Hlen Hin; cbn [put_chars].
  { apply wp_ret. destruct Hb. split; [lia|done]. }
  apply not_elem_of_cons in Hin as [Hc Hin].
  destruct (c =? 0); [apply wp_ret; destruct Hb; split; [lia|done]|].
  apply wp_bind. eapply wp_mono; [by apply below_putc|]. intros [] s1 o (Hr&Hcol&Hcells).
  cbn [length] in Hlen. apply wp_bind. eapply wp_mono; [apply IH; [split; lia|lia|done]|].
  intros n s2 o2 (Hr2&Hcells2). apply wp_ret. split; [done|]. intros i Hi. by rewrite Hcells2 // Hcells.
Qed.

(** A newline written when the cursor is in the last column of the last
    row counts two lines and skips the test for the end of the screen: the
    position is then below the screen, nothing scrolls, and no text without
    a backspace changes what is shown any more. *)
Lemma newline_leaves_screen s str :
  terminal_row s = 24 → terminal_column s = 79 → Z.of_nat (length str) < 300 → 8 ∉ str →
  wp (terminalPutC 10) s (λ _ s1 _, terminal_row s1 = 26 ∧
    wp (terminalPutS str) s1 (λ _ s2 _, 26 ≤ terminal_row s2 ∧
      ∀ i, 0 ≤ i < 2000 → cell (terminal_buffer s2) i = cell (terminal_buffer s) i)).
Proof.
  intros Hr Hc Hlen Hin. rewrite /terminalPutC. rewrite Z.eqb_refl.
  eapply putc_finish; [apply newline_run|tty_cases; lia..|]. intros p' s1 _.
  assert (Hs1 : terminal_row s1 = 26 ∧ terminal_column s1 = 0 ∧ terminal_buffer s1 = terminal_buffer s).
  { subst s1. tty_cases; try lia. split_and!; [lia|done|done]. }
  destruct Hs1 as (Hr1&Hc1&Hb1). split; [done|]. rewrite -Hb1. apply below_puts; [split; lia|lia|done].
Qed.
End facts.


(** * The properties at a concrete controller *)

Section demo.
(** An index register and the data registers. *)
Record crtc : Type := CrtcRegs { crtc_index : Z; crtc_regs : gmap Z Z }.
#[global] Instance crtc_io : Io.PortIO crtc := {|
  Io.outb port v := modify (λ p,
    if port =? TTY_COMMAND_PORT then CrtcRegs v (crtc_regs p)
    else if port =? TTY_DATA_PORT then CrtcRegs (crtc_index p) (<[crtc_index p := v]> (crtc_regs p)) else p);
  Io.inb port := p ← get; mret (if port =? TTY_DATA_PORT then default 0 (crtc_regs p !! crtc_index p) else 255)
|}.
#[global, refine] Instance crtc_laws : Crtc crtc := {|
  index := crtc_index;
  reg p r := default 0 (crtc_regs p !! r)
|}.
Proof.
  - intros p v. by eexists.
  - intros p v. eexists. split; [done|]. split; [done|]. intros r. simpl. case_decide as Hr.
    + by rewrite Hr lookup_insert_eq.
    + by rewrite lookup_insert_ne.
  - done.
Defined.

Definition demo : tty crtc := Tty 3 79 15 ∅ (CrtcRegs 0 {[14 := 1; 15 := 63]}).
Definition demo_corner : tty crtc := Tty 24 79 15 ∅ (CrtcRegs 0 {[14 := 7; 15 := 207]}).

Lemma terminalPutC_spec_witness :
  wp (terminalPutC 65) demo (λ _ s' _, on_screen s' ∧
    shows s' (putc_spec 15 65 (Screen 319 (λ _, 0))) ∧ terminal_colour s' = 15).
Proof.
  apply (terminalPutC_spec 65 demo (Screen 319 (λ _, 0))).
  - split_and!; by vm_compute.
  - by split.
  - by intros [? _].
Defined.

Lemma newline_leaves_screen_witness :
  wp (terminalPutC 10) demo_corner (λ _ s1 _, terminal_row s1 = 26 ∧
    wp (terminalPutS [104; 105; 10]) s1 (λ _ s2 _, 26 ≤ terminal_row s2 ∧
      ∀ i, 0 ≤ i < 2000 → cell (terminal_buffer s2) i = cell (terminal_buffer demo_corner) i)).
Proof.
  apply (newline_leaves_screen demo_corner [104; 105; 10]); [done|done|done|].
  apply (bool_decide_unpack _). by vm_compute.
Defined.
End demo.

End Tty.
