(* ===== verification/Printf.v ===== *)
(** libc/src/stdio/printf.c: formatted output.

    The formatter is modelled over the two functions it prints with,
    [terminalPutS] and [putchar]. A format or an argument is a list of
    characters; the buffer is the C string it holds, and a store outside its
    2048 bytes, a missing argument or one of another type faults, as does
    reading past the end of a format that ends in a percent sign. *)
From S2P Require Import Prelude.
From stdpp Require Import pretty.
From S2P Require Import CString.
From S2P Require Import Numbers.
From S2P Require Import Io.
From S2P Require Import Tty.
Import CString Numbers.
#[local] Open Scope Z_scope.

Module Printf.

Record formatSpecifier : Type := Spec {
  flags : list Z;
  width : Z;
  precision : Z;
  specifier : Z
}.

Definition codes (s : string) : list Z := char_of <$> chars s.

Definition inGroup (target : Z) (group : list Z) : bool := bool_decide (target ∈ group).

(** The flags that may follow a percent sign: 0, #, + and -. *)
Definition flag_group : list Z := [48; 35; 43; 45].

Fixpoint parse_flags (sp : list Z) : list Z * list Z :=
  match sp with
  | c :: sp' => if inGroup c flag_group then let '(fl, rest) := parse_flags sp' in (c :: fl, rest) else ([], sp)
  | [] => ([], [])
  end.

Fixpoint parse_number (n : Z) (sp : list Z) : Z * list Z :=
  match sp with
  | c :: sp' => if isdigit c then parse_number (s32 (10 * n + (c - 48))) sp' else (n, sp)
  | [] => (n, [])
  end.

(** The specifier and what follows it; [None] when the flags overflow their
    8 bytes or the format ends. *)
Definition parseSpecifier (sp : list Z) : option (formatSpecifier * list Z) :=
  let '(fl, sp) := parse_flags sp in
  if 8 <=? Z.of_nat (length fl) then None
  else
    let '(w, sp) := parse_number 0 sp in
    let '(p, sp) := match sp with
                    | c :: sp' => if c =? 46 then parse_number 0 sp' else (0, sp)
                    | [] => (0, sp)
                    end in
    match sp with
    | c :: sp => Some (Spec fl w p c, sp)
    | [] => None
    end.

(** [insertChars(start, c, num)] in a buffer whose text before [start] is
    [pre] and from there on [rest]. *)
Definition BUFFER_SIZE : Z := 2048.
Definition insertChars (pre rest : list Z) (c num : Z) : option (list Z) :=
  if BUFFER_SIZE <=? Z.of_nat (length pre + length rest) + num then None
  else Some (pre ++ replicate (Z.to_nat num) c ++ rest).

Definition has (c : Z) (spec : formatSpecifier) : bool := inGroup c (flags spec).

(** The text of a directive before the padding to its width, and the
    arguments left. *)
Definition zero_pad (spec : formatSpecifier) (pre rest : list Z) : option (list Z) :=
  if negb (has 45 spec) && has 48 spec then
    let pad := width spec - Z.of_nat (length pre + length rest) in
    if 0 <=? pad then insertChars pre rest 48 pad else Some (pre ++ rest)
  else Some (pre ++ rest).

Definition directive (spec : formatSpecifier) (args : list arg) : option (list Z * list arg) :=
  let c := specifier spec in
  if c =? 37 then Some ([37], args)
  else if c =? 99 then
    match args with
    | AInt z :: args | AChr z :: args => let ch := s8 z in Some (if ch =? 0 then [] else [ch], args)
    | _ => None
    end
  else if c =? 120 then
    match args with
    | AInt i :: args =>
        let pre := if has 35 spec then [48; 120] else [] in
        b ← zero_pad spec pre (codes (itoa i 16)); Some (b, args)
    | _ => None
    end
  else if c =? 115 then
    match args with
    | AStr s :: args => if BUFFER_SIZE <=? strlen s then None else Some (codes s, args)
    | _ => None
    end
  else if (c =? 105) || (c =? 100) then
    match args with
    | AInt i :: args =>
        let plus := if has 43 spec && (0 <=? i) then [43] else [] in
        let text := codes (itoa i 10) in
        b ← (if i <? 0 then zero_pad spec (plus ++ take 1 text) (drop 1 text) else zero_pad spec plus text);
        Some (b, args)
    | _ => None
    end
  else Some ([37; c], args).

(** Padding to the width, with spaces. *)
Definition pad_width (spec : formatSpecifier) (buffer : list Z) : option (list Z) :=
  let pad := width spec - Z.of_nat (length buffer) in
  if 0 <=? pad then
    if has 45 spec then
      if BUFFER_SIZE <=? Z.of_nat (length buffer) + pad then None
      else Some (buffer ++ replicate (Z.to_nat pad) 32)
    else insertChars [] buffer 32 pad
  else Some buffer.

Section print.
Context {St : Type} (puts : list Z → M St Z) (putc : Z → M St Z).

(** [fuel] bounds the number of directives and characters; the length of
    the format is enough. *)
Fixpoint print_loop (fuel : nat) (format : list Z) (args : list arg) (amount : Z) : M St Z :=
  match fuel with
  | O => nofuel
  | S fuel =>
      match format with
      | [] => mret amount
      | c :: format =>
          if c =? 37 then
            '(spec, format) ← unwrap (parseSpecifier format);
            '(text, args) ← unwrap (directive spec args);
            buffer ← unwrap (pad_width spec text);
            n ← puts buffer;
            print_loop fuel format args (amount + n)
          else putc c;; print_loop fuel format args (amount + 1)
      end
  end.
Definition printf_with (format : list Z) (args : list arg) : M St Z :=
  print_loop (S (length format)) format args 0.
End print.

(** On the terminal. *)
Definition tty_printf {P} `{!Io.PortIO P} (format : list Z) (args : list arg) : M (Tty.tty P) Z :=
  printf_with Tty.terminalPutS Tty.putchar format args.
Definition puts {P} `{!Io.PortIO P} (s : string) : M (Tty.tty P) Z :=
  tty_printf (codes "%s" ++ [10]) [AStr s].

(** On a record of what is printed. *)
Definition log_puts (s : list Z) : M (list Z) Z := modify (λ l, l ++ s);; mret (Z.of_nat (length s)).
Definition log_putc (c : Z) : M (list Z) Z := modify (λ l, l ++ [c]);; mret c.
Definition sprintl (format : list Z) (args : list arg) : option (list Z) :=
  match printf_with log_puts log_putc format args [] with Ok (_, l, _) => Some l | _ => None end.
Definition sprint (format : string) (args : list arg) : option (list Z) := sprintl (codes format) args.

(** * What a decimal directive means *)

Definition spaces (n : Z) : list Z := replicate (Z.to_nat n) 32.
Definition zeros (n : Z) : list Z := replicate (Z.to_nat n) 48.

(** Sign, zeros to the width when asked and not left-justified, digits; and
    spaces on the other side. *)
Definition decimal_spec (minus zero plus : bool) (w i : Z) : list Z :=
  let sign := if i <? 0 then [45] else if plus then [43] else [] in
  let digits := codes (pretty (Z.abs_N i)) in
  let pad := w - Z.of_nat (length sign + length digits) in
  if minus then sign ++ digits ++ spaces pad
  else if zero then sign ++ zeros pad ++ digits
  else spaces pad ++ sign ++ digits.

Example printf_demo : sprint "%+05d|%-6d|%x|%s" [AInt 42; AInt (-7); AInt 255; AStr "ok"] =
  Some (codes "+0042|-7    |ff|ok").
Proof. by vm_compute. Qed.
Example printf_long_long : sprint "%6lluM" [AInt 8] = Some (codes "    %lluM").
Proof. by vm_compute. Qed.


(** * Facts *)

Lemma codes_app s t : codes (s +:+ t) = codes s ++ codes t.
Proof. by rewrite /codes chars_app fmap_app. Qed.

Lemma zero_pad_ok spec pre rest : width spec < BUFFER_SIZE →
  zero_pad spec pre rest = Some (if negb (has 45 spec) && has 48 spec
    then pre ++ zeros (width spec - Z.of_nat (length pre + length rest)) ++ rest else pre ++ rest).
Proof.
  intros Hw. rewrite /zero_pad /insertChars /zeros. destruct (negb (has 45 spec) && has 48 spec); [|done].
  destruct (Z.leb_spec 0 (width spec - Z.of_nat (length pre + length rest))).
  - by rewrite (proj2 (Z.leb_gt _ _)); [lia|].
  - by replace (Z.to_nat _) with 0%nat by lia.
Qed.

Lemma pad_width_ok spec buffer : width spec < BUFFER_SIZE →
  pad_width spec buffer = Some (let sp := spaces (width spec - Z.of_nat (length buffer)) in
    if has 45 spec then buffer ++ sp else sp ++ buffer).
Proof.
  intros Hw. rewrite /pad_width /insertChars /spaces /=.
  destruct (Z.leb_spec 0 (width spec - Z.of_nat (length buffer))).
  - destruct (has 45 spec); rewrite (proj2 (Z.leb_gt _ _)) //; lia.
  - replace (Z.to_nat _) with 0%nat by lia. rewrite app_nil_r. by destruct (has 45 spec).
Qed.

Lemma length_zeros n : length (zeros n) = Z.to_nat n.
Proof. apply length_replicate. Qed.

(** The decimal directive, from the buffer to the padding. *)
Lemma decimal_ok fl w p i args :
  w < BUFFER_SIZE → -2147483648 ≤ i < 2147483648 →
  ('(text, args') ← directive (Spec fl w p 100) (AInt i :: args);
   buffer ← pad_width (Spec fl w p 100) text; Some (buffer, args')) =
  Some (decimal_spec (inGroup 45 fl) (inGroup 48 fl) (inGroup 43 fl) w i, args).
Proof.
  intros Hw Hi. set spec := Spec fl w p 100.
  assert (Htext : ∃ sign, sign = (if i <? 0 then [45] else if has 43 spec then [43] else []) ∧
    directive spec (AInt i :: args) = (b ← zero_pad spec sign (codes (pretty (Z.abs_N i))); Some (b, args))).
  { eexists. split; [done|]. rewrite /directive /= itoa_pretty // pretty_Z_cases.
    destruct (Z.ltb_spec i 0); destruct (Z.leb_spec 0 i); try lia.
    - rewrite andb_false_r codes_app /=. by replace (Z.to_N (- i)) with (Z.abs_N i) by lia.
    - rewrite andb_true_r. by replace (Z.to_N i) with (Z.abs_N i) by lia. }
  destruct Htext as (sign&Hsign&->). rewrite zero_pad_ok //. cbn [mbind option_bind].
  rewrite pad_width_ok //. cbn [mbind option_bind]. rewrite /decimal_spec -Hsign.
  change (inGroup 45 fl) with (has 45 spec). change (inGroup 48 fl) with (has 48 spec).
  change (width spec) with w. set d := codes _. do 2 f_equal.
  destruct (has 45 spec), (has 48 spec); cbn [negb andb].
  - by rewrite length_app -app_assoc.
  - by rewrite length_app -app_assoc.
  - rewrite !length_app length_zeros. replace (spaces _) with ([] : list Z); [done|].
    rewrite /spaces. by replace (Z.to_nat _) with 0%nat by lia.
  - by rewrite length_app.
Qed.

Lemma isdigit_code c : 48 ≤ c ≤ 57 → isdigit c = true.
Proof. intros Hc. rewrite /isdigit (proj2 (Z.ltb_lt _ _)); [lia|]. by rewrite (proj2 (Z.ltb_lt _ _)); [lia|]. Qed.

Lemma parse_number_pretty n s rest :
  parse_number 0 (codes (pretty_N_go n s) ++ rest) = parse_number (s32 (Z.of_N n)) (codes s ++ rest).
Proof.
  revert s. induction (N.lt_wf_0 n) as [n _ IH]; intros s.
  destruct (decide (n = 0)%N) as [->|Hne]; [by rewrite pretty_N_go_0|].
  rewrite pretty_N_go_step; [lia|]. rewrite IH; [by apply N.div_lt; lia|].
  assert (Hm : (n `mod` 10 < 10)%N) by by apply N.mod_lt.
  set ch := pretty_N_char _. change (codes (String ch s) ++ rest) with (char_of ch :: (codes s ++ rest)).
  assert (Hch : char_of ch = 48 + Z.of_N (n `mod` 10)) by by rewrite /ch pretty_char.
  cbn [parse_number]. rewrite isdigit_code.
  { rewrite Hch. revert Hm. generalize (n `mod` 10)%N. lia. }
  replace (10 * s32 (Z.of_N (n `div` 10)) + (char_of ch - 48)) with
    (s32 (Z.of_N (n `div` 10)) * 10 + Z.of_N (n `mod` 10)) by (rewrite Hch; lia).
  rewrite s32_mul_add. do 2 f_equal. rewrite {3}(N.div_mod n 10) //. generalize (n `mod` 10)%N (n `div` 10)%N. lia.
Qed.

Lemma pretty_head n s : (0 < n)%N → ∃ c s', pretty_N_go n s = String c s' ∧ 49 ≤ char_of c ≤ 57.
Proof.
  revert s. induction (N.lt_wf_0 n) as [n _ IH]; intros s Hn. rewrite pretty_N_go_step //.
  destruct (decide (n < 10)%N) as [Hlt|Hge].
  - rewrite N.div_small // N.mod_small // pretty_N_go_0. eexists _, _. split; [done|]. rewrite pretty_char //. lia.
  - apply IH; [by apply N.div_lt|]. by apply N.div_str_pos; lia.
Qed.

Lemma parse_flags_app fl c rest : Forall (λ f, f ∈ flag_group) fl → c ∉ flag_group →
  parse_flags (fl ++ c :: rest) = (fl, c :: rest).
Proof.
  intros Hfl Hc. induction Hfl as [|f fl Hf _ IH]; simpl.
  - by rewrite /inGroup bool_decide_false.
  - by rewrite /inGroup bool_decide_true // IH.
Qed.

Lemma not_flag c : 49 ≤ c → c ∉ flag_group.
Proof. rewrite /flag_group !elem_of_cons elem_of_nil. lia. Qed.

(** The text of a directive is read back: flags, then a width without a
    leading zero, then the conversion. *)
Lemma parse_decimal fl w rest :
  Forall (λ f, f ∈ flag_group) fl → (length fl ≤ 7)%nat → 0 < w < 2147483648 →
  parseSpecifier (fl ++ codes (pretty w) ++ 100 :: rest) = Some (Spec fl w 0 100, rest).
Proof.
  intros Hfl Hlen Hw. rewrite pretty_Z_cases (proj2 (Z.ltb_ge w 0)); [lia|].
  rewrite /pretty /pretty_N decide_False; [lia|].
  destruct (pretty_head (Z.to_N w) EmptyString) as (c&s'&Hs&Hc); [lia|].
  rewrite /parseSpecifier Hs. change (codes (String c s') ++ 100 :: rest) with (char_of c :: (codes s' ++ 100 :: rest)).
  rewrite parse_flags_app //; [by apply not_flag; lia|].
  rewrite (proj2 (Z.leb_gt 8 _)); [lia|].
  change (char_of c :: (codes s' ++ 100 :: rest)) with (codes (String c s') ++ 100 :: rest).
  rewrite -Hs parse_number_pretty Z2N.id; [lia|]. by rewrite s32_small; [lia|].
Qed.

(** One turn of the loop, on the record. *)
Lemma print_directive fuel fmt args amount l spec fmt' text args' buffer :
  parseSpecifier fmt = Some (spec, fmt') → directive spec args = Some (text, args') →
  pad_width spec text = Some buffer →
  print_loop log_puts log_putc (S fuel) (37 :: fmt) args amount l =
  print_loop log_puts log_putc fuel fmt' args' (amount + Z.of_nat (length buffer)) (l ++ buffer).
Proof.
  intros Hp Hd Hw. cbn [print_loop]. change (37 =? 37) with true. cbn iota.
  rewrite Hp (bind_ok _ _ l (spec, fmt') l) // Hd (bind_ok _ _ l (text, args') l) // Hw
    (bind_ok _ _ l buffer l) //.
  by rewrite (bind_ok (log_puts buffer) _ l (Z.of_nat (length buffer)) (l ++ buffer)).
Qed.

Lemma print_char fuel c fmt args amount l :
  c ≠ 37 →
  print_loop log_puts log_putc (S fuel) (c :: fmt) args amount l =
  print_loop log_puts log_putc fuel fmt args (amount + 1) (l ++ [c]).
Proof.
  intros Hc. cbn [print_loop]. rewrite (proj2 (Z.eqb_neq c 37)) //.
  by rewrite (bind_ok _ _ l c (l ++ [c])).
Qed.

Lemma decimal_parts fl w p i args :
  w < BUFFER_SIZE → -2147483648 ≤ i < 2147483648 →
  ∃ text, directive (Spec fl w p 100) (AInt i :: args) = Some (text, args) ∧
    pad_width (Spec fl w p 100) text =
      Some (decimal_spec (inGroup 45 fl) (inGroup 48 fl) (inGroup 43 fl) w i).
Proof.
  intros Hw Hi. pose proof (decimal_ok fl w p i args Hw Hi) as Hd.
  destruct (directive (Spec fl w p 100) (AInt i :: args)) as [[text args']|]; [|done]. cbn [mbind option_bind] in Hd.
  destruct (pad_width (Spec fl w p 100) text) as [buffer|] eqn:Hp; [|done]. injection Hd as Hb Ha.
  exists text. by subst.
Qed.

(** C31: A directive with any flags, a width and the conversion d prints the
    decimal numeral of every [int] as the directive means: the sign, zeros
    up to the width between sign and digits unless left-justified, and
    spaces on the other side. *)
Theorem printf_decimal fl w i :
  Forall (λ f, f ∈ flag_group) fl → (length fl ≤ 7)%nat → 0 < w < BUFFER_SIZE → -2147483648 ≤ i < 2147483648 →
  sprintl (37 :: fl ++ codes (pretty w) ++ [100]) [AInt i] =
    Some (decimal_spec (inGroup 45 fl) (inGroup 48 fl) (inGroup 43 fl) w i).
Proof.
  intros Hfl Hlen Hw Hi. rewrite /sprintl /printf_with.
  destruct (decimal_parts fl w 0 i [] (proj2 Hw) Hi) as (text&Hd&Hp).
  rewrite (print_directive _ _ _ _ _ _ _ _ _ _ (parse_decimal fl w [] Hfl Hlen ltac:(unfold BUFFER_SIZE in Hw; lia)) Hd Hp).
  cbn [length]. rewrite length_app Nat.add_comm length_app. by rewrite Nat.add_comm.
Qed.

(** [printf] has no long conversions: %llu prints its own letters and
    takes no argument, so the next directive prints the value meant for
    it. *)
Lemma printf_llu_unsupported a rest :
  -2147483648 ≤ a < 2147483648 →
  sprint "%llu %d" (AInt a :: rest) = Some (codes "%llu " ++ codes (pretty a)).
Proof.
  intros Ha. rewrite /sprint /sprintl /printf_with.
  destruct (decimal_parts [] 0 0 a rest eq_refl Ha) as (text&Hd&Hp).
  change (codes "%llu %d") with [37; 108; 108; 117; 32; 37; 100]. cbn [length].
  rewrite (print_directive _ _ _ _ _ (Spec [] 0 0 108) [108; 117; 32; 37; 100] [37; 108] (AInt a :: rest) [37; 108]) //.
  do 3 rewrite print_char //. rewrite (print_directive _ _ _ _ _ (Spec [] 0 0 100) [] text rest _ _ Hd Hp) //.
  cbn [print_loop mret M_ret app]. do 2 f_equal. rewrite /decimal_spec /= pretty_Z_cases.
  destruct (Z.ltb_spec a 0).
  - replace (Z.to_N (- a)) with (Z.abs_N a) by lia. rewrite /spaces.
    replace (Z.to_nat _) with 0%nat by lia. by rewrite codes_app.
  - replace (Z.to_N a) with (Z.abs_N a) by lia. rewrite /spaces. by replace (Z.to_nat _) with 0%nat by lia.
Qed.

Lemma printf_llu_unsupported_witness : sprint "%llu %d" [AInt 40] = Some (codes "%llu " ++ codes (pretty 40)).
Proof. by apply (printf_llu_unsupported 40 []). Defined.

Lemma printf_decimal_witness :
  sprintl (37 :: [43; 48] ++ codes (pretty 6) ++ [100]) [AInt (-42)] = Some (decimal_spec false true true 6 (-42)).
Proof. apply (printf_decimal [43; 48] 6 (-42)); [|simpl; lia|done|done]. repeat constructor; set_solver. Defined.

End Printf.
