(* ===== verification/Printable.v ===== *)
(** Which calls of [printf] are safe: printf.c builds each directive in a
    buffer of 2048 bytes and takes its arguments on trust.

    [format_ok] walks a format and the kinds of its arguments as the code
    walks them; a call it accepts never leaves the buffer when its strings
    are shorter than that ([format_printable]). The commands' messages are
    checked with it. *)
From S2P Require Import Prelude.
From S2P Require Import CString.
From S2P Require Import Numbers.
From S2P Require Import Printf.
Import CString Numbers Printf.
#[local] Open Scope Z_scope.

Module Printable.

(** A [char] of a text. *)
Definition is_char (c : Z) : Prop := c ≠ 0 ∧ -128 ≤ c < 128.
Definition is_charb (c : Z) : bool := negb (c =? 0) && (-128 <=? c) && (c <? 128).

(** The text of an event, and what no call may ask for: a directive whose
    text does not fit the buffer, a missing argument. *)
Definition event_text (e : event) : option (list Z) := sprint (ev_fmt e) (ev_args e).
Definition printable (e : event) : Prop := ∃ text, event_text e = Some text ∧ Forall is_char text.

Inductive kind : Set := KInt | KChr | KStr.
Definition kind_of (a : arg) : kind :=
  match a with AInt _ => KInt | AChr _ => KChr | AStr _ => KStr end.

(** The kinds left after a directive with this specifier. *)
Definition takes (c : Z) (ks : list kind) : option (list kind) :=
  if c =? 37 then Some ks
  else if c =? 99 then match ks with KInt :: ks | KChr :: ks => Some ks | _ => None end
  else if c =? 115 then match ks with KStr :: ks => Some ks | _ => None end
  else if (c =? 120) || (c =? 105) || (c =? 100) then match ks with KInt :: ks => Some ks | _ => None end
  else if is_charb c then Some ks else None.

Fixpoint format_ok (fuel : nat) (format : list Z) (ks : list kind) : bool :=
  match fuel with
  | O => false
  | S fuel =>
      match format with
      | [] => true
      | c :: format =>
          if c =? 37 then
            match parseSpecifier format with
            | Some (spec, rest) =>
                (width spec <? BUFFER_SIZE) &&
                match takes (specifier spec) ks with Some ks => format_ok fuel rest ks | None => false end
            | None => false
            end
          else is_charb c && format_ok fuel format ks
      end
  end.

(** A string argument fits the buffer. *)
Definition arg_fits (a : arg) : Prop :=
  match a with AStr s => no_nul s ∧ strlen s < BUFFER_SIZE | _ => True end.

(** * Texts of characters *)

Lemma is_charb_spec c : is_charb c = true → is_char c.
Proof. rewrite /is_charb /is_char. lia. Qed.

(** For concrete output. *)
Definition printableb (e : event) : bool :=
  match event_text e with Some text => forallb is_charb text | None => false end.
Lemma all_printable o : forallb printableb o = true → Forall printable o.
Proof.
  rewrite forallb_forall Forall_forall. intros Ho e He%list_elem_of_In%Ho. revert He. rewrite /printableb.
  destruct (event_text e) as [text|] eqn:Ht; [|done]. rewrite forallb_forall. intros Hc. exists text. split; [done|].
  apply Forall_forall. intros c Hin%list_elem_of_In%Hc. by apply is_charb_spec.
Qed.

Lemma char_range c : -128 ≤ char_of c < 128.
Proof. rewrite /char_of /s8. pose proof (Z.mod_pos_bound (byte_of c + 128) 256). lia. Qed.
Lemma codes_char s : no_nul s → Forall is_char (codes s).
Proof.
  induction s as [|c s IH]; [constructor|]. intros [Hc Hs]. change (codes (String c s)) with (char_of c :: codes s).
  constructor; [|by apply IH]. split; [by intros Hz%char_of_zero|apply char_range].
Qed.
Lemma replicate_char n c : is_char c → Forall is_char (replicate n c).
Proof. intros Hc. by apply Forall_replicate. Qed.

(** The digits of base 16 and below. *)
Definition letters (s : string) : Prop := Forall (λ c, is_char (char_of c)) (chars s).
Lemma digit_char i : -16 < i < 16 → is_char (char_of (digit i)).
Proof.
  intros Hi. assert (Hall : Forall (λ i, is_charb (char_of (digit i)) = true) (seqZ (-15) 31)).
  { by repeat constructor. }
  apply is_charb_spec. rewrite Forall_forall in Hall. apply Hall, elem_of_seqZ. lia.
Qed.
Lemma itoa_pos_char fuel v b : 0 < b ≤ 16 → letters (itoa_pos fuel v b).
Proof.
  intros Hb. revert v. induction fuel as [|fuel IH]; intros v; [constructor|]. cbn [itoa_pos].
  constructor; [apply digit_char; dlia|]. destruct (_ =? 0); [constructor|apply IH].
Qed.
Lemma itoa_neg_char fuel v b : 0 < b ≤ 16 → letters (itoa_neg fuel v b).
Proof.
  intros Hb. revert v. induction fuel as [|fuel IH]; intros v; [constructor|]. cbn [itoa_neg].
  constructor; [apply digit_char; dlia|]. destruct (_ =? 0); [constructor|apply IH].
Qed.
Lemma itoa_char i b : 0 < b ≤ 16 → Forall is_char (codes (itoa i b)).
Proof.
  intros Hb. rewrite /codes Forall_fmap /itoa. case_match; [constructor|]. rewrite reverse_chars.
  rewrite /chars /of_chars String.list_ascii_of_string_of_list_ascii. apply Forall_rev. case_match.
  - fold (chars (itoa_neg 32 i b +:+ "-")). rewrite chars_app. apply Forall_app. split; [by apply itoa_neg_char|].
    by repeat constructor.
  - by apply itoa_pos_char.
Qed.

(** * Directives *)

Lemma zero_pad_char spec pre rest :
  width spec < BUFFER_SIZE → Forall is_char pre → Forall is_char rest →
  ∃ b, zero_pad spec pre rest = Some b ∧ Forall is_char b.
Proof.
  intros Hw Hp Hr. rewrite zero_pad_ok //. eexists. split; [done|].
  case_match; rewrite ?Forall_app //. split_and!; [done| |done]. by apply replicate_char.
Qed.
Lemma pad_width_char spec buffer :
  width spec < BUFFER_SIZE → Forall is_char buffer → ∃ b, pad_width spec buffer = Some b ∧ Forall is_char b.
Proof.
  intros Hw Hb. rewrite pad_width_ok //. eexists. split; [done|]. cbn zeta.
  case_match; apply Forall_app; split; try done; by apply replicate_char.
Qed.

Lemma directive_char spec args ks :
  width spec < BUFFER_SIZE → Forall arg_fits args → takes (specifier spec) (kind_of <$> args) = Some ks →
  ∃ text args', directive spec args = Some (text, args') ∧ Forall is_char text ∧
    Forall arg_fits args' ∧ kind_of <$> args' = ks.
Proof.
  intros Hw Hargs. rewrite /takes /directive. generalize (specifier spec) as c. intros c.
  assert (Hd : ∀ a, match a with AInt i => ∀ pre n b, 0 < b ≤ 16 → Forall is_char pre →
    ∃ t, zero_pad spec (pre ++ take n (codes (itoa i b))) (drop n (codes (itoa i b))) = Some t ∧ Forall is_char t
    | _ => True end).
  { intros [i| |]; [|done..]. intros pre n b Hb Hpre. apply zero_pad_char; [done| |].
    - apply Forall_app. split; [done|]. by apply Forall_take, itoa_char.
    - by apply Forall_drop, itoa_char. }
  destruct (Z.eqb_spec c 37) as [->|]; [intros [= <-]; do 2 eexists; split_and!; [done|by repeat constructor|done..]|].
  destruct (Z.eqb_spec c 99) as [->|].
  { destruct args as [|[z|z|s] args]; [done|..|done]; apply Forall_cons in Hargs as [_ Hargs]; intros [= <-].
    all: do 2 eexists; split_and!; [done| |done|done]; destruct (Z.eqb_spec (s8 z) 0); repeat constructor; try done.
    all: unfold s8; dlia. }
  destruct (Z.eqb_spec c 115) as [->|].
  { destruct args as [|[z|z|s] args]; [done..|]. apply Forall_cons in Hargs as [[Hn Hs] Hargs]. intros [= <-].
    cbn [Z.eqb Pos.eqb]. rewrite (proj2 (Z.leb_gt _ _)) //. do 2 eexists. split_and!; [done|by apply codes_char|done..]. }
  destruct (Z.eqb_spec c 120) as [->|].
  { cbn [orb]. destruct args as [|[z|z|s] args]; [done| |done..]. apply Forall_cons in Hargs as [_ Hargs]. intros [= <-].
    destruct (Hd (AInt z) (if has 35 spec then [48; 120] else []) 0%nat 16) as (t&Ht&Hc); [lia| |].
    { case_match; by repeat constructor. }
    rewrite app_nil_r drop_0 in Ht. rewrite Ht. by do 2 eexists. }
  cbn [orb]. destruct ((c =? 105) || (c =? 100)).
  { destruct args as [|[z|z|s] args]; [done| |done..]. apply Forall_cons in Hargs as [_ Hargs]. intros [= <-].
    cbn zeta. set plus := if has 43 spec && (0 <=? z) then [43] else [].
    assert (Hp : Forall is_char plus) by (rewrite /plus; case_match; by repeat constructor).
    destruct (z <? 0).
    - destruct (Hd (AInt z) plus 1%nat 10) as (t&Ht&Hc); [lia|done|]. rewrite Ht. by do 2 eexists.
    - destruct (Hd (AInt z) plus 0%nat 10) as (t&Ht&Hc); [lia|done|]. rewrite app_nil_r drop_0 in Ht. rewrite Ht.
      by do 2 eexists. }
  destruct (is_charb c) eqn:Hc; [|done]. intros [= <-]. do 2 eexists. split_and!; [done| |done..].
  repeat constructor; try done; by apply is_charb_spec.
Qed.

Lemma print_loop_char fuel fmt args n l :
  format_ok fuel fmt (kind_of <$> args) = true → Forall arg_fits args →
  ∃ m text, print_loop log_puts log_putc fuel fmt args n l = Ok (m, l ++ text, []) ∧ Forall is_char text.
Proof.
  revert fmt args n l. induction fuel as [|fuel IH]; intros fmt args n l; [done|]. cbn [format_ok print_loop].
  destruct fmt as [|c fmt]; [intros _ _; exists n, []; by rewrite app_nil_r|]. destruct (c =? 37).
  - destruct (parseSpecifier fmt) as [[spec rest]|]; [|done]. intros [Hw%Z.ltb_lt Hk]%andb_true_iff Hargs.
    destruct (takes _ _) as [ks|] eqn:Ht; [|done].
    destruct (directive_char spec args ks Hw Hargs Ht) as (text&args'&Hd&Htext&Hargs'&<-).
    destruct (pad_width_char spec text Hw Htext) as (b&Hb&Hbc).
    rewrite (bind_ok _ _ _ (spec, rest) l) // Hd (bind_ok _ _ _ (text, args') l) // Hb (bind_ok _ _ _ b l) //.
    rewrite (bind_ok _ _ _ (Z.of_nat (length b)) (l ++ b)) //.
    destruct (IH rest args' (n + Z.of_nat (length b)) (l ++ b) Hk Hargs') as (m&t&Hrun&Hc).
    exists m, (b ++ t). rewrite app_assoc. split; [done|]. by apply Forall_app.
  - intros [Hc%is_charb_spec Hk]%andb_true_iff Hargs. rewrite (bind_ok _ _ _ c (l ++ [c])) //.
    destruct (IH fmt args (n + 1) (l ++ [c]) Hk Hargs) as (m&t&Hrun&Ht).
    exists m, (c :: t). rewrite Hrun -app_assoc. split; [done|]. by constructor.
Qed.

Lemma format_printable fmt args :
  format_ok (S (length (codes fmt))) (codes fmt) (kind_of <$> args) = true → Forall arg_fits args →
  printable (Prelude.Printf fmt args).
Proof.
  intros Hf Ha. destruct (print_loop_char _ _ _ 0 [] Hf Ha) as (m&text&Hrun&Hc). exists text.
  split; [|done]. by rewrite /event_text /sprint /sprintl /printf_with Hrun.
Qed.
End Printable.

(** A message whose format is known, with arguments that fit. *)
Ltac arg_tac :=
  first [exact I | split; [solve [eauto]|unfold Printf.BUFFER_SIZE in *; lia]].
Ltac printable_tac :=
  apply Printable.format_printable;
  [vm_compute; reflexivity|repeat (apply Forall_cons; split; [arg_tac|]); by apply Forall_nil].
Ltac messages := cbn [app];
  repeat match goal with
  | |- Forall _ [] => by apply Forall_nil
  | |- Forall _ (_ :: _) => apply Forall_cons; split; [printable_tac|]
  | |- Forall _ (_ ++ _) => apply Forall_app; split
  | _ => assumption
  end.
