(* ===== verification/Keeps.v ===== *)
(** Runs within a relation, and what they print.

    [keeps_in E R m s]: whatever a run of [m] from [s] ends in is related to
    [s], and every message of it is in [E]; [keeps] asks of the messages
    that they can be printed. It says nothing when the run fails, so it
    composes along the code without the code's invariants. *)
From S2P Require Import Prelude.
From S2P Require Import Printable.
Import Printable.
#[local] Open Scope general_if_scope.

Module Keeps.

Definition keeps_in {St X} (E : event → Prop) (R : relation St) (m : M St X) (s : St) : Prop :=
  ∀ a s' o, m s = Ok (a, s', o) → R s s' ∧ Forall E o.
Abbreviation keeps := (keeps_in printable).

Create HintDb keeps.

Section keeps.
Context {St : Type} {E : event → Prop} (R : relation St) `{!PreOrder R}.

Lemma keeps_ret {X} (a : X) s : keeps_in E R (mret a) s.
Proof. intros ? ? ? [= <- <- <-]. by split. Qed.
Lemma keeps_bind {X Y} (m : M St X) (f : X → M St Y) s :
  keeps_in E R m s → (∀ a s', keeps_in E R (f a) s') → keeps_in E R (m ≫= f) s.
Proof.
  intros Hm Hf b s2 o (a&s1&o1&o2&[H1 Ho1]%Hm&[H2 Ho2]%Hf&->)%bind_inv. split; [by etrans|by apply Forall_app].
Qed.
Lemma keeps_bind_ok {X Y} (m : M St X) (f : X → M St Y) s a :
  m s = Ok (a, s, []) → keeps_in E R (f a) s → keeps_in E R (m ≫= f) s.
Proof. intros Hm Hf b s2 o. rewrite (bind_ok _ _ _ _ _ Hm). apply Hf. Qed.
Lemma keeps_get s : keeps_in E R get s.
Proof. intros ? ? ? [= <- <- <-]. by split. Qed.
Lemma keeps_printf fmt args s : E (Prelude.Printf fmt args) → keeps_in E R (printf fmt args) s.
Proof. intros Hp ? ? ? [= <- <- <-]. split; [done|]. by repeat constructor. Qed.
Lemma keeps_modify f s : R s (f s) → keeps_in E R (modify f) s.
Proof. intros Hf ? ? ? [= <- <- <-]. by split. Qed.
Lemma keeps_unwrap {X} (o : option X) s : keeps_in E R (unwrap o) s.
Proof. destruct o; [|done]. intros ? ? ? [= <- <- <-]. by split. Qed.
Lemma keeps_fault {X} s : keeps_in E R (fault : M St X) s.
Proof. by intros ? ? ?. Qed.
Lemma keeps_nofuel {X} s : keeps_in E R (nofuel : M St X) s.
Proof. by intros ? ? ?. Qed.

(** Both what a run establishes and what it keeps. *)
Lemma wp_keeps {X} (m : M St X) s Q : wp m s Q → keeps_in E R m s →
  wp m s (λ a s' o, Q a s' o ∧ R s s' ∧ Forall E o).
Proof. rewrite /wp /keeps_in. destruct (m s) as [[[a s1] o1]| |]; naive_solver. Qed.

Lemma keeps_weaken {X} (E' : event → Prop) (m : M St X) s :
  (∀ e, E e → E' e) → keeps_in E R m s → keeps_in E' R m s.
Proof. intros HE Hm a s' o [? Ho]%Hm. split; [done|]. by eapply Forall_impl. Qed.
End keeps.

(** Only what is printed. *)
Definition anything {St} : relation St := λ _ _, True.
#[global] Instance anything_preorder {St} : PreOrder (@anything St).
Proof. by split. Qed.
Lemma keeps_anything {St X E} (R : relation St) (m : M St X) s : keeps_in E R m s → keeps_in E anything m s.
Proof. intros Hm a s' o Hr. by destruct (Hm _ _ _ Hr). Qed.

(** What a run establishes under a condition, it keeps. *)
Lemma keeps_wp {St X E} (P : St → Prop) (m : M St X) s :
  keeps_in E anything m s → (P s → wp m s (λ _ s' _, P s')) → keeps_in E (λ s s', P s → P s') m s.
Proof.
  intros Hm HP a s' o Hr. split; [|by eapply Hm]. intros Hs. by eapply (wp_known m s a s' o (λ _ s' _, P s')); [apply HP|].
Qed.
#[global] Instance impl_preorder {St} (P : St → Prop) : PreOrder (λ s s', P s → P s').
Proof. split; [by intros s ?|]. intros s1 s2 s3 H1 H2 ?. by apply H2, H1. Qed.

(** An operation of a component within a larger state. *)
Lemma keeps_zoom {St T X E} (proj : St → T) upd (R : relation T) (R' : relation St) (m : M T X) s :
  (∀ t, R (proj s) t → R' s (upd t s)) → keeps_in E R m (proj s) → keeps_in E R' (zoom proj upd m) s.
Proof.
  intros HR Hm a s' o. rewrite /zoom. destruct (m (proj s)) as [[[x t] o1]| |] eqn:Hrun; [|done..].
  intros [= <- <- <-]. apply Hm in Hrun as [? ?]. split; [by apply HR|done].
Qed.
#[export] Hint Resolve keeps_ret keeps_get keeps_unwrap keeps_fault keeps_nofuel : keeps.

End Keeps.
Export Keeps.

(** Along the structure of the code. *)
Ltac keeps_step :=
  match goal with
  | |- keeps_in _ _ (_ ≫= _) _ => apply keeps_bind; [apply _| |intros ? ?]
  | |- keeps_in _ _ (printf _ _) _ => apply keeps_printf; [apply _|]; solve [printable_tac | eauto with keeps]
  | |- keeps_in _ _ (if ?b then _ else _) _ => destruct b
  | |- keeps_in _ _ (match ?x with _ => _ end) _ => destruct x
  | _ => solve [eauto with keeps typeclass_instances]
  end.
Ltac keeps_tac := repeat keeps_step.
