(* ===== verification/Screen.v ===== *)
(** What [printf] does to the screen: printf.c on the terminal of tty.c.

    [sprintl] is the text a call prints. [printf_emits]: on the terminal the
    call puts exactly these characters, one after the other; from there the
    screen follows by the terminal's own specification. Output recorded as
    events is shown with [show]. *)
From S2P Require Import Prelude.
From S2P Require Import CString.
From S2P Require Import Numbers.
From S2P Require Import Io.
From S2P Require Import Tty.
From S2P Require Import Printf.
From S2P Require Import Printable.
Import Printf Printable.
#[local] Open Scope general_if_scope.

Module Screen.

(** The screen after a text, and the one thing a text must not do: end a
    line in the last column. *)
Definition puts_spec (colour : Z) (text : list Z) (v : Tty.screen) : Tty.screen :=
  fold_left (λ v c, Tty.putc_spec colour c v) text v.
Fixpoint fits (colour : Z) (text : list Z) (v : Tty.screen) : bool :=
  match text with
  | [] => true
  | c :: text => negb ((c =? 10) && (Tty.pos v mod 80 =? 79)) && fits colour text (Tty.putc_spec colour c v)
  end.

Section screen.
Context {P : Type} `{!Io.PortIO P}.
Abbreviation tty := (Tty.tty P).
Implicit Types (s : tty).

Fixpoint emit (text : list Z) : M tty unit :=
  match text with
  | [] => mret tt
  | c :: text => Tty.terminalPutC c;; emit text
  end.

(** The events of a run, shown in order. *)
Fixpoint show (o : list event) : M tty unit :=
  match o with
  | [] => mret tt
  | Prelude.Printf fmt args :: o => tty_printf (codes fmt) args;; show o
  end.

Lemma emit_app t1 t2 s : emit (t1 ++ t2) s = (emit t1;; emit t2) s.
Proof.
  revert s. induction t1 as [|c t1 IH]; intros s; cbn [app emit].
  - rewrite (bind_ok _ _ s tt s) //.
  - rewrite bind_assoc. by apply bind_ext.
Qed.

Lemma puts_emits text s : Forall (λ c, c ≠ 0) text →
  Tty.terminalPutS text s = (emit text;; mret (Z.of_nat (length text))) s.
Proof.
  rewrite /Tty.terminalPutS. intros Ht. revert s. induction Ht as [|c text Hc _ IH]; intros s; [done|].
  cbn [Tty.put_chars emit]. rewrite (proj2 (Z.eqb_neq c 0)) // [RHS]bind_assoc. apply bind_ext. intros [] s1.
  etrans; [apply bind_eq, IH|]. rewrite bind_assoc. apply bind_ext. intros [] s2.
  by rewrite (bind_ok _ _ s2 (Z.of_nat (length text)) s2) // [length (c :: text)]/= Nat2Z.inj_succ.
Qed.
Lemma putchar_emits c s : is_char c → Tty.putchar c s = (emit [c];; mret c) s.
Proof.
  intros [_ Hc]. rewrite /Tty.putchar s8_small //. cbn [emit]. rewrite [RHS]bind_assoc. apply bind_ext. intros [] s1.
  by rewrite (bind_ok _ _ s1 tt s1).
Qed.

(** Nothing is recorded while a text is built. *)
Lemma log_silent fuel fmt args n l m l' o :
  print_loop log_puts log_putc fuel fmt args n l = Ok (m, l', o) → o = [].
Proof.
  revert fmt args n l. induction fuel as [|fuel IH]; intros fmt args n l; [done|]. cbn [print_loop].
  destruct fmt as [|c fmt]; [by intros [= <- <- <-]|].
  destruct (c =? 37).
  - destruct (parseSpecifier fmt) as [[spec rest]|]; [|done]. rewrite (bind_ok _ _ _ (spec, rest) l) //.
    destruct (directive spec args) as [[text args']|] eqn:Hd; [|done]. rewrite (bind_ok _ _ _ (text, args') l) //.
    destruct (pad_width spec text) as [buffer|] eqn:Hw; [|done]. rewrite (bind_ok _ _ _ buffer l) //.
    rewrite (bind_ok _ _ _ (Z.of_nat (length buffer)) (l ++ buffer)) //. apply IH.
  - rewrite (bind_ok _ _ _ c (l ++ [c])) //. apply IH.
Qed.

(** Printing to a record and printing to the terminal run together. *)
Lemma print_loop_emits fuel fmt args n l m l' :
  print_loop log_puts log_putc fuel fmt args n l = Ok (m, l', []) →
  ∃ text, l' = l ++ text ∧ (Forall is_char text → ∀ s,
    print_loop Tty.terminalPutS Tty.putchar fuel fmt args n s = (emit text;; mret m) s).
Proof.
  revert fmt args n l. induction fuel as [|fuel IH]; intros fmt args n l; [done|]. cbn [print_loop].
  destruct fmt as [|c fmt].
  { intros [= <- <-]. exists []. by rewrite app_nil_r. }
  destruct (c =? 37) eqn:Hc.
  - destruct (parseSpecifier fmt) as [[spec rest]|]; [|done]. rewrite (bind_ok _ _ _ (spec, rest) l) //.
    destruct (directive spec args) as [[text args']|] eqn:Hd; [|done]. rewrite (bind_ok _ _ _ (text, args') l) //.
    destruct (pad_width spec text) as [buffer|] eqn:Hw; [|done]. rewrite (bind_ok _ _ _ buffer l) //.
    rewrite (bind_ok _ _ _ (Z.of_nat (length buffer)) (l ++ buffer)) //.
    intros (text'&->&Hrun)%IH. exists (buffer ++ text'). rewrite app_assoc. split; [done|].
    intros [Hb Ht]%Forall_app s. rewrite (bind_ok _ _ _ (spec, rest) s) // Hd (bind_ok _ _ _ (text, args') s) //
      Hw (bind_ok _ _ _ buffer s) //.
    etrans; [apply bind_eq, puts_emits; by eapply Forall_impl; [exact Hb|intros ? []]|].
    etrans; [|symmetry; apply bind_eq, emit_app]. rewrite (bind_assoc (emit buffer)) bind_assoc. apply bind_ext. intros [] s1. rewrite (bind_ok _ _ s1 (Z.of_nat (length buffer)) s1) //. by apply Hrun.
  - rewrite (bind_ok _ _ _ c (l ++ [c])) //. intros (text&->&Hrun)%IH. exists (c :: text).
    rewrite -app_assoc. split; [done|]. intros [Hch Ht]%Forall_cons s.
    etrans; [by apply bind_eq, putchar_emits|]. etrans; [|symmetry; apply bind_eq, (emit_app [c])].
    rewrite (bind_assoc (emit [c])) bind_assoc. apply bind_ext. intros [] s1. rewrite (bind_ok _ _ s1 c s1) //. by apply Hrun.
Qed.

(** A [printf] of which the text is known puts that text on the terminal. *)
Lemma printf_emits fmt args text s :
  sprintl fmt args = Some text → Forall is_char text →
  ∃ n, tty_printf fmt args s = (emit text;; mret n) s.
Proof.
  rewrite /sprintl /tty_printf /printf_with. intros Hs Ht.
  destruct (print_loop log_puts log_putc _ fmt args 0 []) as [[[m l] o]| |] eqn:Hrun; [|done..].
  assert (o = []) as ->. { by eapply log_silent. }
  destruct (print_loop_emits _ _ _ _ _ _ _ Hrun) as (text'&->&Hemit). injection Hs as <-.
  exists m. by apply Hemit.
Qed.

Context `{!Tty.Crtc P}.

(** From inside the screen a text that ends no line in the last column is
    shown as the terminal's specification says; only a backspace in front
    depends on the cursor. *)
Definition ready (text : list Z) s : Prop := Tty.inside s ∧ (head text ≠ Some 8 ∨ Tty.cursor s = Tty.position s).

Lemma emit_ok text s v :
  ready text s → Tty.shows s v → fits (Tty.terminal_colour s) text v = true →
  wp (emit text) s (λ _ s' _, (text = [] ∧ s' = s ∨ Tty.on_screen s') ∧
    Tty.shows s' (puts_spec (Tty.terminal_colour s) text v) ∧ Tty.terminal_colour s' = Tty.terminal_colour s).
Proof.
  revert s v. induction text as [|c text IH]; intros s v [Hs Hcur] Hv.
  { intros _. split_and!; [by left|done|done]. }
  cbn [fits emit]. intros [Hc Hf]%andb_true_iff. apply wp_bind. eapply wp_mono.
  { apply Tty.putc_ok; [done|exact Hv|intros ->; by destruct Hcur|]. intros [-> Hcol].
    destruct Hv as [Hp _]. revert Hc. rewrite Hp /Tty.position Hcol Z.eqb_refl.
    destruct (Z.eqb_spec ((Tty.terminal_row s * 80 + 79) mod 80) 79); [done|dlia]. }
  intros [] s1 o1 (Hs1&Hv1&Hc1). eapply wp_mono.
  { apply IH; [|exact Hv1|by rewrite Hc1]. destruct Hs1 as (?&?&?). by split; [|right]. }
  intros [] s2 o2 (Hs2&Hv2&Hc2). rewrite Hc1 in Hv2 Hc2. split_and!; [|done|done].
  right. by destruct Hs2 as [[_ ->]|].
Qed.

(** Showing printable events puts their texts, and never faults. *)
Definition texts (o : list event) : list Z := o ≫= λ e, default [] (event_text e).

Lemma show_emits o s : Forall printable o → show o s = emit (texts o) s.
Proof.
  revert s. induction o as [|[fmt args] o IH]; intros s; [done|]. intros [(text&Ht&Hc) Ho]%Forall_cons.
  cbn [show]. change (texts (Prelude.Printf fmt args :: o)) with (default [] (sprint fmt args) ++ texts o).
  rewrite /event_text /= in Ht. rewrite Ht /= emit_app. destruct (printf_emits (codes fmt) args text s Ht Hc) as [n Hn].
  etrans; [apply bind_eq, Hn|]. rewrite bind_assoc. apply bind_ext. intros [] s1.
  rewrite (bind_ok _ _ s1 n s1) //. by apply IH.
Qed.
Lemma show_app o1 o2 s : show (o1 ++ o2) s = (show o1;; show o2) s.
Proof.
  revert s. induction o1 as [|[fmt args] o1 IH]; intros s; cbn [app show].
  - by rewrite (bind_ok _ _ s tt s).
  - rewrite bind_assoc. apply bind_ext. intros n s1. apply IH.
Qed.

(** The terminal always runs; what it does to the devices is to write to
    the ports of the display. *)
Section ports.
Context (R : relation P) `{!PreOrder R}.
Context (display_out : ∀ port v p p',
  port = Tty.TTY_COMMAND_PORT ∨ port = Tty.TTY_DATA_PORT → Io.outb port v p = Ok (tt, p', []) → R p p').

Lemma select_run v p : ∃ p', Io.outb Tty.TTY_COMMAND_PORT v p = Ok (tt, p', []) ∧ R p p'.
Proof. destruct (Tty.crtc_select p v) as (p'&Hp&_). exists p'. split; [done|]. eapply display_out; [by left|done]. Qed.
Lemma write_run v p : ∃ p', Io.outb Tty.TTY_DATA_PORT v p = Ok (tt, p', []) ∧ R p p'.
Proof. destruct (Tty.crtc_write p v) as (p'&Hp&_). exists p'. split; [done|]. eapply display_out; [by right|done]. Qed.

Lemma set_cursor_run o s : ∃ p', Tty.ttySetCursor o s = Ok (tt, Tty.set_ports p' s, []) ∧ R (Tty.ports s) p'.
Proof.
  rewrite /Tty.ttySetCursor /Tty.on_ports /zoom.
  destruct (select_run Tty.TTY_HIGH_BYTE_CMD (Tty.ports s)) as (p1&Hp1&?).
  destruct (write_run (u8 (Z.land (Z.shiftr (u16 o) 8) 255)) p1) as (p2&Hp2&?).
  destruct (select_run Tty.TTY_LOW_BYTE_CMD p2) as (p3&Hp3&?).
  destruct (write_run (u8 (Z.land (u8 (u16 o)) 255)) p3) as (p4&Hp4&?).
  rewrite (bind_ok _ _ _ _ _ Hp1) (bind_ok _ _ _ _ _ Hp2) (bind_ok _ _ _ _ _ Hp3) Hp4.
  exists p4. split; [done|]. by do 3 (etrans; [done|]).
Qed.
Lemma get_cursor_run s : ∃ c p', Tty.ttyGetCursor s = Ok (c, Tty.set_ports p' s, []) ∧ R (Tty.ports s) p'.
Proof.
  rewrite /Tty.ttyGetCursor /Tty.on_ports /zoom.
  destruct (select_run Tty.TTY_HIGH_BYTE_CMD (Tty.ports s)) as (p1&Hp1&?).
  destruct (select_run Tty.TTY_LOW_BYTE_CMD p1) as (p2&Hp2&?).
  rewrite (bind_ok _ _ _ _ _ Hp1) (bind_ok _ _ _ _ _ (Tty.crtc_read p1)) (bind_ok _ _ _ _ _ Hp2)
    (bind_ok _ _ _ _ _ (Tty.crtc_read p2)).
  eexists _, p2. split; [done|]. by etrans.
Qed.

(** Then the cursor is set, whatever the character did. *)
Definition beside s s' : Prop := R (Tty.ports s) (Tty.ports s') ∧ Tty.terminal_colour s' = Tty.terminal_colour s.
#[local] Instance beside_preorder : PreOrder beside.
Proof. split; [by intros s; split|]. intros s1 s2 s3 [? ?] [? ?]. split; [by etrans|congruence]. Qed.
Lemma cursor_last (m : M tty unit) s s1 :
  m s = Ok (tt, s1, []) → beside s s1 →
  ∃ s', (m;; s ← get; Tty.ttySetCursor (Tty.getCharOffset (Tty.terminal_column s) (Tty.terminal_row s))) s =
    Ok (tt, s', []) ∧ beside s s'.
Proof.
  intros Hm Hb. rewrite (bind_ok _ _ _ _ _ Hm) (bind_ok _ _ s1 s1 s1) //.
  destruct (set_cursor_run (Tty.getCharOffset (Tty.terminal_column s1) (Tty.terminal_row s1)) s1) as (p'&Hp&?).
  exists (Tty.set_ports p' s1). split; [done|]. etrans; [exact Hb|]. by split.
Qed.
Lemma checked_beside s : beside s (Tty.checked s).
Proof. rewrite /beside /Tty.checked. by repeat case_match. Qed.

Lemma putc_run c s : ∃ s', Tty.terminalPutC c s = Ok (tt, s', []) ∧ beside s s'.
Proof.
  rewrite /Tty.terminalPutC. destruct (c =? 10); [|destruct (c =? 13); [|destruct (c =? 8)]].
  - eapply cursor_last; [apply Tty.newline_run|]. apply (checked_beside (Tty.set_pos _ _ s)).
  - by eapply cursor_last.
  - destruct (get_cursor_run s) as (x&p&Hp&?). eapply cursor_last; [by rewrite (bind_ok _ _ _ _ _ Hp)|by split].
  - eapply cursor_last; [apply Tty.print_run|]. apply (checked_beside (Tty.set_memory _ s)).
Qed.
Lemma emit_run text s : ∃ s', emit text s = Ok (tt, s', []) ∧ beside s s'.
Proof.
  revert s. induction text as [|c text IH]; intros s; [by exists s|]. cbn [emit].
  destruct (putc_run c s) as (s1&Hs1&?). destruct (IH s1) as (s2&Hs2&?). exists s2.
  rewrite (bind_ok _ _ _ _ _ Hs1). split; [done|]. by etrans.
Qed.
Lemma show_run o s : Forall printable o → ∃ s', show o s = Ok (tt, s', []) ∧ beside s s'.
Proof. intros Ho. rewrite show_emits //. apply emit_run. Qed.
End ports.

End screen.

End Screen.
