(* ===== verification/Bytes.v ===== *)
(** Byte buffers: a buffer of a C program is the list of its bytes, each a
    [Z] in [0, 256).  Copy loops [dst[o + j] = src[s + j]] are [store] and
    [slice]; multi-byte fields are little-endian, as on i386. *)
From S2P Require Import Prelude.
#[local] Open Scope general_if_scope.

Module Bytes.

Definition zeros (n : nat) : list Z := replicate n 0.
Definition byte (z : Z) : Prop := 0 ≤ z < 256.

(** Bytes [o .. o + n) of [l]. *)
Definition slice (o n : Z) (l : list Z) : list Z := take (Z.to_nat n) (drop (Z.to_nat o) l).

(** [xs] written at [o], element by element. *)
Definition store (o : Z) (xs l : list Z) : list Z := list_inserts (Z.to_nat o) xs l.

(** Little-endian fields of 2, 4 and 8 bytes. *)
Fixpoint le_bytes (n : nat) (z : Z) : list Z :=
  match n with
  | O => []
  | S n => u8 z :: le_bytes n (Z.shiftr z 8)
  end.
Fixpoint le_value (l : list Z) : Z :=
  match l with
  | [] => 0
  | b :: l => b + 256 * le_value l
  end.
Definition load16 (o : Z) (l : list Z) : Z := le_value (slice o 2 l).
Definition load32 (o : Z) (l : list Z) : Z := le_value (slice o 4 l).

(** * Facts *)

Lemma length_slice o n l :
  0 ≤ o → 0 ≤ n → o + n ≤ Z.of_nat (length l) → Z.of_nat (length (slice o n l)) = n.
Proof. intros. rewrite /slice length_take length_drop. lia. Qed.

Lemma length_store o xs l : length (store o xs l) = length l.
Proof. apply length_inserts. Qed.

Lemma lookup_slice o n l j :
  0 ≤ o → 0 ≤ j < n → slice o n l !! Z.to_nat j = l !! Z.to_nat (o + j).
Proof.
  intros. rewrite /slice lookup_take decide_True; [lia|].
  rewrite lookup_drop. f_equal. lia.
Qed.

Lemma lookup_store o xs l j :
  0 ≤ o → 0 ≤ j → o + Z.of_nat (length xs) ≤ Z.of_nat (length l) →
  store o xs l !! Z.to_nat j =
    if decide (o ≤ j < o + Z.of_nat (length xs)) then xs !! Z.to_nat (j - o)
    else l !! Z.to_nat j.
Proof.
  intros. rewrite /store. case_decide as Hj.
  - rewrite list_lookup_inserts; [lia|lia|]. f_equal. lia.
  - destruct (decide (j < o)).
    + rewrite list_lookup_inserts_lt //. lia.
    + rewrite list_lookup_inserts_ge //. lia.
Qed.

Lemma byte_u8 z : byte (u8 z).
Proof. apply u8_range. Qed.

Lemma le_bytes_length n z : length (le_bytes n z) = n.
Proof. revert z. induction n as [|n IH]; intros z; simpl; [done|]. by rewrite IH. Qed.

Lemma le_bytes_bytes n z : Forall byte (le_bytes n z).
Proof. revert z. induction n; intros z; constructor; [apply byte_u8|done]. Qed.

(** A field read back is the value written, modulo its width. *)
Lemma le_value_bytes n z : le_value (le_bytes n z) = z mod 256 ^ Z.of_nat n.
Proof.
  revert z. induction n as [|n IH]; intros z; simpl le_bytes; simpl le_value.
  - by rewrite Z.mod_1_r.
  - rewrite IH Z.shiftr_div_pow2 // /u8 Nat2Z.inj_succ Z.pow_succ_r; [lia|].
    rewrite Z.rem_mul_r //. apply Z.pow_pos_nonneg; lia.
Qed.

Lemma le_value_range l : Forall byte l → 0 ≤ le_value l < 256 ^ Z.of_nat (length l).
Proof.
  induction 1 as [|b l [Hb Hb'] _ IH]; simpl le_value; [done|].
  simpl length. rewrite Nat2Z.inj_succ Z.pow_succ_r; lia.
Qed.

Lemma le_bytes_value l : Forall byte l → le_bytes (length l) (le_value l) = l.
Proof.
  induction 1 as [|b l [Hb Hb'] _ IH]; [done|]. simpl. f_equal.
  - rewrite /u8. rewrite Z.mul_comm Z.mod_add // Z.mod_small //.
  - rewrite Z.shiftr_div_pow2 // Z.mul_comm Z.div_add // Z.div_small //.
Qed.

Lemma bytes_slice o n l : Forall byte l → Forall byte (slice o n l).
Proof. intros. by apply Forall_take, Forall_drop. Qed.

Lemma bytes_store o xs l : Forall byte xs → Forall byte l → Forall byte (store o xs l).
Proof.
  rewrite /store. intros Hxs Hl. generalize (Z.to_nat o). induction Hxs as [|x xs Hx _ IH]; intros i; simpl; [done|].
  apply Forall_insert; [apply IH|done].
Qed.

Lemma load32_range o l : Forall byte l → 0 ≤ load32 o l < 4294967296.
Proof.
  intros Hl. pose proof (le_value_range (slice o 4 l) (bytes_slice _ _ _ Hl)) as [? Hlt].
  split; [done|]. eapply Z.lt_le_trans; [done|].
  assert (length (slice o 4 l) ≤ 4)%nat by (rewrite /slice length_take; lia).
  change 4294967296 with (256 ^ 4). apply Z.pow_le_mono_r; lia.
Qed.

End Bytes.
