(* ===== verification/Drive.v ===== *)
(** drivers/src/drive.c: the AHCI driver.

    The host bus adapter is a parameter, the class [Hba]: what it does with
    a command the driver has put in slot 0 of a port, and whether a device
    is attached to a port.  Its laws speak of the command as this driver
    encodes it; [exec_ata_cmd_misencoded] shows that the encoding is not
    the one of the Serial ATA and AHCI specifications.  The module models
    the encoding of commands, the drive table and the byte-level transfers;
    the register accesses below them are in Ahci.v, and Registers.v
    implements the class on them. *)
From S2P Require Import Prelude.
From S2P Require Import Bytes.
Import Bytes.
#[local] Open Scope general_if_scope.

Module Drive.

Definition SECTOR_SIZE : Z := 512.
Definition MAX_PORTS : Z := 32.
Definition MAX_DRIVES : Z := MAX_PORTS.
Definition FIS_TYPE_REG_H2D : Z := 39.
Definition ATA_CMD_IDENTIFY : Z := 236.
Definition ATA_CMD_READ_DMA_EXT : Z := 37.
Definition ATA_CMD_WRITE_DMA_EXT : Z := 53.

(** What [exec_ata_cmd] leaves in memory for the adapter: the first word of
    the command header (fields cfl:5 a:1 w:1 p:1 r:1 b:1 c:1 rsvd:1 pmp:4
    prdtl:16), the third and fourth word of the region descriptor (fields
    rsvd:16 dbc:16, then i:1 rsvd2:31) and the sixteen bytes of the frame
    information structure. *)
Record command : Type := Command {
  hdr_word : Z;
  prd_word2 : Z;
  prd_word3 : Z;
  cfis : list Z
}.

Definition header_word (cfl w prdtl : Z) : Z :=
  Z.lor cfl (Z.lor (Z.shiftl w 6) (Z.shiftl prdtl 16)).

Definition register_fis (cmd lba sector_count : Z) : list Z :=
  [ FIS_TYPE_REG_H2D; 128; cmd; 0;
    u8 lba; u8 (Z.shiftr lba 8); u8 (Z.shiftr lba 16); u8 (Z.shiftr lba 24);
    u8 (Z.land (Z.shiftr lba 32) 255); u8 (Z.land (Z.shiftr lba 40) 255);
    u8 sector_count; u8 (Z.shiftr sector_count 8);
    0; 0; 64; 0 ].

Definition build_command (cmd lba sector_count is_write : Z) : command :=
  let bytes := if sector_count =? 0 then 512 else u32 (sector_count * SECTOR_SIZE) in
  Command (header_word 5 (if is_write =? 0 then 0 else 1) 1)
    (Z.shiftl (u16 (bytes - 1)) 16) 0 (register_fis cmd lba sector_count).

(** The adapter: [hba_run port c buf] is the result of
    [wait_cmd_complete] and the data buffer after the command [c] ran with
    the buffer [buf]; [hba_present], [hba_init] and [hba_stop] are
    [port_device_present], [port_init] and [port_stop]; [sector d port lba]
    is what the medium holds, and [faulty port lba] says that the sector
    cannot be transferred. *)
Class Hba (D : Type) := {
  hba_run : Z → command → list Z → M D (Z * list Z);
  hba_present : Z → M D bool;
  hba_init : Z → M D unit;
  hba_stop : Z → M D unit;
  sector : D → Z → Z → list Z;
  faulty : Z → Z → Prop
}.

Section exec.
Context {D : Type} `{!Hba D}.

(** [exec_ata_cmd] with a data buffer, which every call passes. *)
Definition exec_ata_cmd (port cmd lba sector_count : Z) (data_buf : list Z) (is_write : Z) :
  M D (Z * list Z) :=
  hba_run port (build_command cmd lba sector_count is_write) data_buf.

Definition port_read_sectors (port lba sector_count : Z) (buffer : list Z) : M D (Z * list Z) :=
  if sector_count =? 0 then mret (0, buffer)
  else if 1 <? sector_count then mret (-1, buffer)
  else exec_ata_cmd port ATA_CMD_READ_DMA_EXT lba sector_count buffer 0.

Definition port_write_sectors (port lba sector_count : Z) (buffer : list Z) : M D Z :=
  if sector_count =? 0 then mret 0
  else if 1 <? sector_count then mret (-1)
  else fst <$> exec_ata_cmd port ATA_CMD_WRITE_DMA_EXT lba sector_count buffer 1.

(** The result and [*size_bytes]. *)
Definition identify_device (port size_bytes : Z) : M D (Z * Z) :=
  '(ret, buf) ← exec_ata_cmd port ATA_CMD_IDENTIFY 0 0 (zeros 512) 0;
  if negb (ret =? 0) then mret (-1, size_bytes)
  else
    let buf16 i := load16 (2 * i) buf in
    let low := Z.lor (buf16 100) (u32 (Z.shiftl (buf16 101) 16)) in
    let high := Z.lor (buf16 102) (u32 (Z.shiftl (buf16 103) 16)) in
    mret (0, u64 (Z.lor (u64 (Z.shiftl high 32)) low * SECTOR_SIZE)).
End exec.

(** The driver's variables: [drive_port] and [drive_size_bytes] up to
    [drive_count], the flag, the static transfer buffer, and the adapter. *)
Record ahci (D : Type) : Type := Ahci {
  drives : list (Z * Z);
  ahci_initialized : bool;
  byte_buffer : list Z;
  hba : D
}.
Arguments Ahci {D} _ _ _ _.
Arguments drives {D} _.
Arguments ahci_initialized {D} _.
Arguments byte_buffer {D} _.
Arguments hba {D} _.

Section ops.
Context {D : Type} `{!Hba D}.

Definition set_drives (l : list (Z * Z)) (s : ahci D) : ahci D :=
  Ahci l (ahci_initialized s) (byte_buffer s) (hba s).
Definition set_byte_buffer (b : list Z) (s : ahci D) : ahci D :=
  Ahci (drives s) (ahci_initialized s) b (hba s).
Definition set_hba (d : D) (s : ahci D) : ahci D :=
  Ahci (drives s) (ahci_initialized s) (byte_buffer s) d.
Definition drive_count (s : ahci D) : Z := Z.of_nat (length (drives s)).
Definition on_hba {X} (m : M D X) : M (ahci D) X := zoom hba set_hba m.

Definition add_drive_to_table (port size : Z) : M (ahci D) Z :=
  s ← get;
  if MAX_DRIVES <=? drive_count s then mret (-1)
  else modify (λ s, set_drives (drives s ++ [(port, size)]) s);; mret (drive_count s).

(** The slot of the port takes the last entry, and the count drops. *)
Fixpoint find_port (port : Z) (l : list (Z * Z)) : option nat :=
  match l with
  | [] => None
  | (p, _) :: l => if p =? port then Some O else S <$> find_port port l
  end.
Definition remove_drive_from_table (port : Z) : M (ahci D) unit :=
  s ← get;
  match find_port port (drives s), last (drives s) with
  | Some i, Some e =>
      modify (λ s, set_drives (take (pred (length (drives s))) (<[i := e]> (drives s))) s)
  | _, _ => mret tt
  end.

Definition port_scan_update (port : Z) : M (ahci D) unit :=
  s ← get;
  let already := match find_port port (drives s) with Some _ => true | None => false end in
  present ← on_hba (hba_present port);
  if present && negb already then
    on_hba (hba_init port);;
    '(r, size) ← on_hba (identify_device port 0);
    if r =? 0 then add_drive_to_table port size;; mret tt else mret tt
  else if negb present && already then on_hba (hba_stop port);; remove_drive_from_table port
  else mret tt.

(** [ports_impl] is the value of the adapter's PI register. *)
Fixpoint scan_ports (ports_impl : Z) (ports : list Z) : M (ahci D) unit :=
  match ports with
  | [] => mret tt
  | port :: ports =>
      (if Z.testbit ports_impl port then port_scan_update port else mret tt);;
      scan_ports ports_impl ports
  end.
(** The end of [ahci_init], once [Ahci.ahci_init] has found and reset the
    controller. *)
Definition ahci_enable (ports_impl : Z) : M (ahci D) unit :=
  scan_ports ports_impl (seqZ 0 MAX_PORTS);;
  modify (λ s, Ahci (drives s) true (byte_buffer s) (hba s)).
Definition ahci_table_update (ports_impl : Z) : M (ahci D) unit :=
  s ← get;
  if negb (ahci_initialized s) then mret tt
  else scan_ports ports_impl (seqZ 0 MAX_PORTS).

(** The geometry both transfers compute: start sector, offset in it, and
    the number of sectors, a [u16]. *)
Definition start_sector (addr : Z) : Z := addr / SECTOR_SIZE.
Definition sectors_of (addr length : Z) : Z :=
  let end_addr := u64 (addr + length - 1) in
  u16 (end_addr / SECTOR_SIZE - start_sector addr + 1).
Definition start_off (addr i : Z) : Z := if i =? 0 then addr mod SECTOR_SIZE else 0.
Definition end_off (addr length i : Z) : Z :=
  if i =? sectors_of addr length - 1 then u64 (addr + length - 1) mod SECTOR_SIZE + 1
  else SECTOR_SIZE.

(** The body of [ahci_read]'s loop for the sectors [todo], with [copied]
    bytes of the transfer done. The sector buffer is uninitialised in the
    code; a completed transfer defines all of it. *)
Fixpoint read_loop (port addr length copied : Z) (todo : list Z) : M (ahci D) bool :=
  match todo with
  | [] => mret true
  | i :: todo =>
      '(r, buf) ← on_hba (port_read_sectors port (u64 (start_sector addr + i)) 1 (zeros 512));
      if negb (r =? 0) then mret false
      else
        let chunk := u32 (end_off addr length i - start_off addr i) in
        let chunk := if length - copied <? chunk then length - copied else chunk in
        modify (λ s, set_byte_buffer
          (store copied (slice (start_off addr i) chunk buf) (byte_buffer s)) s);;
        read_loop port addr length (copied + chunk) todo
  end.

(** Whether the returned pointer is not NULL; it is then [byte_buffer]. *)
Definition ahci_read (drive_number addr length : Z) : M (ahci D) bool :=
  s ← get;
  if negb (ahci_initialized s) then mret false
  else if (drive_number <? 0) || (drive_count s <=? drive_number) then mret false
  else if (length <=? 0) || (256 <? length) then mret false
  else
    '(port, _) ← unwrap (drives s !! Z.to_nat drive_number);
    if 2 <? sectors_of addr length then mret false
    else read_loop port addr length 0 (seqZ 0 (sectors_of addr length)).

(** The body of [ahci_write]'s loop; [src] is what is left of the data. *)
Fixpoint write_loop (port addr length : Z) (src : list Z) (todo : list Z) : M (ahci D) Z :=
  match todo with
  | [] => mret 0
  | i :: todo =>
      let cur_lba := u64 (start_sector addr + i) in
      let so := start_off addr i in
      let eo := end_off addr length i in
      let chunk := u32 (eo - so) in
      '(r, buf) ← (if negb (so =? 0) || negb (eo =? SECTOR_SIZE)
                   then on_hba (port_read_sectors port cur_lba 1 (zeros 512))
                   else mret (0, zeros 512));
      if negb (r =? 0) then mret (-1)
      else if Z.of_nat (List.length src) <? chunk then fault
      else
        r ← on_hba (port_write_sectors port cur_lba 1 (store so (take (Z.to_nat chunk) src) buf));
        if negb (r =? 0) then mret (-1)
        else write_loop port addr length (drop (Z.to_nat chunk) src) todo
  end.

(** [data] is [None] for NULL. *)
Definition ahci_write (drive_number addr length : Z) (data : option (list Z)) : M (ahci D) Z :=
  s ← get;
  if negb (ahci_initialized s) then mret (-1)
  else if (drive_number <? 0) || (drive_count s <=? drive_number) then mret (-1)
  else if (length <=? 0) || (256 <? length) then mret (-1)
  else match data with
  | None => mret (-1)
  | Some src =>
    '(port, _) ← unwrap (drives s !! Z.to_nat drive_number);
    if 2 <? sectors_of addr length then mret (-1)
    else write_loop port addr length src (seqZ 0 (sectors_of addr length))
  end.
End ops.

(** * The medium as an array of bytes *)

Section medium.
Context {D : Type} `{!Hba D}.

Definition same_medium (d d' : D) : Prop := ∀ p l, sector d' p l = sector d p l.

Definition disk_byte (d : D) (port a : Z) : option Z :=
  sector d port (a / 512) !! Z.to_nat (a mod 512).

(** [d'] is [d] with [bs] written from byte [addr] of the port's device. *)
Definition written (d : D) (port addr : Z) (bs : list Z) (d' : D) : Prop :=
  ∀ p a, 0 ≤ a → disk_byte d' p a =
    if decide (p = port ∧ addr ≤ a < addr + Z.of_nat (length bs)) then bs !! Z.to_nat (a - addr)
    else disk_byte d p a.
End medium.

(** What the driver relies on: a sector that is not faulty is transferred,
    to or from the medium, and success means that it was. *)
Class HbaLaws (D : Type) `{!Hba D} : Prop := {
  sector_length d p l : length (sector d p l) = 512%nat;
  sector_bytes d p l : Forall byte (sector d p l);
  hba_read d p lba buf : 0 ≤ p < MAX_PORTS → 0 ≤ lba < 281474976710656 → length buf = 512%nat →
    wp (hba_run p (build_command ATA_CMD_READ_DMA_EXT lba 1 0) buf) d (λ '(r, b) d' _,
      same_medium d d' ∧ length b = 512%nat ∧ (r = 0 → b = sector d p lba) ∧
      (r ≠ 0 → faulty p lba));
  hba_write d p lba buf : 0 ≤ p < MAX_PORTS → 0 ≤ lba < 281474976710656 → length buf = 512%nat → Forall byte buf →
    wp (hba_run p (build_command ATA_CMD_WRITE_DMA_EXT lba 1 1) buf) d (λ '(r, _) d' _,
      (∀ p' l', (p', l') ≠ (p, lba) → sector d' p' l' = sector d p' l') ∧
      (r = 0 → sector d' p lba = buf) ∧ (r ≠ 0 → faulty p lba));
  hba_run_total d p c buf : wp (hba_run p c buf) d (λ _ _ o, o = []);
  hba_present_total d p : wp (hba_present p) d (λ _ _ o, o = []);
  hba_init_total d p : 0 ≤ p < MAX_PORTS → wp (hba_init p) d (λ _ _ o, o = []);
  hba_stop_total d p : 0 ≤ p < MAX_PORTS → wp (hba_stop p) d (λ _ _ o, o = [])
}.

Section theory.
Context {D : Type} `{!Hba D, !HbaLaws D}.
Implicit Types (d : D) (s : ahci D).

Lemma same_medium_byte d d' p a : same_medium d d' → disk_byte d' p a = disk_byte d p a.
Proof. intros H. by rewrite /disk_byte H. Qed.

Lemma written_same d d' p a : same_medium d d' → written d p a [] d'.
Proof.
  intros H p' a' _. rewrite decide_False; [simpl; lia|]. by apply same_medium_byte.
Qed.

Lemma written_app d d1 d2 p a bs1 bs2 :
  written d p a bs1 d1 → written d1 p (a + Z.of_nat (length bs1)) bs2 d2 →
  written d p a (bs1 ++ bs2) d2.
Proof.
  intros H1 H2 p' a' Ha. rewrite H2 // H1 //. rewrite length_app Nat2Z.inj_add.
  repeat case_decide; try lia; try done.
  - rewrite lookup_app_r; [lia|]. f_equal. lia.
  - rewrite lookup_app_l //. lia.
Qed.

Lemma written_l d d0 p a bs d' : same_medium d0 d → written d p a bs d' → written d0 p a bs d'.
Proof. intros Hs H p' a' Ha. rewrite H // (same_medium_byte d0 d) //. Qed.

(** Storing into the image of one sector writes that range of bytes. *)
Lemma written_sector d d' p lba o xs :
  0 ≤ lba → 0 ≤ o → o + Z.of_nat (length xs) ≤ 512 →
  (∀ p' l', (p', l') ≠ (p, lba) → sector d' p' l' = sector d p' l') →
  sector d' p lba = store o xs (sector d p lba) →
  written d p (512 * lba + o) xs d'.
Proof.
  intros Hl Ho Hx Hother Hsec p' a Ha. rewrite /disk_byte.
  destruct (decide ((p', a / 512) = (p, lba))) as [[= -> Hlba]|Hne].
  - rewrite Hlba Hsec lookup_store; [done|dlia|rewrite sector_length; lia|].
    rewrite -Hlba. repeat case_decide; try dlia; [|done]. f_equal. dlia.
  - rewrite Hother // decide_False //. intros [-> Hin]. apply Hne. f_equal. dlia.
Qed.

Lemma slice_sector d p lba o n j :
  0 ≤ o → 0 ≤ j < n → o + n ≤ 512 →
  slice o n (sector d p lba) !! Z.to_nat j = disk_byte d p (512 * lba + o + j).
Proof.
  intros. rewrite lookup_slice // /disk_byte.
  replace ((512 * lba + o + j) / 512) with lba by dlia.
  by replace ((512 * lba + o + j) mod 512) with (o + j) by dlia.
Qed.

(** Requests the driver can place: they lie in the 48-bit sector range. *)
Definition addressable (addr len : Z) : Prop :=
  0 ≤ addr ∧ 0 < len ≤ 256 ∧ addr + len ≤ 144115188075855872.

Lemma geometry addr len :
  addressable addr len →
  (addr mod 512 + len ≤ 512 ∧ sectors_of addr len = 1 ∧
   end_off addr len 0 = addr mod 512 + len) ∨
  (512 < addr mod 512 + len ∧ sectors_of addr len = 2 ∧ end_off addr len 0 = 512 ∧
   end_off addr len 1 = addr mod 512 + len - 512).
Proof.
  intros (Ha&Hl&Hb). rewrite /end_off /sectors_of /start_sector /SECTOR_SIZE /=.
  rewrite (u64_small (addr + len - 1)); [lia|].
  destruct (decide (addr mod 512 + len ≤ 512)) as [Hin|Hout]; [left|right].
  - assert ((addr + len - 1) / 512 - addr / 512 + 1 = 1) as -> by dlia.
    split_and!; [done|done|]. simpl. dlia.
  - assert ((addr + len - 1) / 512 - addr / 512 + 1 = 2) as -> by dlia.
    split_and!; [lia|done|done|]. simpl. dlia.
Qed.

Lemma port_read_wp s p lba buf (Q : Z * list Z → ahci D → list event → Prop) :
  0 ≤ p < MAX_PORTS → 0 ≤ lba < 281474976710656 → length buf = 512%nat →
  (∀ r b d o, same_medium (hba s) d → length b = 512%nat → (r = 0 → b = sector (hba s) p lba) →
    (r ≠ 0 → faulty p lba) → Q (r, b) (set_hba d s) o) →
  wp (on_hba (port_read_sectors p lba 1 buf)) s Q.
Proof.
  intros Hp Hl Hb HQ. rewrite /on_hba. apply wp_zoom. rewrite /port_read_sectors /=.
  eapply wp_mono; [by apply hba_read|]. intros [r b] d o (?&?&?&?). by apply HQ.
Qed.

Lemma port_write_wp s p lba buf (Q : Z → ahci D → list event → Prop) :
  0 ≤ p < MAX_PORTS → 0 ≤ lba < 281474976710656 → length buf = 512%nat → Forall byte buf →
  (∀ r d o, (∀ p' l', (p', l') ≠ (p, lba) → sector d p' l' = sector (hba s) p' l') →
    (r = 0 → sector d p lba = buf) → (r ≠ 0 → faulty p lba) → Q r (set_hba d s) o) →
  wp (on_hba (port_write_sectors p lba 1 buf)) s Q.
Proof.
  intros Hp Hl Hb Hby HQ. rewrite /on_hba. apply wp_zoom. rewrite /port_write_sectors /=. wp_steps.
  eapply wp_mono; [by apply hba_write|]. intros [r b] d o (?&?&?). by apply HQ.
Qed.

(** [s'] is [s] but for the buffer and the internal state of the adapter. *)
Record same_driver (s s' : ahci D) : Prop := {
  same_drives : drives s' = drives s;
  same_init : ahci_initialized s' = ahci_initialized s;
  same_hba : same_medium (hba s) (hba s');
  same_length : length (byte_buffer s') = length (byte_buffer s)
}.

(** [s'] has the drive table of [s]. *)
Record same_table (s s' : ahci D) : Prop := {
  table_drives : drives s' = drives s;
  table_init : ahci_initialized s' = ahci_initialized s;
  table_buffer : byte_buffer s' = byte_buffer s
}.

Lemma same_driver_trans s1 s2 s3 : same_driver s1 s2 → same_driver s2 s3 → same_driver s1 s3.
Proof.
  intros [???H1] [???H2]. split; congruence.
Qed.

Lemma same_table_trans s1 s2 s3 : same_table s1 s2 → same_table s2 s3 → same_table s1 s3.
Proof. intros [???] [???]. split; congruence. Qed.

(** The part of a transfer that lies in one sector. *)
Lemma read_part s p addr len copied i todo (Q : bool → ahci D → list event → Prop) chunk :
  0 ≤ p < MAX_PORTS → addressable addr len → 0 ≤ i → addr / 512 + i < 281474976710656 → 0 ≤ copied →
  chunk = end_off addr len i - start_off addr i → 0 < chunk → chunk ≤ len - copied →
  0 ≤ start_off addr i → start_off addr i + chunk ≤ 512 →
  copied + chunk ≤ Z.of_nat (length (byte_buffer s)) →
  (∀ s' o, same_driver s s' → faulty p (addr / 512 + i) → Q false s' o) →
  (∀ s' o, same_driver s s' →
    byte_buffer s' = store copied
      (slice (start_off addr i) chunk (sector (hba s) p (addr / 512 + i))) (byte_buffer s) →
    wp (read_loop p addr len (copied + chunk) todo) s' (λ r s2 o', Q r s2 (o ++ o'))) →
  wp (read_loop p addr len copied (i :: todo)) s Q.
Proof.
  intros Hp (Ha&Hl&Hb) Hi Hi2 Hc Hchunk Hpos Hle Hso Hend Hbuf Hfail Hok. simpl.
  assert (u64 (start_sector addr + i) = addr / 512 + i) as Hlba.
  { rewrite /start_sector /SECTOR_SIZE u64_small //. dlia. }
  rewrite Hlba -Hchunk. apply wp_bind. apply port_read_wp; [done|dlia|done|].
  intros r b d o Hd Hlen Hr Hf. assert (same_driver s (set_hba d s)) as Hs by by split.
  destruct (Z.eqb_spec r 0) as [->|]; simpl; [|by apply wp_ret, Hfail; auto].
  rewrite (u32_small chunk); [lia|]. destruct (Z.ltb_spec (len - copied) chunk); [lia|].
  wp_steps. eapply wp_mono; [apply (Hok _ o)|].
  - split; [done|done|done|]. by rewrite /= length_store.
  - by rewrite /= Hr.
  - by intros r s2 o2.
Qed.
Lemma start_off_0 addr : start_off addr 0 = addr mod 512.
Proof. done. Qed.
Lemma start_off_1 addr : start_off addr 1 = 0.
Proof. done. Qed.

(** Some sector of the range is faulty. *)
Definition range_faulty (p addr len : Z) : Prop :=
  ∃ l, addr / 512 ≤ l ≤ (addr + len - 1) / 512 ∧ faulty p l.

(** [ahci_read] fills the buffer with the bytes of the medium. *)
Lemma read_loop_spec s p addr len :
  0 ≤ p < MAX_PORTS → addressable addr len → length (byte_buffer s) = 256%nat →
  wp (read_loop p addr len 0 (seqZ 0 (sectors_of addr len))) s (λ r s' _,
    same_driver s s' ∧ (r = true → ∀ j, 0 ≤ j < len →
      byte_buffer s' !! Z.to_nat j = disk_byte (hba s) p (addr + j)) ∧
    (r = false → range_faulty p addr len)).
Proof.
  intros Hp Ha Hb. pose proof Ha as (Ha0&Hl&Hr).
  destruct (geometry addr len Ha) as [(Hin&->&He)|(Hin&->&He0&He1)].
  - change (seqZ 0 1) with [0].
    eapply (read_part _ _ _ _ _ _ _ _ len); rewrite ?He ?start_off_0; try dlia; [done| |].
    { intros s' o Hs Hf. split_and!; [done..|]. eexists. split; [|done]. dlia. }
    intros s' o Hs Hbuf. apply wp_ret. split_and!; [done| |done]. intros _ j Hj.
    rewrite Hbuf lookup_store; [lia|lia|..].
    { rewrite length_slice ?sector_length; dlia. }
    rewrite decide_True; [rewrite length_slice ?sector_length; dlia|].
    rewrite slice_sector; [dlia..|]. f_equal. dlia.
  - change (seqZ 0 2) with [0; 1].
    eapply (read_part _ _ _ _ _ _ _ _ (512 - addr mod 512)); rewrite ?He0 ?start_off_0; try dlia; [done| |].
    { intros s' o Hs Hf. split_and!; [done..|]. eexists. split; [|done]. dlia. }
    intros s1 o1 Hs1 Hbuf1. pose proof (same_length _ _ Hs1) as Hlen1.
    eapply (read_part _ _ _ _ _ _ _ _ (addr mod 512 + len - 512)); rewrite ?He1 ?start_off_1; try dlia; [done| |].
    { intros s' o Hs Hf. split_and!; [by eapply same_driver_trans|done|].
      eexists. split; [|done]. dlia. }
    intros s2 o2 Hs2 Hbuf2. apply wp_ret. split_and!; [by eapply same_driver_trans| |done].
    intros _ j Hj.
    rewrite Hbuf2 (same_hba _ _ Hs1) lookup_store; [dlia|lia|..].
    { rewrite length_slice ?sector_length; dlia. }
    rewrite length_slice ?sector_length; [dlia..|]. case_decide.
    + rewrite slice_sector; [dlia..|]. f_equal. dlia.
    + rewrite Hbuf1 lookup_store; [lia|lia|..].
      { rewrite length_slice ?sector_length; dlia. }
      rewrite decide_True; [rewrite length_slice ?sector_length; dlia|].
      rewrite slice_sector; [dlia..|]. f_equal. dlia.
Qed.

(** The part of a write that lies in one sector. *)
Lemma write_part s p addr len src i todo (Q : Z → ahci D → list event → Prop) chunk :
  0 ≤ p < MAX_PORTS → addressable addr len → 0 ≤ i → addr / 512 + i < 281474976710656 →
  chunk = end_off addr len i - start_off addr i → 0 < chunk ≤ Z.of_nat (length src) →
  0 ≤ start_off addr i → start_off addr i + chunk ≤ 512 → chunk < 512 → Forall byte src →
  (∀ r s' o, same_table s s' → r ≠ 0 → faulty p (addr / 512 + i) → Q r s' o) →
  (∀ s' o, same_table s s' →
    written (hba s) p (512 * (addr / 512 + i) + start_off addr i) (take (Z.to_nat chunk) src) (hba s') →
    wp (write_loop p addr len (drop (Z.to_nat chunk) src) todo) s' (λ r s2 o', Q r s2 (o ++ o'))) →
  wp (write_loop p addr len src (i :: todo)) s Q.
Proof.
  intros Hp (Ha&Hl&Hb) Hi Hi2 Hchunk Hpos Hso Hend Hlt Hby Hfail Hok. simpl.
  assert (u64 (start_sector addr + i) = addr / 512 + i) as Hlba.
  { rewrite /start_sector /SECTOR_SIZE u64_small //. dlia. }
  rewrite Hlba -Hchunk.
  assert (negb (start_off addr i =? 0) || negb (end_off addr len i =? SECTOR_SIZE) = true) as ->.
  { rewrite /SECTOR_SIZE. do 2 zcase; simpl; (done || lia). }
  apply wp_bind. apply port_read_wp; [done|dlia|done|].
  intros r b d o Hd Hlen Hr Hf. assert (same_table s (set_hba d s)) as Hs by by split.
  destruct (Z.eqb_spec r 0) as [->|]; simpl; [|by apply wp_ret, Hfail; auto].
  rewrite (u32_small chunk); [lia|]. rewrite (proj2 (Z.ltb_ge _ _)); [lia|].
  rewrite Hr //. apply wp_bind. apply port_write_wp; [done|dlia|by rewrite length_store sector_length| |].
  { apply bytes_store; [by apply Forall_take|apply sector_bytes]. }
  intros r d2 o2 Hother Hsec Hf2. assert (same_table s (set_hba d2 (set_hba d s))) as Hs2 by by split.
  destruct (Z.eqb_spec r 0) as [->|]; simpl; [|by apply wp_ret, Hfail; auto].
  eapply wp_mono; [apply (Hok _ (o ++ o2))|].
  - done.
  - apply written_sector; [dlia|done| | |].
    + rewrite length_take. lia.
    + intros p' l' Hne. rewrite Hother //.
    + simpl. rewrite Hsec //.
  - intros r s2 o3. by rewrite app_assoc.
Qed.

Lemma write_loop_spec s p addr len src :
  0 ≤ p < MAX_PORTS → addressable addr len → len ≤ Z.of_nat (length src) → Forall byte src →
  wp (write_loop p addr len src (seqZ 0 (sectors_of addr len))) s (λ r s' _,
    same_table s s' ∧ (r = 0 → written (hba s) p addr (take (Z.to_nat len) src) (hba s')) ∧
    (r ≠ 0 → range_faulty p addr len)).
Proof.
  intros Hp Ha Hsrc Hby. pose proof Ha as (Ha0&Hl&Hr).
  destruct (geometry addr len Ha) as [(Hin&->&He)|(Hin&->&He0&He1)].
  - change (seqZ 0 1) with [0].
    eapply (write_part _ _ _ _ _ _ _ _ len); rewrite ?He ?start_off_0; try dlia; [done|done| |].
    { intros r s' o Hs Hne Hf. split_and!; [done..|]. intros _. eexists. split; [|done]. dlia. }
    intros s' o Hs Hw. apply wp_ret. split_and!; [done| |done]. intros _.
    by replace addr with (512 * (addr / 512 + 0) + addr mod 512) at 1 by dlia.
  - change (seqZ 0 2) with [0; 1].
    eapply (write_part _ _ _ _ _ _ _ _ (512 - addr mod 512)); rewrite ?He0 ?start_off_0; try dlia; [done|done| |].
    { intros r s' o Hs Hne Hf. split_and!; [done..|]. intros _. eexists. split; [|done]. dlia. }
    intros s1 o1 Hs1 Hw1.
    eapply (write_part _ _ _ _ _ _ _ _ (addr mod 512 + len - 512)); rewrite ?He1 ?start_off_1 ?length_drop; try dlia; [done|by apply Forall_drop| |].
    { intros r s' o Hs Hne Hf. split_and!; [by eapply same_table_trans|done|].
      intros _. eexists. split; [|done]. dlia. }
    intros s2 o2 Hs2 Hw2. apply wp_ret. split_and!; [by eapply same_table_trans| |done]. intros _.
    replace (take (Z.to_nat len) src) with (take (Z.to_nat (512 - addr mod 512)) src ++
      take (Z.to_nat (addr mod 512 + len - 512)) (drop (Z.to_nat (512 - addr mod 512)) src)).
    + eapply written_app.
      * by replace addr with (512 * (addr / 512 + 0) + addr mod 512) at 1 by dlia.
      * rewrite length_take.
        by replace (addr + Z.of_nat (Z.to_nat (512 - addr mod 512) `min` length src))
          with (512 * (addr / 512 + 1) + 0) by dlia.
    + rewrite take_take_drop. f_equal. dlia.
Qed.

(** The driver can serve the drive: it is initialised, the drive is in the
    table at one of the ports, and the transfer buffer has its 256 bytes. *)
Definition ready (s : ahci D) (n port size : Z) : Prop :=
  ahci_initialized s = true ∧ 0 ≤ n ∧ drives s !! Z.to_nat n = Some (port, size) ∧
  0 ≤ port < MAX_PORTS ∧ length (byte_buffer s) = 256%nat.

Lemma ready_same_driver s s' n port size :
  same_driver s s' → ready s n port size → ready s' n port size.
Proof. intros [Hd Hi _ Hl]. rewrite /ready Hd Hi Hl //. Qed.
Lemma ready_same_table s s' n port size :
  same_table s s' → ready s n port size → ready s' n port size.
Proof. intros [Hd Hi Hl]. rewrite /ready Hd Hi Hl //. Qed.

Lemma ready_range s n port size : ready s n port size → (n <? 0) || (drive_count s <=? n) = false.
Proof.
  intros (_&Hn&Hd%lookup_lt_Some&_). rewrite /drive_count.
  destruct (Z.ltb_spec n 0), (Z.leb_spec (Z.of_nat (length (drives s))) n); simpl; lia || done.
Qed.

Lemma addressable_length addr len : addressable addr len → (len <=? 0) || (256 <? len) = false.
Proof. intros (_&Hl&_). destruct (Z.leb_spec len 0), (Z.ltb_spec 256 len); simpl; lia || done. Qed.

Lemma addressable_sectors addr len : addressable addr len → (2 <? sectors_of addr len) = false.
Proof. intros Ha. destruct (geometry _ _ Ha) as [(_&->&_)|(_&->&_)]; done. Qed.

Lemma ahci_read_wp s n port size addr len :
  ready s n port size → addressable addr len →
  wp (ahci_read n addr len) s (λ r s' _,
    same_driver s s' ∧ (r = true → ∀ j, 0 ≤ j < len →
      byte_buffer s' !! Z.to_nat j = disk_byte (hba s) port (addr + j)) ∧
    (r = false → range_faulty port addr len)).
Proof.
  intros Hr Ha. rewrite /ahci_read. wp_steps. pose proof Hr as (->&_&->&Hp&Hb).
  rewrite (ready_range _ _ _ _ Hr) (addressable_length _ _ Ha) (addressable_sectors _ _ Ha) /=.
  wp_steps. by apply read_loop_spec.
Qed.

Lemma ahci_write_wp s n port size addr len src :
  ready s n port size → addressable addr len → len ≤ Z.of_nat (length src) → Forall byte src →
  wp (ahci_write n addr len (Some src)) s (λ r s' _,
    same_table s s' ∧ (r = 0 → written (hba s) port addr (take (Z.to_nat len) src) (hba s')) ∧
    (r ≠ 0 → range_faulty port addr len)).
Proof.
  intros Hr Ha Hs Hby. rewrite /ahci_write. wp_steps. pose proof Hr as (->&_&->&Hp&Hb).
  rewrite (ready_range _ _ _ _ Hr) (addressable_length _ _ Ha) (addressable_sectors _ _ Ha) /=.
  wp_steps. by apply write_loop_spec.
Qed.

Lemma ahci_read_reject s n addr len :
  ¬ (ahci_initialized s = true ∧ 0 ≤ n < drive_count s ∧ 0 < len ≤ 256) →
  ahci_read n addr len s = Ok (false, s, []).
Proof.
  intros Hn. rewrite /ahci_read (bind_ok _ _ s s s) //. destruct (ahci_initialized s); [|done].
  destruct (Z.ltb_spec n 0), (Z.leb_spec (drive_count s) n), (Z.leb_spec len 0),
    (Z.ltb_spec 256 len); simpl; try done. lia.
Qed.

Lemma ahci_write_reject s n addr len src :
  ¬ (ahci_initialized s = true ∧ 0 ≤ n < drive_count s ∧ 0 < len ≤ 256) →
  ahci_write n addr len src s = Ok (-1, s, []).
Proof.
  intros Hn. rewrite /ahci_write (bind_ok _ _ s s s) //. destruct (ahci_initialized s); [|done].
  destruct (Z.ltb_spec n 0), (Z.leb_spec (drive_count s) n), (Z.leb_spec len 0),
    (Z.ltb_spec 256 len); simpl; try done. lia.
Qed.

Lemma write_read_ok s n port size addr len src :
  ready s n port size → addressable addr len → Z.of_nat (length src) = len → Forall byte src →
  ¬ range_faulty port addr len →
  wp (ahci_write n addr len (Some src)) s (λ w s1 _, w = 0 ∧
    (∀ p a, 0 ≤ a → ¬ (p = port ∧ addr ≤ a < addr + len) →
      disk_byte (hba s1) p a = disk_byte (hba s) p a) ∧
    wp (ahci_read n addr len) s1 (λ r s2 _,
      r = true ∧ drives s2 = drives s ∧ slice 0 len (byte_buffer s2) = src)).
Proof.
  intros Hr Ha Hsrc Hby Hok. eapply wp_mono; [by eapply ahci_write_wp; rewrite ?Hsrc|].
  intros w s1 o (Hs1&Hw&Hf). destruct (decide (w = 0)) as [->|]; [|by destruct Hok; auto].
  specialize (Hw eq_refl). rewrite -Hsrc Nat2Z.id firstn_all in Hw. pose proof Ha as (?&?&?).
  split_and!; [done| |].
  { intros p a Ha0 Hne. rewrite Hw // decide_False // Hsrc //. }
  eapply wp_mono; [eapply ahci_read_wp; [by eapply ready_same_table|done]|].
  intros r s2 o2 (Hs2&Hread&Hf2). destruct r; [|by destruct Hok; auto].
  split_and!; [done|by rewrite (same_drives _ _ Hs2) (table_drives _ _ Hs1)|]. apply list_eq. intros j.
  pose proof Hr as (_&_&_&_&Hb). pose proof (same_length _ _ Hs2) as Hb2.
  rewrite (table_buffer _ _ Hs1) Hb in Hb2.
  destruct (decide (Z.of_nat j < len)) as [Hj|Hj].
  - rewrite -(Nat2Z.id j) lookup_slice; [lia|lia|]. rewrite Hread; [done|lia|].
    rewrite Hw; [lia|]. rewrite decide_True; [split; [done|lia]|]. f_equal. lia.
  - rewrite !lookup_ge_None_2 //; rewrite ?length_take ?length_drop; lia.
Qed.


End theory.

(** * The drive table *)

Section table.
Context {D : Type} `{!Hba D, !HbaLaws D}.
Implicit Types (l : list (Z * Z)) (s : ahci D).

Lemma find_port_Some port l i :
  find_port port l = Some i → ∃ l1 sz l2, l = l1 ++ (port, sz) :: l2 ∧ i = length l1.
Proof.
  revert i. induction l as [|[p sz] l IH]; intros i; simpl; [done|].
  destruct (Z.eqb_spec p port) as [->|Hne]; [intros [= <-]; by exists [], sz, l|].
  intros (j&Hj&->)%fmap_Some. destruct (IH j Hj) as (l1&sz'&l2&->&->).
  by exists ((p, sz) :: l1), sz', l2.
Qed.

Lemma find_port_None port l : find_port port l = None ↔ port ∉ l.*1.
Proof.
  induction l as [|[p sz] l IH]; simpl; [by rewrite elem_of_nil; naive_solver|].
  rewrite elem_of_cons. destruct (Z.eqb_spec p port) as [->|Hne]; [naive_solver|].
  rewrite fmap_None IH. naive_solver.
Qed.

(** Removal drops the entry of the port and keeps every other. *)
Lemma swap_remove l1 (x : Z * Z) l2 e :
  last (l1 ++ x :: l2) = Some e →
  x :: take (pred (length (l1 ++ x :: l2))) (<[length l1 := e]> (l1 ++ x :: l2)) ≡ₚ l1 ++ x :: l2.
Proof.
  intros He. rewrite -{1}(Nat.add_0_r (length l1)) insert_app_r /= length_app /=.
  replace (pred (length l1 + S (length l2))) with (length l1 + length l2)%nat by lia.
  rewrite take_app_add. destruct (decide (l2 = [])) as [->|Hl2].
  - by rewrite app_nil_r Permutation_app_comm.
  - destruct (exists_last Hl2) as (l3&y&->).
    assert (y = e) as ->.
    { rewrite app_comm_cons app_assoc last_snoc in He. by injection He. }
    rewrite length_app Nat.add_comm /= take_app_length //.
    etrans; [|apply Permutation_middle]. apply perm_skip, Permutation_app_head, Permutation_cons_append.
Qed.

(** The table of a reachable state: each port once, all of them real. *)
Definition table_ok (s : ahci D) : Prop :=
  NoDup (drives s).*1 ∧ Forall (λ p, 0 ≤ p < MAX_PORTS) (drives s).*1.

Lemma table_bound s : table_ok s → drive_count s ≤ MAX_DRIVES.
Proof.
  intros [Hnd Hr]. rewrite /drive_count -(length_fmap fst).
  assert ((drives s).*1 ⊆+ seqZ 0 MAX_PORTS) as Hs%submseteq_length.
  { apply NoDup_submseteq; [done|]. intros p Hp. rewrite Forall_forall in Hr.
    apply elem_of_seqZ. specialize (Hr p Hp). unfold MAX_PORTS in *. lia. }
  rewrite length_seqZ in Hs. unfold MAX_DRIVES, MAX_PORTS in *. lia.
Qed.

Lemma table_add s port size :
  table_ok s → 0 ≤ port < MAX_PORTS → port ∉ (drives s).*1 →
  table_ok (set_drives (drives s ++ [(port, size)]) s).
Proof.
  intros [Hnd Hr] Hp Hin. rewrite /table_ok /= fmap_app /=. split.
  - apply NoDup_app. split_and!; [done|set_solver|apply NoDup_singleton].
  - apply Forall_app. split; [done|by constructor].
Qed.

Lemma table_full_add s port :
  table_ok s → 0 ≤ port < MAX_PORTS → port ∉ (drives s).*1 → drive_count s < MAX_DRIVES.
Proof.
  intros Hok Hp Hin. pose proof (table_bound _ (table_add s port 0 Hok Hp Hin)) as Hb.
  rewrite /drive_count /= length_app /= in Hb. rewrite /drive_count. lia.
Qed.

Lemma remove_drive_spec s port :
  table_ok s → port ∈ (drives s).*1 →
  ∃ l sz, remove_drive_from_table port s = Ok (tt, set_drives l s, []) ∧
    (port, sz) :: l ≡ₚ drives s ∧ table_ok (set_drives l s).
Proof.
  intros [Hnd Hr] Hin. rewrite /remove_drive_from_table (bind_ok _ _ s s s) //.
  destruct (find_port port (drives s)) as [i|] eqn:Hf; [|by apply find_port_None in Hf].
  apply find_port_Some in Hf as (l1&sz&l2&Hl&->).
  destruct (last (drives s)) as [e|] eqn:He; [|rewrite Hl in He; apply last_None in He; by destruct l1].
  eexists _, sz. split; [done|].
  assert (Hperm := swap_remove l1 (port, sz) l2 e). rewrite -Hl in Hperm. specialize (Hperm He).
  split; [done|]. rewrite -Hperm in Hnd. rewrite -Hperm in Hr. simpl in *.
  apply NoDup_cons in Hnd as [_ ?]. apply Forall_cons in Hr as [_ ?]. by split.
Qed.

(** [port_scan_update] leaves every other port's entry alone. *)
Lemma port_scan_wp s port :
  table_ok s → 0 ≤ port < MAX_PORTS →
  wp (port_scan_update port) s (λ _ s' o, o = [] ∧ table_ok s' ∧
    ahci_initialized s' = ahci_initialized s ∧ byte_buffer s' = byte_buffer s ∧
    ∀ e, e.1 ≠ port → e ∈ drives s' ↔ e ∈ drives s).
Proof.
  intros Hok Hp. rewrite /port_scan_update. wp_steps. rewrite /on_hba. wp_steps.
  eapply wp_mono; [apply hba_present_total|]. intros pr d o ->.
  destruct (find_port port (drives s)) as [i|] eqn:Hf; destruct pr; simpl; rewrite /on_hba; wp_steps; try done.
  - eapply wp_mono; [by apply hba_stop_total|]. intros [] d0 o0 ->.
    destruct (remove_drive_spec (set_hba d0 (set_hba d s)) port) as (l&sz&Hrun&Hperm&Hok').
    + done.
    + apply find_port_Some in Hf as (l1&sz&l2&Hl&_). rewrite /= Hl fmap_app. set_solver.
    + rewrite /wp Hrun.
      split_and!; [done..|]. intros e He. simpl in *. rewrite -Hperm elem_of_cons.
      split; [by right|]. by intros [-> | ?].
  - apply find_port_None in Hf. eapply wp_mono; [by apply hba_init_total|]. intros [] d0 o0 ->.
    rewrite /identify_device. wp_steps.
    eapply wp_mono; [apply hba_run_total|].
    intros [r buf] d2 o2 ->. destruct (Z.eqb_spec r 0) as [->|]; simpl; wp_steps; rewrite /=; [|by wp_steps].
    pose proof (table_full_add s port Hok Hp Hf) as Hfull.
    rewrite /add_drive_to_table. wp_steps. zcase; [unfold drive_count, MAX_DRIVES, MAX_PORTS in *; simpl in *; lia|].
    wp_steps. split; [done|]. split; [by apply (table_add (set_hba _ _))|]. split_and!; [done..|].
    intros e He. simpl. rewrite elem_of_app list_elem_of_singleton.
    split; [|by left]. intros [?| ->]; done.
Qed.

Lemma scan_ports_wp s pi ports :
  table_ok s → Forall (λ p, 0 ≤ p < MAX_PORTS) ports →
  wp (scan_ports pi ports) s (λ _ s' _, table_ok s' ∧
    ahci_initialized s' = ahci_initialized s ∧ byte_buffer s' = byte_buffer s ∧
    ∀ e, (e.1 ∈ ports → Z.testbit pi e.1 = false) → e ∈ drives s' ↔ e ∈ drives s).
Proof.
  intros Hok Hps. revert s Hok. induction Hps as [|p ports Hp _ IH]; intros s Hok; simpl; wp_steps; [done|].
  destruct (Z.testbit pi p) eqn:Hpi; wp_steps.
  - eapply wp_mono; [by apply port_scan_wp|]. intros [] s1 o (_&Hok1&Hi1&Hb1&He1). wp_steps.
    eapply wp_mono; [by apply IH|]. intros [] s2 o2 (Hok2&Hi2&Hb2&He2).
    split_and!; [done|congruence|congruence|]. intros e He. rewrite He2; [intros ?; apply He; by right|].
    apply He1. intros <-. rewrite He in Hpi; [by left|done].
  - eapply wp_mono; [by apply IH|]. intros [] s2 o2 (Hok2&Hi2&Hb2&He2).
    split_and!; [done..|]. intros e He. apply He2. intros ?. apply He. by right.
Qed.

(** C36: A rescan keeps the drive table well-formed whatever is plugged in
    or out: each port at most once, so that the 32 entries always suffice
    and [add_drive_to_table] never refuses, and no drive of a port the
    adapter does not implement is touched. *)
Theorem ahci_table_update_spec s pi :
  table_ok s →
  wp (ahci_table_update pi) s (λ _ s' _, table_ok s' ∧ drive_count s' ≤ MAX_DRIVES ∧
    ∀ e, Z.testbit pi e.1 = false → e ∈ drives s' ↔ e ∈ drives s).
Proof.
  intros Hok. rewrite /ahci_table_update. wp_steps.
  destruct (ahci_initialized s); cbn [negb]; wp_steps; [|by auto using table_bound].
  eapply wp_mono; [apply (scan_ports_wp s pi); [done|]|].
  - apply Forall_forall. intros p Hp%elem_of_seqZ. unfold MAX_PORTS in *. lia.
  - intros [] s' o (Hok'&_&_&He). split_and!; [done|by apply table_bound|auto].
Qed.
End table.

(** * A concrete adapter

    It decodes the layout the driver writes, and keeps the sectors written
    so far; one drive is attached, to port 0. *)
Section demo.
Definition medium : Type := gmap (Z * Z) (list Z).

Definition fis_lba (c : command) : Z := le_value (slice 4 6 (cfis c)).

#[global] Instance demo_hba : Hba medium := {|
  hba_run port c buf := λ d,
    if bool_decide (cfis c !! 2%nat = Some ATA_CMD_WRITE_DMA_EXT)
    then Ok ((0, buf), <[(port, fis_lba c) := buf]> d, [])
    else Ok ((0, take 512 (u8 <$> (default [] (d !! (port, fis_lba c)) ++ zeros 512))), d, []);
  hba_present port := mret (port =? 0);
  hba_init port := mret tt;
  hba_stop port := mret tt;
  sector d port lba := take 512 (u8 <$> (default [] (d !! (port, lba)) ++ zeros 512));
  faulty port lba := False
|}.

Lemma fis_lba_build cmd lba w :
  0 ≤ lba < 281474976710656 → fis_lba (build_command cmd lba 1 w) = lba.
Proof.
  intros Hl. trans (le_value (le_bytes 6 lba)).
  - rewrite /fis_lba /build_command /register_fis /slice /=.
    rewrite !Z.shiftr_shiftr //= !(Z.land_ones _ 8) // /u8.
    change (2 ^ 8) with 256. by rewrite !Z.mod_mod.
  - rewrite le_value_bytes Z.mod_small //.
Qed.

Lemma u8_bytes l : Forall byte l → u8 <$> l = l.
Proof. induction 1 as [|x l Hx _ IH]; [done|]. rewrite fmap_cons u8_small // IH //. Qed.

#[global] Instance demo_hba_laws : HbaLaws medium.
Proof.
  split; [| | | |by intros; rewrite /wp /=; case_bool_decide|done|done|done].
  - intros d p l. rewrite /= length_take length_fmap length_app length_replicate. lia.
  - intros d p l. apply Forall_take, Forall_fmap, Forall_true. intros z. apply byte_u8.
  - intros d p lba buf _ Hl Hb. rewrite /wp /= (fis_lba_build _ _ 0) //.
    split_and!; [done| |done|done]. rewrite length_take length_fmap length_app length_replicate. lia.
  - intros d p lba buf _ Hl Hb Hby. rewrite /wp /= (fis_lba_build _ _ 1) //. split_and!; [| |done].
    + intros p' l' Hne. rewrite /= lookup_insert_ne //.
    + intros _. rewrite /= lookup_insert_eq /= fmap_app u8_bytes //.
      rewrite take_app_le; [lia|]. rewrite take_ge //. lia.
Qed.

(** One drive of 1 GiB. *)
Definition demo : ahci medium := Ahci [(0, 1073741824)] true (zeros 256) ∅.

Lemma demo_ready : ready demo 0 0 1073741824.
Proof. by repeat split. Qed.


Example demo_transfer :
  match (ahci_write 0 510 4 (Some [1; 2; 3; 4]) ≫= λ w, r ← ahci_read 0 509 6; mret (w, r)) demo with
  | Ok (r, s, _) => r = (0, true) ∧ slice 0 6 (byte_buffer s) = [0; 1; 2; 3; 4; 0]
  | _ => False
  end.
Proof. by vm_compute. Qed.

Lemma ahci_table_update_spec_witness :
  wp (ahci_table_update 3) demo (λ _ s' _, table_ok s' ∧ drive_count s' ≤ MAX_DRIVES ∧
    ∀ e, Z.testbit 3 e.1 = false → e ∈ drives s' ↔ e ∈ drives demo).
Proof.
  apply (ahci_table_update_spec demo 3). split; [apply NoDup_singleton|repeat constructor; done].
Defined.
End demo.

(** * Hardware encodings *)

(** The register FIS as Serial ATA 3.x lays it out: LBA in bytes 4-6 and
    8-10, device in byte 7, count in bytes 12-13 (0 meaning 65536); and the
    byte count of a region descriptor as AHCI 1.3 has it, bits 21:0 of the
    fourth word, plus one. *)
Definition sata_lba (c : command) : Z :=
  le_value (slice 4 3 (cfis c)) + 16777216 * le_value (slice 8 3 (cfis c)).
Definition sata_count (c : command) : Z := le_value (slice 12 2 (cfis c)).
Definition ahci_byte_count (c : command) : Z := prd_word3 c mod 4194304 + 1.

(** C37: Read by the layout of the specifications, every command the driver
    builds for one sector below 2^32 asks for a sector at or above 2^40,
    for a count of 0 (65536 sectors), and into a region of one byte. *)
Theorem exec_ata_cmd_misencoded cmd lba w :
  0 ≤ lba < 4294967296 →
  let c := build_command cmd lba 1 w in
  sata_lba c = 1099511627776 + lba mod 16777216 ∧ sata_count c = 0 ∧ ahci_byte_count c = 1.
Proof.
  intros Hl c. split_and!; [|done..].
  rewrite /sata_lba /c /=. rewrite (Z.shiftr_div_pow2 _ 32) // (Z.shiftr_div_pow2 _ 40) //.
  rewrite (Z.div_small lba (2 ^ 32)) // (Z.div_small lba (2 ^ 40)); [lia|].
  rewrite /= !Z.shiftr_div_pow2 // /u8. change (Z.land 0 255 mod 256) with 0.
  change (2 ^ 8) with 256. change (2 ^ 16) with 65536. dlia.
Qed.

Lemma exec_ata_cmd_misencoded_witness :
  let c := build_command ATA_CMD_READ_DMA_EXT 5 1 0 in
  sata_lba c = 1099511627776 + 5 mod 16777216 ∧ sata_count c = 0 ∧ ahci_byte_count c = 1.
Proof. apply (exec_ata_cmd_misencoded ATA_CMD_READ_DMA_EXT 5 0). lia. Defined.

End Drive.
