(* ===== verification/Ahci.v ===== *)
(** drivers/src/drive.c at the level of registers: the search for the
    controller on the PCI bus, its reset, and the start and stop of a port.

    The processor's 32-bit port instructions and the registers mapped into
    memory are the interface [Bus]; hardware is behind it. [Drive] is the
    same driver above the commands these functions prepare, and [Registers]
    puts the two together. A loop that waits for the hardware takes fuel for its polls. *)
From S2P Require Import Prelude.
#[local] Open Scope general_if_scope.

Module Ahci.

Class Bus (R : Type) := {
  outl : Z → Z → M R unit;
  inl : Z → M R Z;
  mmio_read32 : Z → M R Z;
  mmio_write32 : Z → Z → M R unit
}.

Definition PCI_CONFIG_ADDRESS : Z := 3320.
Definition PCI_CONFIG_DATA : Z := 3324.
Definition HBA_GHC : Z := 4.
Definition HBA_PI : Z := 12.
Definition PxCLB : Z := 0.
Definition PxCLBU : Z := 4.
Definition PxFB : Z := 8.
Definition PxFBU : Z := 12.
Definition PxIS : Z := 16.
Definition PxIE : Z := 20.
Definition PxCMD : Z := 24.
Definition PxSSTS : Z := 40.
Definition PxCI : Z := 48.
Definition AHCI_ENABLE : Z := 2147483648.
Definition HBA_RESET : Z := 1.
Definition PxCMD_ST : Z := 1.
Definition PxCMD_FRE : Z := 16.
Definition PxCMD_CR : Z := 32768.
Definition PxCMD_FR : Z := 16384.
Definition SSTS_DET_MASK : Z := 15.
Definition DET_PRESENT : Z := 3.
Definition MAX_PORTS : Z := 32.

(** [~ m] on 32 bits. *)
Definition lnot32 (m : Z) : Z := 4294967295 - m.

Section ops.
Context {R : Type} `{!Bus R}.

Definition config_address (bus slot func offset : Z) : Z :=
  Z.lor (Z.lor (Z.lor (Z.lor 2147483648 (Z.shiftl bus 16)) (Z.shiftl slot 11)) (Z.shiftl func 8)) (Z.land offset 252).
Definition pci_read_config_dword (bus slot func offset : Z) : M R Z :=
  outl PCI_CONFIG_ADDRESS (config_address bus slot func offset);; inl PCI_CONFIG_DATA.
Definition pci_write_config_dword (bus slot func offset value : Z) : M R unit :=
  outl PCI_CONFIG_ADDRESS (config_address bus slot func offset);; outl PCI_CONFIG_DATA value.

(** * Ports *)

Definition port_base (ahci_hba_base port : Z) : Z := u32 (ahci_hba_base + 256 + port * 128).

(** [while (register & mask != want) wait]. *)
Fixpoint wait_register (fuel : nat) (addr mask : Z) (done : Z → bool) : M R unit :=
  match fuel with
  | O => nofuel
  | S fuel =>
      v ← mmio_read32 addr;
      if done (Z.land v mask) then mret tt else wait_register fuel addr mask done
  end.

Definition port_stop (fuel : nat) (ahci_hba_base port : Z) : M R unit :=
  let base := port_base ahci_hba_base port in
  cmd ← mmio_read32 (u32 (base + PxCMD));
  mmio_write32 (u32 (base + PxCMD)) (Z.land cmd (lnot32 (Z.lor PxCMD_ST PxCMD_FRE)));;
  wait_register fuel (u32 (base + PxCMD)) (Z.lor PxCMD_FR PxCMD_CR) (λ v, v =? 0).

Definition port_start (fuel : nat) (ahci_hba_base port : Z) : M R unit :=
  let base := port_base ahci_hba_base port in
  cmd ← mmio_read32 (u32 (base + PxCMD));
  let cmd := Z.lor cmd PxCMD_FRE in
  mmio_write32 (u32 (base + PxCMD)) cmd;;
  wait_register fuel (u32 (base + PxCMD)) PxCMD_FR (λ v, negb (v =? 0));;
  let cmd := Z.lor cmd PxCMD_ST in
  mmio_write32 (u32 (base + PxCMD)) cmd;;
  wait_register fuel (u32 (base + PxCMD)) PxCMD_ST (λ v, negb (v =? 0)).

(** The areas for the command list and for received frames are static
    arrays, a page for each port, at the addresses [cmd_list_area] and
    [fis_area]; clearing them is not a register access. *)
Definition port_init (fuel : nat) (cmd_list_area fis_area ahci_hba_base port : Z) : M R unit :=
  let base := port_base ahci_hba_base port in
  port_stop fuel ahci_hba_base port;;
  mmio_write32 (u32 (base + PxCLB)) (u32 (cmd_list_area + port * 4096));;
  mmio_write32 (u32 (base + PxCLBU)) 0;;
  mmio_write32 (u32 (base + PxFB)) (u32 (fis_area + port * 4096));;
  mmio_write32 (u32 (base + PxFBU)) 0;;
  mmio_write32 (u32 (base + PxIS)) 4294967295;;
  mmio_write32 (u32 (base + PxIE)) 0;;
  port_start fuel ahci_hba_base port.

(** [timeout_us] polls of the command issue register. *)
Fixpoint wait_cmd_complete (timeout_us : nat) (ahci_hba_base port : Z) : M R Z :=
  match timeout_us with
  | O => mret (-1)
  | S timeout_us =>
      let base := port_base ahci_hba_base port in
      ci ← mmio_read32 (u32 (base + PxCI));
      if Z.land ci 1 =? 0 then
        px_is ← mmio_read32 (u32 (base + PxIS));
        mret (if Z.land px_is 1073741824 =? 0 then 0 else -1)
      else wait_cmd_complete timeout_us ahci_hba_base port
  end.

Definition port_device_present (ahci_hba_base port : Z) : M R bool :=
  ssts ← mmio_read32 (u32 (port_base ahci_hba_base port + PxSSTS));
  mret (Z.land ssts SSTS_DET_MASK =? DET_PRESENT).

(** * The controller *)

(** Class 1, subclass 6, programming interface 1. *)
Definition is_ahci (class_rev : Z) : bool :=
  (Z.land (Z.shiftr class_rev 24) 255 =? 1) && (Z.land (Z.shiftr class_rev 16) 255 =? 6) &&
  (Z.land (Z.shiftr class_rev 8) 255 =? 1).

(** Taking a controller into use: the base address it has. *)
Definition claim (bus dev : Z) : M R Z :=
  bar ← pci_read_config_dword bus dev 0 36;
  let bar := Z.land bar (18446744073709551615 - 15) in
  bar ← (if negb (Z.land bar 4 =? 0) then
           bar_high ← pci_read_config_dword bus dev 0 40;
           mret (Z.lor bar (u64 (Z.shiftl bar_high 32)))
         else mret bar);
  cmd ← pci_read_config_dword bus dev 0 4;
  pci_write_config_dword bus dev 0 4 (Z.lor cmd 6);;
  mret bar.

(** The loop over the devices of a bus, and the one over the buses, whose
    counter is a [u8]: it is below 256 always. *)
Fixpoint scan_devices (n : nat) (bus dev : Z) : M R (option Z) :=
  match n with
  | O => mret None
  | S n =>
      class_rev ← pci_read_config_dword bus dev 0 8;
      if is_ahci class_rev then Some <$> claim bus dev
      else scan_devices n bus (dev + 1)
  end.
Fixpoint scan_buses (fuel : nat) (bus : Z) : M R (option Z) :=
  match fuel with
  | O => nofuel
  | S fuel =>
      if bus <? 256 then
        found ← scan_devices 32 bus 0;
        match found with Some bar => mret (Some bar) | None => scan_buses fuel (u8 (bus + 1)) end
      else mret None
  end.

(** [port_scan_update] for the implemented ports. *)
Fixpoint scan_implemented (port_scan_update : Z → Z → M R unit) (hba ports_impl : Z) (ports : list Z) : M R unit :=
  match ports with
  | [] => mret tt
  | port :: ports =>
      (if Z.testbit ports_impl port then port_scan_update hba port else mret tt);;
      scan_implemented port_scan_update hba ports_impl ports
  end.

(** The base of the controller when the driver is initialised; [None] when
    it returns without. *)
Definition ahci_init (fuel : nat) (port_scan_update : Z → Z → M R unit) : M R (option Z) :=
  found ← scan_buses fuel 0;
  match found with
  | None => mret None
  | Some hba =>
      ghc ← mmio_read32 (u32 (hba + HBA_GHC));
      mmio_write32 (u32 (hba + HBA_GHC)) (Z.lor ghc HBA_RESET);;
      wait_register fuel (u32 (hba + HBA_GHC)) HBA_RESET (λ v, v =? 0);;
      mmio_write32 (u32 (hba + HBA_GHC)) AHCI_ENABLE;;
      ports_impl ← mmio_read32 (u32 (hba + HBA_PI));
      scan_implemented port_scan_update hba ports_impl (seqZ 0 MAX_PORTS);;
      mret (Some hba)
  end.
End ops.

(** * Without a controller *)

Section hang.
Context {R : Type} `{!Bus R}.

(** In the states [P] of the machine, which reading the configuration does
    not leave, no function 0 of any device says it is an AHCI controller. *)
Definition no_controller (P : R → Prop) : Prop := ∀ r (bus dev : Z), P r → 0 ≤ bus < 256 → 0 ≤ dev < 32 →
  ∃ class_rev r', pci_read_config_dword bus dev 0 8 r = Ok (class_rev, r', []) ∧ P r' ∧ is_ahci class_rev = false.

Lemma scan_devices_none P n bus dev (r : R) :
  no_controller P → P r → 0 ≤ bus < 256 → 0 ≤ dev → dev + Z.of_nat n ≤ 32 →
  ∃ r', scan_devices n bus dev r = Ok (None, r', []) ∧ P r'.
Proof.
  intros Hno HP Hb. revert dev r HP. induction n as [|n IH]; intros dev r HP Hd Hn; [by exists r|].
  cbn [scan_devices]. destruct (Hno r bus dev HP) as (c&r1&Hc&HP1&Hcls); [done|lia|].
  rewrite (bind_ok _ _ _ _ _ Hc) Hcls. apply IH; [done|lia..].
Qed.

(** C34: On a machine without an AHCI controller the kernel does not boot:
    the counter of the loop over the 256 buses is a byte, so it never
    reaches the end of the loop, and no number of steps is enough. *)
Theorem ahci_init_hangs P fuel scan (r : R) : no_controller P → P r → ahci_init fuel scan r = NoFuel.
Proof.
  intros Hno HP. rewrite /ahci_init.
  assert (Hscan : ∀ bus (r : R), P r → 0 ≤ bus < 256 → scan_buses fuel bus r = NoFuel).
  { clear r HP. induction fuel as [|fuel IH]; intros bus r HP Hb; [done|]. cbn [scan_buses].
    rewrite (proj2 (Z.ltb_lt bus 256)); [lia|].
    destruct (scan_devices_none P 32 bus 0 r Hno HP) as (r1&Hr&HP1); [lia..|]. rewrite (bind_ok _ _ _ _ _ Hr).
    apply IH; [done|apply u8_range]. }
  by rewrite /mbind /M_bind Hscan //.
Qed.
End hang.

(** * With a controller that answers *)

Section answers.
Context {R : Type} `{!Bus R}.

(** At most [n] reads of the register until one is what is awaited. *)
Inductive settles (addr mask : Z) (done : Z → bool) : nat → R → Prop :=
  | settles_now n r v r' :
      mmio_read32 addr r = Ok (v, r', []) → done (Z.land v mask) = true → settles addr mask done (S n) r
  | settles_later n r v r' :
      mmio_read32 addr r = Ok (v, r', []) → settles addr mask done n r' → settles addr mask done (S n) r.

(** The registers of the controller at [hba], in the states [good], which no
    access leaves: after the write that asks for it an engine stops, the
    frame area is in use, an engine runs, the reset is over, each within
    [n] polls; and what the configuration space holds. *)
Record controller (n : nat) (hba : Z) (config : Z → Z → Z → Z) (good : R → Prop) : Prop := {
  ct_read addr r : good r → ∃ v r', mmio_read32 addr r = Ok (v, r', []) ∧ good r';
  ct_write addr v r : good r → ∃ r', mmio_write32 addr v r = Ok (tt, r', []) ∧ good r';
  ct_stops port v r r' : let cmd := u32 (port_base hba port + PxCMD) in
    good r → 0 ≤ port < 32 → Z.land v (Z.lor PxCMD_ST PxCMD_FRE) = 0 → mmio_write32 cmd v r = Ok (tt, r', []) →
    settles cmd (Z.lor PxCMD_FR PxCMD_CR) (λ v, v =? 0) n r';
  ct_receives port v r r' : let cmd := u32 (port_base hba port + PxCMD) in
    good r → 0 ≤ port < 32 → Z.land v PxCMD_FRE ≠ 0 → mmio_write32 cmd v r = Ok (tt, r', []) →
    settles cmd PxCMD_FR (λ v, negb (v =? 0)) n r';
  ct_runs port v r r' : let cmd := u32 (port_base hba port + PxCMD) in
    good r → 0 ≤ port < 32 → Z.land v PxCMD_ST ≠ 0 → mmio_write32 cmd v r = Ok (tt, r', []) →
    settles cmd PxCMD_ST (λ v, negb (v =? 0)) n r';
  ct_resets v r r' : let ghc := u32 (hba + HBA_GHC) in
    good r → Z.land v HBA_RESET ≠ 0 → mmio_write32 ghc v r = Ok (tt, r', []) →
    settles ghc HBA_RESET (λ v, v =? 0) n r';
  ct_config bus dev offset r : good r → 0 ≤ bus < 256 → 0 ≤ dev < 32 →
    ∃ v r', pci_read_config_dword bus dev 0 offset r = Ok (v, r', []) ∧ good r' ∧
      (offset = 8 ∨ offset = 36 → v = config bus dev offset);
  ct_set_config bus dev offset v r : good r → ∃ r', pci_write_config_dword bus dev 0 offset v r = Ok (tt, r', []) ∧ good r'
}.

(** Runs that return and keep [good]. *)
Definition returns {X} (good : R → Prop) (m : M R X) (Q : X → Prop) : Prop :=
  ∀ r, good r → ∃ x r', m r = Ok (x, r', []) ∧ good r' ∧ Q x.
Lemma returns_bind {X Y} good (m : M R X) (f : X → M R Y) P Q :
  returns good m P → (∀ x, P x → returns good (f x) Q) → returns good (m ≫= f) Q.
Proof.
  intros Hm Hf r Hr. destruct (Hm r Hr) as (x&r1&Hx&Hr1&HP). destruct (Hf x HP r1 Hr1) as (y&r2&Hy&Hr2&HQ).
  exists y, r2. by rewrite (bind_ok _ _ _ _ _ Hx).
Qed.
Lemma returns_ret {X} good (x : X) (Q : X → Prop) : Q x → returns good (mret x) Q.
Proof. intros Hx r Hr. by exists x, r. Qed.

Lemma land_set x m : Z.land (Z.lor x m) m = m.
Proof. apply Z.bits_inj'. intros k _. rewrite Z.land_spec Z.lor_spec. by destruct (Z.testbit x k), (Z.testbit m k). Qed.

Section controller.
Context (n fuel : nat) (hba : Z) (config : Z → Z → Z → Z) (good : R → Prop) (Hc : controller n hba config good).
Hypothesis Hfuel : (n ≤ fuel)%nat.

Lemma wait_settles addr mask done k r : settles addr mask done k r → good r → ∀ fuel', (k ≤ fuel')%nat →
  ∃ r', wait_register fuel' addr mask done r = Ok (tt, r', []) ∧ good r'.
Proof.
  induction 1 as [k r v r' Hv Hd|k r v r' Hv _ IH]; intros Hr [|fuel'] Hk; try lia; cbn [wait_register];
    destruct (ct_read _ _ _ _ Hc addr r Hr) as (v0&r0&Hv0&Hr0); rewrite Hv in Hv0; injection Hv0 as <- <-;
    rewrite (bind_ok _ _ _ _ _ Hv).
  - rewrite Hd. by exists r'.
  - case_match; [by exists r'|]. apply IH; [done|lia].
Qed.
(** A write, and the wait for its effect. *)
Lemma write_wait addr v mask done : (∀ r r', good r → mmio_write32 addr v r = Ok (tt, r', []) → settles addr mask done n r') →
  returns good (mmio_write32 addr v;; wait_register fuel addr mask done) (λ _, True).
Proof.
  intros Hs r Hr. destruct (ct_write _ _ _ _ Hc addr v r Hr) as (r1&Hw&Hr1). rewrite (bind_ok _ _ _ _ _ Hw).
  destruct (wait_settles _ _ _ _ _ (Hs _ _ Hr Hw) Hr1 fuel Hfuel) as (r2&Hwait&Hr2). by exists tt, r2.
Qed.
Lemma write_wait_then {X} addr v mask done (f : M R X) Q :
  (∀ r r', good r → mmio_write32 addr v r = Ok (tt, r', []) → settles addr mask done n r') → returns good f Q →
  returns good (mmio_write32 addr v;; wait_register fuel addr mask done;; f) Q.
Proof.
  intros Hs Hf r Hr. destruct (write_wait addr v mask done Hs r Hr) as ([]&r1&H1&Hr1&_).
  destruct (Hf r1 Hr1) as (x&r2&H2&Hr2&HQ). exists x, r2. split; [|done].
  revert H1. intros ([]&s1&o1&o2&Hw&Hwait&Ho)%bind_inv. symmetry in Ho. apply app_nil in Ho as [-> ->].
  by rewrite (bind_ok _ _ _ _ _ Hw) (bind_ok _ _ _ _ _ Hwait).
Qed.
Lemma read_returns addr : returns good (mmio_read32 addr) (λ _, True).
Proof. intros r Hr. destruct (ct_read _ _ _ _ Hc addr r Hr) as (v&r'&?&?). by exists v, r'. Qed.
Lemma write_returns addr v : returns good (mmio_write32 addr v) (λ _, True).
Proof. intros r Hr. destruct (ct_write _ _ _ _ Hc addr v r Hr) as (r'&?&?). by exists tt, r'. Qed.

Lemma port_stop_returns port : 0 ≤ port < 32 → returns good (port_stop fuel hba port) (λ _, True).
Proof.
  intros Hp. eapply returns_bind; [apply read_returns|]. intros cmd _. apply write_wait. intros r r' Hr Hw.
  eapply (ct_stops _ _ _ _ Hc port _ r); [done|done| |done].
  rewrite -Z.land_assoc. change (Z.land (lnot32 (Z.lor PxCMD_ST PxCMD_FRE)) (Z.lor PxCMD_ST PxCMD_FRE)) with 0.
  apply Z.land_0_r.
Qed.
Lemma port_start_returns port : 0 ≤ port < 32 → returns good (port_start fuel hba port) (λ _, True).
Proof.
  intros Hp. eapply returns_bind; [apply read_returns|]. intros cmd _.
  assert (Hset : ∀ x m, 0 < m → Z.land (Z.lor x m) m ≠ 0) by (intros; rewrite land_set; lia).
  apply write_wait_then.
  { intros r r' Hr Hw. eapply (ct_receives _ _ _ _ Hc port _ r); [done|done|by apply Hset|done]. }
  apply write_wait. intros r r' Hr Hw. eapply (ct_runs _ _ _ _ Hc port _ r); [done|done|by apply Hset|done].
Qed.
Lemma port_init_returns cmd_list_area fis_area port : 0 ≤ port < 32 →
  returns good (port_init fuel cmd_list_area fis_area hba port) (λ _, True).
Proof.
  intros Hp. eapply returns_bind; [by apply port_stop_returns|]. intros _ _.
  do 6 (eapply returns_bind; [apply write_returns|]; intros _ _). by apply port_start_returns.
Qed.

(** ** The search *)

Lemma claim_returns bus dev : 0 ≤ bus < 256 → 0 ≤ dev < 32 →
  returns good (claim bus dev) (λ bar, bar = Z.land (config bus dev 36) (18446744073709551615 - 15)).
Proof.
  intros Hb Hd. rewrite /claim. eapply (returns_bind _ _ _ (λ bar, bar = config bus dev 36)).
  { intros r Hr. destruct (ct_config _ _ _ _ Hc bus dev 36 r Hr Hb Hd) as (v&r'&Hv&Hr'&Heq). exists v, r'. split_and!; [done..|]. apply Heq. by right. }
  intros bar ->. rewrite -Z.land_assoc (_ : Z.land (18446744073709551615 - 15) 4 = 0) // Z.land_0_r. cbn [Z.eqb negb].
  eapply (returns_bind _ _ _ (λ bar, bar = Z.land (config bus dev 36) (18446744073709551615 - 15))); [by apply returns_ret|]. intros bar ->.
  eapply (returns_bind _ _ _ (λ _, True)).
  { intros r Hr. destruct (ct_config _ _ _ _ Hc bus dev 4 r Hr Hb Hd) as (v&r'&Hv&Hr'&_). by exists v, r'. }
  intros cmd _. eapply (returns_bind _ _ _ (λ _, True)); [|by intros; apply returns_ret].
  intros r Hr. destruct (ct_set_config _ _ _ _ Hc bus dev 4 (Z.lor cmd 6) r Hr) as (r'&Hw&Hr'). by exists tt, r'.
Qed.

(** The devices [bus] has from [dev] on. *)
Definition first_at (bus dev : Z) (want : option Z) : Prop :=
  match want with
  | None => ∀ d, dev ≤ d < 32 → is_ahci (config bus d 8) = false
  | Some d => dev ≤ d < 32 ∧ is_ahci (config bus d 8) = true ∧ ∀ d', dev ≤ d' < d → is_ahci (config bus d' 8) = false
  end.
Lemma scan_devices_returns bus k dev want : 0 ≤ bus < 256 → 0 ≤ dev → dev + Z.of_nat k = 32 → first_at bus dev want →
  returns good (scan_devices k bus dev)
    (λ found, found = (λ d, Z.land (config bus d 36) (18446744073709551615 - 15)) <$> want).
Proof.
  intros Hb. revert dev. induction k as [|k IH]; intros dev Hd Hk Hw; cbn [scan_devices].
  { apply returns_ret. destruct want as [d|]; [destruct Hw; lia|done]. }
  eapply (returns_bind _ _ _ (λ v, v = config bus dev 8)).
  { intros r Hr. destruct (ct_config _ _ _ _ Hc bus dev 8 r Hr Hb) as (v&r'&Hv&Hr'&Heq); [lia|]. exists v, r'.
    split_and!; [done..|]. apply Heq. by left. }
  intros v ->. destruct (is_ahci (config bus dev 8)) eqn:His.
  - assert (want = Some dev) as ->.
    { destruct want as [d|]; [|rewrite (Hw dev) in His; [lia|done]]. destruct Hw as (Hr&_&Hno).
      destruct (decide (d = dev)) as [->|]; [done|]. rewrite (Hno dev) in His; [lia|done]. }
    intros r Hr. destruct (claim_returns bus dev Hb) with r as (bar&r'&Hr1&Hr'&->); [lia|done|].
    eexists _, r'. split; [|by split]. by rewrite /fmap /M_map (bind_ok _ _ _ _ _ Hr1).
  - apply IH; [lia..|]. destruct want as [d|].
    + destruct Hw as (Hr&Hd'&Hno). destruct (decide (d = dev)) as [->|]; [congruence|].
      split_and!; [lia|lia|done|]. intros d' Hd1. apply Hno. lia.
    + intros d Hd1. apply Hw. lia.
Qed.
Lemma scan_buses_returns bus dev k bus0 : 0 ≤ bus0 → bus0 + Z.of_nat k = bus → bus < 256 →
  (∀ b, bus0 ≤ b < bus → first_at b 0 None) → first_at bus 0 (Some dev) → ∀ fuel', (k < fuel')%nat →
  returns good (scan_buses fuel' bus0) (λ found, found = Some (Z.land (config bus dev 36) (18446744073709551615 - 15))).
Proof.
  revert bus0. induction k as [|k IH]; intros bus0 H0 Hk Hlt Hnone Hsome [|fuel'] Hf; try lia;
    cbn [scan_buses]; rewrite (proj2 (Z.ltb_lt bus0 256)); try lia.
  - rewrite (_ : bus0 = bus); [lia|]. eapply returns_bind; [apply (scan_devices_returns bus 32 0 (Some dev)); [lia..|done]|].
    intros found ->. by apply returns_ret.
  - eapply returns_bind; [apply (scan_devices_returns bus0 32 0 None); [lia..|apply Hnone; lia]|].
    intros found ->. rewrite u8_small; [lia|]. apply IH; [lia..| |done|lia]. intros b Hb. apply Hnone. lia.
Qed.

Lemma scan_implemented_returns scan ports_impl ports : (∀ port, port ∈ ports → returns good (scan hba port) (λ _, True)) →
  returns good (scan_implemented scan hba ports_impl ports) (λ _, True).
Proof.
  induction ports as [|port ports IH]; intros Hs; cbn [scan_implemented]; [by apply returns_ret|].
  eapply (returns_bind _ _ _ (λ _, True)).
  - case_match; [apply Hs; by left|by apply returns_ret].
  - intros _ _. apply IH. intros p Hp. apply Hs. by right.
Qed.
End controller.

(** The initialisation returns the base address of the first controller. *)
Lemma init_returns n fuel config good bus dev scan :
  let hba := Z.land (config bus dev 36) (18446744073709551615 - 15) in
  controller n hba config good → (n ≤ fuel)%nat → 0 ≤ bus < 256 → bus < Z.of_nat fuel →
  (∀ b, 0 ≤ b < bus → first_at config b 0 None) → first_at config bus 0 (Some dev) →
  (∀ port, 0 ≤ port < 32 → returns good (scan hba port) (λ _, True)) →
  returns good (ahci_init fuel scan) (λ x, x = Some hba).
Proof.
  intros hba Hc Hn Hb Hf Hnone Hsome Hscan. rewrite /ahci_init. eapply returns_bind.
  { apply (scan_buses_returns n fuel hba config good Hc Hn bus dev (Z.to_nat bus) 0); [lia..|done|done|lia]. }
  intros found ->. fold hba. eapply returns_bind; [by eapply read_returns|]. intros ghc _.
  apply (write_wait_then n fuel hba config good Hc Hn).
  { intros r0 r1 Hr0 Hw. eapply (ct_resets _ _ _ _ Hc _ r0); [done| |done]. by rewrite land_set. }
  eapply returns_bind; [by eapply write_returns|]. intros _ _. eapply returns_bind; [by eapply read_returns|].
  intros ports_impl _. eapply returns_bind; [|by intros; apply returns_ret].
  apply scan_implemented_returns. intros port Hp%elem_of_seqZ. apply Hscan. rewrite /MAX_PORTS in Hp. lia.
Qed.

(** With a controller that answers, the driver comes up. If the first
    AHCI function of the configuration space is function 0 of some device,
    and the registers do what is asked of them within [n] polls, then with
    fuel for [n] polls and for the buses before it the initialisation
    returns the base address of that device, whatever the ports' scan does
    that returns too; and initialising any port returns. *)
Lemma ahci_init_returns n fuel config good bus dev scan cmd_list_area fis_area (r : R) :
  let hba := Z.land (config bus dev 36) (18446744073709551615 - 15) in
  controller n hba config good → good r → (n ≤ fuel)%nat → 0 ≤ bus < 256 → bus < Z.of_nat fuel →
  (∀ b, 0 ≤ b < bus → first_at config b 0 None) → first_at config bus 0 (Some dev) →
  (∀ port, 0 ≤ port < 32 → returns good (scan hba port) (λ _, True)) →
  (∃ r', ahci_init fuel scan r = Ok (Some hba, r', []) ∧ good r') ∧
  ∀ port, 0 ≤ port < 32 → returns good (port_init fuel cmd_list_area fis_area hba port) (λ _, True).
Proof.
  intros hba Hc Hr Hn Hb Hf Hnone Hsome Hscan. split; [|by apply (port_init_returns n fuel hba config)].
  destruct (init_returns n fuel config good bus dev scan Hc Hn Hb Hf Hnone Hsome Hscan r Hr) as (x&r'&Hx&Hr'&Heq).
  exists r'. by rewrite Hx Heq.
Qed.
End answers.

(** * The order of the accesses *)

(** A bus with its accesses written down, oldest first. *)
Inductive access : Type :=
  | Rd (addr v : Z)
  | Wr (addr v : Z).
Definition logged (R : Type) : Type := R * list access.

(** A controller that is part of a larger state. *)
Section zoomed.
Context {R S : Type} `{!Bus R} (f : S → R) (g : R → S → S) (good : R → Prop) (good' : S → Prop).
Hypothesis fg : ∀ r s, f (g r s) = r.
Hypothesis gg : ∀ r r' s, g r (g r' s) = g r s.
Hypothesis good_f : ∀ s, good' s → good (f s).
Hypothesis good_g : ∀ r s, good' s → good r → good' (g r s).

Definition zoomed_bus : Bus S := {|
  outl port v := zoom f g (outl port v);
  inl port := zoom f g (inl port);
  mmio_read32 addr := zoom f g (mmio_read32 addr);
  mmio_write32 addr v := zoom f g (mmio_write32 addr v)
|}.
#[local] Existing Instance zoomed_bus.

Lemma zoom_ok {X} (m : M R X) s x r : m (f s) = Ok (x, r, []) → zoom f g m s = Ok (x, g r s, []).
Proof. intros Hm. by rewrite /zoom Hm. Qed.
Lemma zoom_known {X} (m : M R X) s x s' : zoom f g m s = Ok (x, s', []) → m (f s) = Ok (x, f s', []) ∧ s' = g (f s') s.
Proof. rewrite /zoom. destruct (m (f s)) as [[[y r] o]| |]; [|done..]. intros [= <- <- <-]. by rewrite fg. Qed.
Lemma settles_zoom addr mask done k s : settles addr mask done k (f s) → settles addr mask done k s.
Proof.
  remember (f s) as r eqn:Hr. intros Hs. revert s Hr.
  induction Hs as [k r v r' Hv Hd|k r v r' Hv _ IH]; intros s ->.
  - eapply settles_now; [by apply zoom_ok|done].
  - eapply settles_later; [by apply zoom_ok|by apply IH; rewrite fg].
Qed.
Lemma zoom_seq {X Y} (m1 : M R X) (m2 : X → M R Y) s x r :
  (m1 ≫= m2) (f s) = Ok (x, r, []) → (zoom f g m1 ≫= λ y, zoom f g (m2 y)) s = Ok (x, g r s, []).
Proof.
  rewrite /mbind /M_bind /zoom. destruct (m1 (f s)) as [[[y r1] o1]| |]; [|done..]. rewrite fg.
  destruct (m2 y r1) as [[[z r2] o2]| |]; [|done..]. rewrite gg. by intros [= -> -> ->].
Qed.
Lemma zoomed_controller n hba config : controller n hba config good → controller n hba config good'.
Proof.
  intros Hc. split.
  - intros addr s Hs. destruct (ct_read _ _ _ _ Hc addr (f s)) as (v&r&Hv&Hr); [auto|].
    exists v, (g r s). split; [by apply zoom_ok|auto].
  - intros addr v s Hs. destruct (ct_write _ _ _ _ Hc addr v (f s)) as (r&Hv&Hr); [auto|].
    exists (g r s). split; [by apply zoom_ok|auto].
  - intros port v s s' cmd Hs Hp Hv [Hw _]%zoom_known. by eapply settles_zoom, (ct_stops _ _ _ _ Hc); eauto.
  - intros port v s s' cmd Hs Hp Hv [Hw _]%zoom_known. by eapply settles_zoom, (ct_receives _ _ _ _ Hc); eauto.
  - intros port v s s' cmd Hs Hp Hv [Hw _]%zoom_known. by eapply settles_zoom, (ct_runs _ _ _ _ Hc); eauto.
  - intros v s s' ghc Hs Hv [Hw _]%zoom_known. by eapply settles_zoom, (ct_resets _ _ _ _ Hc); eauto.
  - intros bus dev offset s Hs Hb Hd. destruct (ct_config _ _ _ _ Hc bus dev offset (f s)) as (v&r&Hv&Hr&Heq); [auto..|].
    exists v, (g r s). split; [by apply zoom_seq|auto].
  - intros bus dev offset v s Hs. destruct (ct_set_config _ _ _ _ Hc bus dev offset v (f s)) as (r&Hv&Hr); [auto|].
    exists (g r s). split; [by apply (zoom_seq (outl _ _) (λ _, outl _ _))|auto].
Qed.
End zoomed.

Section logged.
Context {R : Type} `{!Bus R}.

Definition note (f : R * list access → list access) : M (logged R) unit := modify (λ s, (fst s, f s)).
Definition on_bus {X} (m : M R X) : M (logged R) X := zoom fst (λ r s, (r, snd s)) m.
#[global] Instance logged_bus : Bus (logged R) := {|
  outl port v := on_bus (outl port v);
  inl port := on_bus (inl port);
  mmio_read32 addr := v ← on_bus (mmio_read32 addr); note (λ s, snd s ++ [Rd addr v]);; mret v;
  mmio_write32 addr v := on_bus (mmio_write32 addr v);; note (λ s, snd s ++ [Wr addr v])
|}.

Lemma read_logged addr (s : logged R) v s' o :
  mmio_read32 addr s = Ok (v, s', o) → snd s' = snd s ++ [Rd addr v].
Proof.
  intros (a&s1&o1&o2&Ha&(b&s2&o3&o4&Hb&Hc&_)%bind_inv&_)%bind_inv.
  rewrite /on_bus /zoom in Ha. destruct (mmio_read32 addr (fst s)) as [[[x r] ox]| |]; [|done..].
  injection Ha as <- <- <-. injection Hb as <- <- <-. injection Hc as <- <- <-. done.
Qed.
Lemma write_logged addr v (s : logged R) u s' o :
  mmio_write32 addr v s = Ok (u, s', o) → snd s' = snd s ++ [Wr addr v].
Proof.
  intros (a&s1&o1&o2&Ha&Hb&_)%bind_inv.
  rewrite /on_bus /zoom in Ha. destruct (mmio_write32 addr v (fst s)) as [[[x r] ox]| |]; [|done..].
  injection Ha as <- <- <-. injection Hb as <- <- <-. done.
Qed.

(** Polls of a register, of which the last one alone is the awaited. *)
Definition polls (addr mask : Z) (done : Z → bool) (l : list access) : Prop :=
  ∃ vs v, l = (Rd addr <$> vs) ++ [Rd addr v] ∧ Forall (λ v, done (Z.land v mask) = false) vs ∧
    done (Z.land v mask) = true.

Lemma wait_logged fuel addr mask done (s : logged R) u s' o :
  wait_register fuel addr mask done s = Ok (u, s', o) → ∃ l, snd s' = snd s ++ l ∧ polls addr mask done l.
Proof.
  revert s o. induction fuel as [|fuel IH]; intros s o; [by intros [=]|]. cbn [wait_register].
  intros (v&s1&o1&o2&Hv&Hrest&_)%bind_inv. apply read_logged in Hv.
  destruct (done (Z.land v mask)) eqn:Hd.
  - injection Hrest as <- <- <-. exists [Rd addr v]. split; [done|]. by exists [], v.
  - destruct (IH _ _ Hrest) as (l&Hl&vs&v'&->&Hvs&Hv'). rewrite Hl Hv -app_assoc. eexists. split; [done|].
    exists (v :: vs), v'. split; [done|]. split; [by constructor|done].
Qed.

(** The shape of the accesses of [port_stop] and [port_start]. *)
Definition stop_log (base : Z) (l : list access) : Prop :=
  ∃ cmd ps, l = Rd (u32 (base + PxCMD)) cmd ::
      Wr (u32 (base + PxCMD)) (Z.land cmd (lnot32 (Z.lor PxCMD_ST PxCMD_FRE))) :: ps ∧
    polls (u32 (base + PxCMD)) (Z.lor PxCMD_FR PxCMD_CR) (λ v, v =? 0) ps.
Definition start_log (base : Z) (l : list access) : Prop :=
  ∃ cmd ps ps', l = Rd (u32 (base + PxCMD)) cmd :: Wr (u32 (base + PxCMD)) (Z.lor cmd PxCMD_FRE) :: ps ++
      Wr (u32 (base + PxCMD)) (Z.lor (Z.lor cmd PxCMD_FRE) PxCMD_ST) :: ps' ∧
    polls (u32 (base + PxCMD)) PxCMD_FR (λ v, negb (v =? 0)) ps ∧
    polls (u32 (base + PxCMD)) PxCMD_ST (λ v, negb (v =? 0)) ps'.

Lemma stop_logged fuel hba port (s : logged R) u s' o :
  port_stop fuel hba port s = Ok (u, s', o) → ∃ l, snd s' = snd s ++ l ∧ stop_log (port_base hba port) l.
Proof.
  intros (cmd&s1&o1&o2&Hc&(u1&s2&o3&o4&Hw&(l&Hl&Hp)%wait_logged&_)%bind_inv&_)%bind_inv.
  apply read_logged in Hc. apply write_logged in Hw. rewrite Hl Hw Hc -!app_assoc. eexists. split; [done|].
  by exists cmd, l.
Qed.
Lemma start_logged fuel hba port (s : logged R) u s' o :
  port_start fuel hba port s = Ok (u, s', o) → ∃ l, snd s' = snd s ++ l ∧ start_log (port_base hba port) l.
Proof.
  intros (cmd&s1&o1&o2&Hc&(u1&s2&o3&o4&Hw&(u2&s3&o5&o6&(l&Hl&Hp)%wait_logged&
    (u3&s4&o7&o8&Hw'&(l'&Hl'&Hp')%wait_logged&_)%bind_inv&_)%bind_inv&_)%bind_inv&_)%bind_inv.
  apply read_logged in Hc. apply write_logged in Hw, Hw'. rewrite Hl' Hw' Hl Hw Hc -!app_assoc.
  eexists. split; [done|]. exists cmd, l, l'. split; [done|]. by split.
Qed.

(** C33: Initialising a port never moves the command list or the frame area
    under a running engine. Whatever the hardware answers, the accesses
    are, in this order: ST and FRE cleared and CMD polled until FR and CR
    are both clear; the two addresses, the interrupt status and the
    interrupt mask written; then FRE set and CMD polled until FR is set;
    and only then ST set. *)
Theorem port_init_order fuel cmd_list_area fis_area hba port (r : R) r' log o :
  port_init fuel cmd_list_area fis_area hba port (r, []) = Ok (tt, (r', log), o) →
  let base := port_base hba port in
  ∃ l1 l2, log = l1 ++ [Wr (u32 (base + PxCLB)) (u32 (cmd_list_area + port * 4096)); Wr (u32 (base + PxCLBU)) 0;
      Wr (u32 (base + PxFB)) (u32 (fis_area + port * 4096)); Wr (u32 (base + PxFBU)) 0;
      Wr (u32 (base + PxIS)) 4294967295; Wr (u32 (base + PxIE)) 0] ++ l2 ∧
    stop_log base l1 ∧ start_log base l2.
Proof.
  intros (u0&s0&o0&o0'&(l1&Hl1&Hs1)%stop_logged&(u1&s1&o1&o1'&H1&(u2&s2&o2&o2'&H2&(u3&s3&o3&o3'&H3&
    (u4&s4&o4&o4'&H4&(u5&s5&o5&o5'&H5&(u6&s6&o6&o6'&H6&(l2&Hl2&Hs2)%start_logged&_)%bind_inv&_)%bind_inv&_)%bind_inv
    &_)%bind_inv&_)%bind_inv&_)%bind_inv&_)%bind_inv.
  apply write_logged in H1, H2, H3, H4, H5, H6. simpl in Hl1, Hl2.
  intros base. exists l1, l2. split; [|done].
  rewrite Hl2 H6 H5 H4 H3 H2 H1 Hl1 -!app_assoc. done.
Qed.
End logged.

(** The two low bits that tell a 64-bit base address are cleared before
    they are tested: the upper half is never read. *)
Lemma bar_low bar : Z.land (Z.land bar (18446744073709551615 - 15)) 4 = 0.
Proof. by rewrite -Z.land_assoc (_ : Z.land _ 4 = 0) // Z.land_0_r. Qed.
Lemma claim_low {R} `{!Bus R} bus dev (r : R) :
  claim bus dev r =
    (bar ← pci_read_config_dword bus dev 0 36;
     cmd ← pci_read_config_dword bus dev 0 4;
     pci_write_config_dword bus dev 0 4 (Z.lor cmd 6);;
     mret (Z.land bar (18446744073709551615 - 15))) r.
Proof.
  apply bind_ext. intros bar r1. cbv beta zeta. rewrite bar_low. cbn [Z.eqb negb].
  by rewrite (bind_ok (mret _) _ r1 (Z.land bar (18446744073709551615 - 15)) r1).
Qed.

(** * Examples

    A machine whose configuration space is a function, whose engines start
    and stop at once and whose controller, with its registers at 0xfebf0000,
    is reset at once. *)
Definition demo_base : Z := 4273930240.
Record machine (space : Z → Z) : Type := Machine { latch : Z; regs : gmap Z Z }.
#[global] Arguments Machine {_} _ _.
#[global] Arguments latch {_} _.
#[global] Arguments regs {_} _.
Definition register {space} (m : machine space) (addr : Z) : Z :=
  let v := default 0 (regs m !! addr) in
  if addr =? demo_base + HBA_GHC then Z.land v (lnot32 HBA_RESET)
  else if addr mod 128 =? PxCMD then
    Z.lor (Z.land v (lnot32 (Z.lor PxCMD_FR PxCMD_CR)))
      (Z.lor (if Z.testbit v 4 then PxCMD_FR else 0) (if Z.testbit v 0 then PxCMD_CR else 0))
  else v.
#[global] Instance machine_bus space : Bus (machine space) := {|
  outl port v := modify (λ m, if port =? PCI_CONFIG_ADDRESS then Machine v (regs m) else m);
  inl port := m ← get; mret (space (latch m));
  mmio_read32 addr := m ← get; mret (register m addr);
  mmio_write32 addr v := modify (λ m, Machine (latch m) (<[addr := v]> (regs m)))
|}.
Definition bare : machine (λ _, 4294967295) := Machine 0 ∅.

Lemma ahci_init_hangs_witness : ahci_init 1000 (λ _ _, mret tt) bare = NoFuel.
Proof.
  apply (ahci_init_hangs (λ _, True) 1000 (λ _ _, mret tt) bare).
  - intros m bus dev _ _ _. do 2 eexists. split; [reflexivity|]. split; reflexivity.
  - exact I.
Defined.

(** A controller at device 2 of bus 0. *)
Definition demo_config (bus dev offset : Z) : Z :=
  if (bus =? 0) && (dev =? 2) then (if offset =? 8 then 17170689 else if offset =? 36 then demo_base else 0) else 4294967295.
Definition demo_space (a : Z) : Z := demo_config (Z.land (Z.shiftr a 16) 255) (Z.land (Z.shiftr a 11) 31) (Z.land a 252).

Lemma land_bit v k : 0 ≤ k → Z.land v (2 ^ k) = if Z.testbit v k then 2 ^ k else 0.
Proof.
  intros Hk. apply Z.bits_inj'. intros i Hi. rewrite Z.land_spec Z.pow2_bits_eqb //. destruct (Z.eqb_spec k i) as [->|Hne].
  - rewrite andb_true_r. destruct (Z.testbit v i); [by rewrite Z.pow2_bits_true|by rewrite Z.bits_0].
  - rewrite andb_false_r. destruct (Z.testbit v k); [by rewrite Z.pow2_bits_false //; lia|by rewrite Z.bits_0].
Qed.
Lemma demo_cmd (m : machine demo_space) port v : 0 ≤ port < 32 → let cmd := u32 (port_base demo_base port + PxCMD) in
  register (Machine (space := demo_space) (latch m) (<[cmd := v]> (regs m))) cmd =
    Z.lor (Z.land v (lnot32 (Z.lor PxCMD_FR PxCMD_CR)))
      (Z.lor (if Z.testbit v 4 then PxCMD_FR else 0) (if Z.testbit v 0 then PxCMD_CR else 0)).
Proof.
  intros Hp cmd. assert (Hcmd : cmd = demo_base + 256 + port * 128 + 24).
  { rewrite /cmd /port_base /PxCMD /demo_base. rewrite (u32_small (_ + port * 128)); [lia|]. rewrite u32_small; lia. }
  rewrite /register /= lookup_insert_eq Hcmd /demo_base /HBA_GHC /PxCMD. rewrite (proj2 (Z.eqb_neq _ _)); [lia|].
  rewrite (proj2 (Z.eqb_eq _ _)) //. dlia.
Qed.
Lemma demo_config_address bus dev offset : 0 ≤ bus < 256 → 0 ≤ dev < 32 → offset = 8 ∨ offset = 36 →
  demo_space (config_address bus dev 0 offset) = demo_config bus dev offset.
Proof.
  intros Hb Hd Ho. assert (Hall : Forall (λ bus, Forall (λ dev, Forall (λ offset,
    demo_space (config_address bus dev 0 offset) = demo_config bus dev offset) [8; 36]) (seqZ 0 32)) (seqZ 0 256)).
  { apply (bool_decide_unpack _). vm_compute. exact I. }
  rewrite Forall_forall in Hall. specialize (Hall bus ltac:(apply elem_of_seqZ; lia)). rewrite Forall_forall in Hall.
  specialize (Hall dev ltac:(apply elem_of_seqZ; lia)). rewrite Forall_forall in Hall.
  apply Hall. destruct Ho as [-> | ->]; set_solver.
Qed.
Lemma demo_controller : controller 1 demo_base demo_config (λ _ : machine demo_space, True).
Proof.
  split.
  - intros addr m Hm. by eexists _, m.
  - intros addr v m Hm. by eexists.
  - intros port v m m' cmd Hm Hp Hv [= <-]. eapply settles_now; [done|]. rewrite demo_cmd //.
    pose proof (f_equal (λ z, Z.testbit z 4) Hv) as H4. pose proof (f_equal (λ z, Z.testbit z 0) Hv) as H0.
    cbv beta in H4, H0. rewrite Z.land_spec andb_true_r in H4. rewrite Z.land_spec andb_true_r in H0. rewrite H4 H0 Z.lor_0_r -Z.land_assoc.
    by rewrite (_ : Z.land (lnot32 _) _ = 0) // Z.land_0_r.
  - intros port v m m' cmd Hm Hp Hv [= <-]. eapply settles_now; [done|]. rewrite demo_cmd //.
    rewrite (land_bit v 4) // in Hv. destruct (Z.testbit v 4); [|done]. by rewrite (land_bit _ 14) // !Z.lor_spec orb_true_r.
  - intros port v m m' cmd Hm Hp Hv [= <-]. eapply settles_now; [done|]. rewrite demo_cmd //.
    rewrite (land_bit v 0) // in Hv. destruct (Z.testbit v 0) eqn:H0; [|done].
    by rewrite (land_bit _ 0) // Z.lor_spec Z.land_spec H0.
  - intros v m m' ghc Hm _ [= <-]. eapply settles_now; [done|]. rewrite /register /= lookup_insert_eq /=.
    by rewrite -Z.land_assoc (_ : Z.land (lnot32 _) _ = 0) // Z.land_0_r.
  - intros bus dev offset m Hm Hb Hd. eexists _, _. split; [reflexivity|]. split; [done|]. intros Ho.
    cbn [latch Z.eqb Pos.eqb]. by apply demo_config_address.
  - intros bus dev offset v m Hm. by eexists.
Qed.

(** Every port is initialised that has a device. *)
Definition demo_scan (hba port : Z) : M (machine demo_space) unit :=
  present ← port_device_present hba port;
  if present : bool then port_init 1 65536 196608 hba port else mret tt.
Definition demo_reset : machine demo_space := Machine 0 {[ demo_base + HBA_PI := 9; demo_base + 256 + 3 * 128 + PxSSTS := 3 ]}.
Lemma ahci_init_returns_witness :
  (∃ m, ahci_init 1 demo_scan demo_reset = Ok (Some demo_base, m, []) ∧ True) ∧
  ∀ port, 0 ≤ port < 32 → returns (λ _ : machine demo_space, True) (port_init 1 65536 196608 demo_base port) (λ _, True).
Proof.
  apply (ahci_init_returns 1 1 demo_config (λ _, True) 0 2 demo_scan 65536 196608 demo_reset).
  - exact demo_controller.
  - exact I.
  - lia.
  - lia.
  - lia.
  - intros b Hb. lia.
  - split; [lia|]. split; [reflexivity|]. intros d Hd. assert (d = 0 ∨ d = 1) as [-> | ->] by lia; reflexivity.
  - intros port Hp. eapply (returns_bind _ _ _ (λ _, True)).
    + eapply returns_bind; [apply (read_returns 1 demo_base demo_config (λ _, True) demo_controller)|].
      intros v _. apply returns_ret. exact I.
    + intros [] _; [|apply returns_ret; exact I].
      apply (port_init_returns 1 1 demo_base demo_config (λ _, True) demo_controller ltac:(lia)). exact Hp.
Defined.

(** Port 3 of a machine whose engines are running. *)
Definition running : machine (λ _, 4294967295) := Machine 0 {[ 4096 + 256 + 3 * 128 + PxCMD := 17 ]}.
Lemma port_init_order_witness :
  ∃ log, (∃ m, port_init 1 65536 196608 4096 3 (running, []) = Ok (tt, (m, log), [])) ∧
  ∃ l1 l2, log = l1 ++ [Wr 4736 77824; Wr 4740 0; Wr 4744 208896; Wr 4748 0; Wr 4752 4294967295; Wr 4756 0] ++ l2 ∧
    stop_log 4736 l1 ∧ start_log 4736 l2.
Proof.
  eexists. split; [eexists; vm_compute; reflexivity|].
  eapply (port_init_order 1 65536 196608 4096 3 running). vm_compute. reflexivity.
Defined.
End Ahci.
