(* ===== verification/Registers.v ===== *)
(** drivers/src/drive.c whole: the commands of [Drive] on the registers of
    [Ahci] and the structures in memory the controller reads.

    The static areas hold a command header and a command table for each
    port, records with the fields of the C structures; what the controller
    fetches when the command issue register is written are these structures
    packed into words. [exec_ata_cmd] and [port_init] are the code's, on
    areas and registers; the interface [Drive.Hba] is implemented by the
    registers alone, and the theorems are that the code does what that
    implementation does, that the implementation keeps the interface's laws
    when the hardware keeps its own, and that the driver comes up on it. *)
From stdpp Require Import functions.
From S2P Require Import Prelude.
From S2P Require Import Bytes.
From S2P Require Import Drive.
From S2P Require Import Ahci.
Import Bytes Ahci.
#[local] Open Scope general_if_scope.

Module Registers.

(** * The structures *)

Record cmd_hdr_t : Type := Hdr {
  cfl : Z; hdr_a : Z; hdr_w : Z; hdr_p : Z; hdr_r : Z; hdr_b : Z; hdr_c : Z; hdr_rsvd : Z; pmp : Z; prdtl : Z;
  prdbc : Z; ctba : Z; ctbau : Z
}.
Record prd_t : Type := Prd { dba : Z; dbau : Z; prd_rsvd : Z; dbc : Z; prd_i : Z; rsvd2 : Z }.
Record cmd_tbl_t : Type := Tbl { cfis : list Z; acmd : list Z; tbl_rsvd : list Z; prdt : prd_t }.
Definition sizeof_cmd_tbl_t : Z := 256.

Definition hdr_zero : cmd_hdr_t := Hdr 0 0 0 0 0 0 0 0 0 0 0 0 0.
Definition tbl_zero : cmd_tbl_t := Tbl (zeros 64) (zeros 16) (zeros 48) (Prd 0 0 0 0 0 0).

(** The words and bytes of memory the structures are. *)
Definition header_words (h : cmd_hdr_t) : list Z :=
  [Z.lor (cfl h) (Z.lor (Z.shiftl (hdr_a h) 5) (Z.lor (Z.shiftl (hdr_w h) 6) (Z.lor (Z.shiftl (hdr_p h) 7)
     (Z.lor (Z.shiftl (hdr_r h) 8) (Z.lor (Z.shiftl (hdr_b h) 9) (Z.lor (Z.shiftl (hdr_c h) 10)
     (Z.lor (Z.shiftl (hdr_rsvd h) 11) (Z.lor (Z.shiftl (pmp h) 12) (Z.shiftl (prdtl h) 16)))))))));
   prdbc h; ctba h; ctbau h].
Definition region_words (p : prd_t) : list Z :=
  [dba p; dbau p; Z.lor (prd_rsvd p) (Z.shiftl (dbc p) 16); Z.lor (prd_i p) (Z.shiftl (rsvd2 p) 1)].

(** What the controller fetches for slot 0 of a port. *)
Record image : Type := Image { im_header : list Z; im_region : list Z; im_fis : list Z }.
Definition image_of (h : cmd_hdr_t) (t : cmd_tbl_t) : image := Image (header_words h) (region_words (prdt t)) (cfis t).

(** The controller with what is attached to it: [issue] is the write to the
    command issue register, with the memory the controller then sees and
    the data buffer; [transferred] the data buffer as of now. *)
Class Device (R : Type) `{!Bus R} := {
  issue : Z → Z → image → list Z → M R unit;
  transferred : Z → R → list Z;
  dv_sector : R → Z → Z → list Z;
  dv_faulty : Z → Z → Prop
}.

Section ops.
Context {R : Type} `{!Bus R, !Device R}.

Record board : Type := Board { bus : R; cmd_list_area : Z → cmd_hdr_t; cmd_table_area : Z → cmd_tbl_t }.
Definition set_bus (r : R) (b : board) : board := Board r (cmd_list_area b) (cmd_table_area b).
Definition set_hdr (port : Z) (h : cmd_hdr_t) (b : board) : board :=
  Board (bus b) (<[port := h]> (cmd_list_area b)) (cmd_table_area b).
Definition set_tbl (port : Z) (t : cmd_tbl_t) (b : board) : board :=
  Board (bus b) (cmd_list_area b) (<[port := t]> (cmd_table_area b)).
Definition on_bus {X} (m : M R X) : M board X := zoom bus set_bus m.

(** The addresses of the areas, of the registers and of a caller's buffer;
    the polls of a wait that has no timeout. *)
Context (list_at fis_at table_at buf_at ahci_hba_base : Z) (fuel : nat).

Definition port_init (port : Z) : M board unit :=
  let base := port_base ahci_hba_base port in
  on_bus (port_stop fuel ahci_hba_base port);;
  modify (set_hdr port hdr_zero);;
  modify (set_tbl port tbl_zero);;
  on_bus (mmio_write32 (u32 (base + PxCLB)) (u32 (list_at + port * 4096)));;
  on_bus (mmio_write32 (u32 (base + PxCLBU)) 0);;
  on_bus (mmio_write32 (u32 (base + PxFB)) (u32 (fis_at + port * 4096)));;
  on_bus (mmio_write32 (u32 (base + PxFBU)) 0);;
  on_bus (mmio_write32 (u32 (base + PxIS)) 4294967295);;
  on_bus (mmio_write32 (u32 (base + PxIE)) 0);;
  on_bus (port_start fuel ahci_hba_base port).

Definition table_address (port : Z) : Z := u32 (table_at + port * sizeof_cmd_tbl_t).
Definition fill_header (port is_write : Z) (data : bool) (h : cmd_hdr_t) : cmd_hdr_t :=
  Hdr 5 (hdr_a h) (if is_write =? 0 then 0 else 1) (hdr_p h) (hdr_r h) (hdr_b h) (hdr_c h) (hdr_rsvd h) (pmp h)
    (if data then 1 else 0) 0 (table_address port) 0.
Definition fill_region (sector_count : Z) (p : prd_t) : prd_t :=
  let bytes := if sector_count =? 0 then 512 else u32 (sector_count * Drive.SECTOR_SIZE) in
  Prd buf_at 0 (prd_rsvd p) (u16 (bytes - 1)) 0 (rsvd2 p).
Definition fill_fis (cmd lba sector_count : Z) (fis : list Z) : list Z :=
  [ Drive.FIS_TYPE_REG_H2D; 128; cmd; 0;
    u8 lba; u8 (Z.shiftr lba 8); u8 (Z.shiftr lba 16); u8 (Z.shiftr lba 24);
    u8 (Z.land (Z.shiftr lba 32) 255); u8 (Z.land (Z.shiftr lba 40) 255);
    u8 sector_count; u8 (Z.shiftr sector_count 8);
    0; 0; 64; 0 ] ++ drop 16 fis.

(** The command issue register, and the result of waiting for slot 0. *)
Definition ci_register (port : Z) : Z := u32 (port_base ahci_hba_base port + PxCI).
Definition timeout_us : nat := Z.to_nat 1000000.

(** [data_buf] is [None] for NULL; the second result is the buffer. *)
Definition exec_ata_cmd (port cmd lba sector_count : Z) (data_buf : option (list Z)) (is_write : Z) :
    M board (Z * list Z) :=
  b ← get;
  modify (set_hdr port (fill_header port is_write (if data_buf is Some _ then true else false) (cmd_list_area b port)));;
  (match data_buf with
   | Some _ => b ← get; let t := cmd_table_area b port in
       modify (set_tbl port (Tbl (cfis t) (acmd t) (tbl_rsvd t) (fill_region sector_count (prdt t))))
   | None => mret tt
   end);;
  b ← get; let t := cmd_table_area b port in
  modify (set_tbl port (Tbl (fill_fis cmd lba sector_count (cfis t)) (acmd t) (tbl_rsvd t) (prdt t)));;
  b ← get;
  on_bus (issue (ci_register port) 1 (image_of (cmd_list_area b port) (cmd_table_area b port)) (default [] data_buf));;
  r ← on_bus (wait_cmd_complete timeout_us ahci_hba_base port);
  b ← get;
  mret (r, transferred port (bus b)).

(** * The interface of [Drive] on the registers *)

(** What a command of [Drive] is in memory. *)
Definition command_image (port : Z) (c : Drive.command) : image :=
  Image [Drive.hdr_word c; 0; table_address port; 0] [buf_at; 0; Drive.prd_word2 c; Drive.prd_word3 c]
    (Drive.cfis c ++ zeros 48).
Definition run_command (port : Z) (c : Drive.command) (buf : list Z) : M R (Z * list Z) :=
  issue (ci_register port) 1 (command_image port c) buf;;
  r ← wait_cmd_complete timeout_us ahci_hba_base port;
  d ← get;
  mret (r, transferred port d).
Definition registers_hba : Drive.Hba R := {|
  Drive.hba_run := run_command;
  Drive.hba_present := port_device_present ahci_hba_base;
  Drive.hba_init := Ahci.port_init fuel list_at fis_at ahci_hba_base;
  Drive.hba_stop := port_stop fuel ahci_hba_base;
  Drive.sector := dv_sector;
  Drive.faulty := dv_faulty
|}.
End ops.
Arguments board R : clear implicits.

(** * The code does what the interface says *)

Section refines.
Context {R : Type} `{!Bus R, !Device R}.
Context (list_at fis_at table_at buf_at ahci_hba_base : Z) (fuel : nat).
Implicit Types (b : board R).

(** The fields no code sets are zero, as the static areas and [port_init]
    leave them. *)
Definition quiet_header (h : cmd_hdr_t) : Prop :=
  hdr_a h = 0 ∧ hdr_p h = 0 ∧ hdr_r h = 0 ∧ hdr_b h = 0 ∧ hdr_c h = 0 ∧ hdr_rsvd h = 0 ∧ pmp h = 0.
Definition quiet_table (t : cmd_tbl_t) : Prop :=
  drop 16 (cfis t) = zeros 48 ∧ prd_rsvd (prdt t) = 0 ∧ rsvd2 (prdt t) = 0.
Definition quiet b : Prop := ∀ port, quiet_header (cmd_list_area b port) ∧ quiet_table (cmd_table_area b port).

Lemma quiet_set_hdr port h b : quiet b → quiet_header h → quiet (set_hdr port h b).
Proof.
  intros Hb Hh q. destruct (Hb q) as [Hq Ht]. split; [|done]. rewrite /=. destruct (decide (q = port)) as [->|Hne].
  - by rewrite fn_lookup_insert.
  - by rewrite fn_lookup_insert_ne.
Qed.
Lemma quiet_set_tbl port t b : quiet b → quiet_table t → quiet (set_tbl port t b).
Proof.
  intros Hb Hh q. destruct (Hb q) as [Hq Ht]. split; [done|]. rewrite /=. destruct (decide (q = port)) as [->|Hne].
  - by rewrite fn_lookup_insert.
  - by rewrite fn_lookup_insert_ne.
Qed.

(** The structures as the code fills them are the command [Drive] builds. *)
Lemma filled_image port cmd lba n w h t :
  quiet_header h → quiet_table t →
  image_of (fill_header table_at port w true h)
    (Tbl (fill_fis cmd lba n (cfis t)) (acmd t) (tbl_rsvd t) (fill_region buf_at n (prdt t))) =
  command_image table_at buf_at port (Drive.build_command cmd lba n w).
Proof.
  intros (Ha&Hp&Hr&Hb&Hc&Hv&Hm) (Hf&Hd&Hi).
  rewrite /image_of /header_words /region_words /fill_fis /= Ha Hp Hr Hb Hc Hv Hm Hf Hd Hi /command_image /=.
  rewrite /Drive.build_command /Drive.header_word /=. by destruct (w =? 0).
Qed.

(** The state after a run of the registers, the areas as given. *)
Definition on_areas {X} (l : Z → cmd_hdr_t) (t : Z → cmd_tbl_t) (x : res (X * R * list event)) : res (X * board R * list event) :=
  match x with Ok (a, r, o) => Ok (a, Board r l t, o) | Fault => Fault | NoFuel => NoFuel end.

Lemma exec_ata_cmd_run port cmd lba n buf w b : quiet b →
  ∃ l t, (∀ r, quiet (Board r l t)) ∧
    exec_ata_cmd table_at buf_at ahci_hba_base port cmd lba n (Some buf) w b =
      on_areas l t (run_command table_at buf_at ahci_hba_base port (Drive.build_command cmd lba n w) buf (bus b)).
Proof.
  intros Hb. destruct (Hb port) as [Hh Ht].
  set h := fill_header table_at port w true (cmd_list_area b port).
  set t1 := Tbl (cfis (cmd_table_area b port)) (acmd (cmd_table_area b port)) (tbl_rsvd (cmd_table_area b port))
    (fill_region buf_at n (prdt (cmd_table_area b port))).
  set t2 := Tbl (fill_fis cmd lba n (cfis t1)) (acmd t1) (tbl_rsvd t1) (prdt t1).
  set b3 := set_tbl port t2 (set_tbl port t1 (set_hdr port h b)).
  assert (Hq : quiet b3).
  { apply quiet_set_tbl; [apply quiet_set_tbl; [by apply quiet_set_hdr|]|]; by destruct Ht as (?&?&?). }
  exists (cmd_list_area b3), (cmd_table_area b3). split; [done|].
  rewrite /exec_ata_cmd (bind_ok _ _ b b b) // (bind_ok _ _ _ tt (set_hdr port h b)) //.
  rewrite (bind_ok _ _ _ tt (set_tbl port t1 (set_hdr port h b))) //.
  rewrite (bind_ok _ _ _ (set_tbl port t1 (set_hdr port h b)) (set_tbl port t1 (set_hdr port h b))) //.
  rewrite (bind_ok _ _ _ tt b3).
  { rewrite /b3 /t2 /modify. do 3 f_equal. by rewrite /= fn_lookup_insert. }
  rewrite (bind_ok _ _ b3 b3 b3) //.
  assert (Himg : image_of (cmd_list_area b3 port) (cmd_table_area b3 port) =
    command_image table_at buf_at port (Drive.build_command cmd lba n w)).
  { rewrite /= !fn_lookup_insert. by apply filled_image. }
  rewrite Himg /run_command. cbn [default from_option id].
  rewrite /mbind /M_bind /on_bus /zoom /get. change (bus b3) with (bus b).
  destruct (issue _ _ _ _ (bus b)) as [[[[] r1] o1]| |]; [|done..]. cbn [bus set_bus].
  by destruct (wait_cmd_complete _ _ _ r1) as [[[x r2] o2]| |].
Qed.

Lemma port_init_run port b :
  port_init list_at fis_at ahci_hba_base fuel port b =
    on_areas (<[port := hdr_zero]> (cmd_list_area b)) (<[port := tbl_zero]> (cmd_table_area b))
      (Ahci.port_init fuel list_at fis_at ahci_hba_base port (bus b)).
Proof.
  rewrite /port_init /Ahci.port_init /mbind /M_bind /on_bus /zoom /modify.
  destruct (port_stop _ _ _ (bus b)) as [[[[] r0] o0]| |]; [|done..]. cbn [bus set_bus set_hdr set_tbl].
  do 6 (match goal with |- context [mmio_write32 ?a ?v ?r] =>
    destruct (mmio_write32 a v r) as [[[[] ?] ?]| |]; [|done..] end; cbn [bus set_bus]).
  match goal with |- context [port_start ?f ?h ?p ?r] => by destruct (port_start f h p r) as [[[[] ?] ?]| |] end.
Qed.

(** C15: A command on the registers is the command [Drive] sends. While the
    fields no code sets are zero, [exec_ata_cmd] leaves in the port's header
    and table exactly the words and bytes of [Drive.build_command], writes
    the command issue register after that, waits and returns the buffer:
    what the interface's [hba_run] is on the registers, the areas apart.
    [port_init] is the register sequence of [Ahci.port_init] with both areas
    of the port cleared. Both leave those fields zero. *)
Theorem registers_refine port cmd lba n buf w b : quiet b →
  (∃ l t, (∀ r, quiet (Board r l t)) ∧
    exec_ata_cmd table_at buf_at ahci_hba_base port cmd lba n (Some buf) w b =
      on_areas l t (run_command table_at buf_at ahci_hba_base port (Drive.build_command cmd lba n w) buf (bus b))) ∧
  ∃ l t, (∀ r, quiet (Board r l t)) ∧ l port = hdr_zero ∧ t port = tbl_zero ∧
    port_init list_at fis_at ahci_hba_base fuel port b =
      on_areas l t (Ahci.port_init fuel list_at fis_at ahci_hba_base port (bus b)).
Proof.
  intros Hb. split; [by apply exec_ata_cmd_run|]. rewrite port_init_run. do 2 eexists. split; [|split; [|split; [|done]]].
  - intros r. apply (quiet_set_tbl port tbl_zero (set_hdr port hdr_zero b)); [by apply quiet_set_hdr|done].
  - by rewrite fn_lookup_insert.
  - by rewrite fn_lookup_insert.
Qed.
End refines.

(** * The laws of the hardware, and those of the interface *)

Section laws.
Context {R : Type} `{!Bus R, !Device R}.
Context (list_at fis_at table_at buf_at ahci_hba_base : Z) (fuel : nat).
Implicit Types (r : R).

(** At most [n] reads of the command issue register until slot 0 is clear. *)
Inductive finishes (port : Z) : nat → R → R → Prop :=
  | finishes_now n r v r' :
      mmio_read32 (ci_register ahci_hba_base port) r = Ok (v, r', []) → Z.land v 1 = 0 → finishes port (S n) r r'
  | finishes_later n r v r' r2 :
      mmio_read32 (ci_register ahci_hba_base port) r = Ok (v, r', []) → Z.land v 1 ≠ 0 → finishes port n r' r2 →
      finishes port (S n) r r2.

(** A command runs: it is issued, finishes, and the interrupt status is
    read; [failed] is the bit that reports an error of the task file. *)
Definition runs (n : nat) (port : Z) (img : image) (buf : list Z) (r : R) (failed : bool) (r2 : R) : Prop :=
  ∃ r' r1 status, issue (ci_register ahci_hba_base port) 1 img buf r = Ok (tt, r', []) ∧ finishes port n r' r1 ∧
    mmio_read32 (u32 (port_base ahci_hba_base port + PxIS)) r1 = Ok (status, r2, []) ∧
    failed = negb (Z.land status 1073741824 =? 0).

Lemma finishes_det port k r r1 r2 : finishes port k r r1 → finishes port k r r2 → r1 = r2.
Proof.
  intros H1. revert r2. induction H1 as [k r v r' Hv Hz|k r v r' r1 Hv Hz H1 IH]; intros r2 H2;
    inversion H2 as [? ? v' ? Hv' Hz'|? ? v' r'' ? Hv' Hz' H2']; subst; rewrite Hv in Hv'; injection Hv' as <- <-; try done.
  by apply IH.
Qed.
Lemma runs_det n port img buf r f1 f2 r1 r2 : runs n port img buf r f1 r1 → runs n port img buf r f2 r2 → f1 = f2 ∧ r1 = r2.
Proof.
  intros (a1&b1&s1&Hi1&Hf1&Hs1&->) (a2&b2&s2&Hi2&Hf2&Hs2&->). rewrite Hi1 in Hi2. injection Hi2 as <-.
  rewrite (finishes_det _ _ _ _ _ Hf2 Hf1) Hs1 in Hs2. by injection Hs2 as <- <-.
Qed.

(** What the driver relies on: a command finishes within [n] polls; one that
    reads or writes a sector, as this driver lays it out, transfers it or
    reports an error. *)
Class DeviceLaws (n : nat) : Prop := {
  dl_length r p l : length (dv_sector r p l) = 512%nat;
  dl_bytes r p l : Forall byte (dv_sector r p l);
  dl_runs port img buf r : ∃ failed r2, runs n port img buf r failed r2;
  dl_read port lba buf r failed r2 : 0 ≤ port < MAX_PORTS → 0 ≤ lba < 281474976710656 → length buf = 512%nat →
    runs n port (command_image table_at buf_at port (Drive.build_command Drive.ATA_CMD_READ_DMA_EXT lba 1 0)) buf r failed r2 →
    (∀ p l, dv_sector r2 p l = dv_sector r p l) ∧ length (transferred port r2) = 512%nat ∧
    (failed = false → transferred port r2 = dv_sector r port lba) ∧ (failed = true → dv_faulty port lba);
  dl_write port lba buf r failed r2 : 0 ≤ port < MAX_PORTS → 0 ≤ lba < 281474976710656 → length buf = 512%nat → Forall byte buf →
    runs n port (command_image table_at buf_at port (Drive.build_command Drive.ATA_CMD_WRITE_DMA_EXT lba 1 1)) buf r failed r2 →
    (∀ p l, (p, l) ≠ (port, lba) → dv_sector r2 p l = dv_sector r p l) ∧
    (failed = false → dv_sector r2 port lba = buf) ∧ (failed = true → dv_faulty port lba)
}.

Context (n : nat) (config : Z → Z → Z → Z) (Hc : controller n ahci_hba_base config (λ _ : R, True)).
Context `{!DeviceLaws n} (Hfuel : (n ≤ fuel)%nat) (Hn : (n ≤ timeout_us)%nat).
#[local] Instance registers : Drive.Hba R := registers_hba list_at fis_at table_at buf_at ahci_hba_base fuel.

Lemma wait_finishes port k r r1 polls status r2 : finishes port k r r1 → (k ≤ polls)%nat →
  mmio_read32 (u32 (port_base ahci_hba_base port + PxIS)) r1 = Ok (status, r2, []) →
  wait_cmd_complete polls ahci_hba_base port r = Ok (if Z.land status 1073741824 =? 0 then 0 else -1, r2, []).
Proof.
  intros Hf. revert polls. induction Hf as [k r v r' Hv Hz|k r v r' r3 Hv Hz _ IH]; intros [|polls] Hk His; try lia;
    cbn [wait_cmd_complete]; rewrite (bind_ok _ _ _ _ _ Hv).
  - rewrite (proj2 (Z.eqb_eq _ _) Hz). by rewrite (bind_ok _ _ _ _ _ His).
  - rewrite (proj2 (Z.eqb_neq _ _) Hz). apply IH; [lia|done].
Qed.
Lemma run_command_runs port c buf r failed r2 : runs n port (command_image table_at buf_at port c) buf r failed r2 →
  run_command table_at buf_at ahci_hba_base port c buf r =
    Ok ((if failed then -1 else 0, transferred port r2), r2, []).
Proof.
  intros (r'&r1&status&Hi&Hf&His&->). rewrite /run_command (bind_ok _ _ _ _ _ Hi).
  rewrite (bind_ok _ _ _ _ _ (wait_finishes _ _ _ _ _ _ _ Hf Hn His)). by destruct (Z.land status 1073741824 =? 0).
Qed.
Lemma returns_wp {X} (m : M R X) r : returns (λ _, True) m (λ _, True) → wp m r (λ _ _ o, o = []).
Proof. intros Hm. destruct (Hm r I) as (x&r'&Hx&_). by rewrite /wp Hx. Qed.

#[local] Instance registers_laws : Drive.HbaLaws R.
Proof.
  split.
  - apply dl_length.
  - apply dl_bytes.
  - intros r p lba buf Hp Hl Hb. destruct (dl_runs p (command_image table_at buf_at p
      (Drive.build_command Drive.ATA_CMD_READ_DMA_EXT lba 1 0)) buf r) as (failed&r2&Hr).
    rewrite /wp /Drive.hba_run /= (run_command_runs _ _ _ _ _ _ Hr).
    destruct (dl_read _ _ _ _ _ _ Hp Hl Hb Hr) as (Hm&Hlen&Hok&Hf). split_and!; [done|done|by destruct failed; auto|by destruct failed; auto].
  - intros r p lba buf Hp Hl Hb Hby. destruct (dl_runs p (command_image table_at buf_at p
      (Drive.build_command Drive.ATA_CMD_WRITE_DMA_EXT lba 1 1)) buf r) as (failed&r2&Hr).
    rewrite /wp /Drive.hba_run /= (run_command_runs _ _ _ _ _ _ Hr).
    destruct (dl_write _ _ _ _ _ _ Hp Hl Hb Hby Hr) as (Hm&Hok&Hf). split_and!; [done|by destruct failed; auto|by destruct failed; auto].
  - intros r p c buf. destruct (dl_runs p (command_image table_at buf_at p c) buf r) as (failed&r2&Hr).
    by rewrite /wp /Drive.hba_run /= (run_command_runs _ _ _ _ _ _ Hr).
  - intros r p. apply returns_wp. eapply returns_bind; [by eapply read_returns|]. intros v _. by apply returns_ret.
  - intros r p Hp. apply returns_wp. by eapply port_init_returns.
  - intros r p Hp. apply returns_wp. by eapply port_stop_returns.
Qed.
End laws.

(** * The driver comes up *)

Section driver.
Context {R : Type} `{!Bus R, !Device R}.
Context (list_at fis_at table_at buf_at : Z) (fuel : nat).
Abbreviation driver := (Drive.ahci R).
Implicit Types (s : driver).

(** The registers behind the driver's variables. *)
#[local] Instance driver_bus : Bus driver := zoomed_bus Drive.hba Drive.set_hba.
Definition port_scan_update (ahci_hba_base port : Z) : M driver unit :=
  @Drive.port_scan_update R (registers_hba list_at fis_at table_at buf_at ahci_hba_base fuel) port.
(** [ahci_init]; it leaves the base address it found in [ahci_hba_base]. *)
Definition ahci_init : M driver (option Z) :=
  found ← Ahci.ahci_init fuel port_scan_update;
  match found with
  | Some ahci_hba_base =>
      modify (λ s, Drive.Ahci (Drive.drives s) true (Drive.byte_buffer s) (Drive.hba s));; mret (Some ahci_hba_base)
  | None => mret None
  end.

(** [ahci_table_update]; its argument is the variable [ahci_hba_base]. *)
Definition ahci_table_update (ahci_hba_base : Z) : M driver unit :=
  s ← get;
  if negb (Drive.ahci_initialized s) then mret tt
  else if ahci_hba_base =? 0 then mret tt
  else
    ports_impl ← mmio_read32 (u32 (ahci_hba_base + HBA_PI));
    scan_implemented port_scan_update ahci_hba_base ports_impl (seqZ 0 MAX_PORTS).
Fixpoint rescans (k : nat) (ahci_hba_base : Z) : M driver unit :=
  match k with
  | O => mret tt
  | S k => ahci_table_update ahci_hba_base;; rescans k ahci_hba_base
  end.

Context (n : nat) (config : Z → Z → Z → Z) (hba : Z) (Hc : controller n hba config (λ _ : R, True)).
Context `{!DeviceLaws table_at buf_at hba n} (Hfuel : (n ≤ fuel)%nat) (Hn : (n ≤ timeout_us)%nat).

(** Between two accesses the drive table is well-formed; [up] tells whether
    the driver is initialised. *)
Definition in_order (up : bool) s : Prop :=
  Drive.table_ok s ∧ length (Drive.byte_buffer s) = 256%nat ∧ Drive.ahci_initialized s = up.

(** The laws of the controller hold for the driver's state as well. *)
Lemma driver_controller up : controller n hba config (in_order up).
Proof. by apply (zoomed_controller Drive.hba Drive.set_hba (λ _, True)). Qed.

Lemma scan_returns up port : 0 ≤ port < 32 → returns (in_order up) (port_scan_update hba port) (λ _, True).
Proof.
  intros Hp s (Hok&Hb&Hup).
  pose proof (@Drive.port_scan_wp R _ (registers_laws list_at fis_at table_at buf_at hba fuel n config Hc Hfuel Hn) s port Hok Hp) as Hw.
  apply wp_run in Hw as ([]&s'&o&Hrun&->&Hok'&Hi&Hb'&_). exists tt, s'. split; [exact Hrun|]. split; [|done].
  split; [done|]. by rewrite Hb' Hi.
Qed.
Lemma update_returns up : returns (in_order up) (ahci_table_update hba) (λ _, True).
Proof.
  intros s Hs. rewrite /ahci_table_update (bind_ok _ _ s s s) //.
  destruct (negb _); [by apply (returns_ret _ tt)|]. destruct (hba =? 0); [by apply (returns_ret _ tt)|].
  revert s Hs. eapply (returns_bind _ _ _ (λ _, True)).
  - eapply read_returns, driver_controller.
  - intros pi _. apply scan_implemented_returns. intros port Hp%elem_of_seqZ. apply scan_returns.
    rewrite /MAX_PORTS in Hp. lia.
Qed.
Lemma rescans_return up k : returns (in_order up) (rescans k hba) (λ _, True).
Proof.
  induction k as [|k IH]; [by apply returns_ret|].
  eapply (returns_bind _ _ _ (λ _, True)); [apply update_returns|done].
Qed.

(** What a drive of the table stores. *)
Definition stores (H : Drive.Hba R) s : Prop :=
  ∀ i port size addr src, 0 ≤ i → Drive.drives s !! Z.to_nat i = Some (port, size) →
    Drive.addressable addr (Z.of_nat (length src)) → Forall byte src →
    ¬ Drive.range_faulty port addr (Z.of_nat (length src)) →
    wp (Drive.ahci_write i addr (Z.of_nat (length src)) (Some src)) s (λ w s1 _, w = 0 ∧
      (∀ p a, 0 ≤ a → ¬ (p = port ∧ addr ≤ a < addr + Z.of_nat (length src)) →
        Drive.disk_byte (Drive.hba s1) p a = Drive.disk_byte (Drive.hba s) p a) ∧
      wp (Drive.ahci_read i addr (Z.of_nat (length src))) s1 (λ r s2 _,
        r = true ∧ Drive.drives s2 = Drive.drives s ∧ slice 0 (Z.of_nat (length src)) (Drive.byte_buffer s2) = src)).

Lemma in_order_stores s : in_order true s → stores (registers_hba list_at fis_at table_at buf_at hba fuel) s.
Proof.
  intros ([_ Hr]&Hbuf&Hup) i port size addr src Hi Hd Ha Hby Hnf.
  assert (Hport : 0 ≤ port < Drive.MAX_PORTS).
  { rewrite Forall_forall in Hr. apply Hr, list_elem_of_fmap. exists (port, size). split; [done|].
    by eapply list_elem_of_lookup_2. }
  apply (@Drive.write_read_ok R _ (registers_laws list_at fis_at table_at buf_at hba fuel n config Hc Hfuel Hn))
    with (size := size); done.
Qed.

End driver.

(** * Examples

    The controller of [Ahci] with the drive of [Drive] attached to it: it
    decodes what it fetches and is done at once. *)
Section demo.
Record bay : Type := Bay { attached : machine demo_space; media : Drive.medium; data : list Z }.
Definition attach (m : machine demo_space) (b : bay) : bay := Bay m (media b) (data b).
#[local] Instance bay_bus : Bus bay := zoomed_bus attached attach.

Definition command_of (img : image) : Drive.command :=
  Drive.Command (nth 0 (im_header img) 0) (nth 2 (im_region img) 0) (nth 3 (im_region img) 0) (take 16 (im_fis img)).
Definition port_of (addr : Z) : Z := (addr - (demo_base + 256 + PxCI)) / 128.
#[local] Instance bay_device : Device bay := {|
  issue addr _ img buf := λ b,
    match Drive.hba_run (port_of addr) (command_of img) buf (media b) with
    | Ok ((_, buf'), m, _) =>
        Ok (tt, Bay (Machine (latch (attached b)) (<[addr := 0]> (<[u32 (addr - (PxCI - PxIS)) := 0]> (regs (attached b)))))
          m buf', [])
    | Fault => Fault
    | NoFuel => NoFuel
    end;
  transferred _ b := data b;
  dv_sector b := Drive.sector (media b);
  dv_faulty := Drive.faulty
|}.

Lemma command_of_image table_at buf_at port cmd lba n w :
  command_of (command_image table_at buf_at port (Drive.build_command cmd lba n w)) = Drive.build_command cmd lba n w.
Proof. reflexivity. Qed.
Lemma port_of_ci port : 0 ≤ port < 32 → port_of (ci_register demo_base port) = port.
Proof.
  intros Hp. rewrite /port_of /ci_register /port_base /demo_base /PxCI (u32_small (_ + port * 128)); [lia|].
  rewrite u32_small; dlia.
Qed.
(** The registers of a port are told apart by their offsets. *)
Lemma port_mod port off : 0 ≤ off < 128 → u32 (port_base demo_base port + off) mod 128 = off.
Proof. intros Ho. rewrite /port_base /demo_base /u32. dlia. Qed.
Lemma register_plain (m : machine demo_space) port off : 0 ≤ off < 128 → off ≠ HBA_GHC → off ≠ PxCMD →
  register m (u32 (port_base demo_base port + off)) = default 0 (regs m !! u32 (port_base demo_base port + off)).
Proof.
  intros Ho Hg Hc. pose proof (port_mod port off Ho) as Hm. rewrite /register Hm (proj2 (Z.eqb_neq off _) Hc).
  rewrite (proj2 (Z.eqb_neq _ _)) //. intros Heq. rewrite Heq in Hm. vm_compute in Hm. by rewrite -Hm in Hg.
Qed.

Lemma demo_controller_bay : controller 1 demo_base demo_config (λ _ : bay, True).
Proof. by apply (zoomed_controller attached attach (λ _, True)), demo_controller. Qed.

Lemma status_register port : u32 (ci_register demo_base port - (PxCI - PxIS)) = u32 (port_base demo_base port + PxIS).
Proof. rewrite /ci_register /u32 Zminus_mod_idemp_l. f_equal. rewrite /PxCI /PxIS. lia. Qed.

Lemma bay_read addr m d x : mmio_read32 addr (Bay m d x) = Ok (register m addr, Bay m d x, []).
Proof. done. Qed.

Lemma bay_runs port img buf b : ∃ r x m, Drive.hba_run (port_of (ci_register demo_base port)) (command_of img) buf (media b) =
    Ok ((r, x), m, []) ∧ ∃ regs', runs demo_base 1 port img buf b false (Bay (Machine (latch (attached b)) regs') m x).
Proof.
  pose proof (Drive.hba_run_total (media b) (port_of (ci_register demo_base port)) (command_of img) buf) as Hw.
  apply wp_run in Hw as ([r x]&m&o&Hrun&->). exists r, x, m. split; [done|].
  set regs' := <[ci_register demo_base port := 0]> (<[u32 (port_base demo_base port + PxIS) := 0]> (regs (attached b))).
  exists regs'. set b' := Bay _ m x. exists b', b', 0. split_and!.
  - cbn [issue bay_device]. rewrite Hrun status_register //.
  - eapply (finishes_now _ _ _ _ 0); [|done]. rewrite bay_read /ci_register register_plain //.
    do 2 f_equal. by rewrite /regs' lookup_insert_eq.
  - rewrite bay_read register_plain //. do 2 f_equal. rewrite /regs' /ci_register lookup_insert_ne.
    + intros Heq. pose proof (port_mod port PxCI ltac:(done)) as H1. by rewrite Heq port_mod in H1.
    + by rewrite lookup_insert_eq.
  - done.
Qed.

(** The command ran on the drive of [Drive]. *)
Lemma bay_ran table_at buf_at port cmd lba n w buf b failed b2 : 0 ≤ port < 32 →
  runs demo_base 1 port (command_image table_at buf_at port (Drive.build_command cmd lba n w)) buf b failed b2 →
  ∃ r, Drive.hba_run port (Drive.build_command cmd lba n w) buf (media b) = Ok ((r, data b2), media b2, []) ∧ failed = false.
Proof.
  intros Hp Hr. destruct (bay_runs port (command_image table_at buf_at port (Drive.build_command cmd lba n w)) buf b)
    as (r&x&m&Hrun&regs'&Hr').
  destruct (runs_det _ _ _ _ _ _ _ _ _ _ Hr Hr') as [-> ->]. exists r. by rewrite port_of_ci // command_of_image in Hrun.
Qed.
#[local] Instance bay_laws table_at buf_at : DeviceLaws table_at buf_at demo_base 1.
Proof.
  split.
  - intros b. apply (Drive.sector_length (media b)).
  - intros b. apply (Drive.sector_bytes (media b)).
  - intros port img buf b. destruct (bay_runs port img buf b) as (r&x&m&_&regs'&Hr). by eexists _, _.
  - intros port lba buf b failed b2 Hp Hl Hb (r&Hrun&->)%bay_ran; [|done].
    pose proof (Drive.hba_read (media b) port lba buf Hp Hl Hb) as Hw. rewrite /wp Hrun in Hw. destruct Hw as (Hm&Hlen&Hok&Hf).
    split_and!; [done|done| |done]. intros _. apply Hok. by destruct (decide (r = 0)); [|destruct Hf].
  - intros port lba buf b failed b2 Hp Hl Hb Hby (r&Hrun&->)%bay_ran; [|done].
    pose proof (Drive.hba_write (media b) port lba buf Hp Hl Hb Hby) as Hw. rewrite /wp Hrun in Hw. destruct Hw as (Hm&Hok&Hf).
    split_and!; [done| |done]. intros _. apply Hok. by destruct (decide (r = 0)); [|destruct Hf].
Qed.

(** The machine as it is switched on, the drive on port 0. *)
Definition demo_bay : bay :=
  Bay (Machine 0 {[ demo_base + HBA_PI := 1; demo_base + 256 + PxSSTS := 3 ]}) ∅ (zeros 512).
Definition demo_driver : Drive.ahci bay := Drive.Ahci [] false (zeros 256) demo_bay.
Definition demo_areas : board bay := Board demo_bay (λ _, hdr_zero) (λ _, tbl_zero).

Example demo_driver_up :
  match ahci_init 65536 196608 327680 393216 1 demo_driver with
  | Ok (found, s, _) => found = Some demo_base ∧ Drive.drives s !! 0%nat = Some (0, 0) ∧ Drive.ahci_initialized s = true
  | _ => False
  end.
Proof. vm_compute. done. Qed.

Lemma registers_refine_witness :
  (∃ l t, (∀ r : bay, quiet (Board r l t)) ∧
    exec_ata_cmd 327680 393216 demo_base 0 Drive.ATA_CMD_WRITE_DMA_EXT 7 1 (Some (zeros 512)) 1 demo_areas =
      on_areas l t (run_command 327680 393216 demo_base 0 (Drive.build_command Drive.ATA_CMD_WRITE_DMA_EXT 7 1 1) (zeros 512) demo_bay)) ∧
  ∃ l t, (∀ r : bay, quiet (Board r l t)) ∧ l 0 = hdr_zero ∧ t 0 = tbl_zero ∧
    port_init 65536 196608 demo_base 1 0 demo_areas =
      on_areas l t (Ahci.port_init 1 65536 196608 demo_base 0 demo_bay).
Proof.
  apply (registers_refine 65536 196608 327680 393216 demo_base 1 0 Drive.ATA_CMD_WRITE_DMA_EXT 7 1 (zeros 512) 1 demo_areas).
  intros port. by split; repeat split.
Defined.

End demo.
End Registers.
