(* ===== verification/Partition.v ===== *)
(** drivers/src/drive_partition.c: MBR partitions over the AHCI driver.

    The spinlock is a flag: acquiring it while it is held spins forever,
    since nothing else runs. The chain of extended partitions is followed
    with fuel; [parse_mbr_spec] shows that the length of the chain is
    enough, and [parse_ebr_cycle_hangs] that no fuel is enough for a chain
    that returns to itself. *)
From S2P Require Import Prelude.
From S2P Require Import Bytes.
From S2P Require Import Drive.
Import Bytes Drive.
#[local] Open Scope general_if_scope.

Module Partition.

Definition MBR_SIGNATURE_OFFSET : Z := 510.
Definition MBR_SIGNATURE : Z := 43605.
Definition PARTITION_TABLE_OFFSET : Z := 446.
Definition PARTITION_ENTRY_SIZE : Z := 16.
Definition MAX_PARTS_PER_DRIVE : Z := 32.
Definition PART_TYPE_EXTENDED : Z := 5.
Definition PART_TYPE_EXTENDED_LBA : Z := 15.
Definition PART_TYPE_EXTENDED_W95 : Z := 133.

Record partition_entry : Type := Entry { start_lba : Z; sector_count : Z; type : Z }.

(** [struct drive_partitions] is the list of its valid entries. *)
Abbreviation drive_partitions := (list partition_entry).

(** The driver below, [drive_parts], and the lock. *)
Record state (D : Type) : Type := State {
  disk : ahci D;
  drive_parts : list drive_partitions;
  partition_lock : bool
}.
Arguments State {D} _ _ _.
Arguments disk {D} _.
Arguments drive_parts {D} _.
Arguments partition_lock {D} _.

(** The 16 bytes of a table entry. *)
Definition parse_partition_entry (entry : list Z) : partition_entry :=
  Entry (load32 8 entry) (load32 12 entry) (default 0 (entry !! 4%nat)).

Definition is_extended (pe : partition_entry) : bool :=
  (type pe =? PART_TYPE_EXTENDED) || (type pe =? PART_TYPE_EXTENDED_LBA) ||
  (type pe =? PART_TYPE_EXTENDED_W95).

(** [dp->parts[dp->count++] = pe], when there is room. *)
Definition add_part (pe : partition_entry) (dp : drive_partitions) : drive_partitions :=
  if Z.of_nat (length dp) <? MAX_PARTS_PER_DRIVE then dp ++ [pe] else dp.

Definition table_entry (i : Z) (sector : list Z) : partition_entry :=
  parse_partition_entry
    (slice (PARTITION_TABLE_OFFSET + i * PARTITION_ENTRY_SIZE) PARTITION_ENTRY_SIZE sector).

Definition signature (sector : list Z) : Z := load16 MBR_SIGNATURE_OFFSET sector.

Section ops.
Context {D : Type} `{!Hba D}.

Definition set_disk (d : ahci D) (s : state D) : state D :=
  State d (drive_parts s) (partition_lock s).
Definition set_parts (i : nat) (dp : drive_partitions) (s : state D) : state D :=
  State (disk s) (<[i := dp]> (drive_parts s)) (partition_lock s).
Definition set_lock (b : bool) (s : state D) : state D := State (disk s) (drive_parts s) b.
Definition on_disk {X} (m : M (ahci D) X) : M (state D) X := zoom disk set_disk m.

Definition lock_acquire : M (state D) unit :=
  s ← get;
  if partition_lock s then nofuel else modify (set_lock true).
Definition lock_release : M (state D) unit := modify (set_lock false).

(** The result and the 512 bytes of the buffer; the byte address is a
    32-bit integer. *)
Definition read_sector (drive lba : Z) : M (ahci D) (Z * list Z) :=
  let addr := u32 (lba * SECTOR_SIZE) in
  p ← ahci_read drive addr 256;
  if negb p then mret (-1, [])
  else
    s ← get;
    let first := slice 0 256 (byte_buffer s) in
    p ← ahci_read drive (u32 (addr + 256)) 256;
    if negb p then mret (-1, [])
    else s ← get; mret (0, first ++ slice 0 256 (byte_buffer s)).

(** The loop of [parse_ebr]; [dp] is the list built so far. *)
Fixpoint parse_ebr (fuel : nat) (drive current_lba : Z) (dp : drive_partitions) :
  M (ahci D) (Z * drive_partitions) :=
  if current_lba =? 0 then mret (0, dp)
  else match fuel with
  | O => nofuel
  | S fuel =>
      '(r, sector) ← read_sector drive current_lba;
      if negb (r =? 0) then mret (-1, dp)
      else if negb (signature sector =? MBR_SIGNATURE) then mret (0, dp)
      else
        let log_part := table_entry 0 sector in
        let dp := if 0 <? sector_count log_part then add_part log_part dp else dp in
        parse_ebr fuel drive (start_lba (table_entry 1 sector)) dp
  end.

(** The loop over the four primary entries. *)
Fixpoint parse_entries (fuel : nat) (drive : Z) (es : list partition_entry)
  (dp : drive_partitions) : M (ahci D) drive_partitions :=
  match es with
  | [] => mret dp
  | pe :: es =>
      if sector_count pe =? 0 then parse_entries fuel drive es dp
      else if is_extended pe then
        '(_, dp) ← parse_ebr fuel drive (start_lba pe) dp;
        parse_entries fuel drive es dp
      else parse_entries fuel drive es (add_part pe dp)
  end.

Definition parse_mbr (fuel : nat) (drive : Z) : M (state D) unit :=
  modify (set_parts (Z.to_nat drive) []);;
  '(r, mbr) ← on_disk (read_sector drive 0);
  if negb (r =? 0) then mret tt
  else if negb (signature mbr =? MBR_SIGNATURE) then mret tt
  else
    dp ← on_disk (parse_entries fuel drive ((λ i, table_entry i mbr) <$> seqZ 0 4) []);
    modify (set_parts (Z.to_nat drive) dp).

Fixpoint parse_all (fuel : nat) (ds : list Z) : M (state D) unit :=
  match ds with
  | [] => mret tt
  | d :: ds => parse_mbr fuel d;; parse_all fuel ds
  end.

Definition update_partition_tables (fuel : nat) (ports_impl : Z) : M (state D) unit :=
  lock_acquire;;
  on_disk (ahci_table_update ports_impl);;
  s ← get;
  parse_all fuel (seqZ 0 (drive_count (disk s)));;
  lock_release.

(** The count of a drive's partitions, and one of them. *)
Definition part_count (s : state D) (drive : Z) : Z :=
  Z.of_nat (length (default [] (drive_parts s !! Z.to_nat drive))).
Definition bad_partition (s : state D) (drive part : Z) : bool :=
  (drive <? 0) || (drive_count (disk s) <=? drive) || (part <? 0) || (part_count s drive <=? part).
Definition partition_at (s : state D) (drive part : Z) : option partition_entry :=
  dp ← drive_parts s !! Z.to_nat drive; dp !! Z.to_nat part.

(** The bytes copied to [buffer] come with the result. *)
Definition partition_read (drive part offset length : Z) : M (state D) (Z * list Z) :=
  lock_acquire;;
  s ← get;
  if bad_partition s drive part then lock_release;; mret (-1, [])
  else
    pe ← unwrap (partition_at s drive part);
    let part_start_byte := u64 (start_lba pe * SECTOR_SIZE) in
    if u64 (sector_count pe * SECTOR_SIZE) <? u64 (offset + u64 length)
    then lock_release;; mret (-1, [])
    else
      let abs_addr := u64 (part_start_byte + offset) in
      lock_release;;
      p ← on_disk (ahci_read drive abs_addr (u64 length));
      if negb p then mret (-1, [])
      else s ← get; mret (0, slice 0 length (byte_buffer (disk s))).

Definition partition_write (drive part offset length : Z) (buffer : option (list Z)) :
  M (state D) Z :=
  lock_acquire;;
  s ← get;
  if bad_partition s drive part then lock_release;; mret (-1)
  else
    pe ← unwrap (partition_at s drive part);
    let part_start_byte := u64 (start_lba pe * SECTOR_SIZE) in
    if u64 (sector_count pe * SECTOR_SIZE) <? u64 (offset + u64 length)
    then lock_release;; mret (-1)
    else
      let abs_addr := u64 (part_start_byte + offset) in
      lock_release;;
      on_disk (ahci_write drive abs_addr (u64 length) buffer).

Definition get_partition_count (drive : Z) : M (state D) Z :=
  lock_acquire;;
  s ← get;
  let cnt := if (0 <=? drive) && (drive <? drive_count (disk s)) then part_count s drive else 0 in
  lock_release;;
  mret cnt.

Definition partition_get_sector_count (drive part : Z) : M (state D) Z :=
  s ← get;
  if bad_partition s drive part then mret 0
  else pe ← unwrap (partition_at s drive part); mret (sector_count pe).

Definition partition_init (fuel : nat) (ports_impl : Z) : M (state D) unit :=
  update_partition_tables fuel ports_impl.
End ops.

Section theory.
Context {D : Type} `{!Hba D, !HbaLaws D}.
Implicit Types (s : state D).

(** The invariant of the partition tables: the lock is free, there is one
    list for each of the 32 drives, and its entries come from 32-bit
    fields. *)
Definition entry_ok (pe : partition_entry) : Prop :=
  0 ≤ start_lba pe < 4294967296 ∧ 0 ≤ sector_count pe < 4294967296.
Record inv s : Prop := {
  inv_lock : partition_lock s = false;
  inv_drives : length (drive_parts s) = 32%nat;
  inv_entries : Forall (Forall entry_ok) (drive_parts s);
  inv_counts : Forall (λ dp : drive_partitions, Z.of_nat (length dp) ≤ MAX_PARTS_PER_DRIVE) (drive_parts s)
}.

(** Partition [part] of the drive [n] is [pe], and the drive can be used. *)
Definition usable s (n part port size : Z) (pe : partition_entry) : Prop :=
  inv s ∧ ready (disk s) n port size ∧ 0 ≤ part ∧ partition_at s n part = Some pe.

Definition part_bytes (pe : partition_entry) : Z := sector_count pe * 512.
Definition part_start (pe : partition_entry) : Z := start_lba pe * 512.

Lemma partition_at_ok s n part pe : inv s → partition_at s n part = Some pe → entry_ok pe.
Proof.
  intros Hinv (dp&Hdp&Hpe)%bind_Some.
  pose proof (inv_entries _ Hinv) as Hall. rewrite Forall_lookup in Hall.
  specialize (Hall _ _ Hdp). rewrite Forall_lookup in Hall. by eapply Hall.
Qed.

Lemma usable_entry s n part port size pe : usable s n part port size pe → entry_ok pe.
Proof. intros (Hinv&_&_&Hpe). by eapply partition_at_ok. Qed.

Lemma good_partition s n part :
  bad_partition s n part = false →
  0 ≤ n < drive_count (disk s) ∧ 0 ≤ part ∧ is_Some (partition_at s n part).
Proof.
  rewrite /bad_partition. intros (((Hn&Hd)%orb_false_iff&Hp)%orb_false_iff&Hc)%orb_false_iff.
  apply Z.ltb_ge in Hn, Hp. apply Z.leb_gt in Hd, Hc. split_and!; [done..|].
  rewrite /partition_at. unfold part_count in Hc.
  destruct (drive_parts s !! Z.to_nat n) as [dp|]; simpl in *; [|lia].
  apply lookup_lt_is_Some. lia.
Qed.

Lemma usable_bad s n part port size pe :
  usable s n part port size pe → bad_partition s n part = false.
Proof.
  intros (Hinv&Hr&Hp&Hpe). pose proof (ready_range _ _ _ _ Hr) as Hb.
  rewrite /bad_partition Hb /=. rewrite /partition_at in Hpe.
  apply bind_Some in Hpe as (dp&Hdp&Hpe%lookup_lt_Some). rewrite /part_count Hdp /=.
  destruct (Z.ltb_spec part 0), (Z.leb_spec (Z.of_nat (length dp)) part); simpl; lia || done.
Qed.

Lemma lock_id s : partition_lock s = false → set_lock false s = s.
Proof. destruct s; simpl. by intros ->. Qed.

Lemma acquire_wp s (Q : unit → state D → list event → Prop) :
  partition_lock s = false → Q tt (set_lock true s) [] → wp lock_acquire s Q.
Proof. intros Hl HQ. rewrite /lock_acquire. wp_steps. rewrite Hl. by wp_steps. Qed.

(** A transfer that the tables allow reaches the driver unchanged, at the
    address the partition gives. *)
Lemma partition_read_ok s n part port size pe offset len :
  usable s n part port size pe → 0 ≤ offset → 0 < len ≤ 256 → offset + len ≤ part_bytes pe →
  wp (partition_read n part offset len) s (λ '(r, bs) s' _,
    same_driver (disk s) (disk s') ∧ drive_parts s' = drive_parts s ∧ partition_lock s' = false ∧
    (r = 0 → Z.of_nat (length bs) = len ∧
      ∀ j, 0 ≤ j < len → bs !! Z.to_nat j = disk_byte (hba (disk s)) port (part_start pe + offset + j)) ∧
    (r ≠ 0 → range_faulty port (part_start pe + offset) len)).
Proof.
  intros Hu Ho Hl Hb. pose proof (usable_entry _ _ _ _ _ _ Hu) as [Hs Hc].
  pose proof (usable_bad _ _ _ _ _ _ Hu) as Hbad. pose proof Hu as (Hinv&Hr&_&Hpe).
  unfold part_bytes, part_start, SECTOR_SIZE in *.
  rewrite /partition_read. apply wp_bind, acquire_wp; [apply (inv_lock _ Hinv)|]. wp_steps.
  change (bad_partition (set_lock true s) n part) with (bad_partition s n part). rewrite Hbad.
  change (partition_at (set_lock true s) n part) with (partition_at s n part). rewrite Hpe.
  wp_steps. rewrite /SECTOR_SIZE (u64_small len); [lia|].
  rewrite (u64_small (sector_count pe * 512)) ?(u64_small (offset + len)); [lia..|].
  rewrite (proj2 (Z.ltb_ge _ _)); [lia|]. rewrite /lock_release /on_disk. wp_steps.
  rewrite (u64_small (start_lba pe * 512)) ?(u64_small (start_lba pe * 512 + offset)); [lia..|].
  eapply wp_mono; [eapply ahci_read_wp; [done|split; lia]|]. intros p d o (Hd&Hbytes&Hf).
  pose proof Hr as (_&_&_&_&H256). pose proof (same_length _ _ Hd) as Hlen. simpl in *.
  destruct p; simpl; wp_steps; [|by split_and!; auto].
  split_and!; [done..| |done]. intros _. split.
  - rewrite /= length_slice; lia.
  - intros j Hj. rewrite /= lookup_slice; [lia..|]. by apply Hbytes.
Qed.

Lemma partition_write_ok s n part port size pe offset len src :
  usable s n part port size pe → 0 ≤ offset → 0 < len ≤ 256 → offset + len ≤ part_bytes pe →
  len ≤ Z.of_nat (length src) → Forall byte src →
  wp (partition_write n part offset len (Some src)) s (λ r s' _,
    same_table (disk s) (disk s') ∧ drive_parts s' = drive_parts s ∧ partition_lock s' = false ∧
    (r = 0 → written (hba (disk s)) port (part_start pe + offset) (take (Z.to_nat len) src)
      (hba (disk s'))) ∧
    (r ≠ 0 → range_faulty port (part_start pe + offset) len)).
Proof.
  intros Hu Ho Hl Hb Hsrc Hby. pose proof (usable_entry _ _ _ _ _ _ Hu) as [Hs Hc].
  pose proof (usable_bad _ _ _ _ _ _ Hu) as Hbad. pose proof Hu as (Hinv&Hr&_&Hpe).
  unfold part_bytes, part_start, SECTOR_SIZE in *.
  rewrite /partition_write. apply wp_bind, acquire_wp; [apply (inv_lock _ Hinv)|]. wp_steps.
  change (bad_partition (set_lock true s) n part) with (bad_partition s n part). rewrite Hbad.
  change (partition_at (set_lock true s) n part) with (partition_at s n part). rewrite Hpe.
  wp_steps. rewrite /SECTOR_SIZE (u64_small len); [lia|].
  rewrite (u64_small (sector_count pe * 512)) ?(u64_small (offset + len)); [lia..|].
  rewrite (proj2 (Z.ltb_ge _ _)); [lia|]. rewrite /lock_release /on_disk. wp_steps.
  rewrite (u64_small (start_lba pe * 512)) ?(u64_small (start_lba pe * 512 + offset)); [lia..|].
  eapply wp_mono; [eapply ahci_write_wp; [done|split; lia|done|done]|]. by intros r d o (Hd&Hw&Hf).
Qed.

Lemma usable_step s s' n part port size pe :
  usable s n part port size pe → ready (disk s') n port size → drive_parts s' = drive_parts s →
  partition_lock s' = false → usable s' n part port size pe.
Proof.
  intros (Hinv&_&Hp&Hpe) Hr Hparts Hlock. split; [|split; [done|split; [done|]]].
  - destruct Hinv. by split; rewrite ?Hparts.
  - by rewrite /partition_at Hparts.
Qed.


(** A transfer the partition refuses. *)
Lemma partition_rejects_ok s n part offset len buf :
  inv s → 0 ≤ offset < 9223372036854775808 → -2147483648 ≤ len < 2147483648 →
  ¬ (0 ≤ n < drive_count (disk s) ∧ 0 ≤ part ∧ 0 < len ≤ 256 ∧
     ∃ pe, partition_at s n part = Some pe ∧ offset + len ≤ part_bytes pe) →
  partition_read n part offset len s = Ok ((-1, []), s, []) ∧
  partition_write n part offset len buf s = Ok (-1, s, []).
Proof.
  intros Hinv Ho Hlen Hrej. pose proof (inv_lock _ Hinv) as Hlock.
  assert (lock_acquire s = Ok (tt, set_lock true s, [])) as Hacq.
  { rewrite /lock_acquire (bind_ok _ _ s s s) // Hlock //. }
  rewrite /partition_read /partition_write !(bind_ok lock_acquire _ s tt (set_lock true s)) //.
  rewrite !(bind_ok get _ _ (set_lock true s) (set_lock true s)) //.
  change (bad_partition (set_lock true s) n part) with (bad_partition s n part).
  change (partition_at (set_lock true s) n part) with (partition_at s n part).
  assert (set_lock false (set_lock true s) = s) as Hid by exact (lock_id s Hlock).
  destruct (bad_partition s n part) eqn:Hbad.
  { by rewrite !(bind_ok lock_release _ _ tt (set_lock false (set_lock true s))) // Hid. }
  destruct (good_partition _ _ _ Hbad) as (Hn&Hp&[pe Hpe]).
  pose proof (partition_at_ok _ _ _ _ Hinv Hpe) as [Hs Hc]. rewrite Hpe.
  rewrite !(bind_ok (unwrap (Some pe)) _ _ pe (set_lock true s)) // /SECTOR_SIZE.
  rewrite (u64_small (sector_count pe * 512)); [lia|].
  destruct (Z.ltb_spec (sector_count pe * 512) (u64 (offset + u64 len))) as [Hlt|Hge].
  { by rewrite !(bind_ok lock_release _ _ tt (set_lock false (set_lock true s))) // Hid. }
  assert (¬ (0 < u64 len ≤ 256)) as Hbig.
  { intros H256. assert (u64 len = len) as Heq by (unfold u64 in *; dlia). apply Hrej.
    split_and!; [lia..|]. exists pe. split; [done|]. rewrite Heq u64_small in Hge; [lia|].
    unfold part_bytes. lia. }
  rewrite !(bind_ok lock_release _ _ tt s) //; [by rewrite -{2}Hid..|].
  rewrite /on_disk. split.
  - rewrite (bind_ok _ _ s false s) // /zoom. rewrite ahci_read_reject; [naive_solver|]. by destruct s.
  - rewrite /zoom. rewrite ahci_write_reject; [naive_solver|]. by destruct s.
Qed.


(** * The partition tables *)

(** The sector a 32-bit byte address reaches. *)
Definition reached (lba : Z) : Z := lba mod 8388608.
Definition image (d : ahci D) (port lba : Z) : list Z := sector (hba d) port (reached lba).
(** No sector of the device is faulty. *)
Definition sound (port : Z) : Prop := ∀ l, ¬ faulty port l.

Lemma read_sector_wp (d : ahci D) n port size lba :
  ready d n port size → sound port →
  wp (read_sector n lba) d (λ '(r, b) d' _,
    same_driver d d' ∧ r = 0 ∧ b = image d port lba).
Proof.
  intros Hr Hsound. rewrite /read_sector /SECTOR_SIZE. set a := u32 (lba * 512).
  assert (a = 512 * reached lba) as Ha by (unfold a, u32, reached; dlia).
  assert (0 ≤ reached lba < 8388608) as Hl by (unfold reached; dlia).
  assert (u32 (a + 256) = a + 256) as -> by (apply u32_small; lia).
  apply wp_bind. eapply wp_mono; [eapply ahci_read_wp; [done|split; lia]|].
  intros r d1 o1 (Hd1&Hb1&Hf1). destruct r; [|by destruct Hf1 as (?&_&?%Hsound)].
  cbn [negb]. wp_steps.
  eapply wp_mono; [eapply ahci_read_wp; [by eapply ready_same_driver|split; lia]|].
  intros r d2 o2 (Hd2&Hb2&Hf2). destruct r; [|by destruct Hf2 as (?&_&?%Hsound)].
  cbn [negb]. wp_steps. split_and!; [by eapply same_driver_trans|done|].
  specialize (Hb1 eq_refl). specialize (Hb2 eq_refl).
  pose proof Hr as (_&_&_&_&H256). pose proof (same_length _ _ Hd1). pose proof (same_length _ _ Hd2).
  assert (∀ d0 : ahci D, length (byte_buffer d0) = 256%nat → slice 0 256 (byte_buffer d0) = byte_buffer d0) as Hs.
  { intros d0 Hd0. rewrite /slice take_ge // length_drop. lia. }
  rewrite !Hs; [congruence..|]. apply list_eq. intros j.
  assert (∀ k, 0 ≤ k < 512 → disk_byte (hba d) port (512 * reached lba + k) =
    image d port lba !! Z.to_nat k) as Hbyte.
  { intros k Hk. rewrite /disk_byte /image.
    replace ((512 * reached lba + k) / 512) with (reached lba) by dlia.
    by replace ((512 * reached lba + k) mod 512) with k by dlia. }
  destruct (decide (j < 256)%nat) as [Hj|Hj]; [|destruct (decide (j < 512)%nat) as [Hj2|Hj2]].
  - rewrite lookup_app_l; [lia|]. rewrite -(Nat2Z.id j) Hb1; [lia|]. rewrite Ha Hbyte //. lia.
  - rewrite lookup_app_r; [lia|]. replace (j - length (byte_buffer d1))%nat with (Z.to_nat (Z.of_nat j - 256)) by lia.
    rewrite Hb2; [lia|]. rewrite (same_medium_byte (hba d)); [apply (same_hba _ _ Hd1)|].
    replace (a + 256 + (Z.of_nat j - 256)) with (512 * reached lba + Z.of_nat j) by lia.
    rewrite Hbyte; [lia|]. by rewrite Nat2Z.id.
  - rewrite !lookup_ge_None_2 //; rewrite ?length_app ?sector_length; lia.
Qed.

(** The logical partitions of the chain of EBRs that starts at [lba], as
    the tables on the medium give it, and its length. *)
Inductive ebr_chain (img : Z → list Z) : nat → Z → list partition_entry → Prop :=
  | chain_end : ebr_chain img 0 0 []
  | chain_bad lba : lba ≠ 0 → signature (img lba) ≠ MBR_SIGNATURE → ebr_chain img 1 lba []
  | chain_next k lba ps :
      lba ≠ 0 → signature (img lba) = MBR_SIGNATURE →
      ebr_chain img k (start_lba (table_entry 1 (img lba))) ps →
      ebr_chain img (S k) lba
        (filter (λ pe, 0 < sector_count pe) [table_entry 0 (img lba)] ++ ps).

(** What a table keeps of a list of partitions: the first 32. *)
Definition kept (ps : drive_partitions) : drive_partitions :=
  take (Z.to_nat MAX_PARTS_PER_DRIVE) ps.

Lemma kept_add pe ps : add_part pe (kept ps) = kept (ps ++ [pe]).
Proof.
  rewrite /add_part /kept /MAX_PARTS_PER_DRIVE length_take. zcase.
  - rewrite (take_ge ps); [lia|]. rewrite take_ge // length_app /=. lia.
  - rewrite take_app_le //. lia.
Qed.

Lemma parse_ebr_wp (d0 d : ahci D) n port size k lba ps fuel acc :
  ready d0 n port size → sound port → same_driver d0 d → ebr_chain (image d0 port) k lba ps →
  (k ≤ fuel)%nat →
  wp (parse_ebr fuel n lba (kept acc)) d (λ '(r, dp) d' _,
    same_driver d0 d' ∧ r = 0 ∧ dp = kept (acc ++ ps)).
Proof.
  intros Hr Hsound Hs Hc. revert fuel acc d Hs.
  induction Hc as [|lba Hl Hsig|k lba ps Hl Hsig Hc IH]; intros fuel acc d Hs Hk.
  - rewrite app_nil_r. destruct fuel; simpl; by wp_steps.
  - destruct fuel as [|fuel]; [lia|]. cbn [parse_ebr]. rewrite (proj2 (Z.eqb_neq lba 0)) // app_nil_r.
    apply wp_bind. eapply wp_mono; [by eapply read_sector_wp; [eapply ready_same_driver|]|].
    intros [r b] d1 o1 (Hd1&->&->). cbn [negb Z.eqb].
    assert (image d port lba = image d0 port lba) as -> by (rewrite /image (same_hba _ _ Hs) //).
    rewrite (proj2 (Z.eqb_neq (signature _) _)) //. cbn [negb]. wp_steps.
    split_and!; [by eapply same_driver_trans|done|done].
  - destruct fuel as [|fuel]; [lia|]. cbn [parse_ebr]. rewrite (proj2 (Z.eqb_neq lba 0)) //.
    apply wp_bind. eapply wp_mono; [by eapply read_sector_wp; [eapply ready_same_driver|]|].
    intros [r b] d1 o1 (Hd1&->&->). cbn [negb Z.eqb].
    assert (image d port lba = image d0 port lba) as -> by (rewrite /image (same_hba _ _ Hs) //).
    rewrite Hsig Z.eqb_refl. cbn [negb].
    assert ((if 0 <? sector_count (table_entry 0 (image d0 port lba))
             then add_part (table_entry 0 (image d0 port lba)) (kept acc) else kept acc) =
      kept (acc ++ filter (λ pe, 0 < sector_count pe) [table_entry 0 (image d0 port lba)])) as ->.
    { rewrite filter_cons filter_nil. zcase; case_decide; try lia; [by rewrite kept_add|by rewrite app_nil_r]. }
    eapply wp_mono; [eapply IH; [by eapply same_driver_trans|lia]|].
    intros [r dp] d2 o2 (Hd2&->&->). rewrite -app_assoc //.
Qed.

(** The partitions of a primary table, extended ones expanded, and the
    length of the longest chain; then those of a medium. *)
Inductive table_parts (img : Z → list Z) (k : nat) :
  list partition_entry → list partition_entry → Prop :=
  | parts_nil : table_parts img k [] []
  | parts_empty pe es ps :
      sector_count pe = 0 → table_parts img k es ps → table_parts img k (pe :: es) ps
  | parts_extended pe es j ls ps :
      sector_count pe ≠ 0 → is_extended pe = true → (j ≤ k)%nat →
      ebr_chain img j (start_lba pe) ls → table_parts img k es ps →
      table_parts img k (pe :: es) (ls ++ ps)
  | parts_primary pe es ps :
      sector_count pe ≠ 0 → is_extended pe = false → table_parts img k es ps →
      table_parts img k (pe :: es) (pe :: ps).

Definition primary_entries (mbr : list Z) : list partition_entry :=
  (λ i, table_entry i mbr) <$> seqZ 0 4.

Inductive disk_parts (img : Z → list Z) (k : nat) : list partition_entry → Prop :=
  | disk_blank : signature (img 0) ≠ MBR_SIGNATURE → disk_parts img k []
  | disk_mbr ps : signature (img 0) = MBR_SIGNATURE →
      table_parts img k (primary_entries (img 0)) ps → disk_parts img k ps.

Lemma parse_entries_wp (d0 d : ahci D) n port size k es ps fuel acc :
  ready d0 n port size → sound port → same_driver d0 d →
  table_parts (image d0 port) k es ps → (k ≤ fuel)%nat →
  wp (parse_entries fuel n es (kept acc)) d (λ dp d' _,
    same_driver d0 d' ∧ dp = kept (acc ++ ps)).
Proof.
  intros Hr Hsound Hs Hc Hk. revert acc d Hs.
  induction Hc as [|pe es ps Hz Hc IH|pe es j ls ps Hz He Hj Hl Hc IH|pe es ps Hz He Hc IH];
    intros acc d Hs; cbn [parse_entries].
  - wp_steps. by rewrite app_nil_r.
  - rewrite Hz /=. by apply IH.
  - rewrite (proj2 (Z.eqb_neq _ _)) // He. apply wp_bind.
    eapply wp_mono; [eapply parse_ebr_wp; [done..|lia]|]. intros [r dp] d1 o1 (Hs1&_&->).
    eapply wp_mono; [by apply IH|]. intros dp d2 o2 [Hs2 ->]. by rewrite -app_assoc.
  - rewrite (proj2 (Z.eqb_neq _ _)) // He kept_add.
    eapply wp_mono; [by apply IH|]. intros dp d2 o2 [Hs2 ->]. by rewrite -app_assoc.
Qed.

Lemma table_entry_ok i l : Forall byte l → entry_ok (table_entry i l).
Proof. intros Hl. split; apply load32_range, bytes_slice, Hl. Qed.

Lemma ebr_chain_ok d port k lba ps : ebr_chain (image d port) k lba ps → Forall entry_ok ps.
Proof.
  induction 1 as [|lba|k lba ps Hl Hsig Hc IH]; [done..|]. apply Forall_app. split; [|done].
  rewrite filter_cons filter_nil. case_decide; repeat constructor; apply table_entry_ok, sector_bytes.
Qed.

Lemma table_parts_ok d port k es ps :
  Forall entry_ok es → table_parts (image d port) k es ps → Forall entry_ok ps.
Proof.
  intros Hes. induction 1 as [|pe es ps Hz Hc IH|pe es j ls ps Hz He Hj Hl Hc IH|pe es ps Hz He Hc IH];
    [done|..]; apply Forall_cons in Hes as [Hpe Hes]; [by apply IH| |].
  - apply Forall_app. split; [by eapply ebr_chain_ok|by apply IH].
  - constructor; [done|by apply IH].
Qed.

Lemma disk_parts_ok d port k ps : disk_parts (image d port) k ps → Forall entry_ok ps.
Proof.
  intros [|ps' Hsig Hp]; [done|]. eapply table_parts_ok; [|done].
  apply Forall_fmap, Forall_true. intros i. apply table_entry_ok, sector_bytes.
Qed.

Lemma inv_set_parts s i ps :
  inv s → Forall entry_ok ps → inv (set_parts i (kept ps) s).
Proof.
  intros [Hl Hd He Hc] Hps. split; simpl; [done|by rewrite length_insert|..].
  - apply Forall_insert; [done|by apply Forall_take].
  - apply Forall_insert; [done|]. rewrite /kept length_take /MAX_PARTS_PER_DRIVE. lia.
Qed.

Lemma inv_set_disk s d : inv s → inv (set_disk d s).
Proof. intros [????]. by split. Qed.


(** A chain of EBRs that stays among non-zero sectors with a valid
    signature, for instance one whose link points back to itself, is
    followed forever: no amount of fuel lets [parse_ebr] return. The
    caller holds the partition lock meanwhile. *)
Lemma parse_ebr_cycle_hangs (d0 d : ahci D) n port size (C : Z → Prop) lba fuel acc :
  ready d0 n port size → sound port → same_driver d0 d → C lba →
  (∀ l, C l → l ≠ 0 ∧ signature (image d0 port l) = MBR_SIGNATURE ∧
    C (start_lba (table_entry 1 (image d0 port l)))) →
  parse_ebr fuel n lba acc d = NoFuel.
Proof.
  intros Hr Hsound Hs Hc HC. revert lba Hc acc d Hs.
  induction fuel as [|fuel IH]; intros lba Hc acc d Hs; destruct (HC lba Hc) as (Hl&Hsig&Hnext);
    cbn [parse_ebr]; rewrite (proj2 (Z.eqb_neq lba 0)) //.
  assert (wp (read_sector n lba) d (λ '(r, b) d' _, same_driver d d' ∧ r = 0 ∧ b = image d port lba)) as Hw.
  { eapply read_sector_wp; [by eapply ready_same_driver|done]. }
  apply wp_run in Hw as ([r b]&d1&o1&Hrun&Hd1&->&->).
  rewrite /mbind /M_bind Hrun. cbn [negb Z.eqb].
  assert (image d port lba = image d0 port lba) as -> by (rewrite /image (same_hba _ _ Hs) //).
  rewrite Hsig Z.eqb_refl. cbn [negb]. rewrite IH //. by eapply same_driver_trans.
Qed.

(** A sector at or above 2^23 (4 GiB) is not read: its byte address
    wraps, and the buffer receives the sector 4 GiB below (or more) with a
    success result. *)
Lemma read_sector_wraps (d : ahci D) n port size lba :
  ready d n port size → sound port → 8388608 ≤ lba < 4294967296 →
  wp (read_sector n lba) d (λ '(r, b) _ _,
    r = 0 ∧ b = sector (hba d) port (lba mod 8388608) ∧ lba mod 8388608 ≠ lba).
Proof.
  intros Hr Hs Hl. eapply wp_mono; [by eapply read_sector_wp|].
  intros [r b] d' o (_&->&->). split_and!; [done|done|]. dlia.
Qed.
End theory.

(** * The properties at concrete media *)

Section demo.
(** A table entry, and a sector with a signature and two entries. *)
Definition raw_entry (pe : partition_entry) : list Z :=
  [0; 0; 0; 0; type pe; 0; 0; 0] ++ le_bytes 4 (start_lba pe) ++ le_bytes 4 (sector_count pe).
Definition boot_sector (a b : partition_entry) : list Z :=
  store 446 (raw_entry a) (store 462 (raw_entry b) (store 510 [85; 170] (zeros 512))).

(** A primary partition and an extended one holding one logical drive; and
    an EBR that names itself as the next. *)
Definition data_part : partition_entry := Entry 2048 4096 131.
Definition logical_part : partition_entry := Entry 8200 50 131.
Definition two_parts : medium :=
  {[ (0, 0) := boot_sector data_part (Entry 8192 100 5);
     (0, 8192) := boot_sector logical_part (Entry 0 0 0) ]}.
Definition looped : medium :=
  {[ (0, 8192) := boot_sector logical_part (Entry 8192 100 5) ]}.

Definition drive_of (m : medium) : ahci medium := Ahci [(0, 1073741824)] true (zeros 256) m.
Definition demo : state medium :=
  State (drive_of two_parts) (<[0%nat := [data_part; logical_part]]> (replicate 32 [])) false.

Lemma demo_sound : sound (D:=medium) 0.
Proof. intros l []. Qed.
Lemma drive_of_ready m : ready (drive_of m) 0 0 1073741824.
Proof. by repeat split. Qed.

Lemma demo_inv : inv demo.
Proof. split; [done|done|repeat constructor; simpl; lia|repeat constructor; simpl; unfold MAX_PARTS_PER_DRIVE; lia]. Qed.

Lemma demo_usable : usable demo 0 0 0 1073741824 data_part.
Proof. split; [exact demo_inv|]. split; [apply drive_of_ready|done]. Qed.

Lemma two_parts_parts : disk_parts (image (drive_of two_parts) 0) 1 [data_part; logical_part].
Proof.
  apply disk_mbr; [by vm_compute|].
  assert (primary_entries (image (drive_of two_parts) 0 0) =
    [data_part; Entry 8192 100 5; Entry 0 0 0; Entry 0 0 0]) as -> by by vm_compute.
  apply parts_primary; [done..|]. change [logical_part] with ([logical_part] ++ []).
  eapply parts_extended; [done..| |by repeat constructor].
  assert (table_entry 0 (image (drive_of two_parts) 0 8192) = logical_part ∧
    start_lba (table_entry 1 (image (drive_of two_parts) 0 8192)) = 0) as [Hlog Hnext] by by vm_compute.
  assert (filter (λ pe, 0 < sector_count pe) [logical_part] ++ [] = [logical_part]) as Hf by by vm_compute.
  rewrite -Hf -Hlog. apply chain_next; [done|by vm_compute|]. rewrite Hnext. constructor.
Qed.




Lemma parse_ebr_cycle_hangs_witness : parse_ebr 1000 0 8192 [] (drive_of looped) = NoFuel.
Proof.
  apply (parse_ebr_cycle_hangs (drive_of looped) (drive_of looped) 0 0 1073741824 (λ l, l = 8192));
    [apply drive_of_ready|exact demo_sound|by split|done|].
  intros l ->. split; [done|by vm_compute].
Defined.

Lemma read_sector_wraps_witness :
  wp (read_sector 0 8396800) (drive_of two_parts) (λ '(r, b) _ _,
    r = 0 ∧ b = sector (hba (drive_of two_parts)) 0 (8396800 mod 8388608) ∧
    8396800 mod 8388608 ≠ 8396800).
Proof.
  apply (read_sector_wraps _ 0 0 1073741824); [apply drive_of_ready|exact demo_sound|lia].
Defined.
End demo.

End Partition.
