(* ===== verification/FsState.v ===== *)
(** The state the file system code shares, and the interfaces it is built
    on.

    ramfs.c and dfs.c work on the same objects: the folders in memory, the
    blocks of file data, the mount table, and the partitions below. The
    kernel heap, the environment and the command table are one component
    [A] seen through the classes [Alloc.Allocator] and [Services].
    Dereferencing a pointer that designates no folder faults. *)
From S2P Require Import Prelude.
From S2P Require Import Allocator.
From S2P Require Import RamfsTypes.
From S2P Require Import Drive.
From S2P Require Import Partition.
Import RamfsTypes.

Module FsState.

(** env_var.c and command_system.c, as the file system calls them. A
    command function is named by its C identifier. *)
Class Services (A : Type) := {
  env_set : string → string → M A unit;
  env_get : string → M A (option string);
  register_command : string → string → string → M A unit
}.

Record dfs_mount_point : Type := MountPoint {
  mp_path : string;
  partition_drive : Z;
  partition_index : Z;
  root_dir : Z
}.

Definition MAX_MOUNTS : Z := 8.

(** The address of [mount_table[i]]; NULL is 0. *)
Definition mount_addr (i : Z) : Z := i + 1.
Definition mount_index (mp : Z) : Z := mp - 1.

(** [root] is a static object, so its address is in the image, below every
    heap block's. *)
Definition root : Z := Alloc.IMAGE_BASE.

Record fs (A D : Type) : Type := Fs {
  heap : A;
  dirs : gmap Z ramfs_foder;
  data : gmap Z (list Z);
  parts : Partition.state D;
  mount_table : list dfs_mount_point;
  mount_count : Z;
  last_byte_off : Z;
  byte_val : Z;
  current_dir : Z;
  current_path : string
}.
Arguments Fs {A D} _ _ _ _ _ _ _ _ _ _.
Arguments heap {A D} _.
Arguments dirs {A D} _.
Arguments data {A D} _.
Arguments parts {A D} _.
Arguments mount_table {A D} _.
Arguments mount_count {A D} _.
Arguments last_byte_off {A D} _.
Arguments byte_val {A D} _.
Arguments current_dir {A D} _.
Arguments current_path {A D} _.

Section ops.
Context {A D : Type}.
Implicit Types (s : fs A D).

Definition set_heap (h : A) s : fs A D :=
  Fs h (dirs s) (data s) (parts s) (mount_table s) (mount_count s) (last_byte_off s)
    (byte_val s) (current_dir s) (current_path s).
Definition set_dirs (ds : gmap Z ramfs_foder) s : fs A D :=
  Fs (heap s) ds (data s) (parts s) (mount_table s) (mount_count s) (last_byte_off s)
    (byte_val s) (current_dir s) (current_path s).
Definition set_data (b : gmap Z (list Z)) s : fs A D :=
  Fs (heap s) (dirs s) b (parts s) (mount_table s) (mount_count s) (last_byte_off s)
    (byte_val s) (current_dir s) (current_path s).
Definition set_parts (p : Partition.state D) s : fs A D :=
  Fs (heap s) (dirs s) (data s) p (mount_table s) (mount_count s) (last_byte_off s)
    (byte_val s) (current_dir s) (current_path s).
Definition set_mounts (t : list dfs_mount_point) (n : Z) s : fs A D :=
  Fs (heap s) (dirs s) (data s) (parts s) t n (last_byte_off s) (byte_val s)
    (current_dir s) (current_path s).
Definition set_cache (off val : Z) s : fs A D :=
  Fs (heap s) (dirs s) (data s) (parts s) (mount_table s) (mount_count s) off val
    (current_dir s) (current_path s).
Definition set_current (p : Z) (path : string) s : fs A D :=
  Fs (heap s) (dirs s) (data s) (parts s) (mount_table s) (mount_count s) (last_byte_off s)
    (byte_val s) p path.
Definition set_current_dir (p : Z) s : fs A D := set_current p (current_path s) s.

Definition on_heap {X} (m : M A X) : M (fs A D) X := zoom heap set_heap m.
Definition on_parts {X} (m : M (Partition.state D) X) : M (fs A D) X := zoom parts set_parts m.

(** Access to folder objects. *)
Definition load_dir (p : Z) : M (fs A D) ramfs_foder :=
  s ← get; unwrap (dirs s !! p).
Definition store_dir (p : Z) (d : ramfs_foder) : M (fs A D) unit :=
  modify (λ s, set_dirs (<[p := d]> (dirs s)) s).
Definition store_data (p : Z) (bs : list Z) : M (fs A D) unit :=
  modify (λ s, set_data (<[p := bs]> (data s)) s).

(** [malloc(sizeof(ramfs_foder))] and [free] of a folder, and of a block of
    file data: the object goes with its block. *)
Context `{!Alloc.Allocator A}.
Definition free_dir (p : Z) : M (fs A D) unit :=
  on_heap (Alloc.free p);; modify (λ s, set_dirs (delete p (dirs s)) s).
Definition free_data (p : Z) : M (fs A D) unit :=
  on_heap (Alloc.free p);; modify (λ s, set_data (delete p (data s)) s).
End ops.

(** Assignments to one field of a folder. *)
Definition set_fo_type (t : Z) (d : ramfs_foder) : ramfs_foder :=
  Foder (fo_name d) t (foder_map d) (file_map d) (fo_mount d) (fo_parent d) (fo_drive_addr d)
    (fo_is_mount_root d).
Definition set_foder_map (m : ramfs_hashmap) (d : ramfs_foder) : ramfs_foder :=
  Foder (fo_name d) (fo_type d) m (file_map d) (fo_mount d) (fo_parent d) (fo_drive_addr d)
    (fo_is_mount_root d).
Definition set_file_map (m : ramfs_file_hashmap) (d : ramfs_foder) : ramfs_foder :=
  Foder (fo_name d) (fo_type d) (foder_map d) m (fo_mount d) (fo_parent d) (fo_drive_addr d)
    (fo_is_mount_root d).
Definition set_fo_drive_addr (a : Z) (d : ramfs_foder) : ramfs_foder :=
  Foder (fo_name d) (fo_type d) (foder_map d) (file_map d) (fo_mount d) (fo_parent d) a
    (fo_is_mount_root d).

End FsState.
