(* ===== verification/DfsLoad.v ===== *)
(** The part of kernel/src/dfs.c that ramfs.c calls: loading the entries of
    a folder, and the bytes of a file, from the partition of its mount.

    A [dfs_disk_folder] is the 34956 bytes the partition read delivers,
    decoded at the offsets the i386 compiler gives its fields. *)
From S2P Require Import Prelude.
From S2P Require Import Allocator.
From S2P Require Import CString.
From S2P Require Import RamfsTypes.
From S2P Require Import HashTable.
From S2P Require Import RamfsHash.
From S2P Require Import RamfsHashFile.
From S2P Require Import Bytes.
From S2P Require Import Drive.
From S2P Require Import Partition.
From S2P Require Import FsState.
Import CString RamfsTypes RamfsHash RamfsHashFile Bytes FsState.

Module DfsLoad.

Definition DFS_MAX_SUB_ENTRIES : Z := 128.
Definition sizeof_disk_foder_info : Z := 132.
Definition sizeof_disk_file_info : Z := 140.
Definition sizeof_disk_folder : Z :=
  140 + DFS_MAX_SUB_ENTRIES * sizeof_disk_foder_info + DFS_MAX_SUB_ENTRIES * sizeof_disk_file_info.

(** Offsets of the fields of a [dfs_disk_folder]. *)
Definition off_used : Z := 128.
Definition off_subfolder_cnt : Z := 132.
Definition off_file_cnt : Z := 136.
Definition off_subfolder (i : Z) : Z := 140 + i * sizeof_disk_foder_info.
Definition off_file (i : Z) : Z :=
  140 + DFS_MAX_SUB_ENTRIES * sizeof_disk_foder_info + i * sizeof_disk_file_info.

(** The C string at the head of a buffer. *)
Fixpoint cstr (l : list Z) : string :=
  match l with
  | [] => EmptyString
  | b :: l => if b =? 0 then EmptyString
              else String (Ascii.ascii_of_N (Z.to_N b)) (cstr l)
  end.
Definition string_at (o : Z) (l : list Z) : string := cstr (drop (Z.to_nat o) l).

(** The [i]th entries, when they lie inside the structure, reading past it
    faults, and their names fit the 128 bytes they are copied to. *)
Definition fits (name : string) : bool := strlen name <? 128.
Definition subfolder_at (l : list Z) (i : Z) : option (string * Z) :=
  if (off_subfolder i + sizeof_disk_foder_info <=? sizeof_disk_folder) && fits (string_at (off_subfolder i) l)
  then Some (string_at (off_subfolder i) l, s32 (load32 (off_subfolder i + 128) l))
  else None.
Definition file_at (l : list Z) (i : Z) : option (string * Z * Z) :=
  if (off_file i + sizeof_disk_file_info <=? sizeof_disk_folder) && fits (string_at (off_file i) l)
  then Some (string_at (off_file i) l, s64 (le_value (slice (off_file i + 128) 8 l)),
             s32 (load32 (off_file i + 136) l))
  else None.

Section ops.
Context {A D : Type} `{!Alloc.Allocator A, !Drive.Hba D}.
Abbreviation fs := (fs A D).

Definition dfs_read_partition (drive part offset size : Z) : M fs (Z * list Z) :=
  on_parts (Partition.partition_read drive part offset (s32 size)).
Definition dfs_write_partition (drive part offset : Z) (buf : list Z) (size : Z) : M fs Z :=
  on_parts (Partition.partition_write drive part offset (s32 size) (Some buf)).

(** The mount point a non-NULL [mount] field points to. *)
Definition load_mount (mp : Z) : M fs dfs_mount_point :=
  s ← get; unwrap (mount_table s !! Z.to_nat (mount_index mp)).

(** A folder fresh from [memset], with its tables initialised. *)
Definition new_foder (name : string) (type mount parent drive_addr : Z) : ramfs_foder :=
  Foder name type ramfs_hashmap_init ramfs_file_hashmap_init mount parent drive_addr false.

(** The loops over the sub-folders and the files of the disk structure,
    from the index [i] on; the results are the codes of the function. *)
Fixpoint load_subfolders (n : nat) (dir mp : Z) (disk_f : list Z) (i : Z) : M fs Z :=
  match n with
  | O => mret 0
  | S n =>
      '(sub_name, drive_addr) ← unwrap (subfolder_at disk_f i);
      d ← load_dir dir;
      match ramfs_hashmap_find (foder_map d) sub_name with
      | Some _ => load_subfolders n dir mp disk_f (i + 1)
      | None =>
          sub ← on_heap (Alloc.malloc sizeof_foder);
          if sub =? 0 then mret (-5)
          else
            store_dir sub (new_foder sub_name RAMFS_FOLDER_TYPE_DISK_CLEAN mp dir drive_addr);;
            '(_, m) ← on_heap (ramfs_hashmap_insert (foder_map d) sub_name
              (FoderInfo sub_name RAMFS_FOLDER_TYPE_DISK_CLEAN sub drive_addr));
            d ← load_dir dir;
            store_dir dir (set_foder_map m d);;
            load_subfolders n dir mp disk_f (i + 1)
      end
  end.

Fixpoint load_files (n : nat) (dir : Z) (disk_f : list Z) (i : Z) : M fs Z :=
  match n with
  | O => mret 0
  | S n =>
      '(file_name, length, drive_addr) ← unwrap (file_at disk_f i);
      d ← load_dir dir;
      match ramfs_file_hashmap_find (file_map d) file_name with
      | Some _ => load_files n dir disk_f (i + 1)
      | None =>
          '(_, m) ← on_heap (ramfs_file_hashmap_insert (file_map d) file_name
            (FileInfo file_name 0 length 0 drive_addr));
          store_dir dir (set_file_map m d);;
          load_files n dir disk_f (i + 1)
      end
  end.

Definition dfs_load_folder_children (dir : Z) : M fs Z :=
  if dir =? 0 then mret (-1)
  else
    d ← load_dir dir;
    if negb (fo_type d =? RAMFS_FOLDER_TYPE_DISK_CLEAN) then mret (-1)
    else if negb (count (foder_map d) =? 0) || negb (count (file_map d) =? 0) then mret 0
    else if fo_mount d =? 0 then mret (-2)
    else
      mp ← load_mount (fo_mount d);
      '(r, disk_f) ← dfs_read_partition (partition_drive mp) (partition_index mp)
        (u32 (fo_drive_addr d)) sizeof_disk_folder;
      if negb (r =? 0) then mret (-3)
      else if load32 off_used disk_f =? 0 then mret (-4)
      else
        r ← load_subfolders (Z.to_nat (load32 off_subfolder_cnt disk_f)) dir (fo_mount d) disk_f 0;
        if negb (r =? 0) then mret r
        else load_files (Z.to_nat (load32 off_file_cnt disk_f)) dir disk_f 0.

(** The result, and the entry with its data pointer set. *)
Definition dfs_load_file_data (finfo : ramfs_file_info) (mp : Z) : M fs (Z * ramfs_file_info) :=
  if mp =? 0 then mret (-1, finfo)
  else if negb (fi_ptr finfo =? 0) || (fi_length finfo =? 0) then mret (0, finfo)
  else
    p ← on_heap (Alloc.malloc (u32 (fi_length finfo)));
    if p =? 0 then mret (-2, finfo)
    else
      m ← load_mount mp;
      '(r, bs) ← on_parts (Partition.partition_read (partition_drive m) (partition_index m)
        (u64 (fi_drive_addr finfo)) (s32 (fi_length finfo)));
      if negb (r =? 0) then on_heap (Alloc.free p);; mret (-3, finfo)
      else
        store_data p bs;;
        mret (0, FileInfo (fi_name finfo) (fi_type finfo) (fi_length finfo) p (fi_drive_addr finfo)).
End ops.

End DfsLoad.
