(* ===== verification/Ramfs.v ===== *)
(** kernel/src/ramfs.c: the file system in memory and its commands.

    Each definition carries the name of the C function. A pointer to a
    folder is its address, NULL is 0; an optional [from] is NULL when
    [None]. A string that does not fit the 512-byte buffer it is copied to
    faults. Output is the list of [printf] calls. *)
From S2P Require Import Prelude.
From S2P Require Import Allocator.
From S2P Require Import CString.
From S2P Require Import RamfsTypes.
From S2P Require Import HashTable.
From S2P Require Import RamfsHash.
From S2P Require Import RamfsHashFile.
From S2P Require Import Numbers.
From S2P Require Import Drive.
From S2P Require Import Partition.
From S2P Require Import FsState.
From S2P Require Import DfsLoad.
Import CString RamfsTypes RamfsHash RamfsHashFile FsState DfsLoad.

Module Ramfs.

Definition streq (a b : string) : bool := strcmp a b =? 0.

(** The components of a path between its slashes, the empty ones
    included. *)
Fixpoint split_slash (s : string) : list string :=
  match s with
  | EmptyString => [EmptyString]
  | String c s =>
      if Ascii.eqb c slash then EmptyString :: split_slash s
      else match split_slash s with
           | part :: rest => String c part :: rest
           | [] => [String c EmptyString]
           end
  end.

Definition starts_with_slash (s : string) : bool :=
  match s with String c _ => Ascii.eqb c slash | EmptyString => false end.
Definition tail (s : string) : string :=
  match s with String _ s => s | EmptyString => EmptyString end.
Definition ends_with_slash (s : string) : bool :=
  match last (String.list_ascii_of_string s) with Some c => Ascii.eqb c slash | None => false end.

Section ops.
Context {A D : Type} `{!Alloc.Allocator A, !Services A, !Drive.Hba D}.
Abbreviation fs := (fs A D).

(** [fuel] bounds the depth of the folder. *)
Fixpoint build_absolute_path (fuel : nat) (dir : Z) : M fs string :=
  d ← load_dir dir;
  if negb (fo_parent d =? 0) && negb (dir =? root) then
    match fuel with
    | O => nofuel
    | S fuel =>
        out ← build_absolute_path fuel (fo_parent d);
        let out := if ends_with_slash out then out else out +:+ "/" in
        mret (out +:+ fo_name d)
    end
  else mret "/".

Definition unloaded (d : ramfs_foder) : bool :=
  (fo_type d =? RAMFS_FOLDER_TYPE_DISK_CLEAN) && (count (foder_map d) =? 0) &&
  (count (file_map d) =? 0).

Definition lazy_load_directory (dir : Z) : M fs unit :=
  if dir =? 0 then mret tt
  else
    d ← load_dir dir;
    if unloaded d then dfs_load_folder_children dir;; mret tt else mret tt.

(** The branch of [_get_dir_by_path] for an entry without a folder object:
    [cur] is the NULL pointer just read through. The result is 0 when the
    function returns NULL. *)
Definition load_sub (cur : Z) (part : string) (info : ramfs_foder_info) (d : ramfs_foder) : M fs Z :=
  sub ← on_heap (Alloc.malloc sizeof_foder);
  if sub =? 0 then mret 0
  else
    store_dir sub (new_foder (di_name info) RAMFS_FOLDER_TYPE_DISK_CLEAN (fo_mount d) cur
      (di_drive_addr info));;
    ret ← dfs_load_folder_children sub;
    if negb (ret =? 0) then free_dir sub;; mret 0
    else mret cur.

(** The loop of [_get_dir_by_path] over the components of the path. *)
Fixpoint walk (cur : Z) (path_parts : list string) : M fs Z :=
  match path_parts with
  | [] => mret cur
  | part :: rest =>
      if streq part EmptyString then walk cur rest
      else if streq part "." then walk cur rest
      else
        c ← load_dir cur;
        if streq part ".." then
          if negb (fo_parent c =? 0) then walk (fo_parent c) rest else mret cur
        else match ramfs_hashmap_find (foder_map c) part with
        | None => mret 0
        | Some info =>
            let cur := di_ptr info in
            d ← load_dir cur;
            if unloaded d && (di_ptr info =? 0) then
              r ← load_sub cur part info d;
              if r =? 0 then mret 0 else walk cur rest
            else walk cur rest
        end
  end.

Definition _get_dir_by_path (base : Z) (path : string) : M fs Z :=
  if streq path EmptyString then mret 0
  else if 512 <=? strlen path then fault
  else if starts_with_slash path then walk root (split_slash (tail path))
  else walk base (split_slash path).

(** [from ? _get_dir_by_path(current_dir, from) : current_dir]. *)
Definition parent_of (from : option string) : M fs Z :=
  s ← get;
  match from with
  | Some f => _get_dir_by_path (current_dir s) f
  | None => mret (current_dir s)
  end.

Definition mark_dirty (d : ramfs_foder) : ramfs_foder :=
  if fo_type d =? RAMFS_FOLDER_TYPE_DISK_CLEAN then set_fo_type RAMFS_FOLDER_TYPE_DIRTY d else d.

Definition fs_mkdir (name : string) (from : option string) : M fs Z :=
  if (strlen name =? 0) || (128 <=? strlen name) then mret (-1)
  else
    parent ← parent_of from;
    if parent =? 0 then mret (-2)
    else
      lazy_load_directory parent;;
      d ← load_dir parent;
      match ramfs_hashmap_find (foder_map d) name, ramfs_file_hashmap_find (file_map d) name with
      | Some _, _ => mret (-3)
      | None, Some _ => mret (-4)
      | None, None =>
          new_dir ← on_heap (Alloc.malloc sizeof_foder);
          if new_dir =? 0 then mret (-5)
          else
            let type := if fo_mount d =? 0 then RAMFS_FOLDER_TYPE_MEM else RAMFS_FOLDER_TYPE_NEW in
            store_dir new_dir (new_foder name type (fo_mount d) parent 0);;
            '(r, m) ← on_heap (ramfs_hashmap_insert (foder_map d) name (FoderInfo name type new_dir 0));
            if r =? 0 then free_dir new_dir;; mret (-5)
            else
              d ← load_dir parent;
              store_dir parent (mark_dirty (set_foder_map m d));;
              mret 0
      end.

(** The environment gets [current_path]; a path of 512 characters or more
    does not fit it. *)
Definition fs_cd (fuel : nat) (path : string) : M fs Z :=
  s ← get;
  target ← (if streq path "/" then mret root
            else if starts_with_slash path then _get_dir_by_path root path
            else _get_dir_by_path (current_dir s) path);
  if target =? 0 then mret (-2)
  else
    out ← build_absolute_path fuel target;
    if 512 <=? strlen out then fault
    else
      modify (set_current target out);;
      on_heap (env_set "pwd" out);;
      mret 0.

(** The common prefix of [fs_rm], [fs_touch] and [fs_backspace]: the folder
    and the name of a file given by a path, or the error code. *)
Definition locate (name : string) (from : option string) : M fs (Z + Z * string) :=
  if 512 <=? strlen name then fault
  else match strrchr name slash with
  | None =>
      parent ← parent_of from;
      if parent =? 0 then mret (inl (-2)) else mret (inr (parent, name))
  | Some (path_copy, file_name) =>
      if streq file_name EmptyString then mret (inl (-1))
      else
        base ← (if starts_with_slash path_copy then mret root else parent_of from);
        if base =? 0 then mret (inl (-2))
        else
          parent ← _get_dir_by_path base path_copy;
          if parent =? 0 then mret (inl (-2)) else mret (inr (parent, file_name))
  end.

Definition fs_rm (name : string) (from : option string) : M fs Z :=
  if strlen name =? 0 then mret (-1)
  else
    l ← locate name from;
    match l with
    | inl r => mret r
    | inr (parent, file_name) =>
        lazy_load_directory parent;;
        d ← load_dir parent;
        match ramfs_file_hashmap_find (file_map d) file_name with
        | None => mret (-3)
        | Some info =>
            (if negb (fi_ptr info =? 0) then free_data (fi_ptr info) else mret tt);;
            '(r, m) ← on_heap (ramfs_file_hashmap_delete (file_map d) file_name);
            if r =? 0 then mret (-4)
            else store_dir parent (mark_dirty (set_file_map m d));; mret 0
        end
    end.

Definition fs_rmdir (name : string) (from : option string) : M fs Z :=
  parent ← parent_of from;
  if parent =? 0 then mret (-2)
  else
    lazy_load_directory parent;;
    d ← load_dir parent;
    match ramfs_hashmap_find (foder_map d) name with
    | None => mret (-3)
    | Some info =>
        let target := di_ptr info in
        t ← load_dir target;
        if negb (count (foder_map t) =? 0) || negb (count (file_map t) =? 0) then mret (-4)
        else
          '(_, m) ← on_heap (ramfs_hashmap_delete (foder_map d) name);
          store_dir parent (set_foder_map m d);;
          on_heap (ramfs_hashmap_destroy (foder_map t));;
          on_heap (ramfs_file_hashmap_destroy (file_map t));;
          free_dir target;;
          d ← load_dir parent;
          store_dir parent (mark_dirty d);;
          mret 0
    end.

Definition fs_touch (name : string) (from : option string) : M fs Z :=
  if (strlen name =? 0) || (128 <=? strlen name) then mret (-1)
  else
    l ← locate name from;
    match l with
    | inl r => mret r
    | inr (parent, file_name) =>
        lazy_load_directory parent;;
        d ← load_dir parent;
        match ramfs_hashmap_find (foder_map d) file_name, ramfs_file_hashmap_find (file_map d) file_name with
        | Some _, _ => mret (-3)
        | None, Some _ => mret (-4)
        | None, None =>
            let type := if fo_mount d =? 0 then RAMFS_TYPE_MEM else RAMFS_TYPE_NEW in
            '(r, m) ← on_heap (ramfs_file_hashmap_insert (file_map d) file_name
              (FileInfo file_name type 0 0 0));
            if r =? 0 then mret (-5)
            else store_dir parent (mark_dirty (set_file_map m d));; mret 0
        end
    end.

(** [data] has [len] bytes. *)
Definition fs_write (name : string) (bytes : list Z) (from : option string) : M fs Z :=
  let len := Z.of_nat (List.length bytes) in
  parent ← parent_of from;
  if parent =? 0 then mret (-2)
  else
    lazy_load_directory parent;;
    d ← load_dir parent;
    match ramfs_file_hashmap_find (file_map d) name with
    | None => mret (-3)
    | Some info =>
        (if negb (fi_ptr info =? 0) then free_data (fi_ptr info) else mret tt);;
        new_ptr ← on_heap (Alloc.malloc len);
        if (new_ptr =? 0) && (0 <? len) then mret (-4)
        else
          (if 0 <? len then store_data new_ptr bytes else mret tt);;
          let type := if fi_drive_addr info =? 0 then RAMFS_TYPE_NEW else RAMFS_TYPE_DIRTY in
          let m := HashTable.update (file_map d) name (λ info,
            FileInfo (fi_name info) type len new_ptr (fi_drive_addr info)) in
          store_dir parent (mark_dirty (set_file_map m d));;
          mret 0
    end.

(** The entry after [dfs_load_file_data] ran on it, in place. *)
Definition load_file (parent : Z) (name : string) (info : ramfs_file_info) : M fs Z :=
  d ← load_dir parent;
  '(ret, info) ← dfs_load_file_data info (fo_mount d);
  store_dir parent (set_file_map (HashTable.update (file_map d) name (λ _, info)) d);;
  mret ret.

Fixpoint print_bytes (bs : list Z) : M fs unit :=
  match bs with
  | [] => mret tt
  | b :: bs => printf "%c" [AChr b];; print_bytes bs
  end.

Definition fs_cat (name : string) (from : option string) : M fs Z :=
  parent ← parent_of from;
  if parent =? 0 then mret (-2)
  else
    lazy_load_directory parent;;
    d ← load_dir parent;
    match ramfs_file_hashmap_find (file_map d) name with
    | None => mret (-3)
    | Some info =>
        ret ← (if negb (fo_mount d =? 0) then load_file parent name info else mret 0);
        if negb (ret =? 0) then mret (-4)
        else
          d ← load_dir parent;
          info ← unwrap (ramfs_file_hashmap_find (file_map d) name);
          if (fi_ptr info =? 0) || (fi_length info =? 0) then mret 0
          else
            s ← get;
            bs ← unwrap (data s !! fi_ptr info);
            if Z.of_nat (List.length bs) <? fi_length info then fault
            else print_bytes (take (Z.to_nat (fi_length info)) bs);; mret 0
    end.

Fixpoint print_foders (ns : list (node ramfs_foder_info)) : M fs unit :=
  match ns with
  | [] => mret tt
  | n :: ns => printf ("  %s/" +:+ nl) [AStr (n_key n)];; print_foders ns
  end.
Fixpoint print_files (ns : list (node ramfs_file_info)) : M fs unit :=
  match ns with
  | [] => mret tt
  | n :: ns =>
      printf ("  %s (%lld bytes)" +:+ nl) [AStr (n_key n); AInt (fi_length (n_value n))];;
      print_files ns
  end.

Definition fs_ls : M fs Z :=
  s ← get;
  printf ("Directories:" +:+ nl) [];;
  d ← load_dir (current_dir s);
  print_foders (concat (buckets (foder_map d)));;
  printf ("Files:" +:+ nl) [];;
  print_files (concat (buckets (file_map d)));;
  mret 0.

Definition fs_backspace (name : string) (cnt : Z) (from : option string) : M fs Z :=
  if cnt <? 0 then mret (-1)
  else if cnt =? 0 then mret 0
  else
    l ← locate name from;
    match l with
    | inl r => mret r
    | inr (parent, file_name) =>
        lazy_load_directory parent;;
        d ← load_dir parent;
        match ramfs_file_hashmap_find (file_map d) file_name with
        | None => mret (-3)
        | Some info =>
            ret ← (if negb (fo_mount d =? 0) then load_file parent file_name info else mret 0);
            if negb (ret =? 0) then mret (-4)
            else
              d ← load_dir parent;
              info ← unwrap (ramfs_file_hashmap_find (file_map d) file_name);
              if fi_length info =? 0 then mret (-5)
              else
                let cnt := if fi_length info <? cnt then fi_length info else cnt in
                let new_len := u32 (fi_length info - cnt) in
                let finish ptr len :=
                  let type := if fi_drive_addr info =? 0 then RAMFS_TYPE_NEW else RAMFS_TYPE_DIRTY in
                  let m := HashTable.update (file_map d) file_name (λ info,
                    FileInfo (fi_name info) type len ptr (fi_drive_addr info)) in
                  store_dir parent (mark_dirty (set_file_map m d));;
                  mret 0 in
                if new_len =? 0 then
                  (if negb (fi_ptr info =? 0) then free_data (fi_ptr info) else mret tt);;
                  finish 0 0
                else
                  new_ptr ← on_heap (Alloc.malloc new_len);
                  if new_ptr =? 0 then mret (-6)
                  else
                    s ← get;
                    bs ← unwrap (data s !! fi_ptr info);
                    if Z.of_nat (List.length bs) <? new_len then fault
                    else
                      store_data new_ptr (take (Z.to_nat new_len) bs);;
                      free_data (fi_ptr info);;
                      finish new_ptr new_len
        end
    end.

Definition ramfs_get_dir_by_abs_path (path : string) : M fs Z := _get_dir_by_path root path.
End ops.

End Ramfs.
