(* ===== verification/RamfsApi.v ===== *)
(** kernel/src/ramfs.c, the command layer: the [fs_*_api] functions that
    parse [argv], and [fs_init].

    [argv] is the list of the argument strings, the command name first;
    [argc] is its length. *)
From S2P Require Import Prelude.
From S2P Require Import Allocator.
From S2P Require Import CString.
From S2P Require Import RamfsTypes.
From S2P Require Import RamfsHash.
From S2P Require Import RamfsHashFile.
From S2P Require Import Numbers.
From S2P Require Import Drive.
From S2P Require Import FsState.
From S2P Require Import DfsLoad.
From S2P Require Import Ramfs.
Import CString RamfsTypes RamfsHash RamfsHashFile Numbers FsState DfsLoad Ramfs.

Module RamfsApi.

Section api.
Context {A D : Type} `{!Alloc.Allocator A, !Services A, !Drive.Hba D}.
Abbreviation fs := (fs A D).

Definition argc (argv : list string) : Z := Z.of_nat (length argv).
Definition arg (argv : list string) (i : nat) : string := default EmptyString (argv !! i).

(** What the option loop of [fs_mkdir_api] decides. *)
Inductive mkdir_opts : Type :=
  | Help
  | Version
  | Invalid (opt : string)
  | Make (opt_p opt_v : bool) (dirname : option string).

Fixpoint mkdir_options (args : list string) (opt_p opt_v : bool) : mkdir_opts :=
  match args with
  | [] => Make opt_p opt_v None
  | a :: args =>
      if char_at a 0 =? 45 then
        if streq a "--help" then Help
        else if streq a "--version" then Version
        else if char_at a 1 =? 112 then mkdir_options args true opt_v
        else if char_at a 1 =? 118 then mkdir_options args opt_p true
        else Invalid a
      else Make opt_p opt_v (Some a)
  end.

(** The loop of [mkdir -p] over the components of the path; an empty
    component ends it. *)
Fixpoint mkdir_parents (opt_v : bool) (cur_dir : Z) (tokens : list string) : M fs Z :=
  match tokens with
  | [] => mret 0
  | token :: rest =>
      if streq token EmptyString then mret 0
      else if streq token "." then mkdir_parents opt_v cur_dir rest
      else
        d ← load_dir cur_dir;
        match ramfs_hashmap_find (foder_map d) token with
        | Some info => mkdir_parents opt_v (di_ptr info) rest
        | None =>
            s ← get;
            modify (set_current_dir cur_dir);;
            ret ← fs_mkdir token None;
            modify (set_current_dir (current_dir s));;
            if negb (ret =? 0) then
              printf ("mkdir: failed to create '%s'" +:+ nl) [AStr token];; mret (-1)
            else
              (if opt_v then printf ("mkdir: created directory '%s'" +:+ nl) [AStr token] else mret tt);;
              d ← load_dir cur_dir;
              match ramfs_hashmap_find (foder_map d) token with
              | None => mret (-1)
              | Some info => mkdir_parents opt_v (di_ptr info) rest
              end
        end
  end.

Definition fs_mkdir_api (argv : list string) : M fs Z :=
  if argc argv =? 1 then
    printf ("mkdir: missing operand" +:+ nl) [];;
    printf ("Try 'mkdir --help' for more information." +:+ nl) [];;
    mret (-1)
  else match mkdir_options (drop 1 argv) false false with
  | Help =>
      printf ("Usage: mkdir [OPTION]... DIRECTORY..." +:+ nl) [];;
      printf ("Create DIRECTORY(ies)." +:+ nl) [];;
      printf ("  -p      create parent directories as needed" +:+ nl) [];;
      printf ("  -v      print a message for each created directory" +:+ nl) [];;
      printf ("  --version  output version information" +:+ nl) [];;
      mret 0
  | Version => printf ("ramfs mkdir version 1.0.0" +:+ nl) [];; mret 0
  | Invalid opt => printf ("mkdir: invalid option %s" +:+ nl) [AStr opt];; mret (-1)
  | Make _ _ None => printf ("mkdir: missing directory operand" +:+ nl) [];; mret (-1)
  | Make true opt_v (Some dirname) =>
      if 512 <=? strlen dirname then fault
      else
        s ← get;
        if starts_with_slash dirname then mkdir_parents opt_v root (split_slash (tail dirname))
        else mkdir_parents opt_v (current_dir s) (split_slash dirname)
  | Make false opt_v (Some dirname) =>
      ret ← fs_mkdir dirname None;
      (if ret =? -1 then printf ("mkdir: invalid name" +:+ nl) []
       else if ret =? -2 then
         printf ("mkdir: cannot create directory '%s': No such file or directory" +:+ nl) [AStr dirname]
       else if (ret =? -3) || (ret =? -4) then
         printf ("mkdir: cannot create directory '%s': File exists" +:+ nl) [AStr dirname]
       else if ret =? -5 then printf ("mkdir: memory allocation failed" +:+ nl) []
       else if opt_v then printf ("mkdir: created directory '%s'" +:+ nl) [AStr dirname]
       else mret tt);;
      mret 0
  end.

Definition fs_cd_api (fuel : nat) (argv : list string) : M fs Z :=
  if argc argv =? 1 then printf ("cd: missing operand" +:+ nl) [];; mret (-1)
  else if 2 <? argc argv then printf ("cd: too many arguments" +:+ nl) [];; mret (-1)
  else if streq (arg argv 1) "--help" then
    printf ("cd [DIRECTORY]" +:+ nl) [];;
    printf ("Change the current directory to DIRECTORY." +:+ nl) [];;
    mret 0
  else if streq (arg argv 1) "--version" then printf ("ramfs cd version 1.0.0" +:+ nl) [];; mret 0
  else
    ret ← fs_cd fuel (arg argv 1);
    (if ret =? -1 then printf ("cd: invalid argument" +:+ nl) []
     else if ret =? -2 then printf ("cd: no such directory: %s" +:+ nl) [AStr (arg argv 1)]
     else mret tt);;
    mret 0.

Definition fs_rm_api (argv : list string) : M fs Z :=
  if negb (argc argv =? 2) then printf ("rm: missing file operand" +:+ nl) [];; mret (-1)
  else if streq (arg argv 1) "--help" then
    printf ("rm FILE" +:+ nl +:+ "Remove a file." +:+ nl) [];; mret 0
  else if streq (arg argv 1) "--version" then printf ("ramfs rm version 1.0.0" +:+ nl) [];; mret 0
  else
    ret ← fs_rm (arg argv 1) None;
    (if ret =? -1 then printf ("rm: invalid file name" +:+ nl) []
     else if ret =? -2 then printf ("rm: parent directory not found" +:+ nl) []
     else if ret =? -3 then printf ("rm: file not found" +:+ nl) []
     else if ret =? -4 then printf ("rm: deletion failed" +:+ nl) []
     else mret tt);;
    mret 0.

Definition fs_rmdir_api (argv : list string) : M fs Z :=
  if negb (argc argv =? 2) then printf ("rmdir: missing operand" +:+ nl) [];; mret (-1)
  else if streq (arg argv 1) "--help" then
    printf ("rmdir DIRECTORY" +:+ nl) [];; printf ("Remove empty directory." +:+ nl) [];; mret 0
  else if streq (arg argv 1) "--version" then printf ("ramfs rmdir version 1.0.0" +:+ nl) [];; mret 0
  else
    ret ← fs_rmdir (arg argv 1) None;
    (if ret =? -1 then printf ("rmdir: invalid name" +:+ nl) []
     else if ret =? -2 then printf ("rmdir: failed to locate parent" +:+ nl) []
     else if ret =? -3 then printf ("rmdir: '%s' is not a directory" +:+ nl) [AStr (arg argv 1)]
     else if ret =? -4 then printf ("rmdir: directory not empty" +:+ nl) []
     else mret tt);;
    mret 0.

Definition fs_touch_api (argv : list string) : M fs Z :=
  if negb (argc argv =? 2) then printf ("touch: missing file operand" +:+ nl) [];; mret (-1)
  else if streq (arg argv 1) "--help" then
    printf ("touch FILE" +:+ nl +:+ "Create an empty file." +:+ nl) [];; mret 0
  else if streq (arg argv 1) "--version" then printf ("ramfs touch 1.0.0" +:+ nl) [];; mret 0
  else
    ret ← fs_touch (arg argv 1) None;
    (if ret =? -1 then printf ("touch: invalid file name" +:+ nl) []
     else if ret =? -2 then printf ("touch: parent directory not found" +:+ nl) []
     else if (ret =? -3) || (ret =? -4) then printf ("touch: file already exists" +:+ nl) []
     else if ret =? -5 then printf ("touch: memory error" +:+ nl) []
     else mret tt);;
    mret 0.

Definition bytes_of (s : string) : list Z := byte_of <$> String.list_ascii_of_string s.

Definition fs_write_api (argv : list string) : M fs Z :=
  if negb (argc argv =? 3) then
    printf ("write: usage write FILE " +:+ dq +:+ "content" +:+ dq +:+ nl) [];; mret (-1)
  else
    ret ← fs_write (arg argv 1) (bytes_of (arg argv 2)) None;
    (if ret =? -1 then printf ("write: invalid arguments" +:+ nl) []
     else if ret =? -2 then printf ("write: parent not found" +:+ nl) []
     else if ret =? -3 then printf ("write: file not found" +:+ nl) []
     else if ret =? -4 then printf ("write: out of memory" +:+ nl) []
     else mret tt);;
    mret 0.

Definition fs_cat_api (argv : list string) : M fs Z :=
  if negb (argc argv =? 2) then printf ("cat: missing file operand" +:+ nl) [];; mret (-1)
  else
    ret ← fs_cat (arg argv 1) None;
    (if ret =? -1 then printf ("cat: invalid arguments" +:+ nl) []
     else if ret =? -2 then printf ("cat: cannot open parent" +:+ nl) []
     else if ret =? -3 then printf ("cat: file not found" +:+ nl) []
     else mret tt);;
    mret 0.

Definition fs_ls_api (argv : list string) : M fs Z :=
  if (1 <? argc argv) && (streq (arg argv 1) "--help" || streq (arg argv 1) "-h") then
    printf ("ls: list directory contents" +:+ nl) [];; mret 0
  else fs_ls.

Definition fs_pwd_api (argv : list string) : M fs Z :=
  s ← get;
  printf ("%s" +:+ nl) [AStr (current_path s)];;
  mret 0.

Definition fs_backspace_api (argv : list string) : M fs Z :=
  if (argc argv <? 2) || (3 <? argc argv) then
    printf ("backspace: usage backspace FILE [COUNT]" +:+ nl) [];; mret (-1)
  else if streq (arg argv 1) "--help" then
    printf ("backspace FILE [COUNT]" +:+ nl) [];;
    printf ("Remove COUNT characters from the end of FILE (default 1)." +:+ nl) [];;
    mret 0
  else
    let cnt := if argc argv =? 3 then Numbers.atoi (arg argv 2) 10 else 1 in
    if (argc argv =? 3) && (cnt <? 0) then
      printf ("backspace: count must be non-negative" +:+ nl) [];; mret (-1)
    else
      ret ← fs_backspace (arg argv 1) cnt None;
      (if ret =? -1 then printf ("backspace: invalid file name" +:+ nl) []
       else if ret =? -2 then printf ("backspace: parent directory not found" +:+ nl) []
       else if ret =? -3 then printf ("backspace: file not found" +:+ nl) []
       else if ret =? -4 then printf ("backspace: failed to load file data" +:+ nl) []
       else if ret =? -5 then printf ("backspace: file is empty" +:+ nl) []
       else if ret =? -6 then printf ("backspace: out of memory" +:+ nl) []
       else mret tt);;
      mret 0.

(** The commands [fs_init] registers, in its order. *)
Definition fs_commands : list (string * string * string) :=
  [("mkdir", "Create a directory", "fs_mkdir_api");
   ("cd", "Change directory", "fs_cd_api");
   ("rmdir", "Remove empty directory", "fs_rmdir_api");
   ("touch", "Create an empty file", "fs_touch_api");
   ("write", "Write content to a file", "fs_write_api");
   ("cat", "Print file content", "fs_cat_api");
   ("ls", "List directory contents", "fs_ls_api");
   ("pwd", "Print working directory", "fs_pwd_api");
   ("rm", "Remove a file", "fs_rm_api");
   ("backspace", "Remove characters from end of file", "fs_backspace_api")].

Fixpoint register_all (cs : list (string * string * string)) : M fs unit :=
  match cs with
  | [] => mret tt
  | (name, desc, func) :: cs => on_heap (register_command name desc func);; register_all cs
  end.

(** [root] is a zero-initialised static object: no mount, no parent. *)
Definition fs_init : M fs Z :=
  store_dir root (new_foder "/" 0 0 0 0);;
  pwd ← on_heap (env_get "pwd");
  match pwd with
  | Some p => if 512 <=? strlen p then fault else modify (set_current root p)
  | None => modify (set_current root "/");; on_heap (env_set "pwd" "/")
  end;;
  register_all fs_commands;;
  mret 0.
End api.

End RamfsApi.
