(* ===== verification/RamfsInv.v ===== *)
(** The invariant of the file system in memory, and the tree it stands for.

    The abstract tree forgets hash tables, heap blocks and info records: a
    folder is its name, its parent, the folders and the bytes of the files
    it names. Every block a folder uses has one owner, recorded in a ghost
    map; that is what makes freeing one block harmless to the others.

    The invariant says that no folder belongs to a mount, which is how the
    program runs: [Dfs.dfs_mount_never_succeeds] shows that no mount is ever
    recorded. File names come from a set [K] on which the comparison of the
    file table is equality. *)
From S2P Require Import Prelude.
From S2P Require Import Allocator.
From S2P Require Import CString.
From S2P Require Import RamfsTypes.
From S2P Require Import HashTable.
From S2P Require Import RamfsHash.
From S2P Require Import RamfsHashFile.
From S2P Require Import Drive.
From S2P Require Import FsState.
From S2P Require Import DfsLoad.
From S2P Require Import Ramfs.
Import CString RamfsTypes RamfsHash RamfsHashFile FsState DfsLoad Ramfs.
#[local] Open Scope general_if_scope.

Module RamfsInv.

(** * The abstract tree *)

Record adir : Type := ADir {
  a_name : string;
  a_parent : Z;
  a_dirs : gmap string Z;
  a_files : gmap string (list Z)
}.
Abbreviation tree := (gmap Z adir).

Definition file_bytes (blocks : gmap Z (list Z)) (f : ramfs_file_info) : list Z :=
  if fi_ptr f =? 0 then [] else default [] (blocks !! fi_ptr f).
Definition abs_dir (blocks : gmap Z (list Z)) (d : ramfs_foder) : adir :=
  ADir (fo_name d) (fo_parent d) (di_ptr <$> HashTable.contents (foder_map d))
    (file_bytes blocks <$> HashTable.contents (file_map d)).
Definition abs {A D} (s : fs A D) : tree := abs_dir (data s) <$> dirs s.

Definition add_dir (n : string) (q : Z) (a : adir) : adir :=
  ADir (a_name a) (a_parent a) (<[n := q]> (a_dirs a)) (a_files a).
Definition del_dir (n : string) (a : adir) : adir :=
  ADir (a_name a) (a_parent a) (delete n (a_dirs a)) (a_files a).
Definition set_file (n : string) (bs : list Z) (a : adir) : adir :=
  ADir (a_name a) (a_parent a) (a_dirs a) (<[n := bs]> (a_files a)).
Definition del_file (n : string) (a : adir) : adir :=
  ADir (a_name a) (a_parent a) (a_dirs a) (delete n (a_files a)).

(** Path resolution on the tree: [None] when a component does not exist;
    going up from the root ends the resolution there. *)
Fixpoint resolve_parts (t : tree) (cur : Z) (ps : list string) : option Z :=
  match ps with
  | [] => Some cur
  | p :: ps =>
      if bool_decide (p = EmptyString ∨ p = ".") then resolve_parts t cur ps
      else
        a ← t !! cur;
        if bool_decide (p = "..") then
          if a_parent a =? 0 then Some cur else resolve_parts t (a_parent a) ps
        else q ← a_dirs a !! p; resolve_parts t q ps
  end.
Definition resolve (t : tree) (base : Z) (path : string) : option Z :=
  if bool_decide (path = EmptyString) then None
  else if starts_with_slash path then resolve_parts t root (split_slash (tail path))
  else resolve_parts t base (split_slash path).

(** * The invariant *)

Inductive owner : Type :=
  | ODir
  | OFolderNode (p : Z)
  | OFileNode (p : Z)
  | OData (p : Z) (n : string).

Definition file_ok (own : gmap Z owner) (blocks : gmap Z (list Z)) (p : Z) (k : string)
  (f : ramfs_file_info) : Prop :=
  (fi_ptr f = 0 ∧ fi_length f = 0) ∨
  (fi_ptr f ≠ 0 ∧ own !! fi_ptr f = Some (OData p k) ∧
   ∃ bs, blocks !! fi_ptr f = Some bs ∧ Z.of_nat (length bs) = fi_length f ∧
     0 < fi_length f ≤ 4294967288).

Record dir_ok (K : string → Prop) (own : gmap Z owner) (ds : gmap Z ramfs_foder)
  (blocks : gmap Z (list Z)) (p : Z) (d : ramfs_foder) : Prop := {
  dk_foders : HashTable.wf (foder_map d);
  dk_files : HashTable.wf (file_map d);
  dk_names k : k ∈ dom (HashTable.contents (file_map d)) → K k;
  dk_fnodes a : a ∈ HashTable.addrs (foder_map d) → own !! a = Some (OFolderNode p);
  dk_nodes a : a ∈ HashTable.addrs (file_map d) → own !! a = Some (OFileNode p);
  dk_subs k i : HashTable.contents (foder_map d) !! k = Some i →
    di_ptr i ≠ root ∧ ∃ d', ds !! di_ptr i = Some d' ∧ fo_parent d' = p ∧ fo_name d' = k;
  dk_data k f : HashTable.contents (file_map d) !! k = Some f → file_ok own blocks p k f;
  dk_mem : fo_mount d = 0 ∧ fo_type d = RAMFS_FOLDER_TYPE_MEM;
  dk_root : p = root → fo_parent d = 0;
  dk_self : p ≠ root → own !! p = Some ODir ∧ no_nul (fo_name d) ∧
    ∃ q i, ds !! fo_parent d = Some q ∧ HashTable.contents (foder_map q) !! fo_name d = Some i ∧
      di_ptr i = p
}.

(** [path] names [p]: the names on the way from the root. *)
Inductive path_of (ds : gmap Z ramfs_foder) : nat → Z → string → Prop :=
  | path_root d : ds !! root = Some d → path_of ds 0 root "/"
  | path_sub k p d out :
      p ≠ root → ds !! p = Some d → fo_parent d ≠ 0 → path_of ds k (fo_parent d) out →
      path_of ds (S k) p ((if ends_with_slash out then out else out +:+ "/") +:+ fo_name d).

Section inv.
Context {A D : Type} `{!Alloc.Allocator A}.

Record inv (K : string → Prop) (own : gmap Z owner) (L : gset Z) (s : fs A D) : Prop := {
  inv_live : Alloc.live (heap s) L;
  inv_own : dom own ⊆ L;
  inv_root : is_Some (dirs s !! root);
  inv_dirs p d : dirs s !! p = Some d → dir_ok K own (dirs s) (data s) p d;
  inv_cwd : is_Some (dirs s !! current_dir s);
  inv_depth p d : dirs s !! p = Some d → ∃ k path, path_of (dirs s) k p path;
  inv_pwd : ∃ k, path_of (dirs s) k (current_dir s) (current_path s)
}.
Definition Inv (K : string → Prop) (s : fs A D) : Prop := ∃ own L, inv K own L s.
End inv.

(** What ramfs.c asks of the environment: assigning [pwd], which the kernel
    defines at boot, succeeds and allocates nothing. *)
Class ServicesLaws (A : Type) `{!Alloc.Allocator A, !Services A} : Prop := {
  env_set_pwd h L v : Alloc.live h L → wp (env_set "pwd" v) h (λ _ h' _, Alloc.live h' L)
}.

(** * Facts about paths *)

Lemma streq_spec a b : no_nul a → no_nul b → streq a b = bool_decide (a = b).
Proof.
  intros Ha Hb. rewrite /streq. apply eq_true_iff_eq.
  by rewrite Z.eqb_eq strcmp_zero // bool_decide_eq_true.
Qed.

Lemma split_slash_no_nul s : no_nul s → Forall no_nul (split_slash s).
Proof.
  induction s as [|c s IH]; simpl; [repeat constructor|]. intros [Hc Hs]. specialize (IH Hs).
  destruct (Ascii.eqb c slash); [by constructor|].
  destruct (split_slash s) as [|part rest]; [by repeat constructor|].
  apply Forall_cons in IH as [? ?]. by repeat constructor.
Qed.

Lemma tail_no_nul s : no_nul s → no_nul (tail s).
Proof. destruct s; simpl; tauto. Qed.

Lemma lookup_abs {A D} (s : fs A D) p : abs s !! p = abs_dir (data s) <$> dirs s !! p.
Proof. by rewrite /abs lookup_fmap. Qed.

Section facts.
Context {A D : Type} `{!Alloc.Allocator A, !Alloc.AllocatorLaws A, !Services A, !ServicesLaws A, !Drive.Hba D}.
Context (K : string → Prop) (HK : HashTable.distinguishable (V:=ramfs_file_info) K).
Implicit Types (s : fs A D) (d : ramfs_foder).

Lemma load_dir_ok s p d : dirs s !! p = Some d → load_dir p s = Ok (d, s, []).
Proof. intros Hd. by rewrite /load_dir (bind_ok _ _ s s s) // Hd. Qed.

Lemma load_dir_wp s p d (Q : ramfs_foder → fs A D → list event → Prop) :
  dirs s !! p = Some d → Q d s [] → wp (load_dir p) s Q.
Proof. intros Hd HQ. by rewrite /wp (load_dir_ok _ _ _ Hd). Qed.

Lemma owned_above own L s a o : inv K own L s → own !! a = Some o → Alloc.IMAGE_BASE < a.
Proof.
  intros Hinv Ho. eapply Alloc.live_above; [apply (inv_live _ _ _ _ Hinv)|].
  apply (inv_own _ _ _ _ Hinv). by eapply elem_of_dom_2.
Qed.

Lemma dir_nonzero own L s p d : inv K own L s → dirs s !! p = Some d → p ≠ 0.
Proof.
  intros Hinv Hd ->. destruct (inv_dirs _ _ _ _ Hinv _ _ Hd) as [? ? ? ? ? ? ? ? ? Hself].
  destruct Hself as [Ho _]; [done|]. by pose proof (owned_above _ _ _ _ _ Hinv Ho).
Qed.

Lemma parent_zero own L s p d :
  inv K own L s → dirs s !! p = Some d → fo_parent d = 0 ↔ p = root.
Proof.
  intros Hinv Hd. pose proof (inv_dirs _ _ _ _ Hinv _ _ Hd) as Hok.
  split; [|apply (dk_root _ _ _ _ _ _ Hok)]. intros Hz. apply dec_stable. intros Hne.
  destruct (dk_self _ _ _ _ _ _ Hok Hne) as (_&_&q&i&Hq&_&_).
  rewrite Hz in Hq. by apply (dir_nonzero _ _ _ _ _ Hinv) in Hq.
Qed.

Lemma find_foder own L s p d n :
  inv K own L s → dirs s !! p = Some d →
  ramfs_hashmap_find (foder_map d) n = HashTable.contents (foder_map d) !! n.
Proof.
  intros Hinv Hd. apply HashTable.find_contents; [|apply folder_separated].
  apply (dk_foders _ _ _ _ _ _ (inv_dirs _ _ _ _ Hinv _ _ Hd)).
Qed.

Lemma files_separated own ds blocks p d n :
  dir_ok K own ds blocks p d → K n → HashTable.separated (file_map d) n.
Proof.
  intros Hok Hn e He Heq. apply HK; [|done|done]. apply (dk_names _ _ _ _ _ _ Hok).
  pose proof (dk_files _ _ _ _ _ _ Hok) as Hwf.
  apply elem_of_dom. exists (n_value e). apply HashTable.contents_lookup; [done|].
  exists e. split; [by eapply HashTable.bucket_nodes|done].
Qed.

Lemma find_file own ds blocks p d n :
  dir_ok K own ds blocks p d → K n →
  ramfs_file_hashmap_find (file_map d) n = HashTable.contents (file_map d) !! n.
Proof.
  intros Hok Hn. apply HashTable.find_contents; [apply (dk_files _ _ _ _ _ _ Hok)|].
  by eapply files_separated.
Qed.

Lemma not_unloaded own ds blocks p d : dir_ok K own ds blocks p d → unloaded d = false.
Proof. intros Hok. destruct (dk_mem _ _ _ _ _ _ Hok) as [_ Ht]. by rewrite /unloaded Ht. Qed.

Lemma lazy_load_ok own L s p d :
  inv K own L s → dirs s !! p = Some d → lazy_load_directory p s = Ok (tt, s, []).
Proof.
  intros Hinv Hd. rewrite /lazy_load_directory.
  rewrite (proj2 (Z.eqb_neq p 0)); [by eapply dir_nonzero|].
  rewrite (bind_ok _ _ s d s); [by apply load_dir_ok|].
  by rewrite (not_unloaded _ _ _ _ _ (inv_dirs _ _ _ _ Hinv _ _ Hd)).
Qed.

(** No folder is a clean copy of a disk folder, so none is marked. *)
Lemma mark_dirty_files own ds blocks p d m :
  dir_ok K own ds blocks p d → mark_dirty (set_file_map m d) = set_file_map m d.
Proof. intros Hok. destruct (dk_mem _ _ _ _ _ _ Hok) as [_ Ht]. by rewrite /mark_dirty /= Ht. Qed.
Lemma mark_dirty_foders own ds blocks p d m :
  dir_ok K own ds blocks p d → mark_dirty (set_foder_map m d) = set_foder_map m d.
Proof. intros Hok. destruct (dk_mem _ _ _ _ _ _ Hok) as [_ Ht]. by rewrite /mark_dirty /= Ht. Qed.
Lemma mark_dirty_ok own ds blocks p d : dir_ok K own ds blocks p d → mark_dirty d = d.
Proof. intros Hok. destruct (dk_mem _ _ _ _ _ _ Hok) as [_ Ht]. by rewrite /mark_dirty Ht. Qed.

(** Walking a path reads the tree and changes nothing. *)
Lemma walk_ok own L s cur ps :
  inv K own L s → is_Some (dirs s !! cur) → Forall no_nul ps →
  walk cur ps s = Ok (default 0 (resolve_parts (abs s) cur ps), s, []) ∧
  ∀ q, resolve_parts (abs s) cur ps = Some q → is_Some (dirs s !! q).
Proof.
  intros Hinv Hcur Hps. revert cur Hcur.
  induction Hps as [|part ps Hn _ IH]; intros cur [d Hd]; simpl; [naive_solver|].
  rewrite !streq_spec //.
  destruct (decide (part = EmptyString)) as [->|Hne]; [by apply IH|].
  rewrite (bool_decide_false (part = EmptyString)) //.
  destruct (decide (part = ".")) as [->|Hdot]; [by apply IH|].
  rewrite (bool_decide_false (part = ".")) // (bool_decide_false (part = _ ∨ part = _)); [naive_solver|].
  rewrite (bind_ok _ _ s d s); [by apply load_dir_ok|].
  rewrite lookup_abs Hd /=. pose proof (inv_dirs _ _ _ _ Hinv _ _ Hd) as Hok.
  destruct (decide (part = "..")) as [->|Hdd].
  - rewrite bool_decide_true //. destruct (Z.eqb_spec (fo_parent d) 0) as [|Hpar]; simpl; [naive_solver|].
    apply IH. destruct (decide (cur = root)) as [->|Hroot].
    + by rewrite (dk_root _ _ _ _ _ _ Hok) in Hpar.
    + destruct (dk_self _ _ _ _ _ _ Hok Hroot) as (_&_&q&i&Hq&_). by exists q.
  - rewrite bool_decide_false //. rewrite (find_foder _ _ _ _ _ _ Hinv Hd) lookup_fmap.
    destruct (HashTable.contents (foder_map d) !! part) as [i|] eqn:Hi; simpl; [|done].
    destruct (dk_subs _ _ _ _ _ _ Hok _ _ Hi) as (_&d'&Hd'&_).
    rewrite (bind_ok _ _ s d' s); [by apply load_dir_ok|].
    rewrite (not_unloaded _ _ _ _ _ (inv_dirs _ _ _ _ Hinv _ _ Hd')) /=. by apply IH.
Qed.

Lemma get_dir_ok own L s base path :
  inv K own L s → is_Some (dirs s !! base) → no_nul path → strlen path < 512 →
  _get_dir_by_path base path s = Ok (default 0 (resolve (abs s) base path), s, []) ∧
  ∀ q, resolve (abs s) base path = Some q → is_Some (dirs s !! q).
Proof.
  intros Hinv Hb Hn Hlen. rewrite /_get_dir_by_path /resolve streq_spec //.
  case_bool_decide as Hp; [done|]. destruct (Z.leb_spec 512 (strlen path)); [lia|].
  destruct (starts_with_slash path).
  - eapply walk_ok; [done|apply (inv_root _ _ _ _ Hinv)|]. by apply split_slash_no_nul, tail_no_nul.
  - eapply walk_ok; [done..|]. by apply split_slash_no_nul.
Qed.

(** * Changing the files of one folder *)

(** Paths survive when the folders on them keep their names and parents. *)
Lemma path_mono (P : Z → Prop) ds ds' k p path :
  (∀ q d, P q → ds !! q = Some d → ∃ d', ds' !! q = Some d' ∧ fo_name d' = fo_name d ∧
    fo_parent d' = fo_parent d ∧ (fo_parent d ≠ 0 → P (fo_parent d))) →
  P p → path_of ds k p path → path_of ds' k p path.
Proof.
  intros Hkeep HP Hpath. induction Hpath as [d Hd|k p d out Hne Hd Hpar _ IH].
  - destruct (Hkeep _ _ HP Hd) as (d'&Hd'&_). by apply (path_root _ d').
  - destruct (Hkeep _ _ HP Hd) as (d'&Hd'&Hn&Hp&HPp). rewrite -Hn.
    apply path_sub; rewrite ?Hp; auto.
Qed.

Lemma path_insert ds p0 d0 d0' k p path :
  ds !! p0 = Some d0 → fo_name d0' = fo_name d0 → fo_parent d0' = fo_parent d0 →
  path_of ds k p path → path_of (<[p0 := d0']> ds) k p path.
Proof.
  intros Hd0 Hn Hp. apply (path_mono (λ _, True)); [|done]. intros q d _ Hd.
  destruct (decide (q = p0)) as [->|Hne].
  - exists d0'. rewrite lookup_insert_eq. naive_solver.
  - exists d. rewrite lookup_insert_ne //.
Qed.

Lemma inv_files own L s p d own' L' s' m' :
  inv K own L s → dirs s !! p = Some d → dirs s' = <[p := set_file_map m' d]> (dirs s) →
  current_dir s' = current_dir s → current_path s' = current_path s →
  Alloc.live (heap s') L' → dom own' ⊆ L' →
  (∀ a o, own !! a = Some o → (∀ n, o ≠ OData p n) → o ≠ OFileNode p → own' !! a = Some o) →
  (∀ a q n, q ≠ p → own !! a = Some (OData q n) → data s' !! a = data s !! a) →
  HashTable.wf m' → (∀ k, k ∈ dom (HashTable.contents m') → K k) →
  (∀ a, a ∈ HashTable.addrs m' → own' !! a = Some (OFileNode p)) →
  (∀ k f, HashTable.contents m' !! k = Some f → file_ok own' (data s') p k f) →
  inv K own' L' s' ∧
  abs s' = <[p := ADir (fo_name d) (fo_parent d) (di_ptr <$> HashTable.contents (foder_map d))
                    (file_bytes (data s') <$> HashTable.contents m')]> (abs s).
Proof.
  intros Hinv Hd Hdirs Hcwd Hpwd Hl Hown Hkeep Hblk Hwf Hnames Hnodes Hfiles.
  assert (Hlook : ∀ q e, dirs s !! q = Some e → ∃ e', dirs s' !! q = Some e' ∧
    fo_name e' = fo_name e ∧ fo_parent e' = fo_parent e ∧ foder_map e' = foder_map e).
  { intros q e He. rewrite Hdirs. destruct (decide (q = p)) as [->|Hne].
    - exists (set_file_map m' d). rewrite lookup_insert_eq. naive_solver.
    - exists e. by rewrite lookup_insert_ne. }
  assert (Hfok : ∀ q k f, q ≠ p → file_ok own (data s) q k f → file_ok own' (data s') q k f).
  { intros q k f Hne [?|(?&Ho&bs&Hbs&?)]; [by left|right]. split_and!; [done|by apply Hkeep; naive_solver|].
    exists bs. split; [by erewrite Hblk|done]. }
  split; [split|].
  - done.
  - done.
  - destruct (inv_root _ _ _ _ Hinv) as [r Hr]. destruct (Hlook _ _ Hr) as (r'&Hr'&_). by exists r'.
  - intros q e He.
    assert (∃ e0, dirs s !! q = Some e0 ∧ e = (if decide (q = p) then set_file_map m' d else e0)) as (e0&He0&->).
    { rewrite Hdirs in He. case_decide as Hqp; subst.
      - exists d. split; [done|]. rewrite lookup_insert_eq in He. congruence.
      - exists e. by rewrite lookup_insert_ne in He. }
    pose proof (inv_dirs _ _ _ _ Hinv _ _ He0) as Hok.
    assert (Hself : q ≠ root → own' !! q = Some ODir ∧ no_nul (fo_name e0) ∧
      ∃ r i, dirs s' !! fo_parent e0 = Some r ∧ HashTable.contents (foder_map r) !! fo_name e0 = Some i ∧ di_ptr i = q).
    { intros Hr. destruct (dk_self _ _ _ _ _ _ Hok Hr) as (Ho&Hn&r&i&Hr1&Hi&Hp).
      split_and!; [by apply Hkeep; naive_solver|done|].
      destruct (Hlook _ _ Hr1) as (r'&Hr'&_&_&Hm). exists r', i. by rewrite Hm. }
    assert (Hsubs : ∀ k i, HashTable.contents (foder_map e0) !! k = Some i →
      di_ptr i ≠ root ∧ ∃ d', dirs s' !! di_ptr i = Some d' ∧ fo_parent d' = q ∧ fo_name d' = k).
    { intros k i Hi. destruct (dk_subs _ _ _ _ _ _ Hok _ _ Hi) as (?&d1&Hd1&Hp1&Hn1). split; [done|].
      destruct (Hlook _ _ Hd1) as (d1'&?&?&?&_). exists d1'. split_and!; congruence. }
    assert (Hfn : ∀ a, a ∈ HashTable.addrs (foder_map e0) → own' !! a = Some (OFolderNode q)).
    { intros a Ha. apply Hkeep; [by apply (dk_fnodes _ _ _ _ _ _ Hok)|naive_solver..]. }
    case_decide as Hqp; [subst q|].
    + assert (e0 = d) as -> by congruence.
      split; simpl; [apply Hok|done|done|done|done|done|done|apply Hok|apply Hok|done].
    + split; [apply Hok|apply Hok|apply Hok|done| |done| |apply Hok|apply Hok|done].
      * intros a Ha. apply Hkeep; [by apply (dk_nodes _ _ _ _ _ _ Hok)|naive_solver|naive_solver].
      * intros k f Hf. apply Hfok; [done|]. by apply (dk_data _ _ _ _ _ _ Hok).
  - rewrite Hcwd. destruct (inv_cwd _ _ _ _ Hinv) as [c Hc]. destruct (Hlook _ _ Hc) as (c'&Hc'&_). by exists c'.
  - intros q e He. rewrite Hdirs in He |- *. apply lookup_insert_Some in He as He'.
    assert (∃ e0, dirs s !! q = Some e0) as [e0 He0].
    { destruct He' as [[<- _]|[_ ?]]; eauto. }
    destruct (inv_depth _ _ _ _ Hinv _ _ He0) as (k&path&Hp). exists k, path. by eapply path_insert.
  - destruct (inv_pwd _ _ _ _ Hinv) as [k Hk]. exists k. rewrite Hcwd Hpwd Hdirs. by eapply path_insert.
  - apply map_eq. intros q. rewrite lookup_abs Hdirs. destruct (decide (q = p)) as [->|Hne].
    { by rewrite !lookup_insert_eq. }
    rewrite !lookup_insert_ne // lookup_abs. destruct (dirs s !! q) as [e|] eqn:He; [|done].
    simpl. f_equal. rewrite /abs_dir. f_equal. apply map_fmap_ext. intros k f Hf.
    pose proof (inv_dirs _ _ _ _ Hinv _ _ He) as Hok. rewrite /file_bytes.
    destruct (dk_data _ _ _ _ _ _ Hok _ _ Hf) as [[-> _]|(Hnz&Ho&_)]; [done|].
    by rewrite (Hblk _ _ _ Hne Ho).
Qed.
End facts.

End RamfsInv.
