(* ===== verification/RamfsFiles.v ===== *)
(** The file operations of ramfs.c against the abstract tree: touch, write,
    cat, rm and backspace.

    Each [*_post] is what a command does to the tree, branch by branch;
    the lemmas [*_ok] show that the code does it and keeps the invariant. *)
From S2P Require Import Prelude.
From S2P Require Import Allocator.
From S2P Require Import CString.
From S2P Require Import RamfsTypes.
From S2P Require Import HashTable.
From S2P Require Import RamfsHash.
From S2P Require Import RamfsHashFile.
From S2P Require Import Drive.
From S2P Require Import FsState.
From S2P Require Import DfsLoad.
From S2P Require Import Ramfs.
From S2P Require Import RamfsInv.
Import CString RamfsTypes RamfsHash RamfsHashFile FsState DfsLoad Ramfs RamfsInv.
#[local] Open Scope general_if_scope.

Module RamfsFiles.

(** * Naming a file *)

Definition parent_in (t : tree) (cwd : Z) (from : option string) : option Z :=
  match from with Some f => resolve t cwd f | None => Some cwd end.

(** The folder and the name of a file given by a path, or the code. *)
Definition located (t : tree) (cwd : Z) (name : string) (from : option string) : Z + Z * string :=
  match strrchr name slash with
  | None => match parent_in t cwd from with Some p => inr (p, name) | None => inl (-2) end
  | Some (path, file_name) =>
      if bool_decide (file_name = EmptyString) then inl (-1)
      else match (if starts_with_slash path then Some root else parent_in t cwd from) ≫=
                 (λ base, resolve t base path) with
           | Some p => inr (p, file_name)
           | None => inl (-2)
           end
  end.

Definition base_name (name : string) : string :=
  match strrchr name slash with Some (_, q) => q | None => name end.

(** A [from] argument the code can copy. *)
Definition from_ok (from : option string) : Prop :=
  match from with Some f => no_nul f ∧ strlen f < 512 | None => True end.

(** * What the commands do to the tree *)

Definition touch_post (t : tree) (cwd : Z) (name : string) (from : option string) (r : Z) (t' : tree) : Prop :=
  if bool_decide (strlen name = 0 ∨ 128 ≤ strlen name) then r = -1 ∧ t' = t
  else match located t cwd name from with
  | inl e => r = e ∧ t' = t
  | inr (p, f) => ∃ a, t !! p = Some a ∧
      match a_dirs a !! f, a_files a !! f with
      | Some _, _ => r = -3 ∧ t' = t
      | None, Some _ => r = -4 ∧ t' = t
      | None, None => (r = 0 ∧ t' = <[p := set_file f [] a]> t) ∨ (r = -5 ∧ t' = t)
      end
  end.

(** The two functions that take no path for the file itself. *)
Definition write_post (t : tree) (cwd : Z) (name : string) (bytes : list Z) (from : option string)
  (r : Z) (t' : tree) : Prop :=
  match parent_in t cwd from with
  | None => r = -2 ∧ t' = t
  | Some p => ∃ a, t !! p = Some a ∧
      match a_files a !! name with
      | None => r = -3 ∧ t' = t
      | Some _ => r = 0 ∧ t' = <[p := set_file name bytes a]> t
      end
  end.

Definition cat_post (t : tree) (cwd : Z) (name : string) (from : option string) (r : Z)
  (out : list event) : Prop :=
  match parent_in t cwd from with
  | None => r = -2 ∧ out = []
  | Some p => ∃ a, t !! p = Some a ∧
      match a_files a !! name with
      | None => r = -3 ∧ out = []
      | Some bytes => r = 0 ∧ out = (λ b, Printf "%c" [AChr b]) <$> bytes
      end
  end.

Definition rm_post (t : tree) (cwd : Z) (name : string) (from : option string) (r : Z) (t' : tree) : Prop :=
  if bool_decide (strlen name = 0) then r = -1 ∧ t' = t
  else match located t cwd name from with
  | inl e => r = e ∧ t' = t
  | inr (p, f) => ∃ a, t !! p = Some a ∧
      match a_files a !! f with
      | None => r = -3 ∧ t' = t
      | Some _ => r = 0 ∧ t' = <[p := del_file f a]> t
      end
  end.

Definition backspace_post (t : tree) (cwd : Z) (name : string) (cnt : Z) (from : option string)
  (r : Z) (t' : tree) : Prop :=
  if bool_decide (cnt < 0) then r = -1 ∧ t' = t
  else if bool_decide (cnt = 0) then r = 0 ∧ t' = t
  else match located t cwd name from with
  | inl e => r = e ∧ t' = t
  | inr (p, f) => ∃ a, t !! p = Some a ∧
      match a_files a !! f with
      | None => r = -3 ∧ t' = t
      | Some [] => r = -5 ∧ t' = t
      | Some bytes =>
          (r = 0 ∧ t' = <[p := set_file f (take (length bytes - Z.to_nat cnt) bytes) a]> t) ∨
          (r = -6 ∧ t' = t)
      end
  end.

Section files.
Context {A D : Type} `{!Alloc.Allocator A, !Alloc.AllocatorLaws A, !Services A, !ServicesLaws A, !Drive.Hba D}.
Context (K : string → Prop) (HK : HashTable.distinguishable (V:=ramfs_file_info) K).
Implicit Types (s : fs A D) (d : ramfs_foder).

Lemma parent_of_ok own L s from :
  inv K own L s → from_ok from →
  parent_of from s = Ok (default 0 (parent_in (abs s) (current_dir s) from), s, []) ∧
  ∀ p, parent_in (abs s) (current_dir s) from = Some p → is_Some (dirs s !! p).
Proof.
  intros Hinv Hf. rewrite /parent_of (bind_ok _ _ s s s) //. destruct from as [f|]; simpl.
  - destruct Hf. eapply get_dir_ok; [done|apply (inv_cwd _ _ _ _ Hinv)|done|done].
  - split; [done|]. intros p [= <-]. apply (inv_cwd _ _ _ _ Hinv).
Qed.

Lemma app_no_nul a c b : no_nul (a +:+ String c b) → no_nul a ∧ no_nul b.
Proof. induction a as [|x a IH]; simpl; [tauto|]. intros [? Hx]. by destruct (IH Hx). Qed.

Lemma app_length a c b : String.length (a +:+ String c b) = (String.length a + S (String.length b))%nat.
Proof. induction a as [|x a IH]; simpl; [done|]. by rewrite IH. Qed.

Lemma default_zero own L s (o : option Z) :
  inv K own L s → (∀ p, o = Some p → is_Some (dirs s !! p)) →
  (default 0 o =? 0) = match o with Some _ => false | None => true end.
Proof.
  intros Hinv Ho. destruct o as [p|]; [|done]. destruct (Ho p eq_refl) as [d Hd].
  apply Z.eqb_neq. by eapply dir_nonzero.
Qed.

Lemma locate_ok own L s name from :
  inv K own L s → from_ok from → no_nul name → strlen name < 512 →
  locate name from s = Ok (located (abs s) (current_dir s) name from, s, []) ∧
  ∀ p f, located (abs s) (current_dir s) name from = inr (p, f) →
    is_Some (dirs s !! p) ∧ f = base_name name ∧ strlen f ≤ strlen name.
Proof.
  intros Hinv Hf Hn Hlen. rewrite /locate /located /base_name.
  destruct (Z.leb_spec 512 (strlen name)); [lia|].
  destruct (parent_of_ok _ _ _ from Hinv Hf) as [Hpar Hpd].
  destruct (strrchr name slash) as [[path f]|] eqn:Hs.
  - apply strrchr_spec in Hs as [Hname _].
    assert (no_nul path ∧ no_nul f) as [Hnp Hnf] by (rewrite Hname in Hn; by apply app_no_nul in Hn).
    assert (strlen path < strlen name ∧ strlen f < strlen name) as [Hlp Hlf].
    { rewrite /strlen Hname app_length. lia. }
    rewrite streq_spec //. case_bool_decide as Hfe; [done|].
    set o := if starts_with_slash path then Some root else parent_in (abs s) (current_dir s) from.
    assert ((if starts_with_slash path then mret root else parent_of from) s = Ok (default 0 o, s, [])) as Hbase.
    { rewrite /o. by destruct (starts_with_slash path). }
    assert (∀ p, o = Some p → is_Some (dirs s !! p)) as Ho.
    { rewrite /o. destruct (starts_with_slash path); [|done]. intros p [= <-]. apply (inv_root _ _ _ _ Hinv). }
    rewrite (bind_ok _ _ s (default 0 o) s) // (default_zero _ _ _ o Hinv Ho).
    destruct o as [base|]; simpl; [|done].
    destruct (get_dir_ok _ _ _ _ base path Hinv (Ho _ eq_refl) Hnp) as [Hget Hgd]; [lia|].
    rewrite (bind_ok _ _ s (default 0 (resolve (abs s) base path)) s) //.
    rewrite (default_zero _ _ _ _ Hinv Hgd). destruct (resolve _ base path) as [p|]; simpl; [|done].
    split; [done|]. intros p' f' [= <- <-]. split_and!; [by apply Hgd|done|lia].
  - rewrite (bind_ok _ _ s _ s Hpar) (default_zero _ _ _ _ Hinv Hpd).
    destruct (parent_in _ _ from) as [p|]; simpl; [|done].
    split; [done|]. intros p' f' [= <- <-]. split_and!; [by apply Hpd|done|lia].
Qed.

(** * Tables in a folder *)

Lemma file_contents own L s p d n :
  inv K own L s → dirs s !! p = Some d → K n →
  ramfs_file_hashmap_find (file_map d) n = HashTable.contents (file_map d) !! n ∧
  HashTable.separated (file_map d) n ∧ HashTable.wf (file_map d).
Proof.
  intros Hinv Hd Hn. pose proof (inv_dirs _ _ _ _ Hinv _ _ Hd) as Hok. split_and!.
  - by eapply find_file.
  - by eapply files_separated.
  - apply (dk_files _ _ _ _ _ _ Hok).
Qed.

Lemma addrs_owned own L s p d : inv K own L s → dirs s !! p = Some d →
  HashTable.addrs (file_map d) ⊆ L ∧ HashTable.addrs (foder_map d) ⊆ L.
Proof.
  intros Hinv Hd. pose proof (inv_dirs _ _ _ _ Hinv _ _ Hd) as Hok.
  split; intros a Ha; apply (inv_own _ _ _ _ Hinv); eapply elem_of_dom_2.
  - by apply (dk_nodes _ _ _ _ _ _ Hok).
  - by apply (dk_fnodes _ _ _ _ _ _ Hok).
Qed.

Lemma file_ok_mono own own' blocks blocks' p k f :
  (own !! fi_ptr f = Some (OData p k) → own' !! fi_ptr f = Some (OData p k) ∧
     blocks' !! fi_ptr f = blocks !! fi_ptr f) →
  file_ok own blocks p k f → file_ok own' blocks' p k f.
Proof.
  intros H12 [?|(?&Ho&bs&Hbs&?)]; [by left|right]. destruct (H12 Ho) as [? Hb].
  split_and!; [done..|]. exists bs. by rewrite Hb.
Qed.

Lemma abs_at s p d : dirs s !! p = Some d → abs s !! p = Some (abs_dir (data s) d).
Proof. intros Hd. by rewrite lookup_abs Hd. Qed.

Lemma a_files_lookup blocks d n :
  a_files (abs_dir blocks d) !! n = file_bytes blocks <$> HashTable.contents (file_map d) !! n.
Proof. by rewrite lookup_fmap. Qed.
Lemma a_dirs_lookup blocks d n :
  a_dirs (abs_dir blocks d) !! n = di_ptr <$> HashTable.contents (foder_map d) !! n.
Proof. by rewrite lookup_fmap. Qed.

Lemma inv_heap own L L' s h :
  inv K own L s → Alloc.live h L' → dom own ⊆ L' → inv K own L' (set_heap h s).
Proof. intros [????] Hl Ho. by split. Qed.

(** Creating the entry of an empty file. *)
Lemma create_file own L s p d f info :
  inv K own L s → dirs s !! p = Some d → K f → (String.length f ≤ 127)%nat →
  HashTable.contents (file_map d) !! f = None → fi_ptr info = 0 → fi_length info = 0 →
  wp (on_heap (ramfs_file_hashmap_insert (file_map d) f info)) s (λ '(r, m) s1 _,
    (r = 0 ∧ ∃ own' L', inv K own' L' s1 ∧ abs s1 = abs s ∧ dirs s1 = dirs s ∧
       current_dir s1 = current_dir s) ∨
    (r = 1 ∧ let s' := set_dirs (<[p := set_file_map m d]> (dirs s1)) s1 in
       (∃ own' L', inv K own' L' s') ∧ current_dir s1 = current_dir s ∧
       abs s' = <[p := set_file f [] (abs_dir (data s) d)]> (abs s))).
Proof.
  intros Hinv Hd Hk Hlen Hnone Hp0 Hl0. destruct (file_contents _ _ _ _ _ _ Hinv Hd Hk) as (_&Hsep&Hwf).
  pose proof (inv_dirs _ _ _ _ Hinv _ _ Hd) as Hok.
  destruct (addrs_owned _ _ _ _ _ Hinv Hd) as [HaL _].
  rewrite /on_heap. apply wp_zoom. eapply wp_mono.
  { apply HashTable.insert_spec with (L := L); [done..|]. split; [apply (inv_live _ _ _ _ Hinv)|done]. }
  intros [r m] h o [(->&Hwf'&Hc&Hsub&Hnew&Hl&Hown)|(->&->&_&Hl&_)]; [right|left].
  - split; [done|]. cbv zeta.
    set own' := own ∪ gset_to_gmap (OFileNode p) (HashTable.addrs m).
    assert (Hkeep : ∀ a x, own !! a = Some x → own' !! a = Some x).
    { intros a x Ha. by apply lookup_union_Some_l. }
    edestruct (inv_files K own L s p d own' (L ∪ HashTable.addrs m)
      (set_dirs (<[p := set_file_map m d]> (dirs s)) (set_heap h s)) m) as [Hi Ha]; try done.
    + rewrite dom_union_L dom_gset_to_gmap. pose proof (inv_own _ _ _ _ Hinv). set_solver.
    + by auto.
    + intros k. rewrite Hc dom_insert_L. intros [->%elem_of_singleton|Hk']%elem_of_union; [done|].
      by apply (dk_names _ _ _ _ _ _ Hok).
    + intros a Ha. destruct (decide (a ∈ HashTable.addrs (file_map d))) as [Hin|Hnin].
      { by apply Hkeep, (dk_nodes _ _ _ _ _ _ Hok). }
      rewrite lookup_union_r; [|by apply lookup_gset_to_gmap_Some].
      apply not_elem_of_dom. intros Hdom. apply (Hnew a); [set_solver|]. by apply (inv_own _ _ _ _ Hinv).
    + intros k g. rewrite Hc. intros [[<- <-]|[_ Hg]]%lookup_insert_Some; [by left|].
      eapply file_ok_mono; [|by apply (dk_data _ _ _ _ _ _ Hok)]. by eauto.
    + split; [by eexists _, _|]. split; [done|]. rewrite Ha. f_equal.
      rewrite /set_file /abs_dir /=. f_equal. rewrite Hc fmap_insert. by rewrite /file_bytes /= Hp0.
  - split; [done|]. exists own, L. split_and!; [|done..].
    eapply inv_heap; [done|done|apply (inv_own _ _ _ _ Hinv)].
Qed.

Lemma fs_touch_ok s name from :
  Inv K s → no_nul name → from_ok from → K (base_name name) →
  wp (fs_touch name from) s (λ r s' _, Inv K s' ∧ current_dir s' = current_dir s ∧
    touch_post (abs s) (current_dir s) name from r (abs s')).
Proof.
  intros HI Hn Hf Hk. pose proof HI as (own&L&Hinv). rewrite /fs_touch /touch_post.
  destruct (Z.eqb_spec (strlen name) 0) as [|Hl0]; simpl.
  { rewrite bool_decide_true; [by left|]. by wp_steps. }
  destruct (Z.leb_spec 128 (strlen name)); simpl.
  { rewrite bool_decide_true; [by right|]. by wp_steps. }
  rewrite bool_decide_false; [lia|].
  destruct (locate_ok _ _ _ name from Hinv Hf Hn) as [Hloc Hlp]; [lia|].
  eapply wp_bind_ok; [exact Hloc|].
  destruct (located _ _ _ _) as [e|[p f]]; [by wp_steps|].
  destruct (Hlp p f eq_refl) as ([d Hd]&->&Hlen). rewrite (abs_at _ _ _ Hd).
  eapply wp_bind_ok; [by eapply lazy_load_ok|]. eapply wp_bind_ok; [by apply load_dir_ok|].
  rewrite (find_foder K _ _ _ _ _ _ Hinv Hd). destruct (file_contents _ _ _ _ _ _ Hinv Hd Hk) as (->&_&_).
  destruct (HashTable.contents (foder_map d) !! base_name name) as [i|] eqn:Hi.
  { wp_steps. split_and!; [done..|]. eexists. split; [done|]. by rewrite a_dirs_lookup Hi. }
  destruct (HashTable.contents (file_map d) !! base_name name) as [g|] eqn:Hg.
  { wp_steps. split_and!; [done..|]. eexists. split; [done|]. by rewrite a_dirs_lookup a_files_lookup Hi Hg. }
  apply wp_bind. eapply wp_mono.
  { eapply create_file; [done..| |done|done|done]. rewrite /strlen in Hlen. unfold strlen in *. lia. }
  intros [r m] s1 o [(->&own'&L'&Hinv'&Habs&Hds&Hcwd)|(->&(own'&L'&Hinv')&Hcwd&Habs)]; simpl; wp_steps.
  - split_and!; [by eexists _, _|done|]. eexists. split; [done|].
    rewrite a_dirs_lookup a_files_lookup Hi Hg. by right.
  - rewrite (mark_dirty_files K _ _ _ _ _ _ (inv_dirs _ _ _ _ Hinv _ _ Hd)).
    split_and!; [by eexists _, _|done|]. eexists. split; [done|].
    rewrite a_dirs_lookup a_files_lookup Hi Hg. left. by split.
Qed.

(** * Replacing and removing the data of a file *)

(** The block of an entry belongs to that entry. *)
Lemma block_owner own L s p d k info a o :
  inv K own L s → dirs s !! p = Some d → HashTable.contents (file_map d) !! k = Some info →
  own !! a = Some o → o ≠ OData p k → a ≠ fi_ptr info.
Proof.
  intros Hinv Hd Hk Ho Hne ->. pose proof (inv_dirs _ _ _ _ Hinv _ _ Hd) as Hok.
  destruct (dk_data _ _ _ _ _ _ Hok _ _ Hk) as [[Hz _]|(_&Ho'&_)]; [|congruence].
  rewrite Hz in Ho. by pose proof (owned_above _ _ _ _ _ _ Hinv Ho).
Qed.

Lemma rewrite_entry own L s p d k info s' L' ptr len type bytes :
  inv K own L s → dirs s !! p = Some d → K k →
  HashTable.contents (file_map d) !! k = Some info →
  Alloc.live (heap s') L' → L ∖ {[fi_ptr info]} ⊆ L' →
  (∀ a, a ≠ fi_ptr info → a ≠ ptr → data s' !! a = data s !! a) →
  (ptr = 0 ∧ len = 0 ∧ bytes = []) ∨
  (ptr ≠ 0 ∧ (ptr ∉ L ∖ {[fi_ptr info]}) ∧ ptr ∈ L' ∧ data s' !! ptr = Some bytes ∧
   Z.of_nat (length bytes) = len ∧ 0 < len ≤ 4294967288) →
  current_dir s' = current_dir s → current_path s' = current_path s →
  dirs s' = <[p := set_file_map (HashTable.update (file_map d) k (λ info,
    FileInfo (fi_name info) type len ptr (fi_drive_addr info))) d]> (dirs s) →
  Inv K s' ∧ abs s' = <[p := set_file k bytes (abs_dir (data s) d)]> (abs s).
Proof.
  intros Hinv Hd Hk Hinfo Hl Hsub Hdata Hptr Hcwd Hpwd Hdirs.
  destruct (file_contents _ _ _ _ _ _ Hinv Hd Hk) as (_&Hsep&Hwf).
  pose proof (inv_dirs _ _ _ _ Hinv _ _ Hd) as Hok.
  destruct (HashTable.update_wf (file_map d) k (λ info,
    FileInfo (fi_name info) type len ptr (fi_drive_addr info)) info Hwf Hsep Hinfo) as (Hwf'&Hc&Ha&_).
  set m' := HashTable.update _ _ _ in Hwf', Hc, Ha, Hdirs.
  set own' := if decide (ptr = 0) then delete (fi_ptr info) own
              else <[ptr := OData p k]> (delete (fi_ptr info) own).
  assert (Hne : ∀ a o, own !! a = Some o → o ≠ OData p k → a ≠ fi_ptr info ∧ (ptr ≠ 0 → a ≠ ptr)).
  { intros a o Ho Hok1. assert (a ≠ fi_ptr info) by by eapply block_owner. split; [done|].
    intros Hnz ->. destruct Hptr as [[? _]|(_&Hnin&_)]; [done|]. apply Hnin.
    apply elem_of_difference. split; [|set_solver]. apply (inv_own _ _ _ _ Hinv). by eapply elem_of_dom_2. }
  assert (Hkeep : ∀ a o, own !! a = Some o → o ≠ OData p k → own' !! a = Some o).
  { intros a o Ho Hok1. destruct (Hne a o Ho Hok1) as [? Hp2]. rewrite /own'. case_decide.
    - by rewrite lookup_delete_ne.
    - rewrite lookup_insert_ne; [by apply not_eq_sym, Hp2|]. by rewrite lookup_delete_ne. }
  assert (Hblk : ∀ a o, own !! a = Some o → o ≠ OData p k → data s' !! a = data s !! a).
  { intros a o Ho Hok1. destruct (Hne a o Ho Hok1) as [? Hp2]. apply Hdata; [done|].
    intros ->. apply Hp2; [|done]. intros ->. by pose proof (owned_above _ _ _ _ _ _ Hinv Ho). }
  destruct (inv_files K own L s p d own' L' s' m') as [Hi Habs]; try done.
  - pose proof (inv_own _ _ _ _ Hinv) as Hown. rewrite /own'. case_decide.
    + rewrite dom_delete_L. set_solver.
    + destruct Hptr as [[? _]|(_&_&Hin&_)]; [done|]. rewrite dom_insert_L dom_delete_L. set_solver.
  - intros a o Ho Hnd _. apply Hkeep; [done|]. apply Hnd.
  - intros a q n Hq Ho. eapply Hblk; [done|]. naive_solver.
  - intros k'. rewrite Hc dom_insert_L. intros [->%elem_of_singleton|Hk']%elem_of_union; [done|].
    by apply (dk_names _ _ _ _ _ _ Hok).
  - intros a. rewrite Ha. intros Hin. apply Hkeep; [by apply (dk_nodes _ _ _ _ _ _ Hok)|done].
  - intros k' g. rewrite Hc. intros [[<- <-]|[Hkk Hg]]%lookup_insert_Some.
    + destruct Hptr as [(->&->&_)|(?&_&_&?&?&?)]; [by left|right]. simpl. split; [done|]. split.
      * rewrite /own' decide_False //. by rewrite lookup_insert_eq.
      * by exists bytes.
    + eapply file_ok_mono; [|by apply (dk_data _ _ _ _ _ _ Hok)]. intros Ho.
      split; [apply Hkeep; [done|congruence]|]. eapply Hblk; [done|congruence].
  - split; [by eexists _, _|]. rewrite Habs. f_equal. rewrite /set_file /=. f_equal.
    rewrite Hc fmap_insert. apply map_eq. intros k'. destruct (decide (k' = k)) as [->|Hkk].
    + rewrite !lookup_insert_eq /file_bytes /=. destruct Hptr as [(->&_&->)|(?&_&_&->&_)]; [done|].
      by rewrite (proj2 (Z.eqb_neq ptr 0)).
    + rewrite !lookup_insert_ne // !lookup_fmap.
      destruct (HashTable.contents (file_map d) !! k') as [g|] eqn:Hg; [|done]. simpl. f_equal.
      rewrite /file_bytes.
      destruct (dk_data _ _ _ _ _ _ Hok _ _ Hg) as [[-> _]|(_&Ho&_)]; [done|].
      rewrite (Hblk _ _ Ho); [congruence|done].
Qed.

(** The end of [fs_write] and [fs_backspace]. *)
Lemma finish_ok own L s p d k info s2 L' ptr len type bytes :
  inv K own L s → dirs s !! p = Some d → K k →
  HashTable.contents (file_map d) !! k = Some info →
  Alloc.live (heap s2) L' → L ∖ {[fi_ptr info]} ⊆ L' →
  (∀ a, a ≠ fi_ptr info → a ≠ ptr → data s2 !! a = data s !! a) →
  (ptr = 0 ∧ len = 0 ∧ bytes = []) ∨
  (ptr ≠ 0 ∧ (ptr ∉ L ∖ {[fi_ptr info]}) ∧ ptr ∈ L' ∧ data s2 !! ptr = Some bytes ∧
   Z.of_nat (length bytes) = len ∧ 0 < len ≤ 4294967288) →
  current_dir s2 = current_dir s → current_path s2 = current_path s → dirs s2 = dirs s →
  wp (store_dir p (mark_dirty (set_file_map (HashTable.update (file_map d) k (λ info,
    FileInfo (fi_name info) type len ptr (fi_drive_addr info))) d));; mret 0) s2 (λ r s' _,
    r = 0 ∧ Inv K s' ∧ current_dir s' = current_dir s ∧
    abs s' = <[p := set_file k bytes (abs_dir (data s) d)]> (abs s)).
Proof.
  intros Hinv Hd Hk Hinfo Hl Hsub Hdata Hptr Hcwd Hpwd Hdirs.
  rewrite (mark_dirty_files K _ _ _ _ _ _ (inv_dirs _ _ _ _ Hinv _ _ Hd)) /store_dir. wp_steps.
  split; [done|]. set s' := set_dirs _ s2.
  destruct (rewrite_entry own L s p d k info s' L' ptr len type bytes) as [Hi Ha]; try done.
  rewrite /s' /= Hdirs //.
Qed.

(** [if (info->ptr) free(info->ptr)]. *)
Lemma release_ok own L s p d k info :
  inv K own L s → dirs s !! p = Some d → HashTable.contents (file_map d) !! k = Some info →
  wp (if negb (fi_ptr info =? 0) then free_data (fi_ptr info) else mret tt) s (λ _ s1 _,
    Alloc.live (heap s1) (L ∖ {[fi_ptr info]}) ∧
    (∀ a, a ≠ fi_ptr info → data s1 !! a = data s !! a) ∧ (fi_ptr info ≠ 0 → data s1 !! fi_ptr info = None) ∧
    dirs s1 = dirs s ∧ current_dir s1 = current_dir s ∧ current_path s1 = current_path s).
Proof.
  intros Hinv Hd Hk. pose proof (inv_dirs _ _ _ _ Hinv _ _ Hd) as Hok.
  pose proof (inv_live _ _ _ _ Hinv) as Hl.
  destruct (Z.eqb_spec (fi_ptr info) 0) as [Hz|Hnz]; simpl.
  - wp_steps. split_and!; [|done..]. rewrite Hz difference_disjoint_L //.
    pose proof (Alloc.live_nonnull _ _ Hl). set_solver.
  - rewrite /free_data /on_heap. wp_steps.
    eapply wp_mono; [apply Alloc.free_live; [done|]|].
    { destruct (dk_data _ _ _ _ _ _ Hok _ _ Hk) as [[? _]|(_&Ho&_)]; [done|].
      apply (inv_own _ _ _ _ Hinv). by eapply elem_of_dom_2. }
    intros [] h o Hl'. wp_steps. simpl. split_and!; [done| |by rewrite lookup_delete_eq|done..].
    intros a Ha. by rewrite lookup_delete_ne.
Qed.

Lemma fs_write_ok s name bytes from :
  Inv K s → from_ok from → K name → Z.of_nat (length bytes) ≤ 4294967288 →
  wp (fs_write name bytes from) s (λ r s' _, r ≠ -4 →
    Inv K s' ∧ current_dir s' = current_dir s ∧
    write_post (abs s) (current_dir s) name bytes from r (abs s')).
Proof.
  intros HI Hf Hk Hlen. pose proof HI as (own&L&Hinv). rewrite /fs_write /write_post.
  destruct (parent_of_ok _ _ _ from Hinv Hf) as [Hpar Hpd].
  eapply wp_bind_ok; [exact Hpar|]. rewrite (default_zero _ _ _ _ Hinv Hpd).
  destruct (parent_in _ _ from) as [p|]; [|by wp_steps]. destruct (Hpd p eq_refl) as [d Hd].
  cbn [default]. rewrite (abs_at _ _ _ Hd).
  eapply wp_bind_ok; [by eapply lazy_load_ok|]. eapply wp_bind_ok; [by apply load_dir_ok|].
  destruct (file_contents _ _ _ _ _ _ Hinv Hd Hk) as (->&_&_).
  destruct (HashTable.contents (file_map d) !! name) as [info|] eqn:Hinfo.
  2:{ wp_steps. intros _. split_and!; [done..|]. eexists. split; [done|]. by rewrite a_files_lookup Hinfo. }
  apply wp_bind. eapply wp_mono; [by eapply release_ok|].
  intros [] s1 o1 (Hl1&Hdata1&_&Hds1&Hcwd1&Hpwd1).
  assert (Hm : ∀ m, mark_dirty (set_file_map m d) = set_file_map m d).
  { intros m. apply (mark_dirty_files K _ _ _ _ _ _ (inv_dirs _ _ _ _ Hinv _ _ Hd)). }
  apply wp_bind. destruct (decide (length bytes = 0%nat)) as [Hz|Hnz].
  - destruct bytes; [|done]. rewrite /on_heap. apply wp_zoom.
    assert (wp (Alloc.malloc 0) (heap s1) (λ r h _, r = 0 ∧ h = heap s1)) as Hw by by rewrite /wp Alloc.malloc_zero.
    eapply wp_mono; [exact Hw|]. intros q h o [-> ->]. cbn [Z.eqb Z.ltb andb length Z.of_nat Z.compare]. apply wp_bind, wp_ret.
    eapply wp_mono; [eapply (finish_ok own L s p d name info); try done; [by intros a ? _; apply Hdata1|by left]|].
    intros r s' o' (->&Hi&Hc&Ha) _. split_and!; [done..|]. eexists. split; [done|].
    by rewrite a_files_lookup Hinfo.
  - rewrite /on_heap. apply wp_zoom. eapply wp_mono; [apply Alloc.malloc_live; [done|lia]|].
    rewrite (proj2 (Z.ltb_lt 0 _)); [lia|].
    intros q h o [[-> Hl]|(Hq&HqL&Hl)]; [by wp_steps|].
    rewrite (proj2 (Z.eqb_neq q 0)) //=. rewrite /store_data. apply wp_bind, wp_modify.
    eapply wp_mono; [eapply (finish_ok own L s p d name info) with (bytes := bytes); try done|].
    + set_solver.
    + intros a Ha1 Ha2. rewrite /= lookup_insert_ne //. by apply Hdata1.
    + right. rewrite /= lookup_insert_eq. split_and!; [done|done|set_solver|done..|lia|lia].
    + intros r s' o' (->&Hi&Hc&Ha) _. split_and!; [done..|]. eexists. split; [done|].
      by rewrite a_files_lookup Hinfo.
Qed.

(** A silent read of a folder's file: what the entry and its block hold. *)
Lemma file_block own L s p d k info :
  inv K own L s → dirs s !! p = Some d → HashTable.contents (file_map d) !! k = Some info →
  (fi_ptr info = 0 ∧ fi_length info = 0 ∧ file_bytes (data s) info = []) ∨
  (fi_ptr info ≠ 0 ∧ data s !! fi_ptr info = Some (file_bytes (data s) info) ∧
   fi_length info = Z.of_nat (length (file_bytes (data s) info)) ∧ 0 < fi_length info ≤ 4294967288 ∧
   fi_ptr info ∈ L).
Proof.
  intros Hinv Hd Hk. pose proof (inv_dirs _ _ _ _ Hinv _ _ Hd) as Hok. rewrite /file_bytes.
  destruct (dk_data _ _ _ _ _ _ Hok _ _ Hk) as [[Hp Hl]|(Hp&Ho&bs&Hbs&Hl&Hr)]; [left|right].
  - by rewrite Hp Hl.
  - rewrite (proj2 (Z.eqb_neq _ 0)) // Hbs. split_and!; try done; try lia.
    apply (inv_own _ _ _ _ Hinv). by eapply elem_of_dom_2.
Qed.

Lemma print_bytes_ok bs s : print_bytes bs s = Ok (tt, s, (λ b, Printf "%c" [AChr b]) <$> bs).
Proof.
  induction bs as [|b bs IH]; [done|]. cbn [print_bytes]. rewrite /mbind /M_bind /printf.
  rewrite IH //.
Qed.

Lemma fs_cat_ok s name from :
  Inv K s → from_ok from → K name →
  ∃ r out, fs_cat name from s = Ok (r, s, out) ∧ cat_post (abs s) (current_dir s) name from r out.
Proof.
  intros (own&L&Hinv) Hf Hk. rewrite /fs_cat /cat_post.
  destruct (parent_of_ok _ _ _ from Hinv Hf) as [Hpar Hpd].
  rewrite (bind_ok _ _ _ _ _ Hpar) (default_zero _ _ _ _ Hinv Hpd).
  destruct (parent_in _ _ from) as [p|]; [|by eexists _, _]. destruct (Hpd p eq_refl) as [d Hd].
  cbn [default]. rewrite (abs_at _ _ _ Hd).
  rewrite (bind_ok _ _ _ _ _ (lazy_load_ok K _ _ _ _ _ Hinv Hd)) (bind_ok _ _ _ _ _ (load_dir_ok _ _ _ Hd)).
  destruct (file_contents _ _ _ _ _ _ Hinv Hd Hk) as (Hfind&_&_). rewrite Hfind.
  destruct (HashTable.contents (file_map d) !! name) as [info|] eqn:Hinfo.
  2:{ eexists _, _. split; [done|]. eexists. split; [done|]. by rewrite a_files_lookup Hinfo. }
  destruct (dk_mem _ _ _ _ _ _ (inv_dirs _ _ _ _ Hinv _ _ Hd)) as [-> _]. cbn [Z.eqb negb].
  rewrite (bind_ok _ _ s 0 s) //. cbn [Z.eqb negb].
  rewrite (bind_ok _ _ _ _ _ (load_dir_ok _ _ _ Hd)) Hfind (bind_ok _ _ s info s) //.
  destruct (file_block _ _ _ _ _ _ _ Hinv Hd Hinfo) as [(->&_&Hb)|(Hnz&Hb&Hl&Hr&_)].
  - eexists _, _. split; [done|]. eexists. split; [done|]. by rewrite a_files_lookup Hinfo /= Hb.
  - rewrite (proj2 (Z.eqb_neq (fi_ptr info) 0)) // (proj2 (Z.eqb_neq (fi_length info) 0)); [lia|]. cbn [orb].
    rewrite (bind_ok _ _ s s s) // Hb (bind_ok _ _ s (file_bytes (data s) info) s) //.
    rewrite Hl Z.ltb_irrefl Nat2Z.id firstn_all /mbind /M_bind print_bytes_ok.
    eexists _, _. split; [done|]. eexists. split; [done|]. rewrite a_files_lookup Hinfo /=.
    split; [done|]. by rewrite app_nil_r.
Qed.

Lemma remove_entry own L s p d k info s' L' m' a0 :
  inv K own L s → dirs s !! p = Some d → K k →
  HashTable.contents (file_map d) !! k = Some info →
  HashTable.wf m' → HashTable.contents m' = base.delete k (HashTable.contents (file_map d)) →
  a0 ∈ HashTable.addrs (file_map d) → HashTable.addrs m' = HashTable.addrs (file_map d) ∖ {[a0]} →
  Alloc.live (heap s') L' → L' = L ∖ {[fi_ptr info]} ∖ {[a0]} →
  (∀ a, a ≠ fi_ptr info → data s' !! a = data s !! a) →
  current_dir s' = current_dir s → current_path s' = current_path s →
  dirs s' = <[p := set_file_map m' d]> (dirs s) →
  Inv K s' ∧ abs s' = <[p := del_file k (abs_dir (data s) d)]> (abs s).
Proof.
  intros Hinv Hd Hk Hinfo Hwf' Hc Ha0 Ha Hl HL' Hdata Hcwd Hpwd Hdirs.
  pose proof (inv_dirs _ _ _ _ Hinv _ _ Hd) as Hok.
  set own' := delete a0 (delete (fi_ptr info) own).
  pose proof (dk_nodes _ _ _ _ _ _ Hok _ Ha0) as Ho0.
  assert (Hkeep : ∀ a o, own !! a = Some o → o ≠ OData p k → a ≠ a0 → own' !! a = Some o).
  { intros a o Ho Hne Ha1. rewrite /own' !lookup_delete_ne //. apply not_eq_sym. by eapply block_owner. }
  assert (Hblk : ∀ a o, own !! a = Some o → o ≠ OData p k → data s' !! a = data s !! a).
  { intros a o Ho Hne. apply Hdata. by eapply block_owner. }
  destruct (inv_files K own L s p d own' L' s' m') as [Hi Habs]; try done.
  - pose proof (inv_own _ _ _ _ Hinv) as Hown. rewrite /own' !dom_delete_L HL'. set_solver.
  - intros a o Ho Hnd Hnf. apply Hkeep; [done|apply Hnd|]. intros ->. congruence.
  - intros a q n Hq Ho. eapply Hblk; [done|]. naive_solver.
  - intros k'. rewrite Hc dom_delete_L. intros [? _]%elem_of_difference.
    by apply (dk_names _ _ _ _ _ _ Hok).
  - intros a. rewrite Ha. intros [Hin Hne]%elem_of_difference.
    apply Hkeep; [by apply (dk_nodes _ _ _ _ _ _ Hok)|done|set_solver].
  - intros k' g. rewrite Hc. intros [Hkk Hg]%lookup_delete_Some.
    eapply file_ok_mono; [|by apply (dk_data _ _ _ _ _ _ Hok)]. intros Ho.
    split; [apply Hkeep; [done|congruence|]|eapply Hblk; [done|congruence]]. intros Hx. rewrite Hx in Ho. congruence.
  - split; [by eexists _, _|]. rewrite Habs. f_equal. rewrite /del_file /=. f_equal.
    rewrite Hc fmap_delete. apply map_eq. intros k'. destruct (decide (k' = k)) as [->|Hkk].
    + by rewrite !lookup_delete_eq.
    + rewrite !lookup_delete_ne // !lookup_fmap.
      destruct (HashTable.contents (file_map d) !! k') as [g|] eqn:Hg; [|done]. simpl. f_equal.
      rewrite /file_bytes.
      destruct (dk_data _ _ _ _ _ _ Hok _ _ Hg) as [[-> _]|(_&Ho&_)]; [done|].
      rewrite (Hblk _ _ Ho); [congruence|done].
Qed.

Lemma fs_rm_ok s name from :
  Inv K s → no_nul name → strlen name < 512 → from_ok from → K (base_name name) →
  wp (fs_rm name from) s (λ r s' _, Inv K s' ∧ current_dir s' = current_dir s ∧
    rm_post (abs s) (current_dir s) name from r (abs s')).
Proof.
  intros HI Hn Hlen Hf Hk. pose proof HI as (own&L&Hinv). rewrite /fs_rm /rm_post.
  destruct (Z.eqb_spec (strlen name) 0) as [Hz|Hl0].
  { rewrite bool_decide_true //. }
  rewrite bool_decide_false //.
  destruct (locate_ok _ _ _ name from Hinv Hf Hn Hlen) as [Hloc Hlp].
  eapply wp_bind_ok; [exact Hloc|].
  destruct (located _ _ _ _) as [e|[p f]]; [by wp_steps|].
  destruct (Hlp p f eq_refl) as ([d Hd]&->&_). rewrite (abs_at _ _ _ Hd).
  eapply wp_bind_ok; [by eapply lazy_load_ok|]. eapply wp_bind_ok; [by apply load_dir_ok|].
  destruct (file_contents _ _ _ _ _ _ Hinv Hd Hk) as (->&Hsep&Hwf).
  destruct (HashTable.contents (file_map d) !! base_name name) as [info|] eqn:Hinfo.
  2:{ wp_steps. split_and!; [done..|]. eexists. split; [done|]. by rewrite a_files_lookup Hinfo. }
  apply wp_bind. eapply wp_mono; [by eapply release_ok|].
  intros [] s1 o1 (Hl1&Hdata1&_&Hds1&Hcwd1&Hpwd1).
  apply wp_bind. rewrite /on_heap. apply wp_zoom.
  destruct (addrs_owned _ _ _ _ _ Hinv Hd) as [HaL _].
  pose proof (inv_dirs _ _ _ _ Hinv _ _ Hd) as Hok.
  eapply wp_mono.
  { apply HashTable.delete_spec with (L := L ∖ {[fi_ptr info]}); [done|done|]. split; [done|].
    intros a Ha. apply elem_of_difference. split; [by apply HaL|]. apply not_elem_of_singleton.
    eapply block_owner; [done..| |]; [by apply (dk_nodes _ _ _ _ _ _ Hok)|done]. }
  intros [r m] h o. rewrite Hinfo. intros (->&Hwf'&Hc&a0&Ha0&Ha&Hl2). cbn [Z.eqb].
  rewrite (mark_dirty_files K _ _ _ _ _ _ Hok) /store_dir. wp_steps.
  set s' := set_dirs _ _.
  destruct (remove_entry own L s p d (base_name name) info s' (L ∖ {[fi_ptr info]} ∖ {[a0]}) m a0)
    as [Hi Habs]; try done.
  - rewrite /s' /= Hds1 //.
  - split_and!; [done..|]. eexists. split; [done|]. by rewrite a_files_lookup Hinfo.
Qed.

Lemma fs_backspace_ok s name cnt from :
  Inv K s → no_nul name → strlen name < 512 → from_ok from → K (base_name name) →
  wp (fs_backspace name cnt from) s (λ r s' _, Inv K s' ∧ current_dir s' = current_dir s ∧
    backspace_post (abs s) (current_dir s) name cnt from r (abs s')).
Proof.
  intros HI Hn Hlen Hf Hk. pose proof HI as (own&L&Hinv). rewrite /fs_backspace /backspace_post.
  destruct (Z.ltb_spec cnt 0) as [Hneg|Hpos].
  { rewrite bool_decide_true //. }
  rewrite bool_decide_false; [lia|].
  destruct (Z.eqb_spec cnt 0) as [Hz|Hl0].
  { rewrite bool_decide_true //. }
  rewrite bool_decide_false //.
  destruct (locate_ok _ _ _ name from Hinv Hf Hn Hlen) as [Hloc Hlp].
  eapply wp_bind_ok; [exact Hloc|].
  destruct (located _ _ _ _) as [e|[p f]]; [by wp_steps|].
  destruct (Hlp p f eq_refl) as ([d Hd]&->&_). rewrite (abs_at _ _ _ Hd).
  eapply wp_bind_ok; [by eapply lazy_load_ok|]. eapply wp_bind_ok; [by apply load_dir_ok|].
  destruct (file_contents _ _ _ _ _ _ Hinv Hd Hk) as (Hfind&Hsep&Hwf). rewrite Hfind.
  destruct (HashTable.contents (file_map d) !! base_name name) as [info|] eqn:Hinfo.
  2:{ wp_steps. split_and!; [done..|]. eexists. split; [done|]. by rewrite a_files_lookup Hinfo. }
  pose proof (inv_dirs _ _ _ _ Hinv _ _ Hd) as Hok.
  destruct (dk_mem _ _ _ _ _ _ Hok) as [-> _]. cbn [Z.eqb negb].
  apply wp_bind, wp_ret. cbn [Z.eqb negb]. eapply wp_bind_ok; [by apply load_dir_ok|].
  rewrite Hfind. eapply wp_bind_ok; [done|].
  assert (Hfiles : a_files (abs_dir (data s) d) !! base_name name = Some (file_bytes (data s) info)).
  { by rewrite a_files_lookup Hinfo. }
  destruct (file_block _ _ _ _ _ _ _ Hinv Hd Hinfo) as [(Hp&Hl&Hb)|(Hnz&Hb&Hl&Hr&HpL)].
  { rewrite Hl /=. apply wp_ret. split_and!; [done..|]. eexists. split; [done|]. by rewrite Hfiles Hb. }
  rewrite (proj2 (Z.eqb_neq (fi_length info) 0)); [lia|].
  set bs := file_bytes (data s) info in Hb, Hl, Hfiles |- *.
  assert (Hbs : ∃ b bs', bs = b :: bs') by (destruct bs; [simpl in *; lia|by eexists _, _]).
  set keep := take (length bs - Z.to_nat cnt) bs.
  assert (Hnew : u32 (fi_length info - (if fi_length info <? cnt then fi_length info else cnt)) =
    Z.of_nat (length keep)).
  { rewrite /keep length_take u32_small; destruct (Z.ltb_spec (fi_length info) cnt); lia. }
  rewrite Hnew.
  assert (Hpost : ∀ r t', (r = 0 ∧ t' = <[p := set_file (base_name name) keep (abs_dir (data s) d)]> (abs s)) ∨
      (r = -6 ∧ t' = abs s) → ∃ a, Some (abs_dir (data s) d) = Some a ∧
    match a_files a !! base_name name with
    | None => r = -3 ∧ t' = abs s
    | Some [] => r = -5 ∧ t' = abs s
    | Some bytes => (r = 0 ∧ t' = <[p := set_file (base_name name)
        (take (length bytes - Z.to_nat cnt) bytes) a]> (abs s)) ∨ (r = -6 ∧ t' = abs s)
    end).
  { intros r t' Hrt. eexists. split; [done|]. rewrite Hfiles. destruct Hbs as (b&bs'&Hbs).
    rewrite /keep in Hrt. by rewrite Hbs in Hrt |- *. }
  destruct (Z.eqb_spec (Z.of_nat (length keep)) 0) as [Hk0|Hk0].
  - apply wp_bind. eapply wp_mono; [by eapply release_ok|].
    intros [] s1 o1 (Hl1&Hdata1&_&Hds1&Hcwd1&Hpwd1).
    assert (keep = []) as Hkeep by (apply nil_length_inv; lia).
    eapply wp_mono; [eapply (finish_ok own L s p d (base_name name) info); try done;
      [by intros a ? _; apply Hdata1|by left]|].
    intros r s' o' (->&Hi&Hc&Ha). split_and!; [done..|]. apply Hpost. by left.
  - apply wp_bind. rewrite /on_heap. apply wp_zoom.
    eapply wp_mono; [apply Alloc.malloc_live; [apply (inv_live _ _ _ _ Hinv)|]|].
    { assert (length keep ≤ length bs)%nat by (rewrite /keep length_take; lia). lia. }
    intros q h o [[-> Hlv]|(Hq&HqL&Hlv)].
    { apply wp_ret. split_and!; [|done|].
      - exists own, L. eapply inv_heap; [done|done|apply (inv_own _ _ _ _ Hinv)].
      - apply Hpost. by right. }
    rewrite (proj2 (Z.eqb_neq q 0)) //. apply wp_bind, wp_get. apply wp_bind.
    eapply wp_unwrap; [exact Hb|]. assert (length keep ≤ length bs)%nat as Hkl by (rewrite /keep length_take; lia).
    rewrite (proj2 (Z.ltb_ge _ _)); [lia|].
    assert (take (Z.to_nat (Z.of_nat (length keep))) bs = keep) as ->.
    { rewrite Nat2Z.id /keep length_take. f_equal. lia. }
    rewrite /store_data. apply wp_bind, wp_modify. rewrite /free_data /on_heap.
    apply wp_bind, wp_bind, wp_zoom.
    eapply wp_mono; [apply Alloc.free_live; [exact Hlv|set_solver]|].
    intros [] h2 o2 Hl2. apply wp_modify.
    assert (q ≠ fi_ptr info) as Hqi by (intros ->; done).
    eapply wp_mono; [eapply (finish_ok own L s p d (base_name name) info) with (bytes := keep); try done|].
    + set_solver.
    + intros a Ha1 Ha2. rewrite /= lookup_delete_ne // lookup_insert_ne //.
    + right. rewrite /= lookup_delete_ne // lookup_insert_eq.
      split_and!; [done|set_solver|set_solver|done..|lia|lia].
    + intros r s' o' (->&Hi&Hc&Ha). split_and!; [done..|]. apply Hpost. by left.
Qed.

(** When [malloc] fails, [fs_write] has already freed the old block, and
    the entry still points to it. *)
Lemma fs_write_dangles_ok own L s p d name info bytes :
  inv K own L s → current_dir s = p → dirs s !! p = Some d → K name →
  HashTable.contents (file_map d) !! name = Some info → fi_ptr info ≠ 0 →
  0 < Z.of_nat (length bytes) ≤ 4294967288 →
  wp (fs_write name bytes None) s (λ r s' _, r = -4 →
    Alloc.live (heap s') (L ∖ {[fi_ptr info]}) ∧ data s' !! fi_ptr info = None ∧
    dirs s' !! p = Some d).
Proof.
  intros Hinv <- Hd Hk Hinfo Hnz Hlen. rewrite /fs_write.
  destruct (parent_of_ok _ _ _ None Hinv I) as [Hpar Hpd].
  eapply wp_bind_ok; [exact Hpar|]. rewrite (default_zero _ _ _ _ Hinv Hpd). cbn [parent_in default].
  eapply wp_bind_ok; [by eapply lazy_load_ok|]. eapply wp_bind_ok; [by apply load_dir_ok|].
  destruct (file_contents _ _ _ _ _ _ Hinv Hd Hk) as (->&_&_). rewrite Hinfo.
  apply wp_bind. eapply wp_mono; [by eapply release_ok|].
  intros [] s1 o1 (Hl1&Hdata1&Hnone&Hds1&Hcwd1&Hpwd1).
  apply wp_bind. rewrite /on_heap. apply wp_zoom. eapply wp_mono; [by apply Alloc.malloc_live|].
  rewrite (proj2 (Z.ltb_lt 0 _)); [lia|].
  intros q h o [[-> Hl]|(Hq&HqL&Hl)].
  - apply wp_ret. intros _. simpl. split_and!; [done|by apply Hnone|by rewrite Hds1].
  - rewrite (proj2 (Z.eqb_neq q 0)) //=.
Qed.
End files.

End RamfsFiles.
