(* ===== verification/RamfsTree.v ===== *)
(** The folder operations of ramfs.c against the abstract tree: mkdir,
    rmdir and cd, and absolute paths. *)
From S2P Require Import Prelude.
From S2P Require Import Allocator.
From S2P Require Import CString.
From S2P Require Import RamfsTypes.
From S2P Require Import HashTable.
From S2P Require Import RamfsHash.
From S2P Require Import RamfsHashFile.
From S2P Require Import Drive.
From S2P Require Import FsState.
From S2P Require Import DfsLoad.
From S2P Require Import Ramfs.
From S2P Require Import RamfsInv.
From S2P Require Import RamfsFiles.
Import CString RamfsTypes RamfsHash RamfsHashFile FsState DfsLoad Ramfs RamfsInv RamfsFiles.
#[local] Open Scope general_if_scope.

Module RamfsTree.

(** * What the commands do to the tree *)

Definition mkdir_post (t : tree) (cwd : Z) (name : string) (from : option string) (r : Z) (t' : tree) : Prop :=
  if bool_decide (strlen name = 0 ∨ 128 ≤ strlen name) then r = -1 ∧ t' = t
  else match parent_in t cwd from with
  | None => r = -2 ∧ t' = t
  | Some p => ∃ a, t !! p = Some a ∧
      match a_dirs a !! name, a_files a !! name with
      | Some _, _ => r = -3 ∧ t' = t
      | None, Some _ => r = -4 ∧ t' = t
      | None, None =>
          (r = 0 ∧ ∃ q, t !! q = None ∧
             t' = <[q := ADir name p ∅ ∅]> (<[p := add_dir name q a]> t)) ∨
          (r = -5 ∧ t' = t)
      end
  end.

Definition rmdir_post (t : tree) (cwd : Z) (name : string) (r : Z) (t' : tree) : Prop :=
  ∃ a, t !! cwd = Some a ∧
    match a_dirs a !! name with
    | None => r = -3 ∧ t' = t
    | Some q => ∃ b, t !! q = Some b ∧
        if bool_decide (a_dirs b = ∅ ∧ a_files b = ∅)
        then r = 0 ∧ t' = delete q (<[cwd := del_dir name a]> t)
        else r = -4 ∧ t' = t
    end.

(** The absolute path of a folder of the tree, and its depth. *)
Inductive tree_path (t : tree) : nat → Z → string → Prop :=
  | tree_path_root a : t !! root = Some a → tree_path t 0 root "/"
  | tree_path_sub k p a out :
      p ≠ root → t !! p = Some a → a_parent a ≠ 0 → tree_path t k (a_parent a) out →
      tree_path t (S k) p ((if ends_with_slash out then out else out +:+ "/") +:+ a_name a).

(** [path'] is the absolute path of the new working folder. *)
Definition cd_post (t : tree) (cwd : Z) (pwd path : string) (r cwd' : Z) (pwd' : string) : Prop :=
  match resolve t cwd path with
  | None => r = -2 ∧ cwd' = cwd ∧ pwd' = pwd
  | Some q => r = 0 ∧ cwd' = q ∧ ∃ k, tree_path t k q pwd'
  end.

(** The folder [path] names is at most [fuel] deep, and its absolute path
    fits the 512 bytes of [current_path]. *)
Definition cd_fits (t : tree) (cwd : Z) (path : string) (fuel : nat) : Prop :=
  ∀ q k out, resolve t cwd path = Some q → tree_path t k q out → (k ≤ fuel)%nat ∧ strlen out < 512.

Section folders.
Context {A D : Type} `{!Alloc.Allocator A, !Alloc.AllocatorLaws A, !Services A, !ServicesLaws A, !Drive.Hba D}.
Context (K : string → Prop) (HK : HashTable.distinguishable (V:=ramfs_file_info) K).
Implicit Types (s : fs A D) (d : ramfs_foder).

Lemma path_of_abs s k p path : path_of (dirs s) k p path ↔ tree_path (abs s) k p path.
Proof.
  split.
  - induction 1 as [d Hd|k p d out Hne Hd Hpar _ IH].
    + apply (tree_path_root _ (abs_dir (data s) d)). by apply abs_at.
    + by apply (tree_path_sub _ k p (abs_dir (data s) d) out Hne); [apply abs_at|..].
  - induction 1 as [a Ha|k p a out Hne Ha Hpar _ IH]; rewrite lookup_abs in Ha;
      apply fmap_Some in Ha as (d&Hd&->); [by apply (path_root _ d)|by apply path_sub].
Qed.

(** A path is a function of the folder. *)
Lemma tree_path_fun t k p path : tree_path t k p path → ∀ k' path', tree_path t k' p path' → k' = k ∧ path' = path.
Proof.
  induction 1 as [a Ha|k p a out Hne Ha Hpar _ IH]; intros k' path' Hp'; inversion Hp'; subst; try done.
  match goal with Ha' : t !! p = Some ?b, Hout : tree_path t _ (a_parent ?b) _ |- _ =>
    assert (b = a) as -> by congruence; by destruct (IH _ _ Hout) as [-> ->] end.
Qed.

(** * mkdir *)

Lemma dir_fresh own L s q d : inv K own L s → dirs s !! q = Some d → q = root ∨ q ∈ L.
Proof.
  intros Hinv Hd. destruct (decide (q = root)) as [|Hne]; [by left|right].
  destruct (dk_self _ _ _ _ _ _ (inv_dirs _ _ _ _ Hinv _ _ Hd) Hne) as [Ho _].
  apply (inv_own _ _ _ _ Hinv). by eapply elem_of_dom_2.
Qed.

Lemma inv_add_dir own L s p d q name m info h L' :
  inv K own L s → dirs s !! p = Some d → no_nul name →
  q ∉ L → q ≠ root → HashTable.contents (foder_map d) !! name = None →
  HashTable.wf m → HashTable.contents m = <[name := info]> (HashTable.contents (foder_map d)) →
  di_ptr info = q → (HashTable.addrs m ∖ HashTable.addrs (foder_map d)) ## ({[q]} ∪ L) →
  Alloc.live h L' → {[q]} ∪ L ∪ HashTable.addrs m ⊆ L' →
  let s' := set_dirs (<[p := set_foder_map m d]> (<[q := new_foder name RAMFS_FOLDER_TYPE_MEM 0 p 0]> (dirs s)))
              (set_heap h s) in
  Inv K s' ∧ abs s' = <[q := ADir name p ∅ ∅]> (<[p := add_dir name q (abs_dir (data s) d)]> (abs s)).
Proof.
  intros Hinv Hd Hnul Hq Hqr Hnone Hwf Hc Hptr Hnew Hl HL' s'.
  pose proof (inv_dirs _ _ _ _ Hinv _ _ Hd) as Hok.
  assert (dirs s !! q = None) as Hqn.
  { apply eq_None_not_Some. intros [e He]. by destruct (dir_fresh _ _ _ _ _ Hinv He). }
  assert (p ≠ q) as Hpq by (intros ->; congruence).
  assert (Hdirs : dirs s' = <[p := set_foder_map m d]> (<[q := new_foder name RAMFS_FOLDER_TYPE_MEM 0 p 0]> (dirs s))) by done.
  assert (Hlook : ∀ r e, dirs s !! r = Some e → ∃ e', dirs s' !! r = Some e' ∧ fo_name e' = fo_name e ∧
    fo_parent e' = fo_parent e ∧
    ∀ k i, HashTable.contents (foder_map e) !! k = Some i → HashTable.contents (foder_map e') !! k = Some i).
  { intros r e He. rewrite Hdirs. destruct (decide (r = p)) as [->|Hrp].
    - exists (set_foder_map m d). rewrite lookup_insert_eq. assert (e = d) as -> by congruence.
      split_and!; [done..|]. intros k i Hi. rewrite /= Hc lookup_insert_ne //. congruence.
    - exists e. rewrite lookup_insert_ne // lookup_insert_ne //. congruence. }
  set own' := <[q := ODir]> own ∪ gset_to_gmap (OFolderNode p) (HashTable.addrs m).
  assert (Hkeep : ∀ a x, own !! a = Some x → own' !! a = Some x).
  { intros a x Ha. apply lookup_union_Some_l. rewrite lookup_insert_ne //. intros ->.
    apply Hq, (inv_own _ _ _ _ Hinv). by eapply elem_of_dom_2. }
  assert (Hnodes : ∀ a, a ∈ HashTable.addrs m → own' !! a = Some (OFolderNode p)).
  { intros a Ha. destruct (decide (a ∈ HashTable.addrs (foder_map d))) as [Hin|Hnin].
    { by apply Hkeep, (dk_fnodes _ _ _ _ _ _ Hok). }
    assert (a ∉ ({[q]} ∪ L)) as HaL by set_solver. rewrite /own' lookup_union_r.
    - rewrite lookup_insert_ne; [set_solver|]. apply not_elem_of_dom. intros Hdom.
      apply HaL, elem_of_union_r. by apply (inv_own _ _ _ _ Hinv).
    - by apply lookup_gset_to_gmap_Some. }
  assert (Hqown : own' !! q = Some ODir).
  { apply lookup_union_Some_l. by rewrite lookup_insert_eq. }
  assert (Habs : abs s' = <[q := ADir name p ∅ ∅]> (<[p := add_dir name q (abs_dir (data s) d)]> (abs s))).
  { assert (abs_dir (data s) (set_foder_map m d) = add_dir name q (abs_dir (data s) d)) as Hv1.
    { rewrite /abs_dir /add_dir /= Hc fmap_insert Hptr //. }
    assert (abs_dir (data s) (new_foder name RAMFS_FOLDER_TYPE_MEM 0 p 0) = ADir name p ∅ ∅) as Hv2.
    { rewrite /abs_dir /= /ramfs_hashmap_init /ramfs_file_hashmap_init.
      destruct (HashTable.init_wf (V:=ramfs_foder_info)) as (_&Hc1&_).
      destruct (HashTable.init_wf (V:=ramfs_file_info)) as (_&Hc2&_).
      by rewrite Hc1 Hc2 !fmap_empty. }
    rewrite /abs Hdirs !fmap_insert Hv1 Hv2 insert_insert_ne //. }
  split; [|done]. exists own', L'.
  assert (Hpath : ∀ k r path, path_of (dirs s) k r path → path_of (dirs s') k r path).
  { intros k r path. apply (path_mono (λ _, True)); [|done]. intros r' e _ He.
    destruct (Hlook r' e He) as (e'&?&?&?&_). by exists e'. }
  assert (Hself : ∀ r e, dirs s !! r = Some e → r ≠ root → own' !! r = Some ODir ∧ no_nul (fo_name e) ∧
    ∃ u i, dirs s' !! fo_parent e = Some u ∧ HashTable.contents (foder_map u) !! fo_name e = Some i ∧ di_ptr i = r).
  { intros r e He Hr. destruct (dk_self _ _ _ _ _ _ (inv_dirs _ _ _ _ Hinv _ _ He) Hr) as (Ho&Hn&u&i&Hu&Hi&Hp).
    split_and!; [by apply Hkeep|done|]. destruct (Hlook _ _ Hu) as (u'&Hu'&_&_&Hk). exists u', i. auto. }
  assert (Hsub : ∀ r e k i, dirs s !! r = Some e → HashTable.contents (foder_map e) !! k = Some i →
    di_ptr i ≠ root ∧ ∃ d', dirs s' !! di_ptr i = Some d' ∧ fo_parent d' = r ∧ fo_name d' = k).
  { intros r e k i He Hi. destruct (dk_subs _ _ _ _ _ _ (inv_dirs _ _ _ _ Hinv _ _ He) _ _ Hi) as (?&d1&Hd1&Hp1&Hn1).
    split; [done|]. destruct (Hlook _ _ Hd1) as (d1'&?&?&?&_). exists d1'. split_and!; congruence. }
  assert (Hfile : ∀ r e k f, dirs s !! r = Some e → HashTable.contents (file_map e) !! k = Some f →
    file_ok own' (data s) r k f).
  { intros r e k f He Hf. eapply file_ok_mono; [|by apply (dk_data _ _ _ _ _ _ (inv_dirs _ _ _ _ Hinv _ _ He))].
    eauto. }
  assert (Hnewp : dirs s' !! q = Some (new_foder name RAMFS_FOLDER_TYPE_MEM 0 p 0)).
  { by rewrite Hdirs lookup_insert_ne // lookup_insert_eq. }
  split.
  - done.
  - rewrite /own' dom_union_L dom_insert_L dom_gset_to_gmap. pose proof (inv_own _ _ _ _ Hinv). set_solver.
  - destruct (inv_root _ _ _ _ Hinv) as [r Hr]. destruct (Hlook _ _ Hr) as (r'&Hr'&_). by exists r'.
  - intros r e He. rewrite Hdirs in He.
    apply lookup_insert_Some in He as [[<- <-]|[Hrp He]]; [|apply lookup_insert_Some in He as [[<- <-]|[Hrq He]]].
    + split; simpl; [done|apply Hok|apply Hok|done| | | |apply Hok|apply Hok|].
      * intros a Ha. by apply Hkeep, (dk_nodes _ _ _ _ _ _ Hok).
      * intros k i. rewrite Hc. intros [[<- <-]|[Hk Hi]]%lookup_insert_Some; [|by apply (Hsub p d)].
        rewrite Hptr. split; [done|]. eexists. split; [exact Hnewp|done].
      * intros k f. by apply (Hfile p d).
      * by apply Hself.
    + destruct (HashTable.init_wf (V:=ramfs_foder_info)) as (Hw1&Hc1&Ha1).
      destruct (HashTable.init_wf (V:=ramfs_file_info)) as (Hw2&Hc2&Ha2).
      split; simpl; rewrite /ramfs_hashmap_init /ramfs_file_hashmap_init ?Hc1 ?Hc2 ?Ha1 ?Ha2; try done.
      intros _. split_and!; [done|done|]. exists (set_foder_map m d), info.
      rewrite lookup_insert_eq /= Hc lookup_insert_eq //.
    + pose proof (inv_dirs _ _ _ _ Hinv _ _ He) as Hok'.
      split; [apply Hok'|apply Hok'|apply Hok'| | | | |apply Hok'|apply Hok'|].
      * intros a Ha. by apply Hkeep, (dk_fnodes _ _ _ _ _ _ Hok').
      * intros a Ha. by apply Hkeep, (dk_nodes _ _ _ _ _ _ Hok').
      * intros k i. by apply Hsub.
      * intros k f. by apply (Hfile r e).
      * by apply Hself.
  - destruct (inv_cwd _ _ _ _ Hinv) as [c Hcw]. destruct (Hlook _ _ Hcw) as (c'&Hc'&_). by exists c'.
  - intros r e He. rewrite Hdirs in He.
    assert (is_Some (dirs s !! r) ∨ r = q) as [[e0 He0]| ->].
    { apply lookup_insert_Some in He as [[<- _]|[_ He]]; [left; by exists d|].
      apply lookup_insert_Some in He as [[<- _]|[_ He]]; [by right|left; by exists e]. }
    + destruct (inv_depth _ _ _ _ Hinv _ _ He0) as (k&path&Hp). exists k, path. by apply Hpath.
    + destruct (inv_depth _ _ _ _ Hinv _ _ Hd) as (k&path&Hp). eexists (S k), _.
      eapply path_sub; [done|exact Hnewp| |by apply Hpath]. simpl. by eapply dir_nonzero.
  - destruct (inv_pwd _ _ _ _ Hinv) as [k Hk]. exists k. by apply Hpath.
Qed.

Lemma fs_mkdir_ok s name from :
  Inv K s → no_nul name → from_ok from → K name →
  wp (fs_mkdir name from) s (λ r s' _, Inv K s' ∧ current_dir s' = current_dir s ∧
    current_path s' = current_path s ∧ mkdir_post (abs s) (current_dir s) name from r (abs s')).
Proof.
  intros HI Hn Hf Hk. pose proof HI as (own&L&Hinv). rewrite /fs_mkdir /mkdir_post.
  destruct (Z.eqb_spec (strlen name) 0) as [Hz|Hl0]; cbn [orb].
  { rewrite bool_decide_true; [by left|]. by wp_steps. }
  destruct (Z.leb_spec 128 (strlen name)).
  { rewrite bool_decide_true; [by right|]. by wp_steps. }
  rewrite bool_decide_false; [lia|].
  destruct (parent_of_ok K _ _ _ from Hinv Hf) as [Hpar Hpd].
  eapply wp_bind_ok; [exact Hpar|]. rewrite (default_zero K _ _ _ _ Hinv Hpd).
  destruct (parent_in _ _ from) as [p|]; [|by wp_steps]. destruct (Hpd p eq_refl) as [d Hd].
  cbn [default]. rewrite (abs_at _ _ _ Hd).
  eapply wp_bind_ok; [by eapply lazy_load_ok|]. eapply wp_bind_ok; [by apply load_dir_ok|].
  rewrite (find_foder K _ _ _ _ _ _ Hinv Hd). destruct (file_contents K HK _ _ _ _ _ _ Hinv Hd Hk) as (->&_&_).
  destruct (HashTable.contents (foder_map d) !! name) as [i|] eqn:Hi.
  { wp_steps. split_and!; [done..|]. eexists. split; [done|]. by rewrite a_dirs_lookup Hi. }
  destruct (HashTable.contents (file_map d) !! name) as [g|] eqn:Hg.
  { wp_steps. split_and!; [done..|]. eexists. split; [done|]. by rewrite a_dirs_lookup a_files_lookup Hi Hg. }
  assert (Hfail : ∀ s', Inv K s' ∧ current_dir s' = current_dir s ∧ current_path s' = current_path s ∧
    abs s' = abs s → Inv K s' ∧ current_dir s' = current_dir s ∧ current_path s' = current_path s ∧
    ∃ a, Some (abs_dir (data s) d) = Some a ∧ match a_dirs a !! name, a_files a !! name with
      | Some _, _ => -5 = -3 ∧ abs s' = abs s
      | None, Some _ => -5 = -4 ∧ abs s' = abs s
      | None, None => (-5 = 0 ∧ ∃ q, abs s !! q = None ∧
             abs s' = <[q := ADir name p ∅ ∅]> (<[p := add_dir name q a]> (abs s))) ∨
          (-5 = -5 ∧ abs s' = abs s) end).
  { intros s' (?&?&?&?). split_and!; [done..|]. eexists. split; [done|].
    rewrite a_dirs_lookup a_files_lookup Hi Hg. by right. }
  destruct (dk_mem _ _ _ _ _ _ (inv_dirs _ _ _ _ Hinv _ _ Hd)) as [-> _]. cbn [Z.eqb].
  apply wp_bind. rewrite /on_heap. apply wp_zoom.
  eapply wp_mono; [apply Alloc.malloc_live; [apply (inv_live _ _ _ _ Hinv)|done]|].
  intros q h o [[-> Hl]|(Hq&HqL&Hl)].
  { apply wp_ret, Hfail. split_and!; [|done..]. exists own, L.
    eapply inv_heap; [done|done|apply (inv_own _ _ _ _ Hinv)]. }
  rewrite (proj2 (Z.eqb_neq q 0)) //. rewrite /store_dir. apply wp_bind, wp_modify.
  pose proof (inv_dirs _ _ _ _ Hinv _ _ Hd) as Hok.
  destruct (addrs_owned K _ _ _ _ _ Hinv Hd) as [_ HaL].
  assert (q ≠ root) as Hqr.
  { assert (Alloc.IMAGE_BASE < q) by (eapply Alloc.live_above; [exact Hl|set_solver]). unfold root. lia. }
  assert (dirs s !! q = None) as Hqn.
  { apply eq_None_not_Some. intros [e He]. by destruct (dir_fresh _ _ _ _ _ Hinv He). }
  apply wp_bind, wp_zoom. eapply wp_mono.
  { apply HashTable.insert_spec with (L := {[q]} ∪ L); [apply (dk_foders _ _ _ _ _ _ Hok)|apply folder_separated| |].
    - unfold strlen in *. lia.
    - split; [exact Hl|]. set_solver. }
  intros [r m] h' o' [(->&Hwf'&Hc&Hsub&Hnew&Hl'&Hown)|(->&->&_&Hl'&_)]; cbn [Z.eqb].
  - apply wp_bind. apply load_dir_wp with d.
    { simpl. rewrite lookup_insert_ne //. congruence. }
    rewrite (mark_dirty_foders K _ _ _ _ _ _ Hok). wp_steps.
    destruct (inv_add_dir own L s p d q name m (HashTable.set_name (FoderInfo name RAMFS_FOLDER_TYPE_MEM q 0) name)
      h' ({[q]} ∪ L ∪ HashTable.addrs m)) as [Hinv' Ha]; try done.
    split_and!; [done..|]. eexists. split; [done|]. rewrite a_dirs_lookup a_files_lookup Hi Hg.
    left. split; [done|]. exists q. split; [by rewrite lookup_abs Hqn|done].
  - rewrite /free_dir /on_heap. apply wp_bind, wp_bind, wp_zoom.
    eapply wp_mono; [apply Alloc.free_live; [exact Hl'|set_solver]|]. intros [] h2 o2 Hl2.
    apply wp_modify, wp_ret, Hfail.
    assert (set_dirs (delete q (<[q := new_foder name RAMFS_FOLDER_TYPE_MEM 0 p 0]> (dirs s))) (set_heap h2 s)
      = set_heap h2 s) as Heq.
    { rewrite delete_insert_id //. }
    match goal with |- Inv K ?x ∧ _ => assert (x = set_heap h2 s) as -> by exact Heq end.
    split_and!; [|done..]. eexists own, _. eapply inv_heap; [done|exact Hl2|].
    pose proof (inv_own _ _ _ _ Hinv). set_solver.
Qed.

(** * rmdir *)

Lemma inv_del_dir own L s p d t dt name i m a0 h L' :
  inv K own L s → dirs s !! p = Some d → HashTable.contents (foder_map d) !! name = Some i →
  di_ptr i = t → dirs s !! t = Some dt → HashTable.contents (foder_map dt) = ∅ →
  HashTable.contents (file_map dt) = ∅ → current_dir s ≠ t →
  HashTable.wf m → HashTable.contents m = base.delete name (HashTable.contents (foder_map d)) →
  a0 ∈ HashTable.addrs (foder_map d) → HashTable.addrs m = HashTable.addrs (foder_map d) ∖ {[a0]} →
  Alloc.live h L' → L ∖ {[a0]} ∖ {[t]} ⊆ L' →
  let s' := set_dirs (delete t (<[p := set_foder_map m d]> (dirs s))) (set_heap h s) in
  Inv K s' ∧ abs s' = delete t (<[p := del_dir name (abs_dir (data s) d)]> (abs s)).
Proof.
  intros Hinv Hd Hi Hpt Hdt He1 He2 Hcwd Hwf Hc Ha0 Ha Hl HL' s'.
  pose proof (inv_dirs _ _ _ _ Hinv _ _ Hd) as Hok.
  destruct (dk_subs _ _ _ _ _ _ Hok _ _ Hi) as (Htr&dt'&Hdt'&Htp&Htn). rewrite Hpt in Htr, Hdt'.
  assert (dt' = dt) as -> by congruence.
  destruct (dk_self _ _ _ _ _ _ (inv_dirs _ _ _ _ Hinv _ _ Hdt) Htr) as (Hot&_&_).
  pose proof (dk_fnodes _ _ _ _ _ _ Hok _ Ha0) as Ho0.
  assert (Hpne : p ≠ t). { intros ->. assert (dt = d) as -> by congruence. by rewrite He1 in Hi. }
  assert (Hdirs : dirs s' = delete t (<[p := set_foder_map m d]> (dirs s))) by done.
  assert (Hlook : ∀ r e, r ≠ t → dirs s !! r = Some e → ∃ e', dirs s' !! r = Some e' ∧ fo_name e' = fo_name e ∧
    fo_parent e' = fo_parent e ∧ file_map e' = file_map e ∧
    ∀ k j, di_ptr j ≠ t → HashTable.contents (foder_map e) !! k = Some j →
      HashTable.contents (foder_map e') !! k = Some j).
  { intros r e Hr He. rewrite Hdirs lookup_delete_ne //. destruct (decide (r = p)) as [->|Hrp].
    - exists (set_foder_map m d). rewrite lookup_insert_eq. assert (e = d) as -> by congruence.
      split_and!; [done..|]. intros k j Hj Hkj. rewrite /= Hc lookup_delete_ne //. congruence.
    - exists e. rewrite lookup_insert_ne //. }
  set own' := delete a0 (delete t own).
  assert (Hkeep : ∀ a x, own !! a = Some x → a ≠ a0 → a ≠ t → own' !! a = Some x).
  { intros a x Hx Hne1 Hne2. rewrite /own' !lookup_delete_ne //. }
  assert (Ht_only : ∀ r e k j, dirs s !! r = Some e → HashTable.contents (foder_map e) !! k = Some j →
    di_ptr j = t → r = p ∧ k = name).
  { intros r e k j He Hj Hjt. destruct (dk_subs _ _ _ _ _ _ (inv_dirs _ _ _ _ Hinv _ _ He) _ _ Hj) as (_&x&Hx&Hxp&Hxn).
    rewrite Hjt in Hx. assert (x = dt) as -> by congruence. split; congruence. }
  assert (Hnochild : ∀ r e, dirs s !! r = Some e → r ≠ root → fo_parent e ≠ t).
  { intros r e He Hr Hpar.
    destruct (dk_self _ _ _ _ _ _ (inv_dirs _ _ _ _ Hinv _ _ He) Hr) as (_&_&u&j&Hu&Hj&_).
    rewrite Hpar Hdt in Hu. injection Hu as <-. by rewrite He1 in Hj. }
  assert (Habs : abs s' = delete t (<[p := del_dir name (abs_dir (data s) d)]> (abs s))).
  { assert (abs_dir (data s) (set_foder_map m d) = del_dir name (abs_dir (data s) d)) as Hv.
    { rewrite /abs_dir /del_dir /= Hc fmap_delete //. }
    rewrite /abs Hdirs fmap_delete fmap_insert Hv //. }
  split; [|done]. exists own', L'.
  assert (Hpath : ∀ k r path, r ≠ t → path_of (dirs s) k r path → path_of (dirs s') k r path).
  { intros k r path Hr. apply (path_mono (λ r, r ≠ t)); [|done]. intros r' e Hr' He.
    destruct (Hlook r' e Hr' He) as (e'&?&?&?&_). exists e'. split_and!; [done..|]. intros Hnz.
    apply (Hnochild _ _ He). intros ->.
    by rewrite (dk_root _ _ _ _ _ _ (inv_dirs _ _ _ _ Hinv _ _ He)) in Hnz. }
  split.
  - done.
  - rewrite /own' !dom_delete_L. pose proof (inv_own _ _ _ _ Hinv). set_solver.
  - destruct (inv_root _ _ _ _ Hinv) as [r Hr]. destruct (Hlook root r) as (r'&Hr'&_); [congruence|done|]. by exists r'.
  - intros r e' He'. rewrite Hdirs in He'. apply lookup_delete_Some in He' as [Hrt He'].
    assert (∃ e, dirs s !! r = Some e ∧ fo_name e' = fo_name e ∧ fo_parent e' = fo_parent e ∧
      file_map e' = file_map e ∧ fo_mount e' = fo_mount e ∧ fo_type e' = fo_type e ∧
      (r = p ∧ foder_map e' = m ∨ r ≠ p ∧ foder_map e' = foder_map e)) as (e&He&Hen&Hep&Hef&Hem&Het&Hemap).
    { apply lookup_insert_Some in He' as [[<- <-]|[Hrp He']]; [exists d|exists e'];
        (split_and!; [done..|]); [by left|right; by split]. }
    pose proof (inv_dirs _ _ _ _ Hinv _ _ He) as Hok'.
    split; rewrite ?Hen ?Hep ?Hef ?Hem ?Het; try apply Hok'.
    + destruct Hemap as [[_ ->]|[_ ->]]; [done|apply Hok'].
    + intros a Hin. destruct Hemap as [[-> Hm]|[Hrp Hm]]; rewrite Hm in Hin.
      * rewrite Ha in Hin. apply elem_of_difference in Hin as [Hin Hne].
        assert (Hoa := dk_fnodes _ _ _ _ _ _ Hok _ Hin). apply Hkeep; [done|set_solver|]. intros ->. congruence.
      * assert (Hoa := dk_fnodes _ _ _ _ _ _ Hok' _ Hin).
        apply Hkeep; [done| |]; intros ->; congruence.
    + intros a Hin. assert (Hoa := dk_nodes _ _ _ _ _ _ Hok' _ Hin). apply Hkeep; [done| |]; intros ->; congruence.
    + intros k j Hj.
      assert (HashTable.contents (foder_map e) !! k = Some j ∧ di_ptr j ≠ t) as [Hj' Hjt].
      { destruct Hemap as [[-> Hm]|[Hrp Hm]]; rewrite Hm in Hj.
        - assert (e = d) as -> by congruence. rewrite Hc in Hj. apply lookup_delete_Some in Hj as [Hk Hj].
          split; [done|]. intros Hjt. destruct (Ht_only _ _ _ _ Hd Hj Hjt) as [_ ->]. done.
        - split; [done|]. intros Hjt. by destruct (Ht_only _ _ _ _ He Hj Hjt). }
      destruct (dk_subs _ _ _ _ _ _ Hok' _ _ Hj') as (?&d1&Hd1&Hp1&Hn1). split; [done|].
      destruct (Hlook _ _ Hjt Hd1) as (d1'&?&?&?&_). exists d1'. split_and!; congruence.
    + intros k f Hf. eapply file_ok_mono; [|by apply (dk_data _ _ _ _ _ _ Hok')].
      intros Hof. split; [|done]. apply Hkeep; [done| |]; intros Heq; rewrite Heq in Hof; congruence.
    + intros Hr. destruct (dk_self _ _ _ _ _ _ Hok' Hr) as (Ho&Hn&u&j&Hu&Hj&Hjr). split_and!; [|done|].
      * apply Hkeep; [done| |done]. intros ->. congruence.
      * destruct (Hlook (fo_parent e) u) as (u'&Hu'&_&_&_&Hk); [by apply (Hnochild r)|done|].
        exists u', j. split_and!; [done| |done]. apply Hk; [congruence|done].
  - destruct (inv_cwd _ _ _ _ Hinv) as [c Hcw]. destruct (Hlook _ _ Hcwd Hcw) as (c'&Hc'&_). by exists c'.
  - intros r e' He'. rewrite Hdirs in He'. apply lookup_delete_Some in He' as [Hrt He'].
    assert (is_Some (dirs s !! r)) as [e He].
    { apply lookup_insert_Some in He' as [[<- _]|[_ He']]; [by exists d|by exists e']. }
    destruct (inv_depth _ _ _ _ Hinv _ _ He) as (k&path&Hp). exists k, path. by apply Hpath.
  - destruct (inv_pwd _ _ _ _ Hinv) as [k Hk]. exists k. by apply Hpath.
Qed.

(** The counter decides emptiness. *)
Lemma count_empty {V} `{!HashTable.Entry V, !HashTable.EntryLaws V} (m : hashmap V) :
  HashTable.wf m → count m = 0 ↔ HashTable.contents m = ∅.
Proof. intros Hwf. rewrite HashTable.count_contents // -map_size_empty_iff. lia. Qed.

Lemma addrs_empty {V} `{!HashTable.Entry V, !HashTable.EntryLaws V} (m : hashmap V) :
  HashTable.wf m → HashTable.contents m = ∅ → HashTable.addrs m = ∅.
Proof.
  intros Hwf He. pose proof (HashTable.wf_count _ Hwf) as Hc.
  rewrite HashTable.count_contents // He map_size_empty in Hc.
  assert (HashTable.nodes m = []) as Hn by (apply nil_length_inv; lia).
  by rewrite /HashTable.addrs Hn.
Qed.

Lemma destroy_empty {V} `{!HashTable.Entry V, !HashTable.EntryLaws V} (m : hashmap V) (h : A) L :
  HashTable.wf m → HashTable.contents m = ∅ → Alloc.live h L →
  wp (HashTable.destroy m) h (λ _ h' _, Alloc.live h' L).
Proof.
  intros Hwf He Hl. eapply wp_mono.
  { apply (HashTable.destroy_spec m h L Hwf). split; [done|]. rewrite addrs_empty //. }
  intros m' h' o [_ Hl']. rewrite addrs_empty // difference_empty_L in Hl'. done.
Qed.

Lemma fs_rmdir_ok s name :
  Inv K s →
  wp (fs_rmdir name None) s (λ r s' _, Inv K s' ∧ current_dir s' = current_dir s ∧
    rmdir_post (abs s) (current_dir s) name r (abs s')).
Proof.
  intros HI. pose proof HI as (own&L&Hinv). rewrite /fs_rmdir /rmdir_post.
  destruct (parent_of_ok K _ _ _ None Hinv I) as [Hpar Hpd].
  eapply wp_bind_ok; [exact Hpar|]. rewrite (default_zero K _ _ _ _ Hinv Hpd). cbn [parent_in default from_option id].
  destruct (Hpd _ eq_refl) as [d Hd]. set p := current_dir s in Hd |- *.
  rewrite (abs_at _ _ _ Hd).
  eapply wp_bind_ok; [by eapply lazy_load_ok|]. eapply wp_bind_ok; [by apply load_dir_ok|].
  rewrite (find_foder K _ _ _ _ _ _ Hinv Hd). pose proof (inv_dirs _ _ _ _ Hinv _ _ Hd) as Hok.
  destruct (HashTable.contents (foder_map d) !! name) as [i|] eqn:Hi.
  2:{ wp_steps. split_and!; [done..|]. eexists. split; [done|]. by rewrite a_dirs_lookup Hi. }
  destruct (dk_subs _ _ _ _ _ _ Hok _ _ Hi) as (Htr&t&Ht&Htp&Htn).
  pose proof (inv_dirs _ _ _ _ Hinv _ _ Ht) as Hokt.
  eapply wp_bind_ok; [by apply load_dir_ok|].
  assert (Ha : a_dirs (abs_dir (data s) d) !! name = Some (di_ptr i)) by by rewrite a_dirs_lookup Hi.
  assert (He : a_dirs (abs_dir (data s) t) = ∅ ∧ a_files (abs_dir (data s) t) = ∅ ↔
    HashTable.contents (foder_map t) = ∅ ∧ HashTable.contents (file_map t) = ∅).
  { simpl. by rewrite !fmap_empty_iff. }
  assert (Hfull : ∀ s', ¬ (HashTable.contents (foder_map t) = ∅ ∧ HashTable.contents (file_map t) = ∅) →
    Inv K s' ∧ current_dir s' = p ∧ abs s' = abs s → Inv K s' ∧ current_dir s' = p ∧
    ∃ a, Some (abs_dir (data s) d) = Some a ∧ match a_dirs a !! name with
      | Some q => ∃ b, abs s !! q = Some b ∧ (if bool_decide (a_dirs b = ∅ ∧ a_files b = ∅)
          then -4 = 0 ∧ abs s' = delete q (<[p := del_dir name a]> (abs s)) else -4 = -4 ∧ abs s' = abs s)
      | None => -4 = -3 ∧ abs s' = abs s end).
  { intros s' Hne (?&?&?). split_and!; [done..|]. eexists. split; [done|]. rewrite Ha.
    eexists. split; [by apply abs_at|]. rewrite bool_decide_false // He //. }
  destruct (Z.eqb_spec (count (foder_map t)) 0) as [He1|He1]; cbn [negb orb].
  2:{ apply wp_ret, Hfull; [|done]. rewrite count_empty in He1; [apply Hokt|]. tauto. }
  destruct (Z.eqb_spec (count (file_map t)) 0) as [He2|He2]; cbn [negb].
  2:{ apply wp_ret, Hfull; [|done]. rewrite (count_empty (file_map t)) in He2; [apply Hokt|]. tauto. }
  apply count_empty in He1; [|apply Hokt]. apply count_empty in He2; [|apply Hokt]. apply wp_bind. rewrite /on_heap. apply wp_zoom.
  destruct (addrs_owned K _ _ _ _ _ Hinv Hd) as [_ HaL].
  eapply wp_mono.
  { apply HashTable.delete_spec with (L := L); [apply Hok|apply folder_separated|].
    split; [apply (inv_live _ _ _ _ Hinv)|done]. }
  intros [r m] h o. rewrite Hi. intros (->&Hwf'&Hc&a0&Ha0&Haddrs&Hl). rewrite /store_dir.
  apply wp_bind, wp_modify, wp_bind, wp_zoom.
  eapply wp_mono; [by apply destroy_empty; [apply Hokt|..|exact Hl]|]. intros m1 h1 o1 Hl1.
  apply wp_bind, wp_zoom.
  eapply wp_mono; [by apply destroy_empty; [apply Hokt|..|exact Hl1]|]. intros m2 h2 o2 Hl2.
  rewrite /free_dir /on_heap. apply wp_bind, wp_bind, wp_zoom.
  destruct (dk_self _ _ _ _ _ _ Hokt Htr) as (Hot&_&_).
  assert (di_ptr i ≠ a0) as Hne.
  { intros Heq. rewrite Heq in Hot. pose proof (dk_fnodes _ _ _ _ _ _ Hok _ Ha0). congruence. }
  eapply wp_mono.
  { apply Alloc.free_live; [exact Hl2|]. apply elem_of_difference. split; [|set_solver].
    apply (inv_own _ _ _ _ Hinv). by eapply elem_of_dom_2. }
  intros [] h3 o3 Hl3. apply wp_modify.
  assert (p ≠ di_ptr i) as Hpt.
  { intros Hp. rewrite -Hp in Ht. assert (t = d) as -> by congruence. by rewrite He1 in Hi. }
  apply wp_bind. apply load_dir_wp with (set_foder_map m d).
  { simpl. by rewrite lookup_delete_ne // lookup_insert_eq. }
  rewrite (mark_dirty_foders K _ _ _ _ _ _ Hok). apply wp_bind, wp_modify, wp_ret. cbn beta.
  destruct (inv_del_dir own L s p d (di_ptr i) t name i m a0 h3 _ Hinv Hd Hi eq_refl Ht He1 He2 Hpt Hwf' Hc Ha0 Haddrs Hl3) as [HI' Habs]; [done|].
  match goal with |- Inv K ?x ∧ _ => assert (x = set_dirs (delete (di_ptr i) (<[p := set_foder_map m d]> (dirs s))) (set_heap h3 s)) as -> end.
  { rewrite /set_dirs /=. f_equal. rewrite insert_id // lookup_delete_ne // lookup_insert_eq //. }
  split_and!; [done..|]. eexists. split; [done|]. rewrite Ha. eexists. split; [by apply abs_at|].
  rewrite bool_decide_true // He //.
Qed.

(** * cd *)

Lemma build_path_ok own L s fuel k p path :
  inv K own L s → path_of (dirs s) k p path → (k ≤ fuel)%nat →
  build_absolute_path fuel p s = Ok (path, s, []).
Proof.
  intros Hinv Hp. revert fuel. induction Hp as [d Hd|k p d out Hne Hd Hpar _ IH]; intros fuel Hk.
  - destruct fuel; simpl; rewrite (bind_ok _ _ _ _ _ (load_dir_ok _ _ _ Hd)) ?Z.eqb_refl ?andb_false_r //.
  - destruct fuel as [|fuel]; [lia|]. cbn [build_absolute_path].
    rewrite (bind_ok _ _ _ _ _ (load_dir_ok _ _ _ Hd)).
    rewrite (proj2 (Z.eqb_neq (fo_parent d) 0)) // (proj2 (Z.eqb_neq p root)) //. cbn [negb andb].
    by rewrite (bind_ok _ _ s out s); [apply IH; lia|].
Qed.

Lemma resolve_slash t base base' path :
  starts_with_slash path = true → resolve t base path = resolve t base' path.
Proof. intros Hs. by rewrite /resolve Hs. Qed.

Lemma fs_cd_ok s fuel path :
  Inv K s → no_nul path → strlen path < 512 → cd_fits (abs s) (current_dir s) path fuel →
  wp (fs_cd fuel path) s (λ r s' _, Inv K s' ∧ abs s' = abs s ∧
    cd_post (abs s) (current_dir s) (current_path s) path r (current_dir s') (current_path s')).
Proof.
  intros HI Hn Hlen Hfit. pose proof HI as (own&L&Hinv). rewrite /fs_cd /cd_post.
  apply wp_bind, wp_get.
  set o := resolve (abs s) (current_dir s) path.
  assert (Hget : (if streq path "/" then mret root else if starts_with_slash path
      then _get_dir_by_path root path else _get_dir_by_path (current_dir s) path) s = Ok (default 0 o, s, []) ∧
    ∀ q, o = Some q → is_Some (dirs s !! q)).
  { rewrite streq_spec //. case_bool_decide as Hs.
    - subst path. split; [done|]. intros q [= <-]. apply (inv_root _ _ _ _ Hinv).
    - destruct (starts_with_slash path) eqn:Hsl.
      + rewrite /o (resolve_slash _ _ root) //. eapply get_dir_ok; [done|apply (inv_root _ _ _ _ Hinv)|done|done].
      + eapply get_dir_ok; [done|apply (inv_cwd _ _ _ _ Hinv)|done|done]. }
  destruct Hget as [Hget Ho]. eapply wp_bind_ok; [exact Hget|].
  rewrite (default_zero K _ _ _ _ Hinv Ho).
  destruct o as [q|] eqn:Hq; [|by wp_steps]. cbn [default from_option id]. destruct (Ho q eq_refl) as [d Hd].
  destruct (inv_depth _ _ _ _ Hinv _ _ Hd) as (k&out&Hp).
  destruct (Hfit q k out) as [Hk Hout]; [done|by apply path_of_abs|].
  eapply wp_bind_ok; [by eapply build_path_ok|].
  rewrite (proj2 (Z.leb_gt _ _)) //. apply wp_bind, wp_modify. apply wp_bind. rewrite /on_heap. apply wp_zoom.
  eapply wp_mono; [apply env_set_pwd, (inv_live _ _ _ _ Hinv)|]. intros [] h o' Hl. apply wp_ret.
  split_and!; [|done|done|done|exists k; by apply path_of_abs].
  exists own, L. destruct Hinv. split; simpl; try done. by exists k.
Qed.
End folders.

End RamfsTree.
