(* ===== verification/EnvVar.v ===== *)
(** kernel/src/env_var.c and kernel/src/command_system.c: the environment
    and the command table.

    Both are tables of Uthash.v in the kernel's heap; [env_map] and
    [command_map] are their contents, in the order of insertion. The two
    tables and the heap are the kernel memory the file system is built on:
    this file discharges the interfaces [Alloc.Allocator] and
    [FsState.Services]. *)
From S2P Require Import Prelude.
From S2P Require Import Allocator.
From S2P Require Import CString.
From S2P Require Import Uthash.
From S2P Require Import FsState.
From S2P Require Import RamfsInv.
Import FsState.

Module EnvVar.

Record CommandEntry : Type := Command { cmd_name : string; cmd_desc : string; cmd_func : string }.

(** The values beside the keys: that of a variable; description and
    function of a command. *)
Record kernel (H : Type) : Type := Kernel {
  memory : H;
  env_table : option (Uthash.hash string);
  command_table : option (Uthash.hash (string * string))
}.
Arguments Kernel {H} _ _ _.
Arguments memory {H} _.
Arguments env_table {H} _.
Arguments command_table {H} _.

Definition sizeof_EnvVar : Z := 64 + 256 + 32.
Definition sizeof_CommandEntry : Z := 12 + 32.

(** [strncpy(dst, s, n)] followed by the terminator at [n]. *)
Fixpoint str_take (n : nat) (s : string) : string :=
  match n, s with
  | S n, String c s => String c (str_take n s)
  | _, _ => EmptyString
  end.

Section ops.
Context {H : Type} `{!Alloc.Allocator H}.
Abbreviation kernel := (kernel H).
Implicit Types (k : kernel).

Definition set_memory (h : H) k : kernel := Kernel h (env_table k) (command_table k).
Definition set_env (t : option (Uthash.hash string)) k : kernel := Kernel (memory k) t (command_table k).
Definition set_commands (t : option (Uthash.hash (string * string))) k : kernel := Kernel (memory k) (env_table k) t.
Definition on_memory {X} (m : M H X) : M kernel X := zoom memory set_memory m.

(** The element a search found. *)
Definition element_at {V} (head : option (Uthash.hash V)) (p : Z) : M kernel (Uthash.element V) :=
  h ← unwrap head; unwrap (Uthash.elements h !! p).

(** A NULL result of [malloc] is written through unchecked. A new element's
    value is written after it was added. *)
Definition env_set (name value : string) : M kernel unit :=
  k ← get;
  found ← Uthash.HASH_FIND_STR (env_table k) name;
  var ← match found with
        | Some var => mret var
        | None =>
            var ← on_memory (Alloc.malloc sizeof_EnvVar);
            if var =? 0 then fault
            else
              t ← on_memory (Uthash.HASH_ADD_STR (env_table k) var (str_take 63 name) EmptyString);
              modify (set_env t);;
              mret var
        end;
  modify (λ k, set_env (Uthash.set_value var (λ _, str_take 255 value) (env_table k)) k).

Definition env_get (name : string) : M kernel (option string) :=
  k ← get;
  found ← Uthash.HASH_FIND_STR (env_table k) name;
  match found with
  | None => mret None
  | Some var => e ← element_at (env_table k) var; mret (Some (Uthash.value e))
  end.

Definition register_command (name desc func : string) : M kernel unit :=
  k ← get;
  found ← Uthash.HASH_FIND_STR (command_table k) name;
  match found with
  | None =>
      entry ← on_memory (Alloc.malloc sizeof_CommandEntry);
      if entry =? 0 then fault
      else
        t ← on_memory (Uthash.HASH_ADD_STR (command_table k) entry name (desc, func));
        modify (set_commands t)
  | Some entry => modify (λ k, set_commands (Uthash.set_value entry (λ _, (desc, func)) (command_table k)) k)
  end.

Definition as_command (e : string * (string * string)) : CommandEntry :=
  Command (fst e) (fst (snd e)) (snd (snd e)).
Definition find_command (cmd : string) : M kernel (option CommandEntry) :=
  k ← get;
  found ← Uthash.HASH_FIND_STR (command_table k) cmd;
  match found with
  | None => mret None
  | Some entry => e ← element_at (command_table k) entry; mret (Some (as_command (Uthash.key e, Uthash.value e)))
  end.

(** [foreach_command(callback)], the callback's effect given per entry. *)
Fixpoint foreach (callback : string → string → M kernel unit) (cs : list CommandEntry) : M kernel unit :=
  match cs with
  | [] => mret tt
  | c :: cs => callback (cmd_name c) (cmd_desc c);; foreach callback cs
  end.
Definition foreach_command (callback : string → string → M kernel unit) : M kernel unit :=
  k ← get;
  es ← unwrap (Uthash.HASH_ITER (command_table k));
  foreach callback ((λ e, as_command (Uthash.key e, Uthash.value e)) <$> es).

(** [help_callback] and [my_os_command_help] of Little_Linux.c. *)
Definition help_callback (name desc : string) : M kernel unit :=
  printf "  %s" [AStr name];;
  (if String.eqb desc EmptyString then mret tt else printf " - %s" [AStr desc]);;
  printf nl [].
Definition my_os_command_help (argv : list string) : M kernel Z :=
  printf ("Welcome to Little Linux" +:+ nl +:+ "Available commands:" +:+ nl) [];;
  foreach_command help_callback;;
  mret 0.
End ops.

(** * The tables as lists *)

Definition env_map {H} (k : kernel H) : list (string * string) := Uthash.contents (env_table k).
Definition command_map {H} (k : kernel H) : list CommandEntry := as_command <$> Uthash.contents (command_table k).

(** The first entry whose name the table takes for [name]. *)
Definition find_var (name : string) (vs : list (string * string)) : option string := Uthash.lookup name vs.
Definition assign_var (name value : string) (vs : list (string * string)) : list (string * string) :=
  Uthash.assign name (λ _, value) vs.
Fixpoint find_entry (name : string) (cs : list CommandEntry) : option CommandEntry :=
  match cs with
  | [] => None
  | c :: cs => if Uthash.same_key (cmd_name c) name then Some c else find_entry name cs
  end.

Section tables.
Context {H : Type} `{!Alloc.Allocator H}.
Implicit Types (k : kernel H).

(** The tables keep their invariant, and no two keys of one have the same
    hash value. *)
Record tables_ok k : Prop := {
  tb_env : Uthash.head_ok (env_table k);
  tb_vars : Uthash.distinct_hashes (env_map k);
  tb_commands : Uthash.head_ok (command_table k);
  tb_names : Uthash.distinct_hashes (Uthash.contents (command_table k))
}.

Lemma find_entry_lookup name (l : list (string * (string * string))) :
  match Uthash.lookup name l with
  | None => find_entry name (as_command <$> l) = None
  | Some v => ∃ n, (n, v) ∈ l ∧ Uthash.same_key n name = true ∧ find_entry name (as_command <$> l) = Some (as_command (n, v))
  end.
Proof.
  induction l as [|[n v] l IH]; [done|]. cbn [Uthash.lookup fmap list_fmap find_entry as_command cmd_name fst].
  destruct (Uthash.same_key n name) eqn:Hn.
  - exists n. split; [by left|done].
  - destruct (Uthash.lookup name l) as [w|]; [|done]. destruct IH as (n'&Hin&?&?). exists n'. split; [by right|done].
Qed.

Lemma element_at_run {V} head (h : Uthash.hash V) p e k :
  head = Some h → Uthash.elements h !! p = Some e → element_at head p k = Ok (e, k, []).
Proof. intros -> He. rewrite /element_at (bind_ok _ _ k h k) //. by rewrite He. Qed.

Lemma env_get_run name k : tables_ok k → env_get name k = Ok (find_var name (env_map k), k, []).
Proof.
  intros [He Hd _ _]. rewrite /env_get (bind_ok _ _ k k k) //. rewrite /find_var /env_map.
  destruct (Uthash.find_entry_run (env_table k) name k He Hd) as (o&Hr&Ho). rewrite (bind_ok _ _ _ _ _ Hr).
  destruct o as [p|]; [|by rewrite Ho]. destruct Ho as (h&e&Hh&Hp&->&_).
  by rewrite (bind_ok _ _ _ _ _ (element_at_run _ _ _ _ k Hh Hp)).
Qed.
Lemma find_command_run name k : tables_ok k → find_command name k = Ok (find_entry name (command_map k), k, []).
Proof.
  intros [_ _ Hc Hd]. rewrite /find_command (bind_ok _ _ k k k) //. rewrite /command_map.
  destruct (Uthash.find_entry_run (command_table k) name k Hc Hd) as (o&Hr&Ho). rewrite (bind_ok _ _ _ _ _ Hr).
  pose proof (find_entry_lookup name (Uthash.contents (command_table k))) as Hl.
  destruct o as [p|]; [|by rewrite Ho in Hl; rewrite Hl]. destruct Ho as (h&e&Hh&Hp&Hv&Hk&_).
  rewrite Hv in Hl. destruct Hl as (n&Hin&Hn&->).
  rewrite (bind_ok _ _ _ _ _ (element_at_run _ _ _ _ k Hh Hp)).
  assert (Hne : n = Uthash.key e).
  { apply (Uthash.distinct_inj _ _ _ _ (Uthash.value e) Hd Hin); [|by rewrite (Uthash.same_key_hash _ _ Hn) (Uthash.same_key_hash _ _ Hk)].
    rewrite Hh. apply Uthash.elem_of_contents. rewrite Hh in Hc. exists p, e. split; [|done].
    apply (Uthash.wf_elements _ _ Hc). by eexists. }
  by subst n.
Qed.
Lemma foreach_command_run callback k : tables_ok k → foreach_command callback k = foreach callback (command_map k) k.
Proof.
  intros [_ _ Hc _]. rewrite /foreach_command (bind_ok _ _ k k k) //. destruct (Uthash.iter_run _ _ Hc) as (es&->&Hes).
  rewrite (bind_ok _ _ k es k) //. rewrite /command_map -Hes -list_fmap_compose. done.
Qed.

Lemma env_set_run name value v k : tables_ok k → find_var name (env_map k) = Some v →
  ∃ t, env_set name value k = Ok (tt, set_env t k, []) ∧ tables_ok (set_env t k) ∧
    Uthash.contents t = assign_var name (str_take 255 value) (env_map k).
Proof.
  intros [He Hd Hc Hn] Hv. destruct (Uthash.find_entry_run (env_table k) name k He Hd) as (o&Hr&Ho).
  destruct o as [p|]; [|by rewrite /find_var /env_map Ho in Hv].
  destruct Ho as (h&e&_&_&_&_&Hset). destruct (Hset (λ _, str_take 255 value)) as (Hok&Hcont).
  eexists. split; [|split].
  - rewrite /env_set (bind_ok _ _ k k k) // (bind_ok _ _ _ _ _ Hr) (bind_ok _ _ k p k) //.
  - split; [exact Hok| |done|done]. rewrite /Uthash.distinct_hashes /env_map /= Hcont Uthash.assign_keys. exact Hd.
  - exact Hcont.
Qed.
End tables.

(** The first variable, in a kernel without variables and commands. *)
Section first.
Context {H : Type} `{!Alloc.Allocator H, !Alloc.AllocatorLaws H}.
Lemma env_set_first (k k' : kernel H) name value L o :
  env_table k = None → command_table k = None → Alloc.live (memory k) L → env_set name value k = Ok (tt, k', o) →
  tables_ok k' ∧ env_map k' = [(str_take 63 name, str_take 255 value)] ∧ ∃ L', Alloc.live (memory k') L'.
Proof.
  intros He Hc Hl. rewrite /env_set (bind_ok _ _ k k k) // He. cbn [Uthash.HASH_FIND_STR].
  rewrite (bind_ok _ _ k None k) //. intros (p&k1&o1&?&Hp&[= <-]&->)%bind_inv. revert Hp.
  intros (q&k2&o3&?&Hq&Hadd&->)%bind_inv. revert Hq. rewrite {1}/on_memory {1}/zoom.
  pose proof (Alloc.malloc_live (memory k) L sizeof_EnvVar Hl ltac:(done)) as Hm. rewrite /wp in Hm.
  destruct (Alloc.malloc sizeof_EnvVar (memory k)) as [[[q' a1] o5]| |]; [|done..]. intros [= -> <- ->].
  revert Hadd. destruct (Z.eqb_spec q 0); [done|]. destruct Hm as [[-> _]|(_&_&Hl1)]; [done|].
  intros (t&k3&o6&?&Ht&Hset&->)%bind_inv. revert Ht. rewrite {1}/on_memory {1}/zoom.
  pose proof (Uthash.add_ok None q (str_take 63 name) EmptyString a1 ({[q]} ∪ L)) as Ha. rewrite /Uthash.or_exits in Ha.
  cbn [memory set_memory]. destruct (Uthash.HASH_ADD_STR None q _ _ a1) as [[[t' a2] o8]| |]; [|done..].
  intros [= -> <- ->]. destruct Ha as (Hok&Hcont&Hord&Hl2&_); [done|by apply not_elem_of_nil|cbn; lia|done|set_solver|].
  revert Hset. intros [= -> <- <-]. destruct t as [h|]; [|done]. cbn [Uthash.order_of app] in Hord.
  destruct (Uthash.set_last h p (str_take 63 name) EmptyString [] (λ _, str_take 255 value) Hok) as [Hok' Hc']; [done|by rewrite Hord|].
  cbn [set_memory set_env env_table command_table memory]. split; [|split; [exact Hc'|by eexists]]. split.
  - exact Hok'.
  - rewrite /Uthash.distinct_hashes /env_map. cbn [env_table set_env]. rewrite Hc'. apply NoDup_singleton.
  - cbn. by rewrite Hc.
  - cbn. rewrite Hc. apply NoDup_nil_2.
Qed.
End first.

(** * The interfaces *)

Section interfaces.
Context {H : Type} `{!Alloc.Allocator H, !Alloc.AllocatorLaws H}.
Implicit Types (k : kernel H).

(** The blocks of the tables are reserved: [L] is what the clients hold.
    The tables keep their invariant, and the variable [pwd] exists. *)
Definition kernel_ok k : Prop := tables_ok k ∧ is_Some (find_var "pwd" (env_map k)).

#[global] Instance kernel_allocator : Alloc.Allocator (kernel H) := {|
  Alloc.malloc n := on_memory (Alloc.malloc n);
  Alloc.free p := on_memory (Alloc.free p);
  Alloc.live k L := kernel_ok k ∧
    ∃ R, Alloc.live (memory k) (L ∪ R) ∧ L ## R
|}.

#[global] Instance kernel_services : Services (kernel H) := {|
  FsState.env_set := env_set;
  FsState.env_get := env_get;
  FsState.register_command := register_command
|}.

Lemma set_memory_id k : set_memory (memory k) k = k.
Proof. by destruct k. Qed.

Lemma kernel_ok_memory h k : kernel_ok k → kernel_ok (set_memory h k).
Proof. intros [[] ?]. split; [by split|done]. Qed.

#[global] Instance kernel_allocator_laws : Alloc.AllocatorLaws (kernel H).
Proof.
  split.
  - intros k L p (_&R&Hl&_) Hp. eapply Alloc.live_above; [exact Hl|set_solver].
  - intros k. rewrite /= /on_memory /zoom Alloc.malloc_zero set_memory_id //.
  - intros k L n (Hpwd&R&Hl&HLR) Hn. simpl. rewrite /on_memory. apply wp_zoom.
    eapply wp_mono; [by apply Alloc.malloc_live|]. intros p h o [[-> Hl']|(Hp&HpL&Hl')].
    + left. split; [done|]. split; [by apply kernel_ok_memory|]. by exists R.
    + right. split; [done|]. split; [set_solver|]. split; [by apply kernel_ok_memory|]. exists R.
      split; [|set_solver]. by rewrite -(assoc_L (∪)).
  - intros k. rewrite /= /on_memory /zoom Alloc.free_null set_memory_id //.
  - intros k L p (Hpwd&R&Hl&HLR) Hp. simpl. rewrite /on_memory. apply wp_zoom.
    eapply wp_mono; [apply Alloc.free_live; [exact Hl|set_solver]|]. intros [] h o Hl'.
    split; [by apply kernel_ok_memory|]. exists R. split; [|set_solver].
    by replace (L ∖ {[p]} ∪ R) with ((L ∪ R) ∖ {[p]}) by set_solver.
Qed.

Lemma find_assign name value vs : find_var name (assign_var name value vs) = (λ _, value) <$> find_var name vs.
Proof. apply Uthash.lookup_assign. Qed.

#[global] Instance kernel_services_laws : RamfsInv.ServicesLaws (kernel H).
Proof.
  split. intros k L v ([Hok [v0 Hpwd]]&R&Hl&HLR). destruct (env_set_run "pwd" v v0 k Hok Hpwd) as (t&Hrun&Hok'&Ht).
  rewrite /wp /= Hrun. split; [|by exists R]. split; [done|]. by rewrite /env_map /= Ht find_assign Hpwd.
Qed.

(** Assigning a variable that exists changes its value, cut to 255
    characters, and no other variable, and touches no memory. *)
Lemma env_set_get k name value v (n : string) :
  tables_ok k → find_var name (env_map k) = Some v →
  env_get n k = Ok (find_var n (env_map k), k, []) ∧
  ∃ k', env_set name value k = Ok (tt, k', []) ∧ memory k' = memory k ∧
    env_get n k' = Ok (find_var n (assign_var name (str_take 255 value) (env_map k)), k', []).
Proof.
  intros Hok Hv. split; [by apply env_get_run|]. destruct (env_set_run name value v k Hok Hv) as (t&Hrun&Hok'&Ht).
  eexists. split; [exact Hrun|]. split; [done|]. rewrite env_get_run //. by rewrite /env_map /= Ht.
Qed.
End interfaces.

End EnvVar.
