(* ===== verification/Messages.v ===== *)
(** What the kernel's own layers print, and what they leave in order: the
    heap (malloc.c), the kernel's tables (env_var.c, command_system.c) and
    the disks (drive.c, drive_partition.c).

    The heap has three messages ([heap_event]), and they are the only ones
    the layers above it say on their own. Every message can be printed,
    whatever the state ([Keeps.keeps]); and the drive table stays
    well-formed. *)
From S2P Require Import Prelude.
From S2P Require Import Allocator.
From S2P Require Import Malloc.
From S2P Require Import Printf.
From S2P Require Import Printable.
From S2P Require Import Keeps.
From S2P Require Import Drive.
From S2P Require Import Partition.
From S2P Require Import Uthash.
From S2P Require Import EnvVar.
#[local] Open Scope general_if_scope.

Module Messages.

(** * The heap *)

(** What the heap says once it is initialised. *)
Inductive heap_event : event → Prop :=
  | he_failed n :
      heap_event (Printf ("request_memory failed:out of memory" +:+ nl +:+ "size=%d" +:+ nl) [AInt (s32 n)])
  | he_error : heap_event (Printf ("expand_heap error" +:+ nl) [])
  | he_expanded : heap_event (Printf "expand_heap succeess" []).
Lemma heap_event_printable e : heap_event e → Printable.printable e.
Proof. intros []; printable_tac. Qed.

Section heap.
Abbreviation says := (keeps_in heap_event anything).
Implicit Types (st : Heap.state).

Lemma load_says p st : says (Heap.load p) st.
Proof. rewrite /Heap.load. keeps_tac. Qed.
Lemma store_says p h st : says (Heap.store p h) st.
Proof. by apply keeps_modify. Qed.
#[local] Hint Resolve load_says store_says : keeps.
#[local] Hint Extern 1 (says (modify _) _) => by apply keeps_modify : keeps.

Lemma store_size_says p n st : says (Heap.store_size p n) st.
Proof. rewrite /Heap.store_size. keeps_tac. Qed.
Lemma store_next_says p q st : says (Heap.store_next p q) st.
Proof. rewrite /Heap.store_next. keeps_tac. Qed.
#[local] Hint Resolve store_size_says store_next_says : keeps.
#[local] Hint Resolve he_failed he_error he_expanded : keeps.
Lemma request_says n st : says (Heap.request_memory n) st.
Proof. rewrite /Heap.request_memory. keeps_tac. Qed.
Lemma relink_says prev q st : says (Heap.relink prev q) st.
Proof. rewrite /Heap.relink. keeps_tac. Qed.
#[local] Hint Resolve request_says relink_says : keeps.
Lemma expand_says st : says Heap.expand_heap st.
Proof. rewrite /Heap.expand_heap. keeps_tac. Qed.
Lemma take_block_says n prev curr c st : says (Heap.take_block n prev curr c) st.
Proof. rewrite /Heap.take_block. keeps_tac. Qed.
#[local] Hint Resolve expand_says take_block_says : keeps.
Lemma find_fit_says fuel n prev curr st : says (Heap.find_fit fuel n prev curr) st.
Proof. revert prev curr st. induction fuel; intros prev curr st; cbn [Heap.find_fit]; rewrite /fmap /M_map; keeps_tac. Qed.
#[local] Hint Resolve find_fit_says : keeps.
Lemma malloc_rec_says fuel n st : says (Heap.malloc_rec fuel n) st.
Proof. revert st. induction fuel; intros st; cbn [Heap.malloc_rec]; keeps_tac. Qed.
#[local] Hint Resolve malloc_rec_says : keeps.
Lemma malloc_says n st : says (Heap.malloc n) st.
Proof. rewrite /Heap.malloc. keeps_tac. Qed.
Lemma free_says p st : says (Heap.free p) st.
Proof. rewrite /Heap.free. keeps_tac. Qed.

Lemma malloc_init_says e mb st : keeps anything (Heap.malloc_init e mb) st.
Proof.
  assert (Hin : ∀ X (m : M Heap.state X) st, says m st → keeps anything m st).
  { intros X m s. apply keeps_weaken, heap_event_printable. }
  rewrite /Heap.malloc_init. keeps_tac; apply Hin; keeps_tac.
Qed.
End heap.

(** * The kernel's tables *)

Section uthash.
Context {V : Type}.
Abbreviation says := (keeps_in heap_event anything).
Implicit Types (st : Heap.state) (els : gmap Z (Uthash.element V)) (t : Uthash.UT_hash_table).

Lemma exit_says {St X} code (s : St) : says (exit (X:=X) code) s.
Proof. by intros a s' o. Qed.
Lemma find_says {St} (head : option (Uthash.hash V)) name (s : St) : says (Uthash.HASH_FIND_STR head name) s.
Proof.
  destruct head as [h|]; cbn [Uthash.HASH_FIND_STR]; [|keeps_tac]. apply keeps_bind; [apply _|keeps_tac|]. intros b s'.
  generalize (Uthash.hh_head b) as chain. intros chain. revert s'.
  induction chain as [|p chain IH]; intros s'; cbn [Uthash.HASH_FIND_IN_BKT]; keeps_tac.
Qed.
#[local] Hint Resolve malloc_says free_says exit_says : keeps.
Lemma make_table_says st : says Uthash.HASH_MAKE_TABLE st.
Proof. rewrite /Uthash.HASH_MAKE_TABLE. keeps_tac. Qed.
Lemma expand_buckets_says els t st : says (Uthash.HASH_EXPAND_BUCKETS els t) st.
Proof. rewrite /Uthash.HASH_EXPAND_BUCKETS. keeps_tac. Qed.
#[local] Hint Resolve make_table_says expand_buckets_says : keeps.
Lemma hash_add_says (head : option (Uthash.hash V)) add k v st : says (Uthash.HASH_ADD_STR head add k v) st.
Proof. rewrite /Uthash.HASH_ADD_STR /Uthash.HASH_ADD_TO_TABLE /Uthash.HASH_ADD_TO_BKT. keeps_tac. Qed.
End uthash.

Section kernel.
Implicit Types (k : EnvVar.kernel Heap.state).

(** The tables of the variables and of the commands are the same. *)
Definition same_tables k k' : Prop :=
  EnvVar.env_table k' = EnvVar.env_table k ∧ EnvVar.command_table k' = EnvVar.command_table k.
#[global] Instance same_tables_preorder : PreOrder same_tables.
Proof. split; [done|]. intros k1 k2 k3 [??] [??]. split; congruence. Qed.

Lemma on_memory_keeps {X E} (m : M Heap.state X) k :
  keeps_in E anything m (EnvVar.memory k) → keeps_in E same_tables (EnvVar.on_memory m) k.
Proof. by apply keeps_zoom. Qed.
Lemma kernel_malloc_says n k : keeps_in heap_event same_tables (Alloc.malloc n) k.
Proof. apply on_memory_keeps, malloc_says. Qed.
Lemma kernel_free_says p k : keeps_in heap_event same_tables (Alloc.free p) k.
Proof. apply on_memory_keeps, free_says. Qed.
Lemma kernel_malloc_keeps n k : keeps same_tables (Alloc.malloc n) k.
Proof. eapply keeps_weaken, kernel_malloc_says. apply heap_event_printable. Qed.
Lemma kernel_free_keeps p k : keeps same_tables (Alloc.free p) k.
Proof. eapply keeps_weaken, kernel_free_says. apply heap_event_printable. Qed.

#[local] Hint Resolve find_says malloc_says hash_add_says : keeps.
#[local] Hint Extern 1 (keeps_in _ anything (modify _) _) => by apply keeps_modify : keeps.
#[local] Hint Extern 1 (keeps_in _ anything (EnvVar.on_memory _) _) => eapply keeps_anything, on_memory_keeps : keeps.
Lemma register_says name desc func k : keeps_in heap_event anything (EnvVar.register_command name desc func) k.
Proof. rewrite /EnvVar.register_command. keeps_tac. Qed.
Lemma env_set_says name value k : keeps_in heap_event anything (EnvVar.env_set name value) k.
Proof. rewrite /EnvVar.env_set. keeps_tac. Qed.
Lemma env_get_says name k : keeps_in heap_event anything (EnvVar.env_get name) k.
Proof. rewrite /EnvVar.env_get /EnvVar.element_at. keeps_tac. Qed.
End kernel.

(** * The disks *)

Section disks.
Context {D : Type} `{!Drive.Hba D, !Drive.HbaLaws D}.
Implicit Types (d : D) (s : Drive.ahci D).

Lemma hba_run_says p c buf d : keeps anything (Drive.hba_run p c buf) d.
Proof. intros a d' o Hr. pose proof (wp_known _ _ _ _ _ _ (Drive.hba_run_total d p c buf) Hr) as ->. by split. Qed.
Lemma hba_present_says p d : keeps anything (Drive.hba_present p) d.
Proof. intros a d' o Hr. pose proof (wp_known _ _ _ _ _ _ (Drive.hba_present_total d p) Hr) as ->. by split. Qed.
Lemma hba_init_says p d : 0 ≤ p < Drive.MAX_PORTS → keeps anything (Drive.hba_init p) d.
Proof. intros Hp a d' o Hr. pose proof (wp_known _ _ _ _ _ _ (Drive.hba_init_total d p Hp) Hr) as ->. by split. Qed.
Lemma hba_stop_says p d : 0 ≤ p < Drive.MAX_PORTS → keeps anything (Drive.hba_stop p) d.
Proof. intros Hp a d' o Hr. pose proof (wp_known _ _ _ _ _ _ (Drive.hba_stop_total d p Hp) Hr) as ->. by split. Qed.
#[local] Hint Resolve hba_run_says hba_present_says : keeps.
Lemma exec_says p c l n buf w d : keeps anything (Drive.exec_ata_cmd p c l n buf w) d.
Proof. apply hba_run_says. Qed.
#[local] Hint Resolve exec_says : keeps.
Lemma port_read_says p l n buf d : keeps anything (Drive.port_read_sectors p l n buf) d.
Proof. rewrite /Drive.port_read_sectors. keeps_tac. Qed.
Lemma identify_says p n d : keeps anything (Drive.identify_device p n) d.
Proof. rewrite /Drive.identify_device. keeps_tac. Qed.

(** The drive table. *)
Definition tables s s' : Prop := Drive.table_ok s → Drive.table_ok s'.
#[global] Instance tables_preorder : PreOrder tables := impl_preorder _.
Lemma on_hba_keeps {X} (m : M D X) s : keeps anything m (Drive.hba s) → keeps tables (Drive.on_hba m) s.
Proof. by apply keeps_zoom; intros d _ Hs. Qed.
Lemma scan_says pi ports s :
  Forall (λ p, 0 ≤ p < Drive.MAX_PORTS) ports → keeps anything (Drive.scan_ports pi ports) s.
Proof.
  intros Hps. revert s. induction Hps as [|p ports Hp _ IH]; intros s; cbn [Drive.scan_ports]; [keeps_tac|].
  apply keeps_bind; [apply _| |done]. destruct (Z.testbit pi p); [|keeps_tac].
  rewrite /Drive.port_scan_update /Drive.add_drive_to_table /Drive.remove_drive_from_table.
  keeps_tac; try (by apply keeps_modify); eapply keeps_anything, on_hba_keeps;
    [apply hba_present_says|by apply hba_init_says|apply identify_says|by apply hba_stop_says].
Qed.
Lemma scan_tables pi s : keeps tables (Drive.scan_ports pi (seqZ 0 Drive.MAX_PORTS)) s.
Proof.
  assert (Hps : Forall (λ p, 0 ≤ p < Drive.MAX_PORTS) (seqZ 0 Drive.MAX_PORTS)).
  { apply Forall_forall. intros p Hp%elem_of_seqZ. lia. }
  apply keeps_wp; [by apply scan_says|]. intros Hs.
  eapply wp_mono; [by apply Drive.scan_ports_wp|by intros ? ? ? [? _]].
Qed.
#[local] Hint Resolve scan_tables : keeps.
#[local] Hint Extern 1 (keeps tables (modify _) _) => by apply keeps_modify; intros ? : keeps.
Lemma enable_tables pi s : keeps tables (Drive.ahci_enable pi) s.
Proof. rewrite /Drive.ahci_enable. keeps_tac. Qed.
Lemma update_tables pi s : keeps tables (Drive.ahci_table_update pi) s.
Proof. rewrite /Drive.ahci_table_update. keeps_tac. Qed.
Lemma read_loop_tables port addr len n todo s : keeps tables (Drive.read_loop port addr len n todo) s.
Proof.
  revert n s. induction todo; intros n s; cbn [Drive.read_loop]; keeps_tac. apply on_hba_keeps, port_read_says.
Qed.
#[local] Hint Resolve read_loop_tables : keeps.
Lemma ahci_read_tables n addr len s : keeps tables (Drive.ahci_read n addr len) s.
Proof. rewrite /Drive.ahci_read. keeps_tac. Qed.
#[local] Hint Resolve ahci_read_tables : keeps.
Lemma read_sector_tables n lba s : keeps tables (Partition.read_sector n lba) s.
Proof. rewrite /Partition.read_sector. keeps_tac. Qed.
#[local] Hint Resolve read_sector_tables : keeps.
Lemma parse_ebr_tables fuel n lba dp s : keeps tables (Partition.parse_ebr fuel n lba dp) s.
Proof. revert lba dp s. induction fuel; intros lba dp s; cbn [Partition.parse_ebr]; keeps_tac. Qed.
#[local] Hint Resolve parse_ebr_tables : keeps.
Lemma parse_entries_tables fuel n es dp s : keeps tables (Partition.parse_entries fuel n es dp) s.
Proof. revert dp s. induction es; intros dp s; cbn [Partition.parse_entries]; keeps_tac. Qed.

(** With the partition tables above it. *)
Implicit Types (p : Partition.state D).
Definition drives_ok p : Prop := Drive.table_ok (Partition.disk p).
Definition keeps_drives p p' : Prop := drives_ok p → drives_ok p'.
#[global] Instance keeps_drives_preorder : PreOrder keeps_drives := impl_preorder _.
Lemma on_disk_keeps {X} (m : M (Drive.ahci D) X) p :
  keeps tables m (Partition.disk p) → keeps keeps_drives (Partition.on_disk m) p.
Proof. by apply keeps_zoom; intros d Hd Hs; apply Hd. Qed.
#[local] Hint Extern 1 (keeps keeps_drives (modify _) _) => by apply keeps_modify; intros ? : keeps.
Lemma parse_mbr_drives fuel n p : keeps keeps_drives (Partition.parse_mbr fuel n) p.
Proof.
  rewrite /Partition.parse_mbr. keeps_tac; apply on_disk_keeps; [apply read_sector_tables|apply parse_entries_tables].
Qed.
#[local] Hint Resolve parse_mbr_drives : keeps.
Lemma parse_all_drives fuel ds p : keeps keeps_drives (Partition.parse_all fuel ds) p.
Proof. revert p. induction ds; intros p; cbn [Partition.parse_all]; keeps_tac. Qed.
#[local] Hint Resolve parse_all_drives : keeps.
Lemma partition_tables_drives fuel pi p : keeps keeps_drives (Partition.update_partition_tables fuel pi) p.
Proof.
  rewrite /Partition.update_partition_tables /Partition.lock_acquire /Partition.lock_release. keeps_tac.
  apply on_disk_keeps, update_tables.
Qed.
Lemma partition_count_drives n p : keeps keeps_drives (Partition.get_partition_count n) p.
Proof. rewrite /Partition.get_partition_count /Partition.lock_acquire /Partition.lock_release. keeps_tac. Qed.
End disks.
End Messages.
