(* ===== verification/RamfsSafe.v ===== *)
(** What the file system in memory leaves alone: no command of ramfs.c
    touches the partitions or the mount table, and of the kernel memory only
    what the allocator and the assignment of [pwd] change.

    [keeps R m s] says that whatever a run of [m] from [s] ends in is
    related to [s], and that what it prints can be printed; it composes
    along the code, so that the invariant of
    RamfsInv.v and what is left alone are proved apart. With both, the
    command layer of RamfsApi.v never faults and keeps the whole state
    consistent. *)
From S2P Require Import Prelude.
From S2P Require Import Allocator.
From S2P Require Import CString.
From S2P Require Import RamfsTypes.
From S2P Require Import Numbers.
From S2P Require Import Printf.
From S2P Require Import Printable.
From S2P Require Import Keeps.
From S2P Require Import HashTable.
From S2P Require Import RamfsHash.
From S2P Require Import RamfsHashFile.
From S2P Require Import Drive.
From S2P Require Import Partition.
From S2P Require Import FsState.
From S2P Require Import DfsLoad.
From S2P Require Import Ramfs.
From S2P Require Import RamfsApi.
From S2P Require Import RamfsInv.
From S2P Require Import RamfsFiles.
From S2P Require Import RamfsTree.
Import CString RamfsTypes RamfsHash RamfsHashFile FsState DfsLoad Ramfs RamfsApi RamfsInv RamfsFiles RamfsTree Keeps.
#[local] Open Scope general_if_scope.

Module RamfsSafe.

(** * The hash tables *)

Section heap.
Context {A : Type} `{!Alloc.Allocator A} {E : event → Prop} (R : relation A) `{!PreOrder R}.
Context (malloc_keeps : ∀ n h, keeps_in E R (Alloc.malloc n) h) (free_keeps : ∀ p h, keeps_in E R (Alloc.free p) h).
Context {V : Type} `{!HashTable.Entry V}.
#[local] Hint Resolve malloc_keeps free_keeps : keeps.

Lemma insert_keeps (m : hashmap V) k v h : keeps_in E R (HashTable.insert m k v) h.
Proof. rewrite /HashTable.insert. keeps_tac. Qed.
Lemma delete_keeps (m : hashmap V) k h : keeps_in E R (HashTable.delete m k) h.
Proof. rewrite /HashTable.delete. keeps_tac. Qed.
Lemma free_chain_keeps (c : list (node V)) h : keeps_in E R (HashTable.free_chain c) h.
Proof. revert h. induction c; intros h; cbn [HashTable.free_chain]; keeps_tac. Qed.
Lemma free_buckets_keeps (bs : list (list (node V))) h : keeps_in E R (HashTable.free_buckets bs) h.
Proof.
  revert h. induction bs; intros h; cbn [HashTable.free_buckets]; [keeps_tac|].
  apply keeps_bind; [apply _|apply free_chain_keeps|done].
Qed.
Lemma destroy_keeps (m : hashmap V) h : keeps_in E R (HashTable.destroy m) h.
Proof. apply keeps_bind; [apply _|apply free_buckets_keeps|]. intros ? ?. keeps_tac. Qed.
End heap.
(** * The operations of ramfs.c *)

Section ops.
Context {A D : Type} `{!Alloc.Allocator A, !Alloc.AllocatorLaws A, !Services A, !ServicesLaws A, !Drive.Hba D}.
Context {E : event → Prop} (R : relation A) `{!PreOrder R} (RP : relation string) `{!PreOrder RP}.
Context (malloc_keeps : ∀ n h, keeps_in E R (Alloc.malloc n) h) (free_keeps : ∀ p h, keeps_in E R (Alloc.free p) h).
Context (env_set_keeps : ∀ n v h, keeps_in E R (env_set n v) h).
Context (K : string → Prop) (HK : HashTable.distinguishable (V:=ramfs_file_info) K).
Implicit Types (s : fs A D).

(** The partitions and the mount table are the same, and the kernel memory
    and the current path are related. *)
Definition same s s' : Prop :=
  parts s' = parts s ∧ mount_table s' = mount_table s ∧ mount_count s' = mount_count s ∧ R (heap s) (heap s') ∧
  RP (current_path s) (current_path s').

#[global] Instance same_preorder : PreOrder same.
Proof.
  split.
  - intros s. by split_and!.
  - intros s1 s2 s3 (?&?&?&?&?) (?&?&?&?&?). split_and!; [congruence..| |]; by etrans.
Qed.

Lemma on_heap_keeps {X} (m : M A X) s : keeps_in E R m (heap s) → keeps_in E same (on_heap m) s.
Proof.
  intros Hm a s' o. rewrite /on_heap /zoom. destruct (m (heap s)) as [[[x h] o1]| |] eqn:Hrun; [|done..].
  intros [= <- <- <-]. apply Hm in Hrun as [? ?]. by split_and!.
Qed.
Lemma load_dir_keeps p s : keeps_in E same (load_dir p) s.
Proof. rewrite /load_dir. keeps_tac. Qed.
Lemma store_dir_keeps p d s : keeps_in E same (store_dir p d) s.
Proof. by apply keeps_modify. Qed.
Lemma store_data_keeps p bs s : keeps_in E same (store_data p bs) s.
Proof. by apply keeps_modify. Qed.
Lemma set_current_keeps p path s : RP (current_path s) path → keeps_in E same (modify (set_current p path)) s.
Proof. intros Hp. apply keeps_modify. by split_and!. Qed.
Lemma set_current_dir_keeps p s : keeps_in E same (modify (set_current_dir p)) s.
Proof. by apply keeps_modify. Qed.
Lemma free_dir_keeps p s : keeps_in E same (free_dir p) s.
Proof. apply keeps_bind; [apply _|by apply on_heap_keeps|]. intros ? ?. by apply keeps_modify. Qed.
Lemma free_data_keeps p s : keeps_in E same (free_data p) s.
Proof. apply keeps_bind; [apply _|by apply on_heap_keeps|]. intros ? ?. by apply keeps_modify. Qed.
#[local] Hint Resolve load_dir_keeps store_dir_keeps store_data_keeps set_current_keeps set_current_dir_keeps free_dir_keeps
  free_data_keeps : keeps.
#[local] Hint Extern 1 (keeps_in E same (on_heap _) _) => apply on_heap_keeps : keeps.
#[local] Hint Extern 1 (keeps_in E R (ramfs_hashmap_insert _ _ _) _) => apply insert_keeps : keeps.
#[local] Hint Extern 1 (keeps_in E R (ramfs_hashmap_delete _ _) _) => apply delete_keeps : keeps.
#[local] Hint Extern 1 (keeps_in E R (ramfs_hashmap_destroy _) _) => apply destroy_keeps : keeps.
#[local] Hint Extern 1 (keeps_in E R (ramfs_file_hashmap_insert _ _ _) _) => apply insert_keeps : keeps.
#[local] Hint Extern 1 (keeps_in E R (ramfs_file_hashmap_delete _ _) _) => apply delete_keeps : keeps.
#[local] Hint Extern 1 (keeps_in E R (ramfs_file_hashmap_destroy _) _) => apply destroy_keeps : keeps.
#[local] Hint Resolve malloc_keeps free_keeps env_set_keeps : keeps.

(** The prefix the operations share: the folder they work in, which is
    there and needs no loading. *)
Lemma parent_keeps {X} own L s from (e : X) (f : Z → ramfs_foder → M (fs A D) X) :
  inv K own L s → from_ok from →
  (∀ p d, dirs s !! p = Some d → keeps_in E same (f p d) s) →
  keeps_in E same (parent ← parent_of from;
    if parent =? 0 then mret e else lazy_load_directory parent;; d ← load_dir parent; f parent d) s.
Proof.
  intros Hinv Hf Hk. destruct (parent_of_ok K _ _ _ from Hinv Hf) as [Hpar Hpd].
  eapply keeps_bind_ok; [exact Hpar|]. rewrite (default_zero K _ _ _ _ Hinv Hpd).
  destruct (parent_in _ _ from) as [p|]; [|keeps_tac]. destruct (Hpd p eq_refl) as [d Hd]. cbn [default from_option id].
  eapply keeps_bind_ok; [by eapply lazy_load_ok|]. eapply keeps_bind_ok; [by apply load_dir_ok|]. by apply Hk.
Qed.
Lemma locate_keeps own L s name from (f : Z → string → ramfs_foder → M (fs A D) Z) :
  inv K own L s → no_nul name → strlen name < 512 → from_ok from →
  (∀ p n d, dirs s !! p = Some d → keeps_in E same (f p n d) s) →
  keeps_in E same (l ← locate name from;
    match l with
    | inl r => mret r
    | inr (parent, file_name) => lazy_load_directory parent;; d ← load_dir parent; f parent file_name d
    end) s.
Proof.
  intros Hinv Hn Hlen Hf Hk. destruct (locate_ok K _ _ _ name from Hinv Hf Hn Hlen) as [Hloc Hlp].
  eapply keeps_bind_ok; [exact Hloc|]. destruct (located _ _ _ _) as [e|[p n]]; [keeps_tac|].
  destruct (Hlp p n eq_refl) as ([d Hd]&_&_).
  eapply keeps_bind_ok; [by eapply lazy_load_ok|]. eapply keeps_bind_ok; [by apply load_dir_ok|]. by apply Hk.
Qed.

Lemma fs_mkdir_keeps s name from : Inv K s → from_ok from → keeps_in E same (fs_mkdir name from) s.
Proof.
  intros (own&L&Hinv) Hf. rewrite /fs_mkdir. destruct (_ || _); [keeps_tac|].
  eapply parent_keeps; [done..|]. intros p d Hd. keeps_tac.
Qed.
Lemma fs_rmdir_keeps s name : Inv K s → keeps_in E same (fs_rmdir name None) s.
Proof.
  intros (own&L&Hinv). rewrite /fs_rmdir. eapply parent_keeps; [done..|]. intros p d Hd. keeps_tac.
Qed.
Lemma fs_write_keeps s name bytes from : Inv K s → from_ok from → keeps_in E same (fs_write name bytes from) s.
Proof.
  intros (own&L&Hinv) Hf. rewrite /fs_write. eapply parent_keeps; [done..|]. intros p d Hd. keeps_tac.
Qed.
Lemma fs_touch_keeps s name from :
  Inv K s → no_nul name → from_ok from → keeps_in E same (fs_touch name from) s.
Proof.
  intros (own&L&Hinv) Hn Hf. rewrite /fs_touch. destruct (Z.leb_spec 128 (strlen name)); rewrite ?orb_true_r; [keeps_tac|].
  case_match; [keeps_tac|]. eapply locate_keeps; [done..|lia|done|]. intros p n d Hd. keeps_tac.
Qed.
Lemma fs_rm_keeps s name from :
  Inv K s → no_nul name → strlen name < 512 → from_ok from → keeps_in E same (fs_rm name from) s.
Proof.
  intros (own&L&Hinv) Hn Hlen Hf. rewrite /fs_rm. case_match; [keeps_tac|].
  eapply locate_keeps; [done..|]. intros p n d Hd. keeps_tac.
Qed.
Lemma fs_backspace_keeps s name cnt from :
  Inv K s → no_nul name → strlen name < 512 → from_ok from → keeps_in E same (fs_backspace name cnt from) s.
Proof.
  intros (own&L&Hinv) Hn Hlen Hf. rewrite /fs_backspace. case_match; [keeps_tac|]. case_match; [keeps_tac|].
  eapply locate_keeps; [done..|]. intros p n d Hd.
  destruct (dk_mem _ _ _ _ _ _ (inv_dirs _ _ _ _ Hinv _ _ Hd)) as [-> _]. cbn [Z.eqb negb]. keeps_tac.
Qed.
Lemma build_path_keeps fuel p s : keeps_in E same (build_absolute_path fuel p) s.
Proof.
  revert p s. induction fuel as [|fuel IH]; intros p s; cbn [build_absolute_path]; keeps_tac.
Qed.
Lemma get_dir_keeps own L s base path :
  inv K own L s → is_Some (dirs s !! base) → no_nul path → strlen path < 512 →
  keeps_in E same (_get_dir_by_path base path) s.
Proof.
  intros Hinv Hb Hn Hl a s' o. destruct (get_dir_ok K _ _ _ _ _ Hinv Hb Hn Hl) as [-> _]. by intros [= <- <- <-].
Qed.
Lemma fs_cd_keeps s fuel path :
  (∀ a b, RP a b) → Inv K s → no_nul path → strlen path < 512 → keeps_in E same (fs_cd fuel path) s.
Proof.
  intros Hany (own&L&Hinv) Hn Hlen. rewrite /fs_cd. apply (keeps_bind_ok _ _ _ _ s); [done|].
  apply keeps_bind; [apply _| |].
  - repeat case_match; [keeps_tac|eapply get_dir_keeps; [done|apply (inv_root _ _ _ _ Hinv)|done|done]|].
    eapply get_dir_keeps; [done|apply (inv_cwd _ _ _ _ Hinv)|done|done].
  - intros target s1. case_match; [keeps_tac|]. apply keeps_bind; [apply _|apply build_path_keeps|].
    intros out s2. keeps_tac.
Qed.

(** ** [mkdir] in another folder

    The loop of [fs_mkdir_api] makes a folder below another one by going
    there and back: [fs_mkdir] runs with a [current_dir] that
    [current_path] does not name. It never reads [current_path]. *)
Definition with_path (x : string) s : fs A D := set_current (current_dir s) x s.
Definition blind {X} (m : M (fs A D) X) s : Prop :=
  ∀ x, m (with_path x s) =
    match m s with Ok (a, s', o) => Ok (a, with_path x s', o) | Fault => Fault | NoFuel => NoFuel end.

Lemma blind_bind {X Y} (m : M (fs A D) X) (f : X → M (fs A D) Y) s :
  blind m s → (∀ a s', blind (f a) s') → blind (m ≫= f) s.
Proof.
  intros Hm Hf x. rewrite /mbind /M_bind Hm. destruct (m s) as [[[a s1] o1]| |]; [|done..].
  rewrite Hf. by destruct (f a s1) as [[[b s2] o2]| |].
Qed.
Lemma blind_ret {X} (a : X) s : blind (mret a) s.
Proof. done. Qed.
Lemma blind_heap {X} (m : M A X) s : blind (on_heap m) s.
Proof. intros x. rewrite /on_heap /zoom /=. by destruct (m (heap s)) as [[[a h] o]| |]. Qed.
Lemma blind_load p s : blind (load_dir p) s.
Proof. intros x. rewrite /load_dir /mbind /M_bind /=. by destruct (dirs s !! p). Qed.
Lemma blind_store p d s : blind (store_dir p d) s.
Proof. done. Qed.
Lemma blind_free p s : blind (free_dir p) s.
Proof. apply blind_bind; [apply blind_heap|done]. Qed.
#[local] Hint Resolve blind_ret blind_heap blind_load blind_store blind_free : keeps.
Ltac blind_step :=
  match goal with
  | |- blind (_ ≫= _) _ => apply blind_bind; [|intros ? ?]
  | |- blind (if ?b then _ else _) _ => destruct b
  | |- blind (match ?x with _ => _ end) _ => destruct x
  | _ => solve [eauto with keeps]
  end.

Lemma with_same_path s : with_path (current_path s) s = s.
Proof. by destruct s. Qed.
Lemma blind_bind_ok {X Y} (m : M (fs A D) X) (f : X → M (fs A D) Y) s a :
  (∀ x, m (with_path x s) = Ok (a, with_path x s, [])) → blind (f a) s → blind (m ≫= f) s.
Proof.
  intros Hm Hf x. pose proof (Hm (current_path s)) as Hs. rewrite with_same_path in Hs.
  by rewrite (bind_ok _ _ _ _ _ (Hm x)) (bind_ok _ _ _ _ _ Hs).
Qed.

Lemma fs_mkdir_blind s name d :
  current_dir s ≠ 0 → dirs s !! current_dir s = Some d → unloaded d = false → blind (fs_mkdir name None) s.
Proof.
  intros Hz Hd Hu. rewrite /fs_mkdir. case_match; [done|].
  assert (Hload : ∀ x, load_dir (current_dir s) (with_path x s) = Ok (d, with_path x s, [])).
  { intros x. by apply load_dir_ok. }
  apply (blind_bind_ok _ _ _ (current_dir s)); [done|]. rewrite (proj2 (Z.eqb_neq _ 0)) //.
  apply (blind_bind_ok _ _ _ tt).
  { intros x. rewrite /lazy_load_directory (proj2 (Z.eqb_neq _ 0)) //. by rewrite (bind_ok _ _ _ _ _ (Hload x)) Hu. }
  apply (blind_bind_ok _ _ _ d); [done|]. repeat blind_step.
Qed.

(** Making a folder leaves the paths there were. *)
Lemma tree_path_mkdir t k p path q X p0 a n :
  t !! q = None → t !! p0 = Some a → tree_path t k p path →
  tree_path (<[q := X]> (<[p0 := add_dir n q a]> t)) k p path.
Proof.
  intros Hq Ha Hp.
  assert (Hlook : ∀ r b, t !! r = Some b → ∃ b', <[q := X]> (<[p0 := add_dir n q a]> t) !! r = Some b' ∧
    a_name b' = a_name b ∧ a_parent b' = a_parent b).
  { intros r b Hr. rewrite lookup_insert_ne; [congruence|]. destruct (decide (r = p0)) as [->|Hne].
    - rewrite lookup_insert_eq. eexists. split; [done|]. assert (b = a) as -> by congruence. done.
    - rewrite lookup_insert_ne //. by exists b. }
  induction Hp as [b Hb|k p b out Hne Hb Hpar Hout IH]; destruct (Hlook _ _ Hb) as (b'&Hb'&Hn&Hpr).
  - by apply (tree_path_root _ b').
  - rewrite -Hn. rewrite -Hpr in Hpar IH. by apply tree_path_sub.
Qed.
Lemma mkdir_keeps_tree t cwd n r t' :
  mkdir_post t cwd n None r t' → (∀ k p path, tree_path t k p path → tree_path t' k p path) ∧
    ∀ p, is_Some (t !! p) → is_Some (t' !! p).
Proof.
  rewrite /mkdir_post /=. case_bool_decide; [by intros [_ ->]|]. intros (a&Ha&Hpost).
  destruct (a_dirs a !! n); [by destruct Hpost as [_ ->]|]. destruct (a_files a !! n); [by destruct Hpost as [_ ->]|].
  destruct Hpost as [(_&q&Hq&->)|[_ ->]]; [|done]. split; [by intros; apply tree_path_mkdir|].
  intros p Hp. apply lookup_insert_is_Some'. right. apply lookup_insert_is_Some'. by right.
Qed.

Lemma inv_set_current own L s k p path :
  inv K own L s → path_of (dirs s) k p path → inv K own L (set_current p path s).
Proof.
  intros Hinv Hp. destruct Hinv. split; simpl; try done; [|by exists k].
  destruct Hp; by eexists.
Qed.

(** [fs_mkdir] in the folder [q], from anywhere. *)
Lemma mkdir_in s q n :
  Inv K s → is_Some (dirs s !! q) → no_nul n → K n →
  wp (fs_mkdir n None) (set_current_dir q s) (λ r s1 o, let s2 := set_current_dir (current_dir s) s1 in
    (Inv K s2 ∧ same s s2 ∧ Forall E o) ∧ (∀ p, is_Some (dirs s !! p) → is_Some (dirs s2 !! p)) ∧
    current_path s2 = current_path s ∧ mkdir_post (abs s) q n None r (abs s2)).
Proof.
  intros HI [d Hd] Hn Hk. pose proof HI as (own&L&Hinv).
  destruct (inv_depth _ _ _ _ Hinv _ _ Hd) as (k&path&Hpath).
  assert (HI2 : Inv K (set_current q path s)).
  { exists own, L. by eapply inv_set_current. }
  assert (Hblind : blind (fs_mkdir n None) (set_current q path s)).
  { eapply fs_mkdir_blind; [|exact Hd|].
    - by eapply dir_nonzero.
    - eapply not_unloaded. by eapply (inv_dirs _ _ _ _ Hinv). }
  pose proof (wp_keeps same _ _ _ (fs_mkdir_ok K HK _ n None HI2 Hn I Hk) (fs_mkdir_keeps _ n None HI2 I)) as Hw.
  apply wp_run in Hw as (r&s1&o&Hrun&(HI1&Hc1&Hp1&Hpost)&(Hs1&Hs2&Hs3&Hs4&_)&Ho).
  specialize (Hblind (current_path s)). rewrite Hrun in Hblind.
  change (with_path (current_path s) (set_current q path s)) with (set_current_dir q s) in Hblind.
  rewrite /wp Hblind. destruct (mkdir_keeps_tree _ _ _ _ _ Hpost) as [Hpaths Hdirs].
  assert (Hlive : ∀ p, is_Some (dirs s !! p) → is_Some (dirs s1 !! p)).
  { intros p Hp. specialize (Hdirs p). rewrite !lookup_abs !fmap_is_Some in Hdirs. by apply Hdirs. }
  split; [split_and!|split; [exact Hlive|split; [done|exact Hpost]]].
  - destruct HI1 as (own1&L1&Hinv1). exists own1, L1.
    destruct (inv_pwd _ _ _ _ Hinv) as [k0 Hk0]. apply path_of_abs, Hpaths, path_of_abs in Hk0.
    by eapply (inv_set_current _ _ s1).
  - by split_and!.
  - done.
Qed.

End ops.

(** * The command layer *)

Section commands.
Context {A D : Type} `{!Alloc.Allocator A, !Alloc.AllocatorLaws A, !Services A, !ServicesLaws A, !Drive.Hba D}.
Context (R : relation A) `{!PreOrder R} (RP : relation string) `{!PreOrder RP}.
Context (malloc_keeps : ∀ n h, keeps R (Alloc.malloc n) h) (free_keeps : ∀ p h, keeps R (Alloc.free p) h).
Context (env_set_keeps : ∀ n v h, keeps R (env_set n v) h).
Context (K : string → Prop) (HK : HashTable.distinguishable (V:=ramfs_file_info) K).
Implicit Types (s : fs A D).
Abbreviation same := (same R RP).


(** What a command leaves: a consistent file system, on the same disks. *)
Definition kept s s' (o : list event) : Prop := Inv K s' ∧ same s s' ∧ Forall Printable.printable o.

(** An argument of a command line; the names it can stand for are in [K]. *)
Definition text_ok (a : string) : Prop := no_nul a ∧ strlen a < 512.
Definition names_ok (a : string) : Prop :=
  K a ∧ K (base_name a) ∧ Forall K (split_slash (if starts_with_slash a then tail a else a)).
Definition args_ok (argv : list string) : Prop := Forall text_ok argv ∧ Forall names_ok (drop 1 argv).

Definition out_of_memory : event := Printf ("write: out of memory" +:+ nl) [].

Lemma kept_refl s o : Inv K s → Forall Printable.printable o → kept s s o.
Proof. intros HI Ho. by split_and!. Qed.

(** A command function: one operation, then a report of its result. *)
Lemma report_kept (m : M (fs A D) Z) (rest : Z → M (fs A D) unit) (r0 : Z) s :
  wp m s (λ _ s' _, Inv K s') → keeps same m s →
  (∀ r s', wp (rest r) s' (λ _ s'' o, s'' = s' ∧ Forall Printable.printable o)) →
  wp (r ← m; rest r;; mret r0) s (λ _ s' o, kept s s' o).
Proof.
  intros Hm Hk Hrest. apply wp_bind. eapply wp_mono; [by eapply wp_keeps|].
  intros r s1 o1 (HI&Hs&Ho1). apply wp_bind. eapply wp_mono; [apply Hrest|]. intros [] s2 o2 [-> Ho2]. apply wp_ret.
  split_and!; [done|done|]. by rewrite app_nil_r Forall_app.
Qed.

(** Reports print and change nothing. *)
Ltac reports := intros; repeat case_match; wp_steps; (split; [done|messages]).
Ltac usage HI := wp_steps; apply kept_refl; [done|messages].

Lemma arg_text argv i : args_ok argv → no_nul (arg argv i) ∧ strlen (arg argv i) < 512.
Proof.
  intros [Ha _]. rewrite /arg. destruct (argv !! i) as [a|] eqn:E; [|done].
  by eapply Forall_lookup_1 in Ha.
Qed.
Lemma arg_in argv i : args_ok argv → 0 < Z.of_nat i < argc argv → text_ok (arg argv i) ∧ names_ok (arg argv i).
Proof.
  intros Ha Hi. split; [by apply arg_text|]. destruct Ha as [_ Ha]. rewrite /arg /argc in Hi |- *.
  destruct (lookup_lt_is_Some_2 argv i) as [a Hl]; [lia|]. rewrite Hl.
  apply (Forall_lookup_1 _ _ (i - 1) _ Ha). rewrite lookup_drop -Hl. f_equal. lia.
Qed.
Lemma length_bytes a : Z.of_nat (length (bytes_of a)) = strlen a.
Proof. rewrite /bytes_of length_fmap /strlen. induction a as [|c a IH]; [done|]. cbn [String.list_ascii_of_string length String.length]. lia. Qed.

Lemma fs_cd_api_kept fuel argv s :
  (∀ a b, RP a b) → Inv K s → args_ok argv → cd_fits (abs s) (current_dir s) (arg argv 1) fuel →
  wp (fs_cd_api fuel argv) s (λ _ s' o, kept s s' o).
Proof.
  intros Hany HI Ha Hfit. rewrite /fs_cd_api. do 4 (case_match; [usage HI|]).
  destruct (arg_text _ 1 Ha) as [Hn Hl]. apply report_kept; [|by eapply fs_cd_keeps|reports].
  eapply wp_mono; [by apply (fs_cd_ok K)|]. by intros r s' o (?&_).
Qed.

Lemma fs_rm_api_kept argv s :
  Inv K s → args_ok argv → wp (fs_rm_api argv) s (λ _ s' o, kept s s' o).
Proof.
  intros HI Ha. rewrite /fs_rm_api. destruct (Z.eqb_spec (argc argv) 2); [|usage HI]. cbn [negb].
  do 2 (case_match; [usage HI|]). destruct (arg_in _ 1 Ha) as ([Hn Hl]&_&Hk&_); [lia|].
  apply report_kept; [|by eapply fs_rm_keeps|reports].
  eapply wp_mono; [by apply (fs_rm_ok K)|]. by intros r s' o (?&_).
Qed.

Lemma fs_rmdir_api_kept argv s : Inv K s → args_ok argv → wp (fs_rmdir_api argv) s (λ _ s' o, kept s s' o).
Proof.
  intros HI Ha. destruct (arg_text _ 1 Ha) as [Hn Hl]. rewrite /fs_rmdir_api. case_match; [usage HI|].
  do 2 (case_match; [usage HI|]).
  apply report_kept; [|by eapply fs_rmdir_keeps|reports].
  eapply wp_mono; [by apply (fs_rmdir_ok K)|]. by intros r s' o (?&_).
Qed.

Lemma fs_touch_api_kept argv s :
  Inv K s → args_ok argv → wp (fs_touch_api argv) s (λ _ s' o, kept s s' o).
Proof.
  intros HI Ha. rewrite /fs_touch_api. destruct (Z.eqb_spec (argc argv) 2); [|usage HI]. cbn [negb].
  do 2 (case_match; [usage HI|]). destruct (arg_in _ 1 Ha) as ([Hn Hl]&_&Hk&_); [lia|].
  apply report_kept; [|by eapply fs_touch_keeps|reports].
  eapply wp_mono; [by apply (fs_touch_ok K)|]. by intros r s' o (?&_).
Qed.

Lemma fs_backspace_api_kept argv s :
  Inv K s → args_ok argv → wp (fs_backspace_api argv) s (λ _ s' o, kept s s' o).
Proof.
  intros HI Ha. rewrite /fs_backspace_api. destruct (Z.ltb_spec (argc argv) 2); [usage HI|].
  case_match; [usage HI|]. do 2 (case_match; [usage HI|]). destruct (arg_in _ 1 Ha) as ([Hn Hl]&_&Hk&_); [lia|].
  apply report_kept; [|by eapply fs_backspace_keeps|reports].
  eapply wp_mono; [by apply (fs_backspace_ok K)|]. by intros r s' o (?&_).
Qed.

Lemma bytes_printable bs : Forall Printable.printable ((λ b, Printf "%c" [AChr b]) <$> bs).
Proof. apply Forall_fmap, Forall_true. intros b. rewrite /compose. printable_tac. Qed.
Lemma cat_printable t cwd name from r out : cat_post t cwd name from r out → Forall Printable.printable out.
Proof.
  rewrite /cat_post. case_match; [|by intros [_ ->]]. intros (a&_&Hout). case_match; destruct Hout as [_ ->]; [|done].
  apply bytes_printable.
Qed.
Lemma fs_cat_api_kept argv s :
  Inv K s → args_ok argv → wp (fs_cat_api argv) s (λ _ s' o, kept s s' o).
Proof.
  intros HI Ha. rewrite /fs_cat_api. destruct (Z.eqb_spec (argc argv) 2); [|usage HI]. cbn [negb].
  destruct (arg_in _ 1 Ha) as ([Hn Hl]&Hk&_); [lia|].
  destruct (fs_cat_ok K HK s (arg argv 1) None HI I Hk) as (r&out&Hrun&Hpost).
  apply report_kept; [by rewrite /wp Hrun| |reports].
  intros a s' o. rewrite Hrun. intros [= <- <- <-]. split; [done|]. by eapply cat_printable.
Qed.

(** The one command that can leave the file system inconsistent says so. *)
Lemma fs_write_api_kept argv s :
  Inv K s → args_ok argv →
  wp (fs_write_api argv) s (λ _ s' o,
    Forall Printable.printable o ∧ (kept s s' o ∨ same s s' ∧ out_of_memory ∈ o)).
Proof.
  intros HI Ha. rewrite /fs_write_api. destruct (Z.eqb_spec (argc argv) 3).
  2:{ wp_steps. split; [messages|]. left. apply kept_refl; [done|messages]. }
  cbn [negb]. destruct (arg_in _ 1 Ha) as ([Hn Hl]&Hk&_); [lia|]. destruct (arg_text _ 2 Ha) as [_ Hb].
  apply wp_bind. eapply wp_mono.
  { eapply wp_keeps; [apply (fs_write_ok K); [done..|]|by eapply fs_write_keeps]. rewrite length_bytes. lia. }
  intros r s1 o1 (HI1&Hs1&Ho1).
  assert (Hout : ∀ o, Forall Printable.printable o → Forall Printable.printable (o1 ++ o)) by by intros; apply Forall_app.
  destruct (Z.eqb_spec r (-4)) as [->|Hr].
  - cbn [Z.eqb Pos.eqb]. wp_steps. split; [apply Hout; messages|]. right. split; [done|]. apply elem_of_app. right. by left.
  - destruct (HI1 Hr) as [HI' _]. rewrite /kept.
    repeat case_match; wp_steps; (split; [|left; split_and!; [done..|]]; apply Hout; messages).
Qed.

(** The names a listing prints. *)
Definition name_ok (n : string) : Prop := no_nul n ∧ strlen n ≤ 127.
Lemma print_foders_ok ns s : Forall (λ n, name_ok (n_key n)) ns →
  wp (print_foders ns) s (λ _ s' o, s' = s ∧ Forall Printable.printable o).
Proof.
  induction 1 as [|n ns [Hn Hl] _ IH]; [by split|]. cbn [print_foders]. wp_steps.
  eapply wp_mono; [exact IH|]. intros [] s' o [-> Ho]. split; [done|]. messages.
Qed.
Lemma print_files_ok ns s : Forall (λ n, name_ok (n_key n)) ns →
  wp (print_files ns) s (λ _ s' o, s' = s ∧ Forall Printable.printable o).
Proof.
  induction 1 as [|n ns [Hn Hl] _ IH]; [by split|]. cbn [print_files]. wp_steps.
  eapply wp_mono; [exact IH|]. intros [] s' o [-> Ho]. split; [done|]. messages.
Qed.
Lemma short_name {V} `{!HashTable.Entry V} (m : hashmap V) n :
  HashTable.wf m → n ∈ HashTable.nodes m → no_nul (n_key n) → name_ok (n_key n).
Proof. intros Hwf Hn Hk. split; [done|]. pose proof (HashTable.wf_short _ Hwf _ Hn). rewrite /strlen. lia. Qed.
Lemma listed_foders own L s p d :
  inv K own L s → dirs s !! p = Some d → Forall (λ n, name_ok (n_key n)) (HashTable.nodes (foder_map d)).
Proof.
  intros Hinv Hd. pose proof (inv_dirs _ _ _ _ Hinv _ _ Hd) as Hok. apply Forall_forall. intros n Hn.
  apply (short_name (foder_map d)); [apply (dk_foders _ _ _ _ _ _ Hok)|done|].
  assert (Hc : HashTable.contents (foder_map d) !! n_key n = Some (n_value n)).
  { apply HashTable.contents_lookup; [apply (dk_foders _ _ _ _ _ _ Hok)|]. by exists n. }
  destruct (dk_subs _ _ _ _ _ _ Hok _ _ Hc) as (Hr&d'&Hd'&_&<-).
  by destruct (dk_self _ _ _ _ _ _ (inv_dirs _ _ _ _ Hinv _ _ Hd') Hr) as (_&?&_).
Qed.
Lemma listed_files own L s p d :
  (∀ n, K n → no_nul n) → inv K own L s → dirs s !! p = Some d →
  Forall (λ n, name_ok (n_key n)) (HashTable.nodes (file_map d)).
Proof.
  intros HK0 Hinv Hd. pose proof (inv_dirs _ _ _ _ Hinv _ _ Hd) as Hok. apply Forall_forall. intros n Hn.
  apply (short_name (file_map d)); [apply (dk_files _ _ _ _ _ _ Hok)|done|].
  apply HK0, (dk_names _ _ _ _ _ _ Hok), elem_of_dom. exists (n_value n).
  apply HashTable.contents_lookup; [apply (dk_files _ _ _ _ _ _ Hok)|]. by exists n.
Qed.

Lemma fs_ls_api_kept argv s :
  (∀ n, K n → no_nul n) → Inv K s → wp (fs_ls_api argv) s (λ _ s' o, kept s s' o).
Proof.
  intros HK0 HI. pose proof HI as (own&L&Hinv). rewrite /fs_ls_api. case_match; [usage HI|]. rewrite /fs_ls. wp_steps.
  destruct (inv_cwd _ _ _ _ Hinv) as [d Hd]. eapply load_dir_wp; [exact Hd|]. apply wp_bind.
  eapply wp_mono; [apply print_foders_ok; by eapply listed_foders|]. intros [] s1 o1 [-> Ho1]. wp_steps.
  eapply wp_mono; [apply print_files_ok; by eapply listed_files|]. intros [] s1 o2 [-> Ho2]. usage HI.
Qed.

(** The current path has no zero in it. *)
Lemma no_nul_app a b : no_nul a → no_nul b → no_nul (a +:+ b).
Proof. induction a as [|c a IH]; [done|]. intros [? ?] ?. split; [done|by apply IH]. Qed.
Lemma path_no_nul own L s k p path : inv K own L s → path_of (dirs s) k p path → no_nul path.
Proof.
  intros Hinv. induction 1 as [d Hd|k p d out Hne Hd Hpar Hp IH]; [by split|].
  apply no_nul_app.
  - destruct (ends_with_slash out); [done|]. by apply no_nul_app.
  - by destruct (dk_self _ _ _ _ _ _ (inv_dirs _ _ _ _ Hinv _ _ Hd) Hne) as (_&?&_).
Qed.
Lemma fs_pwd_api_kept argv s :
  Inv K s → strlen (current_path s) < 512 → wp (fs_pwd_api argv) s (λ _ s' o, kept s s' o).
Proof.
  intros HI Hl. rewrite /fs_pwd_api. pose proof HI as (own&L&Hinv). destruct (inv_pwd _ _ _ _ Hinv) as [k Hp].
  apply (path_no_nul _ _ _ _ _ _ Hinv) in Hp. usage HI.
Qed.

Lemma mkdir_parents_kept opt_v cur tokens s :
  Inv K s → is_Some (dirs s !! cur) → Forall (λ t, (no_nul t ∧ strlen t < 512) ∧ K t) tokens →
  wp (mkdir_parents opt_v cur tokens) s (λ _ s' o, kept s s' o).
Proof.
  intros HI Hcur Htok. revert s cur HI Hcur.
  induction Htok as [|t tokens [[Hn Hl] Hk] _ IH]; intros s cur HI [d Hd]; [usage HI|]. cbn [mkdir_parents].
  case_match; [usage HI|]. case_match; [by apply IH|]. pose proof HI as (own&L&Hinv).
  apply wp_bind. eapply load_dir_wp; [exact Hd|]. rewrite (find_foder K _ _ _ _ _ _ Hinv Hd).
  destruct (HashTable.contents (foder_map d) !! t) as [i|] eqn:Hi.
  { destruct (dk_subs _ _ _ _ _ _ (inv_dirs _ _ _ _ Hinv _ _ Hd) _ _ Hi) as (_&d'&Hd'&_). by apply IH. }
  wp_steps. eapply wp_mono; [by eapply (mkdir_in (E:=Printable.printable) R RP) with (q := cur)|]. intros r s1 o1 ((HI1&Hs1&Ho1)&Hlive&_). wp_steps.
  case_match; [wp_steps; split_and!; [done|done|messages]|].
  assert (Hnext : wp (d ← load_dir cur;
      match ramfs_hashmap_find (foder_map d) t with
      | Some info => mkdir_parents opt_v (di_ptr info) tokens
      | None => mret (-1)
      end) (set_current_dir (current_dir s) s1) (λ _ s' o, kept s s' o)).
  { destruct (Hlive cur) as [d1 Hd1]; [by exists d|]. pose proof HI1 as (own1&L1&Hinv1).
    apply wp_bind. eapply load_dir_wp; [exact Hd1|]. rewrite (find_foder K _ _ _ _ _ _ Hinv1 Hd1).
    destruct (HashTable.contents (foder_map d1) !! t) as [i|] eqn:Hi1; [|wp_steps; split_and!; [done|done|messages]].
    destruct (dk_subs _ _ _ _ _ _ (inv_dirs _ _ _ _ Hinv1 _ _ Hd1) _ _ Hi1) as (_&d'&Hd'&_).
    eapply wp_mono; [by apply IH|]. intros b s2 o2 (HI2&Hs2&Ho2). split_and!; [done|by etrans|messages]. }
  apply wp_bind. destruct opt_v; [apply wp_printf|apply wp_ret]; (eapply wp_mono; [exact Hnext|]);
    intros r' s2 o2 (?&?&?); split_and!; try done; messages.
Qed.

Lemma split_slash_short a n : strlen a < n → Forall (λ t, strlen t < n) (split_slash a).
Proof.
  rewrite /strlen. revert n. induction a as [|c a IH]; intros n; [by repeat constructor|]. cbn [String.length split_slash]. intros Hn.
  specialize (IH (n - 1)). rewrite Nat2Z.inj_succ in Hn.
  destruct (Ascii.eqb c slash).
  - constructor; [simpl; lia|]. eapply Forall_impl; [apply IH; lia|]. simpl. lia.
  - destruct (split_slash a) as [|part rest]; [repeat constructor; simpl; lia|].
    destruct (Forall_cons_1 _ _ _ (IH ltac:(lia))) as [Hp Hr]. constructor; [simpl; lia|].
    eapply Forall_impl; [exact Hr|]. simpl. lia.
Qed.
Lemma tail_short a n : strlen a < n → strlen (tail a) < n.
Proof. destruct a; rewrite /strlen /=; lia. Qed.

Lemma option_dirname args p v p' v' n :
  mkdir_options args p v = Make p' v' (Some n) → n ∈ args.
Proof.
  revert p v. induction args as [|a args IH]; intros p v; [done|]. cbn [mkdir_options].
  repeat case_match; try done; intros Hm; try (right; by eapply IH). injection Hm as _ _ ->. by left.
Qed.

Lemma option_invalid args p v opt : mkdir_options args p v = Invalid opt → opt ∈ args.
Proof.
  revert p v. induction args as [|a args IH]; intros p v; [done|]. cbn [mkdir_options].
  repeat case_match; try done; intros Hm; try (right; by eapply IH). injection Hm as ->. by left.
Qed.

Lemma fs_mkdir_api_kept argv s :
  Inv K s → args_ok argv → wp (fs_mkdir_api argv) s (λ _ s' o, kept s s' o).
Proof.
  intros HI Ha. rewrite /fs_mkdir_api. case_match; [usage HI|].
  destruct (mkdir_options (drop 1 argv) false false) as [| |opt|p v [n|]] eqn:Ho; [usage HI|usage HI| | |destruct p; usage HI].
  { apply option_invalid in Ho. destruct Ha as [Ha _].
    apply (Forall_drop _ 1) in Ha. rewrite Forall_forall in Ha. destruct (Ha opt Ho) as [Hn Hl]. usage HI. }
  apply option_dirname, list_elem_of_lookup in Ho as [i Hi]. rewrite lookup_drop in Hi.
  destruct (arg_in argv (1 + i) Ha) as ([Hn Hl]&Hk&_&Hks); [apply lookup_lt_Some in Hi; rewrite /argc; lia|].
  rewrite /arg Hi in Hn, Hl, Hk, Hks. cbn [default from_option id] in Hn, Hl, Hk, Hks. destruct p.
  - rewrite (proj2 (Z.leb_gt _ _)) //. wp_steps. pose proof HI as (own&L&Hinv).
    case_match; apply mkdir_parents_kept; [done|apply (inv_root _ _ _ _ Hinv)| |done|apply (inv_cwd _ _ _ _ Hinv)|].
    + apply Forall_and. split; [|done]. apply Forall_and.
      split; [by apply split_slash_no_nul, tail_no_nul|by apply split_slash_short, tail_short].
    + apply Forall_and. split; [|done]. apply Forall_and. split; [by apply split_slash_no_nul|by apply split_slash_short].
  - apply report_kept; [|by eapply fs_mkdir_keeps|reports].
    eapply wp_mono; [by apply (fs_mkdir_ok K)|]. by intros r s' o (?&_).
Qed.
End commands.
End RamfsSafe.
