(* ===== verification/RamfsSpec.v ===== *)
(** Properties of the file system in memory: the commands refine operations
    on the abstract tree, and what follows for a user of them. *)
From S2P Require Import Prelude.
From S2P Require Import Allocator.
From S2P Require Import Malloc.
From S2P Require Import CString.
From S2P Require Import RamfsTypes.
From S2P Require Import HashTable.
From S2P Require Import RamfsHash.
From S2P Require Import RamfsHashFile.
From S2P Require Import Drive.
From S2P Require Import Partition.
From S2P Require Import FsState.
From S2P Require Import DfsLoad.
From S2P Require Import Ramfs.
From S2P Require Import RamfsApi.
From S2P Require Import RamfsInv.
From S2P Require Import RamfsFiles.
From S2P Require Import RamfsTree.
From S2P Require Import EnvVar.
Import CString RamfsTypes RamfsHash RamfsHashFile FsState DfsLoad Ramfs RamfsInv RamfsFiles RamfsTree.
#[local] Open Scope general_if_scope.

Module RamfsSpec.

(** * Sequences of commands *)

Inductive command : Type :=
  | Mkdir (name : string)
  | Rmdir (name : string)
  | Cd (path : string)
  | Touch (path : string)
  | Write (name : string) (bytes : list Z)
  | Cat (name : string)
  | Rm (path : string)
  | Backspace (path : string) (cnt : Z).

(** The abstract state: the tree and the working folder. *)
Record afs : Type := AFs { a_tree : tree; a_cwd : Z }.

(** One command on the abstract state. *)
Definition command_post (c : command) (σ : afs) (r : Z) (σ' : afs) : Prop :=
  let t := a_tree σ in
  let keep_cwd P := P ∧ a_cwd σ' = a_cwd σ in
  match c with
  | Mkdir n => keep_cwd (mkdir_post t (a_cwd σ) n None r (a_tree σ'))
  | Rmdir n => keep_cwd (rmdir_post t (a_cwd σ) n r (a_tree σ'))
  | Cd p => a_tree σ' = t ∧
      match resolve t (a_cwd σ) p with
      | None => r = -2 ∧ a_cwd σ' = a_cwd σ
      | Some q => r = 0 ∧ a_cwd σ' = q
      end
  | Touch p => keep_cwd (touch_post t (a_cwd σ) p None r (a_tree σ'))
  | Write n bs => keep_cwd (write_post t (a_cwd σ) n bs None r (a_tree σ'))
  | Cat n => σ' = σ ∧ ∃ out, cat_post t (a_cwd σ) n None r out
  | Rm p => keep_cwd (rm_post t (a_cwd σ) p None r (a_tree σ'))
  | Backspace p cnt => keep_cwd (backspace_post t (a_cwd σ) p cnt None r (a_tree σ'))
  end.

(** The arguments the theorem covers: C strings that fit the buffers of the
    code, file names of [K], a folder not too deep to go to. *)
Definition command_ok (K : string → Prop) (fuel : nat) (c : command) (σ : afs) : Prop :=
  match c with
  | Mkdir n => no_nul n ∧ K n
  | Rmdir n => True
  | Cd p => no_nul p ∧ strlen p < 512 ∧ cd_fits (a_tree σ) (a_cwd σ) p fuel
  | Touch p | Rm p | Backspace p _ => no_nul p ∧ strlen p < 512 ∧ K (base_name p)
  | Write n bs => K n ∧ Z.of_nat (length bs) ≤ 4294967288
  | Cat n => K n
  end.

(** The command failed in a way that leaves a dangling entry. *)
Definition out_of_memory (c : command) (r : Z) : Prop :=
  match c with Write _ _ => r = -4 | _ => False end.

Fixpoint commands_ok (K : string → Prop) (fuel : nat) (cs : list command) (σ : afs) : Prop :=
  match cs with
  | [] => True
  | c :: cs => command_ok K fuel c σ ∧
      ∀ r σ', command_post c σ r σ' → commands_ok K fuel cs σ'
  end.

(** A run of the specification: results in order, up to the first write
    that runs out of memory, after which nothing is claimed. *)
Inductive spec_run : list command → afs → list Z → Prop :=
  | spec_done σ : spec_run [] σ []
  | spec_step c cs σ r rs σ' :
      ¬ out_of_memory c r → command_post c σ r σ' → spec_run cs σ' rs → spec_run (c :: cs) σ (r :: rs)
  | spec_oom c cs σ r rs : out_of_memory c r → spec_run (c :: cs) σ (r :: rs).

(** * Paths of folders with plain names *)

(** A name that is one component of a path: mkdir accepts others. *)
Fixpoint no_slash (n : string) : Prop :=
  match n with EmptyString => True | String c n => c ≠ slash ∧ no_slash n end.
Definition plain (n : string) : Prop := n ≠ EmptyString ∧ n ≠ "." ∧ n ≠ ".." ∧ no_slash n.

Lemma split_no_slash n : no_slash n → split_slash n = [n].
Proof.
  induction n as [|c n IH]; [done|]. intros [Hc Hn]. simpl.
  destruct (Ascii.eqb_spec c slash); [done|]. by rewrite IH.
Qed.

Lemma split_nonempty s : split_slash s ≠ [].
Proof. destruct s as [|c s]; [done|]. simpl. destruct (Ascii.eqb c slash); [done|]. by destruct (split_slash s). Qed.

Lemma split_app a n : no_slash n → split_slash (a +:+ "/" +:+ n) = split_slash a ++ [n].
Proof.
  intros Hn. induction a as [|c a IH].
  - change (EmptyString :: split_slash n = [EmptyString; n]). by rewrite split_no_slash.
  - change (split_slash (String c (a +:+ "/" +:+ n)) = split_slash (String c a) ++ [n]).
    revert IH. generalize (a +:+ "/" +:+ n) as r. intros r IH. cbn [split_slash]. rewrite IH.
    destruct (Ascii.eqb c slash); [done|]. pose proof (split_nonempty a). by destruct (split_slash a).
Qed.

Lemma resolve_parts_app t cur ps qs c :
  resolve_parts t cur ps = Some c → ".." ∉ ps → resolve_parts t cur (ps ++ qs) = resolve_parts t c qs.
Proof.
  revert cur. induction ps as [|p ps IH]; intros cur Hs Hin; cbn [resolve_parts app] in *; [by injection Hs as ->|].
  apply not_elem_of_cons in Hin as [Hp Hin].
  case_bool_decide; [by apply IH|]. destruct (t !! cur) as [a|]; [simpl in *|done].
  rewrite (bool_decide_false (p = _)) // in Hs |- *.
  destruct (a_dirs a !! p) as [d|]; [by apply IH|done].
Qed.

Lemma ends_app a n : n ≠ EmptyString → no_slash n → ends_with_slash (a +:+ n) = false.
Proof.
  intros Hne Hn. rewrite /ends_with_slash.
  assert (Hl : ∀ u v, String.list_ascii_of_string (u +:+ v) = String.list_ascii_of_string u ++ String.list_ascii_of_string v).
  { intros u v. induction u as [|c u IH]; [done|]. simpl. by rewrite IH. }
  rewrite Hl last_app.
  assert (∀ c, last (String.list_ascii_of_string n) = Some c → c ≠ slash) as Hc.
  { clear Hne. induction n as [|d n IH]; [done|]. destruct Hn as [Hd Hn]. simpl. intros c.
    destruct (String.list_ascii_of_string n) as [|e l] eqn:El; [by intros [= <-]|by apply IH]. }
  destruct (last (String.list_ascii_of_string n)) as [c|] eqn:El.
  - destruct (Ascii.eqb_spec c slash); [|done]. by destruct (Hc c).
  - apply last_None in El. by destruct n.
Qed.

Lemma append_assoc (a b c : string) : (a +:+ b) +:+ c = a +:+ (b +:+ c).
Proof. induction a as [|x a IH]; [done|]. change (String x ((a +:+ b) +:+ c) = String x (a +:+ (b +:+ c))). by rewrite IH. Qed.

Section spec.
Context {A D : Type} `{!Alloc.Allocator A, !Alloc.AllocatorLaws A, !Services A, !ServicesLaws A, !Drive.Hba D}.
Implicit Types (s : fs A D) (c : command).

Definition exec (fuel : nat) c : M (fs A D) Z :=
  match c with
  | Mkdir n => fs_mkdir n None
  | Rmdir n => fs_rmdir n None
  | Cd p => fs_cd fuel p
  | Touch p => fs_touch p None
  | Write n bs => fs_write n bs None
  | Cat n => fs_cat n None
  | Rm p => fs_rm p None
  | Backspace p cnt => fs_backspace p cnt None
  end.

(** The results of the commands, up to a write that runs out of memory. *)
Fixpoint exec_all (fuel : nat) (cs : list command) : M (fs A D) (list Z) :=
  match cs with
  | [] => mret []
  | c :: cs =>
      r ← exec fuel c;
      match c with
      | Write _ _ => if r =? -4 then mret [r] else rs ← exec_all fuel cs; mret (r :: rs)
      | _ => rs ← exec_all fuel cs; mret (r :: rs)
      end
  end.

Definition astate s : afs := AFs (abs s) (current_dir s).

Section K.
Context (K : string → Prop) (HK : HashTable.distinguishable (V:=ramfs_file_info) K).

Lemma exec_ok s fuel c :
  Inv K s → command_ok K fuel c (astate s) →
  wp (exec fuel c) s (λ r s' _, ¬ out_of_memory c r → Inv K s' ∧ command_post c (astate s) r (astate s')).
Proof.
  intros HI Hok. destruct c as [n|n|p|p|n bs|n|p|p cnt]; cbn [exec command_ok command_post] in *.
  - destruct Hok. eapply wp_mono; [by apply fs_mkdir_ok|]. by intros r s' o (?&?&?&?) _.
  - eapply wp_mono; [by apply (fs_rmdir_ok K)|]. by intros r s' o (?&?&?) _.
  - destruct Hok as (?&?&?). eapply wp_mono; [by apply (fs_cd_ok K)|].
    intros r s' o (?&Ha&Hc) _. split; [done|]. split; [done|]. rewrite /cd_post in Hc. simpl.
    destruct (resolve _ _ _); naive_solver.
  - destruct Hok as (?&?&?). eapply wp_mono; [by apply (fs_touch_ok K)|]. by intros r s' o (?&?&?) _.
  - destruct Hok as (?&?). eapply wp_mono; [by apply (fs_write_ok K)|].
    intros r s' o Hw Hr. by destruct (Hw Hr) as (?&?&?).
  - destruct (fs_cat_ok K HK s n None HI I Hok) as (r&out&Hrun&Hpost).
    rewrite /wp Hrun. intros _. split; [done|]. split; [done|]. by exists out.
  - destruct Hok as (?&?&?). eapply wp_mono; [by apply (fs_rm_ok K)|]. by intros r s' o (?&?&?) _.
  - destruct Hok as (?&?&?). eapply wp_mono; [by apply (fs_backspace_ok K)|]. by intros r s' o (?&?&?) _.
Qed.

Lemma exec_all_ok s fuel cs :
  Inv K s → commands_ok K fuel cs (astate s) →
  wp (exec_all fuel cs) s (λ rs _ _, spec_run cs (astate s) rs).
Proof.
  revert s. induction cs as [|c cs IH]; intros s HI Hok; [apply wp_ret; constructor|].
  destruct Hok as [Hc Hcs]. cbn [exec_all]. apply wp_bind. eapply wp_mono; [by apply exec_ok|].
  intros r s1 o1 Hpost.
  assert (Hnext : ¬ out_of_memory c r →
    wp (rs ← exec_all fuel cs; mret (r :: rs)) s1 (λ rs _ _, spec_run (c :: cs) (astate s) rs)).
  { intros Hr. destruct (Hpost Hr) as [HI1 Hp]. apply wp_bind.
    eapply wp_mono; [apply IH; [done|by eapply Hcs]|].
    intros rs s2 o2 Hrs. apply wp_ret. by eapply spec_step. }
  destruct c; try (apply Hnext; by intros []).
  destruct (Z.eqb_spec r (-4)) as [->|Hne]; [|by apply Hnext].
  apply wp_ret. by apply spec_oom.
Qed.

(** The absolute path of a folder leads to it, when the names on the way
    are plain. *)
Lemma path_resolves own L s k p path :
  inv K own L s → (∀ q d, q ≠ root → dirs s !! q = Some d → plain (fo_name d)) → path_of (dirs s) k p path →
  (p = root ∧ path = "/") ∨
  (ends_with_slash path = false ∧ ∃ rest, path = ("/" +:+ rest) ∧ (".." ∉ split_slash rest) ∧
    resolve_parts (abs s) root (split_slash rest) = Some p).
Proof.
  clear HK. intros Hinv Hplain Hp. induction Hp as [d Hd|k p d out Hne Hd Hpar Hout IH]; [by left|right].
  destruct (Hplain _ _ Hne Hd) as (Hn1&Hn2&Hn3&Hn4).
  split; [by apply ends_app|].
  destruct (dk_self _ _ _ _ _ _ (inv_dirs _ _ _ _ Hinv _ _ Hd) Hne) as (_&_&q&i&Hq&Hi&Hip).
  assert (Hstep : resolve_parts (abs s) (fo_parent d) [fo_name d] = Some p).
  { cbn [resolve_parts]. rewrite bool_decide_false; [by intros [?|?]|].
    rewrite lookup_abs Hq /= bool_decide_false // lookup_fmap Hi /=. by rewrite Hip. }
  destruct IH as [[Hroot ->]|(Hend&rest&->&Hdd&Hres)].
  - exists (fo_name d). rewrite split_no_slash // -Hroot. split_and!; [done|set_solver|done].
  - rewrite Hend. exists (rest +:+ "/" +:+ fo_name d). rewrite split_app //. split_and!.
    + by rewrite !append_assoc.
    + set_solver.
    + by rewrite (resolve_parts_app _ _ _ _ _ Hres Hdd).
Qed.

Lemma pwd_resolves_ok s :
  Inv K s → (∀ q d, q ≠ root → dirs s !! q = Some d → plain (fo_name d)) →
  ∀ base, resolve (abs s) base (current_path s) = Some (current_dir s).
Proof.
  intros (own&L&Hinv) Hplain base. destruct (inv_pwd _ _ _ _ Hinv) as [k Hp].
  destruct (path_resolves _ _ _ _ _ _ Hinv Hplain Hp) as [[-> ->]|(_&rest&->&_&Hres)]; [done|].
  rewrite /resolve bool_decide_false //=.
Qed.
End K.

(** C7: Every sequence of file system commands, from any state that
    satisfies the invariant, runs without fault and answers as the same
    sequence on the abstract tree: mkdir, rmdir, cd, touch, write, cat, rm
    and backspace refine their specifications on every branch, as long as
    no write runs out of memory. File names are taken from a set on which
    the file table's comparison is equality. *)
Theorem ramfs_refines (K : string → Prop) s fuel cs :
  (∀ a b, K a → K b → dominates a b → a = b) → Inv K s → commands_ok K fuel cs (astate s) →
  wp (exec_all fuel cs) s (λ rs _ _, spec_run cs (astate s) rs).
Proof.
  intros HK HI Hok. eapply exec_all_ok; [|done|done].
  intros a b Ha Hb Hab. apply HK; [done..|]. by apply _file_streq_spec.
Qed.

(** Going to the folder that [pwd] names leads back to the folder the
    shell is in, from any folder: the absolute path [fs_cd] records is a
    path of the working folder, as long as no folder has a name that is not
    one component of a path. *)
Lemma fs_cd_pwd_returns (K : string → Prop) s fuel :
  Inv K s → (∀ q d, q ≠ root → dirs s !! q = Some d → plain (fo_name d)) → no_nul (current_path s) →
  strlen (current_path s) < 512 → cd_fits (abs s) (current_dir s) (current_path s) fuel →
  wp (fs_cd fuel (current_path s)) s (λ r s' _,
    r = 0 ∧ Inv K s' ∧ abs s' = abs s ∧ current_dir s' = current_dir s ∧ current_path s' = current_path s).
Proof.
  intros HI Hplain Hn Hlen Hfit. eapply wp_mono; [by apply (fs_cd_ok K)|].
  intros r s' o (HI'&Habs&Hpost). rewrite /cd_post (pwd_resolves_ok K s HI Hplain) in Hpost.
  destruct Hpost as (->&Hc&k&Hp). split_and!; [done..|].
  destruct HI as (own&L&Hinv). destruct (inv_pwd _ _ _ _ Hinv) as [k' Hp'].
  apply path_of_abs in Hp'. by destruct (tree_path_fun _ _ _ _ Hp _ _ Hp').
Qed.

(** C26: Writing a file that exists and printing it: [fs_write] succeeds and
    [fs_cat] then prints exactly the bytes written, in order, and changes
    nothing, for every content the heap has room for. *)
Theorem fs_write_cat (K : string → Prop) s name bs a :
  (∀ a b, K a → K b → dominates a b → a = b) → Inv K s → K name → Z.of_nat (length bs) ≤ 4294967288 →
  abs s !! current_dir s = Some a → is_Some (a_files a !! name) →
  wp (fs_write name bs None) s (λ w s' _, w = -4 ∨
    (w = 0 ∧ fs_cat name None s' = Ok (0, s', (λ b, Printf "%c" [AChr b]) <$> bs))).
Proof.
  intros HK HI Hn Hlen Ha [old Hold].
  assert (HK' : HashTable.distinguishable (V:=ramfs_file_info) K).
  { intros x y Hx Hy Hxy. apply HK; [done..|]. by apply _file_streq_spec. }
  eapply wp_mono; [by apply (fs_write_ok K)|]. intros w s' o Hw.
  destruct (decide (w = -4)) as [|Hne]; [by left|right]. destruct (Hw Hne) as (HI'&Hcwd&Hpost).
  rewrite /write_post /= in Hpost. destruct Hpost as (a'&Ha'&Hpost).
  assert (a' = a) as -> by congruence. rewrite Hold in Hpost. destruct Hpost as [Hw0 Habs].
  split; [done|]. destruct (fs_cat_ok K HK' s' name None HI' I Hn) as (r&out&Hrun&Hpost).
  rewrite /cat_post /= Hcwd Habs lookup_insert_eq in Hpost. destruct Hpost as (a1&[= <-]&Hpost).
  rewrite /= lookup_insert_eq in Hpost. by destruct Hpost as [-> ->].
Qed.

(** mkdir followed by rmdir of the same name restores the tree. *)
Lemma fs_mkdir_rmdir (K : string → Prop) s name :
  (∀ a b, K a → K b → dominates a b → a = b) → Inv K s → no_nul name → K name →
  wp (fs_mkdir name None) s (λ r s' _, r = 0 →
    wp (fs_rmdir name None) s' (λ r' s'' _, r' = 0 ∧ Inv K s'' ∧ abs s'' = abs s)).
Proof.
  intros HK HI Hnul Hn.
  assert (HK' : HashTable.distinguishable (V:=ramfs_file_info) K).
  { intros x y Hx Hy Hxy. apply HK; [done..|]. by apply _file_streq_spec. }
  eapply wp_mono; [by apply (fs_mkdir_ok K HK')|]. intros r s' o (HI'&Hcwd&_&Hpost) ->.
  rewrite /mkdir_post /= in Hpost. case_bool_decide; [by destruct Hpost|].
  destruct Hpost as (a&Ha&Hpost). destruct (a_dirs a !! name) eqn:Hd; [by destruct Hpost|].
  destruct (a_files a !! name); [by destruct Hpost|].
  destruct Hpost as [(_&q&Hq&Habs)|[? _]]; [|done].
  assert (q ≠ current_dir s) as Hqc by congruence.
  eapply wp_mono; [by apply (fs_rmdir_ok K)|]. intros r' s'' o' (HI''&_&Hrm).
  rewrite /rmdir_post Hcwd Habs lookup_insert_ne // lookup_insert_eq in Hrm.
  destruct Hrm as (a1&[= <-]&Hrm). rewrite /= lookup_insert_eq in Hrm.
  destruct Hrm as (b&Hb&Hrm). rewrite lookup_insert_eq in Hb. injection Hb as <-.
  rewrite bool_decide_true // in Hrm. destruct Hrm as [-> ->]. split_and!; [done..|].
  rewrite delete_insert_ne // delete_insert_id; [by rewrite lookup_insert_ne|].
  rewrite insert_insert_eq insert_id // Ha /del_dir /= delete_insert_id //. by destruct a.
Qed.


Lemma locate_root s f :
  f ≠ EmptyString → no_nul f → no_slash f → strlen f < 511 → current_dir s ≠ 0 →
  locate (String slash f) None s = Ok (inl (-2), s, []).
Proof.
  intros Hne Hnul Hns Hlen Hcwd. rewrite /locate.
  assert (Hf : strrchr f slash = None).
  { clear -Hns. induction f as [|c f IH]; [done|]. destruct Hns as [Hc Hf]. simpl. rewrite IH //.
    by destruct (Ascii.eqb_spec c slash). }
  rewrite (proj2 (Z.leb_gt _ _)); [rewrite /strlen /= in Hlen |- *; lia|].
  cbn [strrchr]. rewrite Hf Ascii.eqb_refl streq_spec // bool_decide_false //.
  cbn [starts_with_slash]. rewrite (bind_ok _ _ s (current_dir s) s) //.
  rewrite (proj2 (Z.eqb_neq (current_dir s) 0)) //.
Qed.

(** A file in the root folder cannot be named by an absolute path:
    touch, rm and backspace of a slash and a name fail with -2 whether or
    not the file exists, because the folder part they cut off is empty. *)
Lemma root_path_rejected s f cnt :
  f ≠ EmptyString → no_nul f → no_slash f → strlen f < 127 → current_dir s ≠ 0 → 0 < cnt →
  fs_touch ("/" +:+ f) None s = Ok (-2, s, []) ∧ fs_rm ("/" +:+ f) None s = Ok (-2, s, []) ∧
  fs_backspace ("/" +:+ f) cnt None s = Ok (-2, s, []).
Proof.
  intros Hne Hnul Hns Hlen Hcwd Hcnt. change ("/" +:+ f) with (String slash f).
  pose proof (locate_root s f Hne Hnul Hns ltac:(lia) Hcwd) as Hl.
  assert (Hlen' : strlen (String slash f) = strlen f + 1) by (rewrite /strlen /=; lia).
  assert (0 ≤ strlen f) by (rewrite /strlen; lia).
  rewrite /fs_touch /fs_rm /fs_backspace Hlen'.
  rewrite (proj2 (Z.eqb_neq (strlen f + 1) 0)); [lia|]. rewrite (proj2 (Z.leb_gt 128 _)); [lia|].
  rewrite (proj2 (Z.ltb_ge cnt 0)); [lia|]. rewrite (proj2 (Z.eqb_neq cnt 0)); [lia|]. cbn [orb].
  by rewrite !(bind_ok _ _ _ _ _ Hl).
Qed.

(** Going up from the root ends the path: cd of a path that starts with
    two dots stays in the root and succeeds, whatever follows, even when it
    names no folder. *)
Lemma fs_cd_above_root (K : string → Prop) s fuel rest :
  Inv K s → current_dir s = root → no_nul rest → strlen rest < 509 →
  wp (fs_cd fuel ("../" +:+ rest)) s (λ r s' _,
    r = 0 ∧ abs s' = abs s ∧ current_dir s' = root ∧ current_path s' = "/").
Proof.
  intros HI Hcwd Hnul Hlen. pose proof HI as (own&L&Hinv).
  destruct (inv_root _ _ _ _ Hinv) as [d Hd].
  assert (Hp : a_parent (abs_dir (data s) d) = 0).
  { by apply (dk_root _ _ _ _ _ _ (inv_dirs _ _ _ _ Hinv _ _ Hd)). }
  assert (Hres : resolve (abs s) (current_dir s) ("../" +:+ rest) = Some root).
  { rewrite Hcwd. change (resolve_parts (abs s) root (".." :: split_slash rest) = Some root).
    cbn [resolve_parts]. rewrite bool_decide_false; [by intros [?|?]|].
    rewrite (abs_at _ _ _ Hd). cbn [mbind option_bind]. by rewrite bool_decide_true // Hp. }
  assert (Hroot : tree_path (abs s) 0 root "/") by by eapply tree_path_root, abs_at.
  eapply wp_mono.
  { apply (fs_cd_ok K); [done|by split_and!| |].
    { rewrite /strlen in Hlen |- *.
      change (String.length ("../" +:+ rest)) with (S (S (S (String.length rest)))). lia. }
    intros q k out Hq Hpath. rewrite Hres in Hq. injection Hq as <-.
    destruct (tree_path_fun _ _ _ _ Hroot _ _ Hpath) as [-> ->]. split; [lia|done]. }
  intros r s' o (_&Habs&Hpost). rewrite /cd_post Hres in Hpost. destruct Hpost as (->&Hc&k&Hpath).
  by destruct (tree_path_fun _ _ _ _ Hroot _ _ Hpath) as [_ ->].
Qed.
End spec.


(** A file system just initialised: the empty root folder alone. *)
Lemma fresh_inv {A D} `{!Alloc.Allocator A} K (s : fs A D) :
  Alloc.live (heap s) ∅ → dirs s = {[root := new_foder "/" RAMFS_FOLDER_TYPE_MEM 0 0 0]} →
  current_dir s = root → current_path s = "/" → inv K ∅ ∅ s.
Proof.
  intros Hlive Hdirs Hcwd Hpwd. split.
  - done.
  - set_solver.
  - by rewrite Hdirs lookup_singleton_eq.
  - rewrite Hdirs. intros p d [<- <-]%lookup_singleton_Some.
    destruct (HashTable.init_wf (V:=ramfs_foder_info)) as (?&Hc1&Ha1).
    destruct (HashTable.init_wf (V:=ramfs_file_info)) as (?&Hc2&Ha2).
    split; simpl; rewrite /ramfs_hashmap_init /ramfs_file_hashmap_init ?Hc1 ?Hc2 ?Ha1 ?Ha2; try done.
  - by rewrite Hdirs Hcwd lookup_singleton_eq.
  - rewrite Hdirs. intros p d [<- <-]%lookup_singleton_Some. exists 0%nat, "/". by eapply path_root, lookup_singleton_eq.
  - exists 0%nat. rewrite Hdirs Hcwd Hpwd. by eapply path_root, lookup_singleton_eq.
Qed.

(** * The properties at concrete states

    A booted kernel: the heap after [malloc_init], [pwd] in the environment,
    the root folder empty. *)

Section demo.
Import EnvVar.

Definition demo_kernel : kernel Heap.state :=
  match env_set "pwd" "/" (Kernel Heap.demo None None) with Ok (_, k, _) => k | _ => Kernel Heap.demo None None end.
Definition demo : fs (kernel Heap.state) Drive.medium :=
  Fs demo_kernel {[root := new_foder "/" RAMFS_FOLDER_TYPE_MEM 0 0 0]} ∅ Partition.demo [] 0 0 0 root "/".

(** The file names of the examples. *)
Definition demo_names (k : string) : Prop := k = "notes" ∨ k = "todo".
Lemma demo_names_distinguishable a b : demo_names a → demo_names b → dominates a b → a = b.
Proof. intros [-> | ->] [-> | ->] Hd; try done; apply _file_streq_spec in Hd; done. Qed.

Lemma demo_kernel_live : Alloc.live demo_kernel ∅.
Proof.
  assert (Hl : Alloc.live Heap.demo (set_map (λ a, a + 8) (∅ : gset Z))).
  { exists 2097152, [2097152], ∅. split_and!; [done|exact Heap.demo_wf|done]. }
  assert (Hrun : ∃ o, env_set "pwd" "/" (Kernel Heap.demo None None) = Ok (tt, demo_kernel, o)).
  { eexists. vm_compute. reflexivity. }
  revert Hrun. generalize demo_kernel as k. intros k [o Hrun].
  destruct (env_set_first (Kernel Heap.demo None None) k "pwd" "/" _ o eq_refl eq_refl Hl Hrun) as (Hok&Hv&L&HL). split.
  - split; [done|]. rewrite Hv. exists "/". vm_compute. reflexivity.
  - clear Hrun Hl. exists L. rewrite union_empty_l_L. split; [exact HL|]. apply disjoint_empty_l.
Qed.
Lemma boot_inv : inv demo_names ∅ ∅ demo.
Proof.
  apply fresh_inv; [|done..]. apply demo_kernel_live.
Qed.

Lemma boot_Inv : Inv demo_names demo.
Proof. exists ∅, ∅. exact boot_inv. Qed.


(** After touch, and after a write. *)
Definition demo_file : fs (kernel Heap.state) Drive.medium :=
  match fs_touch "notes" None demo with Ok (_, s, _) => s | _ => demo end.
Definition demo_written : fs (kernel Heap.state) Drive.medium :=
  match fs_write "notes" [72; 105] None demo_file with Ok (_, s, _) => s | _ => demo end.

Lemma demo_K : HashTable.distinguishable (V:=ramfs_file_info) demo_names.
Proof. intros a b Ha Hb Hab. apply demo_names_distinguishable; [done..|]. by apply _file_streq_spec. Qed.

Lemma demo_file_Inv : Inv demo_names demo_file.
Proof.
  assert (Hn : no_nul "notes") by by split_and!. assert (Hb : demo_names (base_name "notes")) by by left.
  pose proof (fs_touch_ok demo_names demo_K demo "notes" None boot_Inv Hn I Hb) as Hwp.
  assert (Hrun : fs_touch "notes" None demo = Ok (0, demo_file, [])) by (vm_compute; reflexivity).
  revert Hrun Hwp. generalize demo_file as s. intros s Hrun Hwp.
  destruct (wp_known _ _ _ _ _ _ Hwp Hrun) as [HI _]. exact HI.
Qed.

Lemma demo_written_Inv : Inv demo_names demo_written.
Proof.
  assert (Hn : demo_names "notes") by by left. assert (Hl : Z.of_nat (length [72; 105]) ≤ 4294967288) by done.
  pose proof (fs_write_ok demo_names demo_K demo_file "notes" [72; 105] None demo_file_Inv I Hn Hl) as Hwp.
  assert (Hrun : fs_write "notes" [72; 105] None demo_file = Ok (0, demo_written, []))
    by (vm_compute; reflexivity).
  revert Hrun Hwp. generalize demo_written as s'. intros s' Hrun Hwp.
  destruct (wp_known _ _ _ _ _ _ Hwp Hrun ltac:(discriminate)) as [HI _]. exact HI.
Qed.

Lemma demo_file_facts :
  dom (dirs demo_file) = {[root]} ∧ is_Some (dirs demo_file !! root) ∧ current_path demo_file = "/" ∧ current_dir demo_file = root ∧
  ∃ a, abs demo_file !! current_dir demo_file = Some a ∧ is_Some (a_files a !! "notes").
Proof.
  split; [vm_compute; reflexivity|]. split; [eexists; vm_compute; reflexivity|].
  split; [vm_compute; reflexivity|]. split; [vm_compute; reflexivity|].
  eexists. split; [vm_compute; reflexivity|]. eexists. vm_compute. reflexivity.
Qed.

Lemma demo_written_facts :
  ∃ d info, dirs demo_written !! current_dir demo_written = Some d ∧
    HashTable.contents (file_map d) !! "notes" = Some info ∧ fi_ptr info ≠ 0.
Proof.
  eexists _, _. split; [vm_compute; reflexivity|]. split; [vm_compute; reflexivity|]. vm_compute. discriminate.
Qed.

#[local] Opaque demo_file demo_written.

Lemma ramfs_refines_witness :
  wp (exec_all 10 [Mkdir "todo"; Touch "notes"; Write "notes" [72; 105]; Cat "notes"; Rmdir "todo"]) demo
    (λ rs _ _, spec_run [Mkdir "todo"; Touch "notes"; Write "notes" [72; 105]; Cat "notes"; Rmdir "todo"]
       (astate demo) rs).
Proof.
  apply (ramfs_refines demo_names); [exact demo_names_distinguishable|exact boot_Inv|].
  split; [split; [by split_and!|by right]|]. intros ? ? _.
  split; [split_and!; [by split_and!|done|by left]|]. intros ? ? _.
  split; [split; [by left|done]|]. intros ? ? _. split; [by left|]. intros ? ? _. by split.
Defined.

Lemma fs_cd_pwd_returns_witness :
  wp (fs_cd 5 (current_path demo_file)) demo_file (λ r s' _,
    r = 0 ∧ Inv demo_names s' ∧ abs s' = abs demo_file ∧ current_dir s' = current_dir demo_file ∧
    current_path s' = current_path demo_file).
Proof.
  destruct demo_file_facts as (Hd&[d Hroot]&Hpath&Hcwd&_).
  apply (fs_cd_pwd_returns demo_names).
  - exact demo_file_Inv.
  - intros q d' Hq Hqd. apply elem_of_dom_2 in Hqd. rewrite Hd in Hqd. apply elem_of_singleton in Hqd. contradiction.
  - rewrite Hpath. split; [discriminate|exact I].
  - rewrite Hpath. reflexivity.
  - rewrite Hpath Hcwd. intros q k out [= <-] Hp.
    assert (Hr : tree_path (abs demo_file) 0 root "/") by (eapply tree_path_root, abs_at; exact Hroot).
    destruct (tree_path_fun _ _ _ _ Hr _ _ Hp) as [-> ->]. split; [lia|reflexivity].
Defined.

Lemma fs_write_cat_witness :
  wp (fs_write "notes" [72; 105] None) demo_file (λ w s' _, w = -4 ∨
    (w = 0 ∧ fs_cat "notes" None s' = Ok (0, s', (λ b, Printf "%c" [AChr b]) <$> [72; 105]))).
Proof.
  destruct demo_file_facts as (_&_&_&_&a&Ha&Hf).
  apply (fs_write_cat demo_names) with a;
    [exact demo_names_distinguishable|exact demo_file_Inv|left; reflexivity|discriminate|exact Ha|exact Hf].
Defined.

Lemma fs_mkdir_rmdir_witness :
  wp (fs_mkdir "todo" None) demo (λ r s' _, r = 0 →
    wp (fs_rmdir "todo" None) s' (λ r' s'' _, r' = 0 ∧ Inv demo_names s'' ∧ abs s'' = abs demo)).
Proof.
  apply (fs_mkdir_rmdir demo_names); [exact demo_names_distinguishable|exact boot_Inv|by split_and!|by right].
Defined.


Lemma root_path_rejected_witness :
  fs_touch ("/" +:+ "notes") None demo_file = Ok (-2, demo_file, []) ∧
  fs_rm ("/" +:+ "notes") None demo_file = Ok (-2, demo_file, []) ∧
  fs_backspace ("/" +:+ "notes") 1 None demo_file = Ok (-2, demo_file, []).
Proof.
  apply (root_path_rejected demo_file "notes" 1); [done|by split_and!|by split_and!|done| |done].
  destruct demo_file_facts as (_&_&_&->&_). discriminate.
Defined.

Lemma fs_cd_above_root_witness :
  wp (fs_cd 3 ("../" +:+ "nowhere")) demo (λ r s' _,
    r = 0 ∧ abs s' = abs demo ∧ current_dir s' = root ∧ current_path s' = "/").
Proof. apply (fs_cd_above_root demo_names demo 3 "nowhere"); [exact boot_Inv|done|by split_and!|done]. Defined.

End demo.

End RamfsSpec.
