(* ===== verification/Dfs.v ===== *)
(** kernel/src/dfs.c: the disk file system, apart from what [DfsLoad] holds.

    A mount point is the address of its slot of [mount_table]. The static
    variables of [dfs_alloc_file_blocks] are the fields [last_byte_off] and
    [byte_val] of the state. The walks over folder trees take fuel for the
    depth, the scan for a free slot of a folder fuel for the slots.

    No transfer of more than 256 bytes reaches the disk, and the superblock
    has 536: the properties show that no partition is ever formatted or
    mounted, so that the file system above stays one in memory. *)
From S2P Require Import Prelude.
From S2P Require Import Allocator.
From S2P Require Import CString.
From S2P Require Import RamfsTypes.
From S2P Require Import HashTable.
From S2P Require Import RamfsHash.
From S2P Require Import RamfsHashFile.
From S2P Require Import Numbers.
From S2P Require Import Printf.
From S2P Require Import Printable.
From S2P Require Import Bytes.
From S2P Require Import Drive.
From S2P Require Import Partition.
From S2P Require Import FsState.
From S2P Require Import DfsLoad.
From S2P Require Import Ramfs.
From S2P Require Import RamfsApi.
From S2P Require Import RamfsInv.
From S2P Require Import Malloc.
From S2P Require Import EnvVar.
From S2P Require Import RamfsSpec.
Import CString RamfsTypes RamfsHash RamfsHashFile Bytes FsState DfsLoad Ramfs.
#[local] Open Scope general_if_scope.

Module Dfs.

Definition DFS_MAGIC : Z := 1145459456.
Definition DFS_BLOCK_SIZE : Z := 1024.
Definition DFS_MAX_FOLDERS : Z := 4096.

(** * What is on the disk *)

Record dfs_superblock : Type := Superblock {
  magic : Z;
  total_folders : Z;
  cur_folders : Z;
  root_pointer : Z;
  bitmap_start : Z;
  data_start : Z;
  sb_block_count : Z
}.
Definition sizeof_superblock : Z := 7 * 4 + 508.

Definition superblock_bytes (sb : dfs_superblock) : list Z :=
  le_bytes 4 (magic sb) ++ le_bytes 4 (total_folders sb) ++ le_bytes 4 (cur_folders sb) ++
  le_bytes 4 (root_pointer sb) ++ le_bytes 4 (bitmap_start sb) ++ le_bytes 4 (data_start sb) ++
  le_bytes 4 (sb_block_count sb) ++ zeros 508.
Definition superblock_at (l : list Z) : dfs_superblock :=
  Superblock (load32 0 l) (load32 4 l) (load32 8 l) (load32 12 l) (load32 16 l) (load32 20 l) (load32 24 l).

(** A [char[128]] field; the rest of the structure is zero from [memset]. *)
Definition name_field (name : string) : list Z := take 128 (RamfsApi.bytes_of name ++ zeros 128).
Definition subfolder_bytes (e : string * Z) : list Z := name_field (fst e) ++ le_bytes 4 (snd e).
Definition file_bytes (e : string * Z * Z) : list Z :=
  name_field (fst (fst e)) ++ le_bytes 8 (snd (fst e)) ++ le_bytes 4 (snd e).
Definition folder_bytes (name : string) (used : Z) (subfolders : list (string * Z)) (files : list (string * Z * Z)) :
    list Z :=
  name_field name ++ le_bytes 4 used ++ le_bytes 4 (Z.of_nat (length subfolders)) ++
  le_bytes 4 (Z.of_nat (length files)) ++
  concat (subfolder_bytes <$> subfolders) ++ zeros ((128 - length subfolders) * 132) ++
  concat (file_bytes <$> files) ++ zeros ((128 - length files) * 140).

(** The entries a folder in memory has on the disk: the first 128 of each
    table, bucket by bucket. *)
Definition disk_subfolders (d : ramfs_foder) : list (string * Z) :=
  (λ n, (di_name (n_value n), di_drive_addr (n_value n))) <$> take 128 (concat (buckets (foder_map d))).
Definition disk_files (d : ramfs_foder) : list (string * Z * Z) :=
  (λ n, (fi_name (n_value n), fi_length (n_value n), fi_drive_addr (n_value n))) <$>
    take 128 (concat (buckets (file_map d))).

Section ops.
Context {A D : Type} `{!Alloc.Allocator A, !Services A, !Drive.Hba D}.
Abbreviation fs := (fs A D).

Definition dfs_get_partition_size (drive part : Z) : M fs Z :=
  n ← on_parts (Partition.partition_get_sector_count drive part); mret (u64 (n * 512)).

(** * Folders *)

Fixpoint load_sub_entries (n : nat) (dir : Z) (disk_f : list Z) (i : Z) : M fs Z :=
  match n with
  | O => mret 0
  | S n =>
      '(sub_name, drive_addr) ← unwrap (subfolder_at disk_f i);
      sub ← on_heap (Alloc.malloc sizeof_foder);
      if sub =? 0 then mret (-3)
      else
        store_dir sub (new_foder sub_name RAMFS_FOLDER_TYPE_DISK_CLEAN 0 0 drive_addr);;
        d ← load_dir dir;
        '(_, m) ← on_heap (ramfs_hashmap_insert (foder_map d) sub_name
          (FoderInfo sub_name RAMFS_FOLDER_TYPE_DISK_CLEAN sub drive_addr));
        store_dir dir (set_foder_map m d);;
        load_sub_entries n dir disk_f (i + 1)
  end.
Fixpoint load_file_entries (n : nat) (dir : Z) (disk_f : list Z) (i : Z) : M fs Z :=
  match n with
  | O => mret 0
  | S n =>
      '(file_name, length, drive_addr) ← unwrap (file_at disk_f i);
      d ← load_dir dir;
      '(_, m) ← on_heap (ramfs_file_hashmap_insert (file_map d) file_name
        (FileInfo file_name 0 length 0 drive_addr));
      store_dir dir (set_file_map m d);;
      load_file_entries n dir disk_f (i + 1)
  end.

(** The fields of a folder that loading it from the disk assigns. *)
Definition loaded (name : string) (drive_addr : Z) (d : ramfs_foder) : ramfs_foder :=
  Foder name RAMFS_FOLDER_TYPE_DISK_CLEAN ramfs_hashmap_init ramfs_file_hashmap_init (fo_mount d) (fo_parent d)
    drive_addr false.

Definition dfs_load_folder_from_disk (mem_folder drive part disk_offset : Z) : M fs Z :=
  '(r, disk_f) ← dfs_read_partition drive part (u32 disk_offset) sizeof_disk_folder;
  if negb (r =? 0) then mret (-1)
  else if load32 off_used disk_f =? 0 then mret (-2)
  else
    d ← load_dir mem_folder;
    if negb (fits (string_at 0 disk_f)) then fault else
    store_dir mem_folder (loaded (string_at 0 disk_f) (u32 disk_offset) d);;
    r ← load_sub_entries (Z.to_nat (load32 off_subfolder_cnt disk_f)) mem_folder disk_f 0;
    if negb (r =? 0) then mret r
    else load_file_entries (Z.to_nat (load32 off_file_cnt disk_f)) mem_folder disk_f 0.

Definition dfs_save_folder_to_disk (mem_folder drive part : Z) : M fs Z :=
  d ← load_dir mem_folder;
  dfs_write_partition drive part (u32 (fo_drive_addr d))
    (folder_bytes (fo_name d) 1 (disk_subfolders d) (disk_files d)) sizeof_disk_folder.

(** * Blocks *)

Definition dfs_read_superblock (mp : Z) : M fs (Z * dfs_superblock) :=
  m ← load_mount mp;
  '(r, l) ← on_parts (Partition.partition_read (partition_drive m) (partition_index m) 0 sizeof_superblock);
  mret (r, superblock_at l).
Definition read_bitmap_byte (mp byte_offset : Z) : M fs (Z * Z) :=
  m ← load_mount mp;
  '(r, l) ← on_parts (Partition.partition_read (partition_drive m) (partition_index m) (u32 byte_offset) 1);
  mret (r, default 0 (l !! 0%nat)).
Definition write_bitmap_byte (mp byte_offset byte : Z) : M fs Z :=
  m ← load_mount mp;
  on_parts (Partition.partition_write (partition_drive m) (partition_index m) (u32 byte_offset) 1 (Some [byte])).

(** The scan of the bitmap from block [i] on: the start and the length of
    the run of free blocks it stops at, or [None] on a failed read. *)
Fixpoint scan_bitmap (n : nat) (mp bitmap_base blocks_needed i start_block consecutive : Z) :
    M fs (option (Z * Z)) :=
  match n with
  | O => mret (Some (start_block, consecutive))
  | S n =>
      let byte_off := u32 (bitmap_base + i / 8) in
      s ← get;
      ok ← (if byte_off =? last_byte_off s then mret true
            else
              '(r, b) ← read_bitmap_byte mp byte_off;
              if r =? 0 then modify (set_cache byte_off b);; mret true else mret false);
      if negb (ok : bool) then mret None
      else
        s ← get;
        if Z.land (byte_val s) (Z.shiftl 1 (i mod 8)) =? 0 then
          let start_block := if consecutive =? 0 then i else start_block in
          if consecutive + 1 =? blocks_needed then mret (Some (start_block, consecutive + 1))
          else scan_bitmap n mp bitmap_base blocks_needed (i + 1) start_block (consecutive + 1)
        else scan_bitmap n mp bitmap_base blocks_needed (i + 1) start_block 0
  end.

(** Setting the bits of [n] blocks. *)
Fixpoint mark_blocks (n : nat) (mp bitmap_base block : Z) : M fs bool :=
  match n with
  | O => mret true
  | S n =>
      let byte_off := u32 (bitmap_base + block / 8) in
      '(r, b) ← read_bitmap_byte mp byte_off;
      if negb (r =? 0) then mret false
      else
        r ← write_bitmap_byte mp byte_off (Z.lor b (Z.shiftl 1 (block mod 8)));
        if negb (r =? 0) then mret false else mark_blocks n mp bitmap_base (block + 1)
  end.

Definition dfs_alloc_file_blocks (mp size : Z) : M fs Z :=
  '(r, sb) ← dfs_read_superblock mp;
  if negb (r =? 0) then mret 0
  else
    let blocks_needed := u64 (size + DFS_BLOCK_SIZE - 1) / DFS_BLOCK_SIZE in
    let total_blocks := sb_block_count sb in
    if (blocks_needed =? 0) || (total_blocks <? blocks_needed) then mret 0
    else
      found ← scan_bitmap (Z.to_nat total_blocks) mp (bitmap_start sb) blocks_needed 0 0 0;
      match found with
      | None => mret 0
      | Some (start_block, consecutive) =>
          if consecutive <? blocks_needed then mret 0
          else
            ok ← mark_blocks (Z.to_nat blocks_needed) mp (bitmap_start sb) start_block;
            if (ok : bool) then mret (u32 (data_start sb + start_block * DFS_BLOCK_SIZE)) else mret 0
      end.

(** Clearing the bits of [n] blocks; a failed read goes on to the next. *)
Fixpoint clear_blocks (n : nat) (mp bitmap_base total_blocks block : Z) : M fs unit :=
  match n with
  | O => mret tt
  | S n =>
      if total_blocks <=? block then mret tt
      else
        let byte_off := u32 (bitmap_base + block / 8) in
        '(r, b) ← read_bitmap_byte mp byte_off;
        (if r =? 0 then
           write_bitmap_byte mp byte_off (Z.land b (255 - Z.shiftl 1 (block mod 8)));; mret tt
         else mret tt);;
        clear_blocks n mp bitmap_base total_blocks (block + 1)
  end.

Definition dfs_free_file_blocks (mp start_addr size : Z) : M fs unit :=
  '(r, sb) ← dfs_read_superblock mp;
  if negb (r =? 0) then mret tt
  else if u32 start_addr <? data_start sb then mret tt
  else
    clear_blocks (Z.to_nat (u64 (size + DFS_BLOCK_SIZE - 1) / DFS_BLOCK_SIZE)) mp (bitmap_start sb)
      (sb_block_count sb) ((u32 start_addr - data_start sb) / DFS_BLOCK_SIZE).

(** * Writing back *)

Definition set_fi_drive_addr (a : Z) (f : ramfs_file_info) : ramfs_file_info :=
  FileInfo (fi_name f) (fi_type f) (fi_length f) (fi_ptr f) a.
Definition set_fi_type (t : Z) (f : ramfs_file_info) : ramfs_file_info :=
  FileInfo (fi_name f) t (fi_length f) (fi_ptr f) (fi_drive_addr f).
Definition set_fi_ptr (p : Z) (f : ramfs_file_info) : ramfs_file_info :=
  FileInfo (fi_name f) (fi_type f) (fi_length f) p (fi_drive_addr f).

(** The result, and the entry as the function leaves it. *)
Definition dfs_sync_file (finfo : ramfs_file_info) (mp : Z) : M fs (Z * ramfs_file_info) :=
  if mp =? 0 then mret (-1, finfo)
  else if (fi_length finfo =? 0) || (fi_type finfo =? RAMFS_FOLDER_TYPE_DISK_CLEAN) then mret (0, finfo)
  else
    new_addr ← (if (fi_type finfo =? RAMFS_TYPE_DIRTY) && negb (fi_drive_addr finfo =? 0) then
                  dfs_free_file_blocks mp (u32 (fi_drive_addr finfo)) (u64 (fi_length finfo));; mret 0
                else mret (u32 (fi_drive_addr finfo)));
    a ← (if new_addr =? 0 then dfs_alloc_file_blocks mp (u64 (fi_length finfo)) else mret new_addr);
    if a =? 0 then mret (-2, finfo)
    else
      let finfo := if new_addr =? 0 then set_fi_drive_addr (s32 a) finfo else finfo in
      m ← load_mount mp;
      s ← get;
      r ← on_parts (Partition.partition_write (partition_drive m) (partition_index m) a (s32 (fi_length finfo))
        (if fi_ptr finfo =? 0 then None else Some (default [] (data s !! fi_ptr finfo))));
      if negb (r =? 0) then mret (-3, finfo)
      else mret (0, set_fi_type RAMFS_FOLDER_TYPE_DISK_CLEAN finfo).

Fixpoint scan_slots (fuel : nat) (mp offset folder_end : Z) : M fs Z :=
  match fuel with
  | O => nofuel
  | S fuel =>
      if u32 (offset + sizeof_disk_folder) <=? folder_end then
        m ← load_mount mp;
        '(r, disk_f) ← on_parts (Partition.partition_read (partition_drive m) (partition_index m) offset
          sizeof_disk_folder);
        if (r =? 0) && (load32 off_used disk_f =? 0) then mret offset
        else scan_slots fuel mp (u32 (offset + sizeof_disk_folder)) folder_end
      else mret 0
  end.
Definition dfs_alloc_folder_slot (fuel : nat) (mp : Z) : M fs Z :=
  if mp =? 0 then mret 0
  else
    '(r, sb) ← dfs_read_superblock mp;
    if negb (r =? 0) then mret 0 else scan_slots fuel mp (root_pointer sb) (bitmap_start sb).

(** The mount point [dfs_sync_folder] takes for a folder, 0 for none. *)
Definition sync_mount (folder : Z) (d : ramfs_foder) (s : fs) : Z :=
  match list_find (λ m, root_dir m = folder ∨ fo_is_mount_root d = true)
          (take (Z.to_nat (mount_count s)) (mount_table s)) with
  | Some (i, _) => mount_addr (Z.of_nat i)
  | None => 0
  end.

Definition sync_node (mp : Z) (n : node ramfs_file_info) : M fs (node ramfs_file_info) :=
  if (fi_type (n_value n) =? RAMFS_TYPE_NEW) || (fi_type (n_value n) =? RAMFS_TYPE_DIRTY) then
    '(_, f) ← dfs_sync_file (n_value n) mp; mret (Node (n_addr n) (n_key n) f)
  else mret n.

Fixpoint dfs_sync_folder (fuel : nat) (folder : Z) : M fs Z :=
  match fuel with
  | O => nofuel
  | S fuel =>
      if folder =? 0 then mret 0
      else
        d ← load_dir folder;
        if fo_type d =? RAMFS_FOLDER_TYPE_MEM then mret 0
        else
          s ← get;
          let mp := sync_mount folder d s in
          if mp =? 0 then mret (-1)
          else if (fo_type d =? RAMFS_FOLDER_TYPE_DIRTY) || (fo_type d =? RAMFS_FOLDER_TYPE_NEW) then
            a ← (if (fo_type d =? RAMFS_FOLDER_TYPE_NEW) && (fo_drive_addr d =? 0)
                 then dfs_alloc_folder_slot (S fuel) mp else mret (fo_drive_addr d));
            if (fo_type d =? RAMFS_FOLDER_TYPE_NEW) && (a =? 0) then mret (-2)
            else
              store_dir folder (set_fo_drive_addr a d);;
              mapM (λ n, sub ← load_dir (di_ptr (n_value n));
                if (fo_type sub =? RAMFS_FOLDER_TYPE_NEW) || (fo_type sub =? RAMFS_FOLDER_TYPE_DIRTY)
                then dfs_sync_folder fuel (di_ptr (n_value n)) else mret 0)
                (concat (buckets (foder_map d)));;
              d ← load_dir folder;
              fm ← mapM (mapM (sync_node mp)) (buckets (file_map d));
              store_dir folder (set_file_map (HashMap fm (count (file_map d))) d);;
              m ← load_mount mp;
              r ← dfs_save_folder_to_disk folder (partition_drive m) (partition_index m);
              (if r =? 0 then d ← load_dir folder; store_dir folder (set_fo_type RAMFS_FOLDER_TYPE_DISK_CLEAN d)
               else mret tt);;
              mret 0
          else mret 0
  end.

Fixpoint sync_roots (fuel : nat) (ms : list dfs_mount_point) : M fs unit :=
  match ms with
  | [] => mret tt
  | m :: ms => dfs_sync_folder fuel (root_dir m);; sync_roots fuel ms
  end.
Definition dfs_sync_all (fuel : nat) : M fs unit :=
  s ← get; sync_roots fuel (take (Z.to_nat (mount_count s)) (mount_table s)).

(** * Mounting *)

Definition is_directory_empty (dir : Z) : M fs bool :=
  if dir =? 0 then mret false
  else d ← load_dir dir; mret ((count (foder_map d) =? 0) && (count (file_map d) =? 0)).

(** The text after the last slash. *)
Definition last_name (path : string) : string :=
  match strrchr path slash with Some (_, name) => name | None => path end.

(** [mount_table[mount_count] = m; mount_count++]: there is no test for a
    free slot, and the array ends after eight. *)
Definition push_mount (m : dfs_mount_point) : M fs unit :=
  s ← get;
  if MAX_MOUNTS <=? mount_count s then fault
  else
    let n := Z.to_nat (mount_count s) in
    modify (λ s, set_mounts (take n (mount_table s) ++ m :: drop (S n) (mount_table s)) (mount_count s + 1) s).

Definition dfs_mount (mountpoint : string) (drive part : Z) : M fs Z :=
  mount_parent ← ramfs_get_dir_by_abs_path mountpoint;
  if mount_parent =? 0 then mret (-1)
  else
    empty ← is_directory_empty mount_parent;
    if negb empty then mret (-2)
    else
      '(r, l) ← dfs_read_partition drive part 0 sizeof_superblock;
      if negb (r =? 0) then mret (-3)
      else
        let sb := superblock_at l in
        if negb (magic sb =? DFS_MAGIC) then mret (-4)
        else
          root_dir ← on_heap (Alloc.malloc sizeof_foder);
          if root_dir =? 0 then mret (-5)
          else
            store_dir root_dir (new_foder EmptyString 0 0 0 0);;
            r ← dfs_load_folder_from_disk root_dir drive part (root_pointer sb);
            if negb (r =? 0) then free_dir root_dir;; mret (-6)
            else
              s ← get;
              d ← load_dir root_dir;
              store_dir root_dir (Foder (fo_name d) (fo_type d) (foder_map d) (file_map d)
                (mount_addr (mount_count s)) (fo_parent d) (fo_drive_addr d) true);;
              let last := last_name mountpoint in
              if 128 <=? strlen last then fault
              else
                p ← load_dir mount_parent;
                '(r, m) ← on_heap (ramfs_hashmap_insert (foder_map p) last
                  (FoderInfo last RAMFS_FOLDER_TYPE_DISK_CLEAN root_dir (s32 (root_pointer sb))));
                if r =? 0 then free_dir root_dir;; mret (-7)
                else
                  store_dir mount_parent (set_foder_map m p);;
                  if 256 <=? strlen mountpoint then fault
                  else push_mount (MountPoint mountpoint drive part root_dir);; mret 0.

(** Freeing the data of the files of a chain, in order. *)
Fixpoint free_file_data (ns : list (node ramfs_file_info)) : M fs unit :=
  match ns with
  | [] => mret tt
  | n :: ns =>
      (if fi_ptr (n_value n) =? 0 then mret tt else free_data (fi_ptr (n_value n)));;
      free_file_data ns
  end.

Fixpoint dfs_free_folder_tree (fuel : nat) (f : Z) : M fs unit :=
  match fuel with
  | O => nofuel
  | S fuel =>
      if f =? 0 then mret tt
      else
        d ← load_dir f;
        mapM (λ n, dfs_free_folder_tree fuel (di_ptr (n_value n))) (concat (buckets (foder_map d)));;
        free_file_data (concat (buckets (file_map d)));;
        on_heap (ramfs_hashmap_destroy (foder_map d));;
        on_heap (ramfs_file_hashmap_destroy (file_map d));;
        free_dir f
  end.

(** The first mount point with a path. *)
Definition find_mount (mountpoint : string) (s : fs) : option (nat * dfs_mount_point) :=
  list_find (λ m, streq (mp_path m) mountpoint = true) (take (Z.to_nat (mount_count s)) (mount_table s)).

(** The parent path and the name [dfs_umount] derives from a path: with one
    slash, at its start, the copy of [/] has overwritten the name. *)
Definition umount_names (path : string) : string * string :=
  match strrchr path slash with
  | Some (parent, name) => if streq parent EmptyString then ("/", EmptyString) else (parent, name)
  | None => ("/", EmptyString)
  end.

Definition dfs_umount (fuel : nat) (mountpoint : string) : M fs Z :=
  s ← get;
  match find_mount mountpoint s with
  | None => mret (-1)
  | Some (idx, mp) =>
      dfs_sync_folder fuel (root_dir mp);;
      let '(parent_path, name) := umount_names (mp_path mp) in
      parent_dir ← ramfs_get_dir_by_abs_path parent_path;
      (if parent_dir =? 0 then mret tt
       else
         d ← load_dir parent_dir;
         '(_, m) ← on_heap (ramfs_hashmap_delete (foder_map d) name);
         store_dir parent_dir (set_foder_map m d));;
      dfs_free_folder_tree fuel (root_dir mp);;
      modify (λ s,
        let n := Z.to_nat (mount_count s) in
        set_mounts (take idx (mount_table s) ++ drop (S idx) (take n (mount_table s)) ++
          drop (n - 1) (mount_table s)) (mount_count s - 1) s);;
      mret 0
  end.

(** * Loading *)

Definition load_node (drive part : Z) (n : node ramfs_file_info) : M fs (node ramfs_file_info) :=
  let f := n_value n in
  if negb (fi_ptr f =? 0) || (fi_length f <=? 0) then mret n
  else
    p ← on_heap (Alloc.malloc (u32 (fi_length f)));
    if p =? 0 then mret n
    else
      '(r, bs) ← dfs_read_partition drive part (u32 (fi_drive_addr f)) (u32 (fi_length f));
      if r =? 0 then store_data p bs;; mret (Node (n_addr n) (n_key n) (set_fi_ptr p f))
      else on_heap (Alloc.free p);; mret n.

Fixpoint dfs_load_folder_recursive (fuel : nat) (folder drive part : Z) : M fs Z :=
  match fuel with
  | O => nofuel
  | S fuel =>
      if folder =? 0 then mret 0
      else
        d ← load_dir folder;
        fm ← mapM (mapM (load_node drive part)) (buckets (file_map d));
        store_dir folder (set_file_map (HashMap fm (count (file_map d))) d);;
        mapM (λ n, dfs_load_folder_recursive fuel (di_ptr (n_value n)) drive part)
          (concat (buckets (foder_map d)));;
        mret 0
  end.

Definition dfs_load (fuel : nat) (mountpoint relative_path : string) : M fs Z :=
  s ← get;
  match find_mount mountpoint s with
  | None => mret (-1)
  | Some (_, mp) =>
      let full_abs := (if streq mountpoint "/" then mountpoint else mountpoint +:+ "/") +:+ relative_path in
      if 512 <=? strlen full_abs then fault
      else
        target ← ramfs_get_dir_by_abs_path full_abs;
        if target =? 0 then mret (-2)
        else dfs_load_folder_recursive fuel target (partition_drive mp) (partition_index mp)
  end.

(** * Formatting *)

Definition new_superblock (block_count : Z) : dfs_superblock :=
  let root_pointer := sizeof_superblock in
  let bitmap_start := u32 (root_pointer + DFS_MAX_FOLDERS * sizeof_disk_folder) in
  let data_start := Z.land (u32 (u32 (bitmap_start + u32 (block_count + 7) / 8) + 511)) (4294967295 - 511) in
  Superblock DFS_MAGIC DFS_MAX_FOLDERS 1 root_pointer bitmap_start data_start
    (u32 (block_count - data_start / DFS_BLOCK_SIZE)).

Definition dfs_format (drive part : Z) : M fs Z :=
  part_size ← dfs_get_partition_size drive part;
  let block_count := u32 (part_size / DFS_BLOCK_SIZE) in
  if block_count <? 1024 then mret (-1)
  else
    let sb := new_superblock block_count in
    r ← dfs_write_partition drive part 0 (superblock_bytes sb) sizeof_superblock;
    if negb (r =? 0) then mret (-2)
    else
      r ← dfs_write_partition drive part (root_pointer sb) (folder_bytes "/" 1 [] []) sizeof_disk_folder;
      if negb (r =? 0) then mret (-3)
      else
        let bitmap_bytes := u32 (block_count + 7) / 8 in
        zero ← on_heap (Alloc.malloc bitmap_bytes);
        (if zero =? 0 then mret tt
         else
           dfs_write_partition drive part (bitmap_start sb) (zeros (Z.to_nat bitmap_bytes)) bitmap_bytes;;
           on_heap (Alloc.free zero));;
        mret 0.

(** * The mount point of a path *)

(** The mount with the longest path that [memcmp] lets pass for a prefix of
    [abs_path]; [best] is its address, 0 for none. *)
Fixpoint find_best (abs_path : string) (ms : list dfs_mount_point) (i best best_len : Z) : Z :=
  match ms with
  | [] => best
  | m :: ms =>
      let mp := mp_path m in
      let len := strlen mp in
      if (len <=? strlen abs_path) &&
         ((len =? 1) || (Numbers.char_at abs_path (Z.to_nat len) =? 47) || (Numbers.char_at abs_path (Z.to_nat len) =? 0)) &&
         (memcmp abs_path mp (Z.to_nat len) =? 0) && (best_len <? len)
      then find_best abs_path ms (i + 1) (mount_addr i) len
      else find_best abs_path ms (i + 1) best best_len
  end.
Definition dfs_find_mount_point (abs_path : string) : M fs Z :=
  s ← get; mret (find_best abs_path (take (Z.to_nat (mount_count s)) (mount_table s)) 0 0 0).

(** * dfs_api.c *)

Definition letter (d : Z) : string := String (Ascii.ascii_of_N (Z.to_N (97 + d))) EmptyString.

Fixpoint lsblk_parts (d : Z) (dev_name : string) (ps : list Z) : M fs unit :=
  match ps with
  | [] => mret tt
  | p :: ps =>
      sectors ← on_parts (Partition.partition_get_sector_count d p);
      printf ("  `- %s%d %6lluM part" +:+ nl) [AStr dev_name; AInt (p + 1); AInt (u64 (sectors * 512) / 1048576)];;
      lsblk_parts d dev_name ps
  end.
Fixpoint lsblk_drives (ds : list Z) : M fs unit :=
  match ds with
  | [] => mret tt
  | d :: ds =>
      let dev_name := "sd" +:+ letter d in
      s ← get;
      '(_, size) ← unwrap (Drive.drives (Partition.disk (parts s)) !! Z.to_nat d);
      printf ("%-10s %6lluM disk" +:+ nl) [AStr dev_name; AInt (size / 1048576)];;
      part_cnt ← on_parts (Partition.get_partition_count d);
      lsblk_parts d dev_name (seqZ 0 part_cnt);;
      lsblk_drives ds
  end.
Definition fs_lsblk_api (argv : list string) : M fs Z :=
  if (1 <? RamfsApi.argc argv) && (streq (RamfsApi.arg argv 1) "--help" || streq (RamfsApi.arg argv 1) "-h") then
    printf ("lsblk: list block devices (drives and partitions)" +:+ nl) [];; mret 0
  else
    printf ("NAME         SIZE TYPE MOUNTPOINT" +:+ nl) [];;
    s ← get;
    lsblk_drives (seqZ 0 (Drive.drive_count (Partition.disk (parts s))));;
    mret 0.

(** The drive and the partition of a name such as [sda1]. *)
Definition parse_device (dev : string) : M fs (option (Z * Z)) :=
  if negb (Numbers.char_at dev 0 =? 115) || negb (Numbers.char_at dev 1 =? 100) then mret None
  else
    let drive_idx := s8 (Numbers.char_at dev 2) - 97 in
    s ← get;
    if (drive_idx <? 0) || (Drive.drive_count (Partition.disk (parts s)) <=? drive_idx) then mret None
    else
      let part_str := Numbers.drop_chars 3 dev in
      if streq part_str EmptyString then mret None
      else
        let part_idx := s32 (Numbers.atoi part_str 10 - 1) in
        cnt ← on_parts (Partition.get_partition_count drive_idx);
        if (part_idx <? 0) || (cnt <=? part_idx) then mret None else mret (Some (drive_idx, part_idx)).

Definition fs_mount_api (argv : list string) : M fs Z :=
  if negb (RamfsApi.argc argv =? 3) then
    printf ("mount: usage mount DEVICE MOUNTPOINT" +:+ nl) [];;
    printf ("Example: mount sda1 /mnt" +:+ nl) [];;
    mret (-1)
  else if streq (RamfsApi.arg argv 1) "--help" then
    printf ("mount DEVICE MOUNTPOINT - mount a DFS partition" +:+ nl) [];; mret 0
  else
    dev ← parse_device (RamfsApi.arg argv 1);
    match dev with
    | None => printf ("mount: invalid device name. Use sda1, sda2, etc." +:+ nl) [];; mret (-1)
    | Some (drive, part) =>
        ret ← dfs_mount (RamfsApi.arg argv 2) drive part;
        (if ret =? -1 then printf ("mount: mount point does not exist or is not a directory" +:+ nl) []
         else if ret =? -2 then printf ("mount: mount point is not empty" +:+ nl) []
         else if ret =? -3 then printf ("mount: failed to read superblock" +:+ nl) []
         else if ret =? -4 then printf ("mount: not a DFS filesystem (bad magic)" +:+ nl) []
         else if (ret =? -5) || (ret =? -7) then printf ("mount: memory allocation failed" +:+ nl) []
         else if ret =? -6 then printf ("mount: failed to load root directory from disk" +:+ nl) []
         else printf ("mounted %s on %s" +:+ nl) [AStr (RamfsApi.arg argv 1); AStr (RamfsApi.arg argv 2)]);;
        mret (if ret =? 0 then 0 else -1)
    end.

Definition fs_umount_api (fuel : nat) (argv : list string) : M fs Z :=
  if negb (RamfsApi.argc argv =? 2) then printf ("umount: usage umount MOUNTPOINT" +:+ nl) [];; mret (-1)
  else if streq (RamfsApi.arg argv 1) "--help" then
    printf ("umount MOUNTPOINT - unmount a DFS partition" +:+ nl) [];; mret 0
  else
    ret ← dfs_umount fuel (RamfsApi.arg argv 1);
    (if ret =? -1 then printf ("umount: no filesystem mounted on %s" +:+ nl) [AStr (RamfsApi.arg argv 1)]
     else printf ("unmounted %s" +:+ nl) [AStr (RamfsApi.arg argv 1)]);;
    mret (if ret =? 0 then 0 else -1).

Definition fs_mkfs_api (argv : list string) : M fs Z :=
  if negb (RamfsApi.argc argv =? 2) then printf ("mkfs.dfs: usage mkfs.dfs DEVICE" +:+ nl) [];; mret (-1)
  else if streq (RamfsApi.arg argv 1) "--help" then
    printf ("mkfs.dfs DEVICE - format a partition with DFS" +:+ nl) [];; mret 0
  else
    dev ← parse_device (RamfsApi.arg argv 1);
    match dev with
    | None => printf ("mkfs.dfs: invalid device name" +:+ nl) [];; mret (-1)
    | Some (drive, part) =>
        ret ← dfs_format drive part;
        (if ret =? -1 then printf ("mkfs.dfs: partition too small" +:+ nl) []
         else if ret =? -2 then printf ("mkfs.dfs: failed to write superblock" +:+ nl) []
         else if ret =? -3 then printf ("mkfs.dfs: failed to write root directory" +:+ nl) []
         else printf ("mkfs.dfs: formatted %s as DFS" +:+ nl) [AStr (RamfsApi.arg argv 1)]);;
        mret (if ret =? 0 then 0 else -1)
    end.

(** The commands [dfs_init] registers, in its order. *)
Definition dfs_commands : list (string * string * string) :=
  [("lsblk", "List block devices", "fs_lsblk_api");
   ("mount", "Mount a DFS partition", "fs_mount_api");
   ("umount", "Unmount a DFS partition", "fs_umount_api");
   ("mkfs.dfs", "Format a partition with DFS", "fs_mkfs_api")].
Definition dfs_init : M fs unit := RamfsApi.register_all dfs_commands.
End ops.

(** * Nothing reaches the disk *)

Section theory.
Context {A D : Type} `{!Alloc.Allocator A, !Alloc.AllocatorLaws A, !Services A, !RamfsInv.ServicesLaws A}.
Context `{!Drive.Hba D, !Drive.HbaLaws D}.
Implicit Types (s : fs A D).

Lemma set_parts_id s : FsState.set_parts (parts s) s = s.
Proof. by destruct s. Qed.

(** A transfer of more than 256 bytes fails and changes nothing. *)
Lemma big_read s drive part offset size :
  Partition.inv (parts s) → 256 < size < 2147483648 → 0 ≤ offset < 9223372036854775808 →
  dfs_read_partition drive part offset size s = Ok ((-1, []), s, []).
Proof.
  intros Hp Hs Ho. rewrite /dfs_read_partition /on_parts /zoom s32_small; [lia|].
  destruct (Partition.partition_rejects_ok (parts s) drive part offset size None) as [-> _]; [done|lia..|].
  by rewrite set_parts_id.
Qed.
Lemma big_write s drive part offset buf size :
  Partition.inv (parts s) → 256 < size < 2147483648 → 0 ≤ offset < 9223372036854775808 →
  dfs_write_partition drive part offset buf size s = Ok (-1, s, []).
Proof.
  intros Hp Hs Ho. rewrite /dfs_write_partition /on_parts /zoom s32_small; [lia|].
  destruct (Partition.partition_rejects_ok (parts s) drive part offset size (Some buf)) as [_ ->]; [done|lia..|].
  by rewrite set_parts_id.
Qed.

Definition mount_result (t : RamfsInv.tree) (mountpoint : string) : Z :=
  match p ← RamfsInv.resolve t root mountpoint; t !! p with
  | None => -1
  | Some a => if decide (RamfsInv.a_dirs a = ∅ ∧ RamfsInv.a_files a = ∅) then -3 else -2
  end.

Lemma empty_test {V} (m : hashmap V) `{!HashTable.Entry V} :
  HashTable.wf m → (count m =? 0) = bool_decide (HashTable.contents m = ∅).
Proof.
  intros Hm. rewrite HashTable.count_contents //. apply eq_true_iff_eq.
  rewrite Z.eqb_eq bool_decide_eq_true -map_size_empty_iff. lia.
Qed.

Lemma mount_fails K s mountpoint drive part :
  RamfsInv.Inv K s → Partition.inv (parts s) → no_nul mountpoint → strlen mountpoint < 512 →
  dfs_mount mountpoint drive part s = Ok (mount_result (RamfsInv.abs s) mountpoint, s, []).
Proof.
  intros (own&L&Hinv) Hp Hn Hl. rewrite /dfs_mount /mount_result.
  destruct (RamfsInv.get_dir_ok K own L s root mountpoint Hinv (RamfsInv.inv_root _ _ _ _ Hinv) Hn Hl) as [Hrun Hq].
  rewrite (bind_ok _ _ _ _ _ Hrun).
  destruct (RamfsInv.resolve (RamfsInv.abs s) root mountpoint) as [q|]; [|done]. cbn [default mbind option_bind].
  destruct (Hq q eq_refl) as [d Hd]. pose proof (RamfsInv.inv_dirs _ _ _ _ Hinv _ _ Hd) as Hok.
  assert (Hq0 : (q =? 0) = false).
  { apply Z.eqb_neq. by eapply RamfsInv.dir_nonzero. }
  rewrite RamfsInv.lookup_abs Hd. cbn [fmap option_fmap option_map]. rewrite Hq0 /is_directory_empty ?Hq0.
  rewrite (bind_ok _ _ s ((count (foder_map d) =? 0) && (count (file_map d) =? 0)) s).
  { rewrite (bind_ok _ _ _ _ _ (RamfsInv.load_dir_ok _ _ _ Hd)) //. }
  rewrite !empty_test; [apply Hok..|]. rewrite /RamfsInv.abs_dir /=.
  destruct (decide (HashTable.contents (foder_map d) = ∅)) as [He|He].
  - destruct (decide (HashTable.contents (file_map d) = ∅)) as [He'|He'].
    + rewrite !bool_decide_true // decide_True; [by rewrite !fmap_empty_iff|]. cbn [andb negb].
      rewrite (bind_ok _ _ _ _ _ (big_read s drive part 0 sizeof_superblock Hp ltac:(done) ltac:(done))) //.
    + rewrite (bool_decide_false (_ (file_map d) = _)) // andb_false_r decide_False // !fmap_empty_iff. naive_solver.
  - rewrite (bool_decide_false (_ (foder_map d) = _)) // decide_False // !fmap_empty_iff. naive_solver.
Qed.

(** C29: No partition is ever mounted. On any state of the file system,
    [dfs_mount] fails: with -1 when the path names no folder, -2 when the
    folder is not empty, and otherwise with -3, because the superblock has
    536 bytes and the driver refuses transfers of more than 256. Nothing
    changes and no mount is recorded. *)
Theorem dfs_mount_never_succeeds K s mountpoint drive part :
  RamfsInv.Inv K s → Partition.inv (parts s) → no_nul mountpoint → strlen mountpoint < 512 →
  dfs_mount mountpoint drive part s = Ok (mount_result (RamfsInv.abs s) mountpoint, s, []) ∧
  mount_result (RamfsInv.abs s) mountpoint < 0.
Proof.
  intros. split; [by eapply mount_fails|]. rewrite /mount_result. case_match; [case_decide|]; lia.
Qed.

(** The sectors [dfs_format] finds in a partition. *)
Definition sectors_of s (drive part : Z) : Z :=
  if Partition.bad_partition (parts s) drive part then 0
  else from_option Partition.sector_count 0 (Partition.partition_at (parts s) drive part).

Lemma sector_count_ok s drive part :
  Partition.inv (parts s) →
  on_parts (Partition.partition_get_sector_count drive part) s = Ok (sectors_of s drive part, s, []).
Proof.
  intros Hp. rewrite /on_parts /zoom /Partition.partition_get_sector_count /sectors_of.
  rewrite (bind_ok _ _ (parts s) (parts s) (parts s)) //.
  destruct (Partition.bad_partition (parts s) drive part) eqn:Hb; [by rewrite /= set_parts_id|].
  destruct (Partition.good_partition _ _ _ Hb) as (_&_&[pe Hpe]).
  by rewrite Hpe (bind_ok _ _ (parts s) pe (parts s)) //= set_parts_id.
Qed.

Lemma format_fails s drive part : Partition.inv (parts s) →
  dfs_format drive part s =
    Ok (if u32 (u64 (sectors_of s drive part * 512) / 1024) <? 1024 then -1 else -2, s, []).
Proof.
  intros Hp. rewrite /dfs_format /dfs_get_partition_size.
  rewrite (bind_ok _ _ s (u64 (sectors_of s drive part * 512)) s).
  { rewrite (bind_ok _ _ _ _ _ (sector_count_ok s drive part Hp)) //. }
  rewrite /DFS_BLOCK_SIZE. case_match; [done|].
  by rewrite (bind_ok _ _ _ _ _ (big_write s drive part 0 _ sizeof_superblock Hp ltac:(done) ltac:(done))).
Qed.

(** No partition is ever formatted. [dfs_format] fails on every drive
    and partition, with -1 when there are fewer than 1024 blocks (no such
    partition included) and with -2 otherwise, and writes nothing. *)
Lemma dfs_format_never_succeeds s drive part : Partition.inv (parts s) →
  ∃ r, dfs_format drive part s = Ok (r, s, []) ∧ r < 0 ∧
    (r = -1 ↔ u32 (u64 (sectors_of s drive part * 512) / 1024) < 1024).
Proof.
  intros Hp. eexists. split; [by apply format_fails|].
  destruct (Z.ltb_spec (u32 (u64 (sectors_of s drive part * 512) / 1024)) 1024); lia.
Qed.

Lemma count_ok s drive : Partition.inv (parts s) →
  ∃ n, on_parts (Partition.get_partition_count drive) s = Ok (n, s, []).
Proof.
  intros Hp. rewrite /on_parts /zoom /Partition.get_partition_count.
  assert (Hacq : Partition.lock_acquire (parts s) = Ok (tt, Partition.set_lock true (parts s), [])).
  { rewrite /Partition.lock_acquire (bind_ok _ _ (parts s) (parts s) (parts s)) //.
    by rewrite (Partition.inv_lock _ Hp). }
  eexists. rewrite (bind_ok _ _ _ _ _ Hacq). rewrite /mbind /M_bind /get /Partition.lock_release /modify.
  cbn [mret M_ret app]. rewrite (_ : Partition.set_lock false (Partition.set_lock true (parts s)) = parts s).
  { exact (Partition.lock_id _ (Partition.inv_lock _ Hp)). }
  by rewrite set_parts_id.
Qed.

Lemma parse_device_ok dev s : Partition.inv (parts s) → ∃ r, parse_device dev s = Ok (r, s, []).
Proof.
  intros Hp. rewrite /parse_device. case_match; [by eexists|].
  rewrite (bind_ok _ _ s s s) //. case_match; [by eexists|]. case_match; [by eexists|].
  destruct (count_ok s (s8 (Numbers.char_at dev 2) - 97) Hp) as [n Hn]. rewrite (bind_ok _ _ _ _ _ Hn).
  case_match; by eexists.
Qed.

Lemma lsblk_parts_ok s d name ps : Partition.inv (parts s) → 
  wp (lsblk_parts d name ps) s (λ _ s' o, s' = s ∧ (no_nul name ∧ strlen name < 512 → Forall Printable.printable o)).
Proof.
  intros Hp. induction ps as [|p ps IH]; [by split|]. cbn [lsblk_parts].
  eapply wp_bind_ok; [by apply sector_count_ok|]. wp_steps. eapply wp_mono; [exact IH|].
  intros [] s' o [-> Ho]. split; [done|]. intros [Hn Hl]. specialize (Ho (conj Hn Hl)). messages.
Qed.
(** A letter of one of the 32 drives. *)
Lemma letter_ok d : 0 ≤ d < 32 → no_nul ("sd" +:+ letter d) ∧ strlen ("sd" +:+ letter d) < 512.
Proof.
  intros Hd. split; [|done]. split; [done|]. split; [done|]. split; [|done]. intros Hz%(f_equal byte_of). revert Hz.
  rewrite /byte_of Ascii.N_ascii_embedding; [lia|]. rewrite Z2N.id; [lia|]. change (Z.of_N (Ascii.N_of_ascii Ascii.zero)) with 0. lia.
Qed.
Lemma lsblk_drives_ok s ds :
  Partition.inv (parts s) → Forall (λ d, 0 ≤ d < Drive.drive_count (Partition.disk (parts s))) ds →
  wp (lsblk_drives ds) s (λ _ s' o, s' = s ∧
    (Drive.drive_count (Partition.disk (parts s)) ≤ 32 → Forall Printable.printable o)).
Proof.
  intros Hp. induction 1 as [|d ds Hd _ IH]; [by split|]. cbn [lsblk_drives]. wp_steps.
  destruct (lookup_lt_is_Some_2 (Drive.drives (Partition.disk (parts s))) (Z.to_nat d)) as [[port size] Hdr].
  { rewrite /Drive.drive_count in Hd. lia. }
  rewrite Hdr. wp_steps. destruct (count_ok s d Hp) as [n Hn].
  rewrite {1}/wp Hn. apply wp_bind.
  eapply wp_mono; [by apply lsblk_parts_ok|]. intros [] s' o [-> Ho]. eapply wp_mono; [exact IH|].
  intros [] s' o2 [-> Ho2]. split; [done|]. intros H32. specialize (Ho2 H32).
  destruct (letter_ok d) as [Hsn Hsl]; [lia|]. specialize (Ho (conj Hsn Hsl)). messages.
Qed.

(** The commands of dfs_api.c. *)
Inductive disk_command (fuel : nat) : (list string → M (FsState.fs A D) Z) → Prop :=
  | cmd_lsblk : disk_command fuel fs_lsblk_api
  | cmd_mount : disk_command fuel fs_mount_api
  | cmd_umount : disk_command fuel (fs_umount_api fuel)
  | cmd_mkfs : disk_command fuel fs_mkfs_api.

Lemma report_ok (r : Z) (rest : M (FsState.fs A D) unit) s :
  wp rest s (λ _ s' o, s' = s ∧ Forall Printable.printable o) →
  wp (rest;; mret r) s (λ _ s' o, s' = s ∧ Forall Printable.printable o).
Proof.
  intros Hr. apply wp_bind. eapply wp_mono; [exact Hr|]. intros [] s' o [-> Ho]. apply wp_ret. by rewrite app_nil_r.
Qed.
Ltac told := wp_steps; (split; [done|]); intros; messages.

Lemma disk_command_ok K fuel c argv s :
  disk_command fuel c → RamfsInv.Inv K s → Partition.inv (parts s) → mount_count s = 0 →
  Forall (λ a, no_nul a ∧ strlen a < 512) argv →
  wp (c argv) s (λ _ s' o, s' = s ∧ (Drive.table_ok (Partition.disk (parts s)) → Forall Printable.printable o)).
Proof.
  intros Hc HI Hp Hm Hargs.
  assert (Ha : ∀ i, no_nul (RamfsApi.arg argv i) ∧ strlen (RamfsApi.arg argv i) < 512).
  { intros i. rewrite /RamfsApi.arg. destruct (argv !! i) eqn:E; [|done]. by eapply Forall_lookup_1 in Hargs. }
  destruct (Ha 1%nat) as [Hn1 Hl1], (Ha 2%nat) as [Hn2 Hl2].
  assert (Hrep : ∀ m, wp m s (λ (_ : Z) s' o, s' = s ∧ Forall Printable.printable o) →
    wp m s (λ _ s' o, s' = s ∧ (Drive.table_ok (Partition.disk (parts s)) → Forall Printable.printable o))).
  { intros m Hm'. eapply wp_mono; [exact Hm'|]. by intros r s' o [-> Ho]. }
  destruct Hc.
  - rewrite /fs_lsblk_api. case_match; [told|]. wp_steps.
    eapply wp_mono; [apply lsblk_drives_ok; [done|]|].
    { apply Forall_forall. intros d Hd%elem_of_seqZ. lia. }
    intros [] s' o [-> Ho]. wp_steps. split; [done|]. intros Ht%Drive.table_bound. specialize (Ho Ht). messages.
  - rewrite /fs_mount_api. case_match; [told|]. case_match; [told|].
    destruct (parse_device_ok (RamfsApi.arg argv 1) s Hp) as [r Hr].
    eapply wp_bind_ok; [exact Hr|]. destruct r as [[drive part]|]; [|told].
    eapply wp_bind_ok; [eapply mount_fails; [exact HI|exact Hp|done..]|].
    apply Hrep, report_ok. repeat case_match; told.
  - rewrite /fs_umount_api. case_match; [told|]. case_match; [told|].
    assert (Hrun : dfs_umount fuel (RamfsApi.arg argv 1) s = Ok (-1, s, [])).
    { rewrite /dfs_umount (bind_ok _ _ s s s) // /find_mount Hm //. }
    eapply wp_bind_ok; [exact Hrun|]. told.
  - rewrite /fs_mkfs_api. case_match; [told|]. case_match; [told|].
    destruct (parse_device_ok (RamfsApi.arg argv 1) s Hp) as [r Hr].
    eapply wp_bind_ok; [exact Hr|]. destruct r as [[drive part]|]; [|told].
    eapply wp_bind_ok; [by apply format_fails|]. apply Hrep, report_ok. repeat case_match; told.
Qed.

(** C28: The disk commands [lsblk], [mount], [umount] and [mkfs.dfs] run to
    their end on any arguments and change nothing: not the folders, not the
    mount table, not the disk. *)
Theorem disk_commands_change_nothing K fuel c argv s :
  disk_command fuel c → RamfsInv.Inv K s → Partition.inv (parts s) → mount_count s = 0 →
  Forall (λ a, no_nul a ∧ strlen a < 512) argv →
  wp (c argv) s (λ _ s' _, s' = s).
Proof. intros. eapply wp_mono; [by eapply disk_command_ok|]. by intros r s' o [-> _]. Qed.
End theory.

(** * Writing back *)

Section sync.
Context {A D : Type} `{!Alloc.Allocator A, !Drive.Hba D}.
Implicit Types (s : fs A D).

(** The codes for a new file and for a clean folder are the same, so a file
    made since the last synchronisation is taken for one that is on the disk
    already. *)
Lemma new_file_not_synced f mp s : mp ≠ 0 → fi_type f = RAMFS_TYPE_NEW → dfs_sync_file f mp s = Ok ((0, f), s, []).
Proof. intros Hmp Ht. rewrite /dfs_sync_file (proj2 (Z.eqb_neq mp 0)) // Ht orb_true_r //. Qed.

(** The scan trusts the byte it read last; [mark_blocks] does not update
    that copy. So the same free block is found again after it was given
    away. *)
Lemma scan_reads_cache n mp base s :
  last_byte_off s = u32 (base + 0) → Z.land (byte_val s) 1 = 0 →
  scan_bitmap (S n) mp base 1 0 0 0 s = Ok (Some (0, 1), s, []).
Proof.
  intros Hoff Hb. cbn [scan_bitmap]. rewrite (bind_ok _ _ s s s) // Hoff.
  change (0 `div` 8) with 0. rewrite (Z.eqb_refl (u32 _)) (bind_ok (mret true) _ s true s) //. cbn [negb].
  rewrite (bind_ok _ _ s s s) //. change (Z.shiftl 1 (0 mod 8)) with 1. by rewrite Hb.
Qed.

Lemma load_mount_state mp s a s' o : load_mount mp s = Ok (a, s', o) → s' = s.
Proof. rewrite /load_mount (bind_ok _ _ s s s) //. destruct (mount_table s !! _); [by intros [= _ <- _]|done]. Qed.
Lemma mark_keeps_cache n mp base block s :
  match mark_blocks n mp base block s with
  | Ok (_, s', _) => last_byte_off s' = last_byte_off s ∧ byte_val s' = byte_val s
  | _ => True
  end.
Proof.
  revert block s. induction n as [|n IH]; intros block s; [done|]. cbn [mark_blocks].
  rewrite /read_bitmap_byte /write_bitmap_byte /mbind /M_bind.
  destruct (load_mount mp s) as [[[m s1] o1]| |] eqn:Hm; [|done..]. apply load_mount_state in Hm as ->.
  rewrite /on_parts /zoom. destruct (Partition.partition_read _ _ _ _ _) as [[[[r l] p] o]| |]; [|done..].
  cbn [mret M_ret]. destruct (negb (r =? 0)); [done|].
  destruct (load_mount mp _) as [[[m' s2] o2]| |] eqn:Hm'; [|done..]. apply load_mount_state in Hm' as ->.
  destruct (Partition.partition_write _ _ _ _ _ _) as [[[r' p'] o']| |]; [|done..].
  destruct (negb (r' =? 0)); [done|].
  set s3 := FsState.set_parts p' (FsState.set_parts p s). specialize (IH (block + 1) s3).
  by destruct (mark_blocks n mp base (block + 1) s3) as [[[b s4] o4]| |].
Qed.
End sync.

(** * The layout of the disk structures *)

Lemma bytes_of_cons c s : RamfsApi.bytes_of (String c s) = byte_of c :: RamfsApi.bytes_of s.
Proof. done. Qed.
Lemma length_bytes_of s : length (RamfsApi.bytes_of s) = String.length s.
Proof. induction s as [|c s IH]; [done|]. by rewrite bytes_of_cons /= IH. Qed.
Lemma ascii_of_byte c : Ascii.ascii_of_N (Z.to_N (byte_of c)) = c.
Proof. by rewrite /byte_of N2Z.id Ascii.ascii_N_embedding. Qed.
Lemma byte_of_zero c : (byte_of c =? 0) = Ascii.eqb c Ascii.zero.
Proof. by destruct c as [[] [] [] [] [] [] [] []]. Qed.
Lemma cstr_bytes s r : no_nul s → cstr (RamfsApi.bytes_of s ++ 0 :: r) = s.
Proof.
  induction s as [|c s IH]; [done|]. intros [Hc Hs]. rewrite bytes_of_cons. cbn [app cstr].
  rewrite byte_of_zero. destruct (Ascii.eqb_spec c Ascii.zero) as [->|_]; [done|]. by rewrite ascii_of_byte IH.
Qed.

Definition good_name (s : string) : Prop := no_nul s ∧ strlen s ≤ 127.

Lemma good_fits s : good_name s → fits s = true.
Proof. intros [_ Hl]. apply Z.ltb_lt. lia. Qed.
Lemma name_field_ok s : good_name s → ∃ z, name_field s = RamfsApi.bytes_of s ++ 0 :: z.
Proof.
  intros [_ Hl]. rewrite /strlen in Hl. rewrite /name_field take_app_ge ?length_bytes_of; [lia|].
  exists (zeros (127 - String.length s)). f_equal. rewrite /zeros take_replicate.
  rewrite (_ : (_ `min` _)%nat = S (127 - String.length s)); [lia|done].
Qed.
Lemma length_name_field s : length (name_field s) = 128%nat.
Proof. rewrite /name_field length_take length_app length_replicate. lia. Qed.

(** What lies at an offset. *)
Definition at_offset (o : Z) (x l : list Z) : Prop := 0 ≤ o ∧ ∃ r, drop (Z.to_nat o) l = x ++ r.

Lemma at_next o x y l : at_offset o (x ++ y) l → at_offset (o + Z.of_nat (length x)) y l.
Proof.
  intros (Ho&r&Hr). split; [lia|]. exists r. rewrite Z2Nat.inj_add; [lia..|].
  by rewrite -drop_drop Hr Nat2Z.id -app_assoc drop_app_length.
Qed.
Lemma at_head o x y l : at_offset o (x ++ y) l → at_offset o x l.
Proof. intros (Ho&r&Hr). split; [done|]. exists (y ++ r). by rewrite Hr app_assoc. Qed.
Lemma at_start x y : at_offset 0 x (x ++ y).
Proof. split; [done|]. by exists y. Qed.

Lemma read_name o s l : good_name s → at_offset o (name_field s) l → string_at o l = s.
Proof.
  intros Hs (Ho&r&Hr). rewrite /string_at Hr. destruct (name_field_ok s Hs) as [z ->].
  rewrite -app_assoc. apply cstr_bytes, Hs.
Qed.
Lemma read_field n o a l : at_offset o (le_bytes n a) l →
  le_value (slice o (Z.of_nat n) l) = a mod 256 ^ Z.of_nat n.
Proof.
  intros (Ho&r&Hr). rewrite /slice Hr Nat2Z.id take_app_length'; [by rewrite le_bytes_length|]. apply le_value_bytes.
Qed.
Lemma read32 o a l : at_offset o (le_bytes 4 a) l → load32 o l = u32 a.
Proof. exact (read_field 4 o a l). Qed.
Lemma s32_u32 a : s32 (u32 a) = s32 a.
Proof. rewrite /s32 /u32. dlia. Qed.
Lemma s64_mod a : s64 (a mod 256 ^ Z.of_nat 8) = s64 a.
Proof. change (256 ^ Z.of_nat 8) with 18446744073709551616. rewrite /s64. dlia. Qed.

(** Entry [i] of a table of entries of [n] bytes. *)
Lemma at_entry {E} (f : E → list Z) (n : Z) (es : list E) o (i : nat) e l :
  (∀ e, Z.of_nat (length (f e)) = n) → es !! i = Some e → at_offset o (concat (f <$> es)) l →
  at_offset (o + Z.of_nat i * n) (f e) l.
Proof.
  intros Hf. revert i o. induction es as [|d es IH]; intros [|i] o Hi Ho; [done..| |].
  - injection Hi as [= ->]. rewrite Z.add_0_r. cbn [fmap list_fmap concat] in Ho. by apply at_head in Ho.
  - cbn [fmap list_fmap concat] in Ho. apply at_next in Ho. apply (IH i) in Ho; [|done]. rewrite Hf in Ho.
    rewrite (_ : o + Z.of_nat (S i) * n = o + n + Z.of_nat i * n); [lia|done].
Qed.

Lemma length_concat {E} (f : E → list Z) (n : Z) (es : list E) :
  (∀ e, Z.of_nat (length (f e)) = n) → Z.of_nat (length (concat (f <$> es))) = Z.of_nat (length es) * n.
Proof.
  intros Hf. induction es as [|e es IH]; [done|]. cbn [fmap list_fmap concat length]. rewrite length_app Nat2Z.inj_add IH Hf. lia.
Qed.
Lemma length_subfolder e : Z.of_nat (length (subfolder_bytes e)) = sizeof_disk_foder_info.
Proof. by rewrite /subfolder_bytes length_app length_name_field le_bytes_length. Qed.
Lemma length_file e : Z.of_nat (length (file_bytes e)) = sizeof_disk_file_info.
Proof. by rewrite /file_bytes !length_app length_name_field !le_bytes_length. Qed.

(** The fields of a folder on the disk, and where they lie. *)
Lemma folder_layout name used subs files :
  (length subs ≤ 128)%nat → (length files ≤ 128)%nat →
  let l := folder_bytes name used subs files in
  Z.of_nat (length l) = sizeof_disk_folder ∧
  at_offset 0 (name_field name) l ∧ at_offset off_used (le_bytes 4 used) l ∧
  at_offset off_subfolder_cnt (le_bytes 4 (Z.of_nat (length subs))) l ∧
  at_offset off_file_cnt (le_bytes 4 (Z.of_nat (length files))) l ∧
  at_offset (off_subfolder 0) (concat (subfolder_bytes <$> subs)) l ∧
  at_offset (off_file 0) (concat (file_bytes <$> files)) l.
Proof.
  intros Hs Hf l.
  assert (Hcs := length_concat subfolder_bytes _ subs length_subfolder).
  assert (Hcf := length_concat file_bytes _ files length_file).
  unfold sizeof_disk_foder_info, sizeof_disk_file_info in *.
  split.
  { rewrite /l /folder_bytes !length_app length_name_field !le_bytes_length !length_replicate.
    rewrite /sizeof_disk_folder /DFS_MAX_SUB_ENTRIES /sizeof_disk_foder_info /sizeof_disk_file_info. lia. }
  assert (H0 : at_offset 0 l l) by (split; [done|]; exists []; by rewrite app_nil_r).
  rewrite {1}/l /folder_bytes in H0. split; [by eapply at_head|]. apply at_next in H0.
  rewrite length_name_field in H0. split; [by eapply at_head|]. apply at_next in H0. rewrite le_bytes_length in H0.
  split; [by eapply at_head|]. apply at_next in H0. rewrite le_bytes_length in H0.
  split; [by eapply at_head|]. apply at_next in H0. rewrite le_bytes_length in H0.
  split; [by eapply at_head|]. do 2 apply at_next in H0. apply at_head in H0.
  rewrite Hcs length_replicate in H0. unfold off_file, DFS_MAX_SUB_ENTRIES, sizeof_disk_foder_info.
  rewrite (_ : 140 + 128 * 132 + 0 * sizeof_disk_file_info =
    0 + Z.of_nat 128 + Z.of_nat 4 + Z.of_nat 4 + Z.of_nat 4 + Z.of_nat (length subs) * 132 +
    Z.of_nat ((128 - length subs) * 132)); [lia|done].
Qed.

(** C27: What [dfs_save_folder_to_disk] lays out is what the loading
    functions read: the structure has the size of a [dfs_disk_folder], and
    its name, flag and counts, each sub-folder's name and address, and each
    file's name, length and address, read back as the values stored, at the
    width of their fields. *)
Theorem disk_folder_roundtrip name used subs files :
  good_name name → Forall (λ e, good_name (fst e)) subs → Forall (λ e, good_name (fst (fst e))) files →
  (length subs ≤ 128)%nat → (length files ≤ 128)%nat →
  let l := folder_bytes name used subs files in
  Z.of_nat (length l) = sizeof_disk_folder ∧ string_at 0 l = name ∧ load32 off_used l = u32 used ∧
  load32 off_subfolder_cnt l = Z.of_nat (length subs) ∧ load32 off_file_cnt l = Z.of_nat (length files) ∧
  (∀ i n a, subs !! i = Some (n, a) → subfolder_at l (Z.of_nat i) = Some (n, s32 a)) ∧
  (∀ i n len a, files !! i = Some (n, len, a) → file_at l (Z.of_nat i) = Some (n, s64 len, s32 a)).
Proof.
  intros Hn Hsn Hfn Hs Hf l. destruct (folder_layout name used subs files Hs Hf) as (Hlen&Ln&Lu&Ls&Lf&Lsub&Lfile).
  fold l in Hlen, Ln, Lu, Ls, Lf, Lsub, Lfile. split; [done|]. split; [by apply read_name|]. split; [by apply read32|].
  split; [rewrite (read32 _ _ _ Ls) u32_small //; lia|]. split; [rewrite (read32 _ _ _ Lf) u32_small //; lia|]. split.
  - intros i n a Hi. pose proof (lookup_lt_Some _ _ _ Hi) as Hlt.
    pose proof (at_entry _ _ _ _ _ _ _ length_subfolder Hi Lsub) as He.
    rewrite (_ : off_subfolder 0 + Z.of_nat i * sizeof_disk_foder_info = off_subfolder (Z.of_nat i)) in He.
    { rewrite /off_subfolder. lia. }
    rewrite /subfolder_at (proj2 (Z.leb_le _ _)).
    { rewrite /off_subfolder /sizeof_disk_folder /sizeof_disk_foder_info /sizeof_disk_file_info /DFS_MAX_SUB_ENTRIES. lia. }
    eapply Forall_lookup_1 in Hsn; [|exact Hi]. rewrite /subfolder_bytes in He. cbn [fst snd] in He, Hsn.
    rewrite (read_name _ n); [done|by eapply at_head|]. rewrite good_fits //.
    apply at_next in He. rewrite length_name_field in He. by rewrite (read32 _ _ _ He) s32_u32.
  - intros i n len a Hi. pose proof (lookup_lt_Some _ _ _ Hi) as Hlt.
    pose proof (at_entry _ _ _ _ _ _ _ length_file Hi Lfile) as He.
    rewrite (_ : off_file 0 + Z.of_nat i * sizeof_disk_file_info = off_file (Z.of_nat i)) in He.
    { rewrite /off_file. lia. }
    rewrite /file_at (proj2 (Z.leb_le _ _)).
    { rewrite /off_file /sizeof_disk_folder /sizeof_disk_foder_info /sizeof_disk_file_info /DFS_MAX_SUB_ENTRIES. lia. }
    eapply Forall_lookup_1 in Hfn; [|exact Hi]. rewrite /file_bytes in He. cbn [fst snd] in He, Hfn.
    rewrite (read_name _ n); [done|by eapply at_head|]. rewrite good_fits //.
    apply at_next in He. rewrite length_name_field in He. pose proof He as Hl. apply at_head in Hl.
    apply at_next in He. rewrite le_bytes_length in He.
    rewrite (read_field 8 _ _ _ Hl) s64_mod. rewrite -Z.add_assoc in He. by rewrite (read32 _ _ _ He) s32_u32.
Qed.

(** * Examples *)

Section demo.

Lemma dfs_mount_never_succeeds_witness :
  dfs_mount "/" 0 0 RamfsSpec.demo = Ok (-3, RamfsSpec.demo, []) ∧ -3 < 0.
Proof.
  apply (dfs_mount_never_succeeds RamfsSpec.demo_names RamfsSpec.demo "/" 0 0);
    [exact RamfsSpec.boot_Inv|exact Partition.demo_inv|split_and!; [discriminate|exact I]|reflexivity].
Defined.

Lemma dfs_format_never_succeeds_witness :
  ∃ r, dfs_format 0 0 RamfsSpec.demo = Ok (r, RamfsSpec.demo, []) ∧ r < 0 ∧
    (r = -1 ↔ u32 (u64 (sectors_of RamfsSpec.demo 0 0 * 512) / 1024) < 1024).
Proof. apply (dfs_format_never_succeeds RamfsSpec.demo 0 0). exact Partition.demo_inv. Defined.

Lemma disk_commands_change_nothing_witness :
  wp (fs_mount_api ["mount"; "sda1"; "/"]) RamfsSpec.demo (λ _ s' _, s' = RamfsSpec.demo).
Proof.
  apply (disk_commands_change_nothing RamfsSpec.demo_names 0 fs_mount_api ["mount"; "sda1"; "/"] RamfsSpec.demo).
  - apply cmd_mount.
  - exact RamfsSpec.boot_Inv.
  - exact Partition.demo_inv.
  - reflexivity.
  - repeat constructor; discriminate.
Defined.

Lemma disk_folder_roundtrip_witness :
  let l := folder_bytes "docs" 1 [("a", 70000)] [("b", 5, -1)] in
  Z.of_nat (length l) = sizeof_disk_folder ∧ string_at 0 l = "docs" ∧ load32 off_used l = u32 1 ∧
  load32 off_subfolder_cnt l = 1 ∧ load32 off_file_cnt l = 1 ∧
  (∀ i n a, [("a", 70000)] !! i = Some (n, a) → subfolder_at l (Z.of_nat i) = Some (n, s32 a)) ∧
  (∀ i n len a, [("b", 5, -1)] !! i = Some (n, len, a) → file_at l (Z.of_nat i) = Some (n, s64 len, s32 a)).
Proof.
  apply (disk_folder_roundtrip "docs" 1 [("a", 70000)] [("b", 5, -1)]).
  - split; [repeat split; discriminate|discriminate].
  - constructor; [|constructor]. split; [repeat split; discriminate|discriminate].
  - constructor; [|constructor]. split; [repeat split; discriminate|discriminate].
  - apply (Nat.leb_le 1 128). reflexivity.
  - apply (Nat.leb_le 1 128). reflexivity.
Defined.

(** [umount /mnt] looks for the empty name in the root folder: a mount
    directly below the root stays in its parent's table. *)
Example umount_names_below_root : umount_names "/mnt" = ("/", EmptyString) ∧ umount_names "/a/b" = ("/a", "b").
Proof. done. Qed.

(** On a partition smaller than the area kept for folders, the number of
    data blocks wraps around. *)
Example block_count_wraps : sb_block_count (new_superblock 4096) = 4294831567.
Proof. vm_compute. reflexivity. Qed.

(** The comparison of [dfs_find_mount_point] takes a path for being below a
    mount point it is not below: memcmp stops at no byte that is larger on
    the left. *)
Example find_best_confuses : find_best "/zzz/f" [MountPoint "/mnt" 0 0 1] 0 0 0 = 1.
Proof. vm_compute. reflexivity. Qed.
End demo.
End Dfs.
