(* ===== verification/Cpu.v ===== *)
(** The processor's tables and the interrupt controllers: gdt.c, tss.c,
    idt.c, pic.c and interrupts.c of kernel/src.

    A descriptor is the record of its fields. What the assembly routines do
    is load the processor's registers: [Idtr] and [Gdtr] are the values
    they are given. The addresses of the entry stubs and of the tables are
    parameters. Handlers are named by their C identifiers. *)
From S2P Require Import Prelude.
From S2P Require Import Io.

Module Cpu.

(** * idt.c *)

Record idt_gate : Type := Gate {
  handler_low : Z;
  segsel : Z;
  zero : Z;
  config : Z;
  handler_high : Z
}.
Record table_ptr : Type := TablePtr { limit : Z; base : Z }.

Definition NUM_IDT_ENTRIES : Z := 256.
Definition sizeof_idt_gate : Z := 8.

Definition createIDTGate (n handler type pl : Z) (idt : list idt_gate) : list idt_gate :=
  <[Z.to_nat (u8 n) :=
     Gate (Z.land handler 65535) 8 0
       (Z.lor (Z.lor (Z.lor (Z.lor (Z.lor (Z.shiftl 1 7) (Z.shiftl (Z.land pl 3) 5)) (Z.shiftl 1 3))
          (Z.shiftl 1 2)) (Z.shiftl 1 1)) type)
       (Z.land (Z.shiftr handler 16) 65535)]> idt.

Definition empty_gate : idt_gate := Gate 0 0 0 0 0.
Definition idt0 : list idt_gate := replicate 256 empty_gate.

(** The vectors [initIDT] installs, in its order. *)
Definition idt_vectors : list Z :=
  [0; 1; 2; 3; 4; 5; 6; 7; 8; 9; 10; 11; 12; 13; 14; 15; 16; 17; 18; 19;
   32; 33; 34; 35; 36; 37; 38; 39; 40; 41; 42; 43; 44; 45; 46; 47].

(** [CREATE_IDT_GATE] for each of them, then the register. *)
Definition initIDT (stub : Z → Z) (idt_address : Z) (idt : list idt_gate) : list idt_gate * table_ptr :=
  (fold_left (λ t n, createIDTGate n (stub n) 1 0 t) idt_vectors idt,
   TablePtr (NUM_IDT_ENTRIES * sizeof_idt_gate - 1) idt_address).

(** * gdt.c and tss.c *)

Record gdt_entry : Type := GdtEntry {
  limit_low : Z;
  base_low : Z;
  base_mid : Z;
  access : Z;
  granularity : Z;
  base_high : Z
}.

Definition SEGMENT_BASE : Z := 0.
Definition SEGMENT_LIMIT : Z := 1048575.
Definition CODE_RX_TYPE : Z := 10.
Definition DATA_RW_TYPE : Z := 2.
Definition GDT_NUM_ENTRIES : Z := 6.
Definition PL0 : Z := 0.
Definition PL3 : Z := 3.
Definition sizeof_gdt_entry : Z := 8.
Definition sizeof_tss : Z := 104.

Definition empty_entry : gdt_entry := GdtEntry 0 0 0 0 0 0.
Definition gdt0 : list gdt_entry := replicate 6 empty_entry.

Definition GDTCreateEntry (n pl type : Z) (gdt : list gdt_entry) : list gdt_entry :=
  alter (λ e,
    GdtEntry (Z.land SEGMENT_LIMIT 65535) (Z.land SEGMENT_BASE 65535)
      (Z.land (Z.shiftr SEGMENT_BASE 16) 255)
      (Z.lor (Z.lor (Z.lor (Z.shiftl 1 7) (Z.shiftl (Z.land pl 3) 5)) (Z.shiftl 1 4)) (Z.land type 15))
      (Z.lor (granularity e) (Z.lor (Z.lor (Z.shiftl 1 7) (Z.shiftl 1 6)) 15))
      (Z.land (Z.shiftr SEGMENT_BASE 24) 255)) (Z.to_nat n) gdt.

Definition GDTCreateTSSEntry (n tss_vaddr : Z) (gdt : list gdt_entry) : list gdt_entry :=
  alter (λ e,
    GdtEntry (sizeof_tss - 1) (Z.land tss_vaddr 65535) (Z.land (Z.shiftr tss_vaddr 16) 255)
      (Z.lor (Z.lor (Z.shiftl 1 7) (Z.shiftl 1 3)) 1) 0
      (Z.land (Z.shiftr tss_vaddr 24) 255)) (Z.to_nat n) gdt.

Definition initGDT (tss_vaddr gdt_address : Z) (gdt : list gdt_entry) : list gdt_entry * table_ptr :=
  let gdt := GDTCreateEntry 0 0 0 gdt in
  let gdt := GDTCreateEntry 1 PL0 CODE_RX_TYPE gdt in
  let gdt := GDTCreateEntry 2 PL0 DATA_RW_TYPE gdt in
  let gdt := GDTCreateEntry 3 PL3 CODE_RX_TYPE gdt in
  let gdt := GDTCreateEntry 4 PL3 DATA_RW_TYPE gdt in
  (GDTCreateTSSEntry 5 tss_vaddr gdt, TablePtr (sizeof_gdt_entry * GDT_NUM_ENTRIES) gdt_address).

(** The two fields of the task state segment the kernel writes. *)
Record tss : Type := Tss { esp0 : Z; ss0 : Z }.
Definition initTSS (tss_address : Z) : Z := u32 tss_address.
Definition TSSSetKernelStack (segsel vaddr : Z) (t : tss) : tss := Tss (u32 vaddr) (u16 segsel).

(** * pic.c *)

Definition PIC1_PORT_A : Z := 32.
Definition PIC1_PORT_B : Z := 33.
Definition PIC2_PORT_A : Z := 160.
Definition PIC2_PORT_B : Z := 161.
Definition PIC1_ICW1 : Z := 17.
Definition PIC1_ICW2 : Z := 32.
Definition PIC2_ICW1 : Z := PIC1_ICW2.
Definition PIC2_ICW2 : Z := 40.
Definition PIC1_ICW3 : Z := 4.
Definition PIC2_ICW3 : Z := 2.
Definition PIC1_ICW4 : Z := 5.
Definition PIC2_ICW4 : Z := 1.
Definition PIC_EOI : Z := 32.
Definition KBD_INT_IDX : Z := 33.

Section ports.
Context {P : Type} `{!Io.PortIO P}.

Definition pic_mask (mask1 mask2 : Z) : M P unit :=
  Io.outb PIC1_PORT_B (u8 mask1);; Io.outb PIC2_PORT_B (u8 mask2).

Definition initPIC : M P unit :=
  Io.outb PIC1_PORT_A PIC1_ICW1;; Io.outb PIC2_PORT_A PIC2_ICW1;;
  Io.outb PIC1_PORT_B PIC1_ICW2;; Io.outb PIC2_PORT_B PIC2_ICW2;;
  Io.outb PIC1_PORT_B PIC1_ICW3;; Io.outb PIC2_PORT_B PIC2_ICW3;;
  Io.outb PIC1_PORT_B PIC1_ICW4;; Io.outb PIC2_PORT_B PIC2_ICW4;;
  pic_mask 236 255.

Definition pic_acknowledge : M P unit :=
  Io.outb PIC1_PORT_A PIC_EOI;; Io.outb PIC2_PORT_A PIC_EOI.

(** * interrupts.c

    The handlers, [None] for a NULL pointer, and the devices. A handler works
    on more than these: [call] runs the one with the given name on a state
    [St] they are a part of. *)
Record interrupts : Type := Interrupts { handlers : list (option string); ports : P }.
Definition set_handlers (h : list (option string)) (s : interrupts) : interrupts := Interrupts h (ports s).
Definition set_ports (p : P) (s : interrupts) : interrupts := Interrupts (handlers s) p.

Definition registerInterruptHandler (interrupt : Z) (func : string) : M interrupts unit :=
  s ← get;
  if (0 <=? interrupt) && (interrupt <? NUM_IDT_ENTRIES)
  then modify (set_handlers (<[Z.to_nat interrupt := Some func]> (handlers s)))
  else fault.

Definition interrupt_handler {St} (irqs : St → interrupts) (set_irqs : interrupts → St → St)
    (call : string → M St unit) (interrupt : Z) : M St unit :=
  s ← get;
  h ← unwrap (handlers (irqs s) !! Z.to_nat interrupt);
  (match h with Some func => call func | None => mret tt end);;
  zoom irqs set_irqs (zoom ports set_ports pic_acknowledge).
End ports.
Arguments interrupts P : clear implicits.

(** * What the processor makes of the tables *)

(** A gate of the IDT as the processor decodes it. *)
Record gate_view : Type := GateView {
  gv_offset : Z; gv_selector : Z; gv_present : bool; gv_dpl : Z; gv_type : Z
}.
Definition decode_gate (g : idt_gate) : gate_view :=
  GateView (handler_low g + 65536 * handler_high g) (segsel g) (Z.testbit (config g) 7)
    (Z.land (Z.shiftr (config g) 5) 3) (Z.land (config g) 31).

(** A segment descriptor: the limit is in bytes. *)
Record segment_view : Type := SegmentView {
  sv_base : Z; sv_limit : Z; sv_present : bool; sv_dpl : Z; sv_system : bool; sv_type : Z
}.
Definition decode_segment (e : gdt_entry) : segment_view :=
  let raw := limit_low e + 65536 * Z.land (granularity e) 15 in
  SegmentView (base_low e + 65536 * base_mid e + 16777216 * base_high e)
    (if Z.testbit (granularity e) 7 then raw * 4096 + 4095 else raw)
    (Z.testbit (access e) 7) (Z.land (Z.shiftr (access e) 5) 3) (negb (Z.testbit (access e) 4))
    (Z.land (access e) 15).

Lemma halves v : 0 ≤ v < 4294967296 →
  Z.land v 65535 + 65536 * Z.land (Z.shiftr v 16) 65535 = v.
Proof.
  intros Hv. change 65535 with (Z.ones 16). rewrite !Z.land_ones //. rewrite Z.shiftr_div_pow2 //.
  change (2 ^ 16) with 65536. dlia.
Qed.

Lemma quarters v : 0 ≤ v < 4294967296 →
  Z.land v 65535 + 65536 * Z.land (Z.shiftr v 16) 255 + 16777216 * Z.land (Z.shiftr v 24) 255 = v.
Proof.
  intros Hv. change 65535 with (Z.ones 16). change 255 with (Z.ones 8). rewrite !Z.land_ones //.
  rewrite !Z.shiftr_div_pow2 //. change (2 ^ 16) with 65536. change (2 ^ 24) with 16777216.
  change (2 ^ 8) with 256. dlia.
Qed.

Lemma fold_gates (stub : Z → Z) vs idt n :
  length idt = 256%nat → Forall (λ v, 0 ≤ v < 256) vs → 0 ≤ n < 256 → NoDup vs →
  fold_left (λ t v, createIDTGate v (stub v) 1 0 t) vs idt !! Z.to_nat n =
    if bool_decide (n ∈ vs) then createIDTGate n (stub n) 1 0 idt !! Z.to_nat n else idt !! Z.to_nat n.
Proof.
  intros Hl Hvs Hn Hnd. revert idt Hl. induction vs as [|v vs IH]; intros idt Hl; [done|].
  apply Forall_cons in Hvs as [Hv Hvs]. apply NoDup_cons in Hnd as [Hnin Hnd].
  cbn [fold_left]. rewrite (IH Hvs Hnd); [by rewrite /createIDTGate length_insert|].
  rewrite /createIDTGate !(u8_small n) // !(u8_small v) //.
  destruct (decide (n = v)) as [->|Hne].
  - rewrite (bool_decide_false (v ∈ vs)) //. by rewrite (bool_decide_true (v ∈ v :: vs)); [left|].
  - assert (Hz : Z.to_nat v ≠ Z.to_nat n) by lia.
    rewrite (bool_decide_ext (n ∈ v :: vs) (n ∈ vs)).
    { rewrite elem_of_cons. naive_solver. }
    case_bool_decide.
    + rewrite !list_lookup_insert_eq //; rewrite ?length_insert; lia.
    + by rewrite list_lookup_insert_ne.
Qed.

(** After [initIDT] every vector of its list is a present 32-bit trap
    gate of ring 0 in the kernel code segment at the address of its own
    stub, and every other vector is as it was. *)
Lemma initIDT_spec stub idt_address idt n :
  length idt = 256%nat → 0 ≤ n < 256 → (∀ v, 0 ≤ stub v < 4294967296) →
  let '(idt', idtr) := initIDT stub idt_address idt in
  idtr = TablePtr 2047 idt_address ∧
  (n ∈ idt_vectors → decode_gate <$> idt' !! Z.to_nat n = Some (GateView (stub n) 8 true 0 15)) ∧
  (n ∉ idt_vectors → idt' !! Z.to_nat n = idt !! Z.to_nat n).
Proof.
  intros Hl Hn Hs. rewrite /initIDT. split; [done|].
  assert (Hvs : Forall (λ v, 0 ≤ v < 256) idt_vectors) by (repeat constructor; lia).
  assert (Hnd : NoDup idt_vectors) by (by apply (bool_decide_unpack _); vm_compute).
  cbn [fst snd]. rewrite (fold_gates stub _ _ _ Hl Hvs Hn Hnd). split; intros Hin.
  - rewrite bool_decide_true // /createIDTGate u8_small // list_lookup_insert_eq; [lia|].
    cbn [fmap option_fmap option_map]. rewrite /decode_gate /=. by rewrite halves.
  - by rewrite bool_decide_false.
Qed.

(** After [initGDT] entries 1 to 4 are flat segments of 4 GiB at base 0
    with the privilege and type asked for, and entry 5 describes exactly
    the task state segment. Entry 0, which the processor ignores, is not
    zero, and the limit given to the processor is one byte too large. *)
Lemma initGDT_spec tss_vaddr gdt_address :
  0 ≤ tss_vaddr < 4294967296 →
  let '(gdt, gdtr) := initGDT tss_vaddr gdt_address gdt0 in
  decode_segment <$> drop 1 gdt =
    [SegmentView 0 4294967295 true 0 false 10; SegmentView 0 4294967295 true 0 false 2;
     SegmentView 0 4294967295 true 3 false 10; SegmentView 0 4294967295 true 3 false 2;
     SegmentView tss_vaddr (sizeof_tss - 1) true 0 true 9] ∧
  gdt !! 0%nat ≠ Some empty_entry ∧ limit gdtr = sizeof_gdt_entry * Z.of_nat (length gdt).
Proof.
  intros Hv. rewrite /initGDT. split; [|by split].
  cbn [drop GDTCreateTSSEntry]. do 4 (apply (f_equal2 cons); [by vm_compute|]).
  apply (f_equal2 cons); [|done]. rewrite /decode_segment. cbn -[Z.land Z.shiftr Z.mul Z.add].
  by rewrite (quarters _ Hv).
Qed.

(** * The interrupt controllers

    An 8259 as its data sheet describes it: a write to the first port with
    bit 4 set is ICW1 and starts the initialisation, which consumes the
    next three writes to the second port as ICW2, ICW3 and ICW4; a write to
    the second port is the mask otherwise. *)
Record pic : Type := Pic { pending : list nat; vector : Z; mask : Z }.
Definition pic_reset : pic := Pic [] 0 0.

Definition pic_write (second : bool) (v : Z) (p : pic) : pic :=
  if second then
    match pending p with
    | 2%nat :: rest => Pic rest (Z.land v 248) (mask p)
    | _ :: rest => Pic rest (vector p) (mask p)
    | [] => Pic [] (vector p) v
    end
  else if Z.testbit v 4 then Pic [2; 3; 4]%nat (vector p) 0 else p.

(** The state of the controller at two ports after a sequence of writes. *)
Definition pic_run (a b : Z) (ws : list (Z * Z)) : pic :=
  fold_left (λ p '(port, v), if port =? a then pic_write false v p
                             else if port =? b then pic_write true v p else p) ws pic_reset.

(** [initPIC] moves the interrupts of the first controller to vectors
    32 to 39 and enables the keyboard's. The second controller is never
    initialised: the byte sent as its ICW1 is ICW2 of the first, a command
    word without the initialisation bit, so its vectors stay and each
    configuration word is taken for a mask. *)
Lemma initPIC_spec :
  ∃ ws, initPIC (P:=Io.log) [] = Ok (tt, ws, []) ∧
    pic_run PIC1_PORT_A PIC1_PORT_B ws = Pic [] 32 236 ∧
    pic_run PIC2_PORT_A PIC2_PORT_B ws = Pic [] 0 255 ∧
    Z.testbit (mask (pic_run PIC1_PORT_A PIC1_PORT_B ws)) (KBD_INT_IDX - 32) = false.
Proof. eexists. split; [by vm_compute|]. by vm_compute. Qed.

(** The dispatcher runs the handler, then acknowledges both controllers. *)
Lemma interrupt_handler_ok {P St} `{!Io.PortIO P} (irqs : St → interrupts P) set_irqs call interrupt (s : St) func s1 :
  handlers (irqs s) !! Z.to_nat interrupt = Some (Some func) → call func s = Ok (tt, s1, []) →
  interrupt_handler irqs set_irqs call interrupt s = zoom irqs set_irqs (zoom ports set_ports pic_acknowledge) s1.
Proof.
  intros Hh Hc. rewrite /interrupt_handler (bind_ok _ _ s s s) // Hh (bind_ok _ _ s (Some func) s) // (bind_ok _ _ _ _ _ Hc) //.
Qed.

Lemma initIDT_spec_witness :
  let '(idt', idtr) := initIDT (λ v, 1048576 + 16 * (v mod 256)) 1200000 idt0 in
  idtr = TablePtr 2047 1200000 ∧
  (33 ∈ idt_vectors → decode_gate <$> idt' !! Z.to_nat 33 = Some (GateView (1048576 + 16 * (33 mod 256)) 8 true 0 15)) ∧
  (33 ∉ idt_vectors → idt' !! Z.to_nat 33 = idt0 !! Z.to_nat 33).
Proof.
  apply (initIDT_spec (λ v, 1048576 + 16 * (v mod 256)) 1200000 idt0 33); [done|lia|]. intros v. cbn beta. dlia.
Defined.

Lemma initGDT_spec_witness :
  let '(gdt, gdtr) := initGDT 1130000 1200000 gdt0 in
  decode_segment <$> drop 1 gdt =
    [SegmentView 0 4294967295 true 0 false 10; SegmentView 0 4294967295 true 0 false 2;
     SegmentView 0 4294967295 true 3 false 10; SegmentView 0 4294967295 true 3 false 2;
     SegmentView 1130000 (sizeof_tss - 1) true 0 true 9] ∧
  gdt !! 0%nat ≠ Some empty_entry ∧ limit gdtr = sizeof_gdt_entry * Z.of_nat (length gdt).
Proof. apply (initGDT_spec 1130000 1200000). lia. Defined.

End Cpu.
