(* ===== verification/Keyboard.v ===== *)
(** drivers/src/keyboard.c: the scan code decoder and the character queue
    between the interrupt handler and the shell.

    An interrupt is the two bytes it reads from the ports: the scan code
    byte and the status. The arrays are finite maps from their indices; the
    code table is indexed without a bound, so it also holds the words past
    its 512 entries that are written through it, and [beyond] is what lies
    there otherwise. *)
From S2P Require Import Prelude.
From S2P Require Import Io.
From S2P Require Import Cpu.

Module Keyboard.

(** * enum KEY_CODE *)
Definition KEY_ESC : Z := 0.
Definition KEY_F1 : Z := 1.
Definition KEY_F2 : Z := 2.
Definition KEY_F3 : Z := 3.
Definition KEY_F4 : Z := 4.
Definition KEY_F5 : Z := 5.
Definition KEY_F6 : Z := 6.
Definition KEY_F7 : Z := 7.
Definition KEY_F8 : Z := 8.
Definition KEY_F9 : Z := 9.
Definition KEY_F10 : Z := 10.
Definition KEY_F11 : Z := 11.
Definition KEY_F12 : Z := 12.
Definition KEY_PRSCR : Z := 13.
Definition KEY_INS : Z := 14.
Definition KEY_DEL : Z := 15.
Definition KEY_GRAVE : Z := 32.
Definition KEY_1 : Z := 33.
Definition KEY_2 : Z := 34.
Definition KEY_3 : Z := 35.
Definition KEY_4 : Z := 36.
Definition KEY_5 : Z := 37.
Definition KEY_6 : Z := 38.
Definition KEY_7 : Z := 39.
Definition KEY_8 : Z := 40.
Definition KEY_9 : Z := 41.
Definition KEY_0 : Z := 42.
Definition KEY_MINUS : Z := 43.
Definition KEY_EQU : Z := 44.
Definition KEY_BCKSPC : Z := 45.
Definition KEY_TAB : Z := 64.
Definition KEY_Q : Z := 65.
Definition KEY_W : Z := 66.
Definition KEY_E : Z := 67.
Definition KEY_R : Z := 68.
Definition KEY_T : Z := 69.
Definition KEY_Y : Z := 70.
Definition KEY_U : Z := 71.
Definition KEY_I : Z := 72.
Definition KEY_O : Z := 73.
Definition KEY_P : Z := 74.
Definition KEY_LBRACKET : Z := 75.
Definition KEY_RBRACKET : Z := 76.
Definition KEY_BSLASH : Z := 77.
Definition KEY_CAPS : Z := 80.
Definition KEY_A : Z := 81.
Definition KEY_S : Z := 82.
Definition KEY_D : Z := 83.
Definition KEY_F : Z := 84.
Definition KEY_G : Z := 85.
Definition KEY_H : Z := 86.
Definition KEY_J : Z := 87.
Definition KEY_K : Z := 88.
Definition KEY_L : Z := 89.
Definition KEY_SMICOLON : Z := 90.
Definition KEY_QUOTE : Z := 91.
Definition KEY_ENTER : Z := 92.
Definition KEY_LSHIFT : Z := 128.
Definition KEY_Z : Z := 129.
Definition KEY_X : Z := 130.
Definition KEY_C : Z := 131.
Definition KEY_V : Z := 132.
Definition KEY_B : Z := 133.
Definition KEY_N : Z := 134.
Definition KEY_M : Z := 135.
Definition KEY_COMMA : Z := 136.
Definition KEY_FSTOP : Z := 137.
Definition KEY_FSLASH : Z := 138.
Definition KEY_RSHIFT : Z := 139.
Definition KEY_LCTRL : Z := 144.
Definition KEY_SUPER : Z := 145.
Definition KEY_LALT : Z := 146.
Definition KEY_SPACE : Z := 147.
Definition KEY_RALT : Z := 148.
Definition KEY_RCTRL : Z := 149.
Definition KEY_MENU : Z := 150.
Definition KEY_LEFT : Z := 151.
Definition KEY_HOME : Z := 152.
Definition KEY_UP : Z := 153.
Definition KEY_PGUP : Z := 154.
Definition KEY_DOWN : Z := 155.
Definition KEY_PGDOWN : Z := 156.
Definition KEY_RIGHT : Z := 157.
Definition KEY_END : Z := 158.

(** * State *)

Record keyData : Type := KeyData { isPressed : bool; ASCII : Z; altASCII : Z }.

Record kbd (P : Type) : Type := Kbd {
  kbuf_head : Z;
  kbuf_tail : Z;
  keyboard_buffer : list Z;
  capsLock : bool;
  keys : gmap Z keyData;
  scanToKeycode : gmap Z Z;
  scanCodeBuffer : list Z;
  irqs : Cpu.interrupts P
}.
Arguments Kbd {P} _ _ _ _ _ _ _ _.
Arguments kbuf_head {P} _.
Arguments kbuf_tail {P} _.
Arguments keyboard_buffer {P} _.
Arguments capsLock {P} _.
Arguments keys {P} _.
Arguments scanToKeycode {P} _.
Arguments scanCodeBuffer {P} _.
Arguments irqs {P} _.

Definition KBUF_SIZE : Z := 256.

Section ops.
Context {P : Type} (beyond : Z → Z).
Abbreviation kbd := (kbd P).
Implicit Types (k : kbd).

Definition set_buffer (head tail : Z) (buf : list Z) k : kbd :=
  Kbd head tail buf (capsLock k) (keys k) (scanToKeycode k) (scanCodeBuffer k) (irqs k).
Definition set_caps (b : bool) k : kbd :=
  Kbd (kbuf_head k) (kbuf_tail k) (keyboard_buffer k) b (keys k) (scanToKeycode k) (scanCodeBuffer k) (irqs k).
Definition set_keys (m : gmap Z keyData) k : kbd :=
  Kbd (kbuf_head k) (kbuf_tail k) (keyboard_buffer k) (capsLock k) m (scanToKeycode k) (scanCodeBuffer k) (irqs k).
Definition set_codes (m : gmap Z Z) k : kbd :=
  Kbd (kbuf_head k) (kbuf_tail k) (keyboard_buffer k) (capsLock k) (keys k) m (scanCodeBuffer k) (irqs k).
Definition set_scan (bs : list Z) k : kbd :=
  Kbd (kbuf_head k) (kbuf_tail k) (keyboard_buffer k) (capsLock k) (keys k) (scanToKeycode k) bs (irqs k).
Definition set_irqs (i : Cpu.interrupts P) k : kbd :=
  Kbd (kbuf_head k) (kbuf_tail k) (keyboard_buffer k) (capsLock k) (keys k) (scanToKeycode k) (scanCodeBuffer k) i.

(** At boot every static object is zero. *)
Definition kbd0 (i : Cpu.interrupts P) : kbd := Kbd 0 0 (replicate 256 0) false ∅ ∅ [] i.

(** [keys[code]]; an index outside the 256 entries faults. *)
Definition key (code : Z) k : keyData := default (KeyData false 0 0) (keys k !! code).
Definition load_key (code : Z) : M kbd keyData :=
  if (0 <=? code) && (code <? 256) then k ← get; mret (key code k) else fault.
Definition store_key (code : Z) (d : keyData) : M kbd unit :=
  if (0 <=? code) && (code <? 256) then modify (λ k, set_keys (<[code := d]> (keys k)) k) else fault.

(** [scanToKeycode[code]]. *)
Definition keycode (code : Z) k : Z :=
  match scanToKeycode k !! code with
  | Some c => c
  | None => if code <? 512 then 0 else beyond code
  end.

(** * Operations *)

Definition put (c : Z) k : kbd :=
  let next := (kbuf_head k + 1) mod KBUF_SIZE in
  if next =? kbuf_tail k then k
  else set_buffer next (kbuf_tail k) (<[Z.to_nat (kbuf_head k) := c]> (keyboard_buffer k)) k.
Definition putchar_to_buffer (c : Z) : M kbd unit := modify (put c).

(** The two steps of taking a character: reading it, advancing the tail. *)
Definition read_tail k : Z := nth (Z.to_nat (kbuf_tail k)) (keyboard_buffer k) 0.
Definition advance_tail k : kbd :=
  set_buffer (kbuf_head k) ((kbuf_tail k + 1) mod KBUF_SIZE) (keyboard_buffer k) k.

Definition registerKey (keyCode scanCode ASCII altASCII : Z) : M kbd unit :=
  modify (λ k, set_codes (<[scanCode := keyCode]> (scanToKeycode k)) k);;
  store_key keyCode (KeyData false ASCII altASCII).

(** A byte that does not fit the 6 bytes of the buffer faults. *)
Definition readScanCode (data status : Z) : M kbd bool :=
  k ← get;
  if 6 <=? Z.of_nat (length (scanCodeBuffer k)) then fault
  else modify (set_scan (scanCodeBuffer k ++ [u8 data]));; mret (Z.land status 1 =? 0).

Definition isDown (code : Z) : M kbd bool := isPressed <$> load_key code.

Definition getASCII (code : Z) : M kbd Z :=
  l ← isDown KEY_LSHIFT;
  r ← isDown KEY_RSHIFT;
  d ← load_key code;
  k ← get;
  mret (if l || r then
          if capsLock k && ((65 <=? altASCII d) && (altASCII d <=? 90)) then ASCII d else altASCII d
        else if capsLock k && ((97 <=? ASCII d) && (ASCII d <=? 122)) then altASCII d else ASCII d).

(** The bytes of the scan code, as an [unsigned short]. *)
Definition scan_code (bs : list Z) : Z := fold_left (λ code b, u16 (Z.shiftl code 8 + b)) bs 0.

Definition press (code : Z) (pressed : bool) : M kbd unit :=
  d ← load_key code; store_key code (KeyData pressed (ASCII d) (altASCII d)).

Definition KBDinterrupt (data status : Z) : M kbd unit :=
  complete ← readScanCode data status;
  if complete then
    k ← get;
    let code := scan_code (scanCodeBuffer k) in
    (if negb (Z.land code 128 =? 0) then
       let kc := keycode (Z.land code 65407) k in
       press kc false;;
       (if kc =? KEY_CAPS then modify (λ k, set_caps (negb (capsLock k)) k) else mret tt)
     else
       let kc := keycode code k in
       press kc true;;
       ch ← getASCII kc;
       if ch =? 0 then mret tt else putchar_to_buffer ch);;
    modify (set_scan [])
  else mret tt.

(** [getchar_from_buffer]: while the buffer is empty the processor sleeps
    until the next interrupt; [arrivals] are the interrupts to come, and
    running out of them is waiting for ever. *)
Fixpoint getchar_from_buffer (arrivals : list (Z * Z)) : M kbd Z :=
  k ← get;
  if kbuf_head k =? kbuf_tail k then
    match arrivals with
    | [] => nofuel
    | (data, status) :: arrivals => KBDinterrupt data status;; getchar_from_buffer arrivals
    end
  else
    let c := read_tail k in
    modify advance_tail;; mret c.

(** [getchar_from_buffer_timeout] polls; [arrivals] says for each turn of
    the loop which interrupt came in it, if any. *)
Definition max_loops (timeout_ms : Z) : Z := u32 (u32 timeout_ms * 1000000).
Fixpoint poll (left : Z) (arrivals : list (option (Z * Z))) : M kbd Z :=
  if left <=? 0 then mret 0
  else
    k ← get;
    if negb (kbuf_head k =? kbuf_tail k) then
      let c := read_tail k in
      modify advance_tail;; mret c
    else
      match arrivals with
      | [] => nofuel
      | a :: arrivals =>
          (match a with Some (data, status) => KBDinterrupt data status | None => mret tt end);;
          poll (left - 1) arrivals
      end.
Definition getchar_from_buffer_timeout (timeout_ms : Z) (arrivals : list (option (Z * Z))) : M kbd Z :=
  poll (max_loops timeout_ms) arrivals.

(** The calls of [initKBD]: key code, scan code, character, shifted
    character. *)
Definition key_table : list (Z * Z * Z * Z) :=
  [(KEY_ESC, 1, 0, 0); (KEY_F1, 59, 0, 0); (KEY_F2, 60, 0, 0);
   (KEY_F3, 61, 0, 0); (KEY_F4, 62, 0, 0); (KEY_F5, 63, 0, 0);
   (KEY_F6, 64, 0, 0); (KEY_F7, 65, 0, 0); (KEY_F8, 66, 0, 0);
   (KEY_F9, 67, 0, 0); (KEY_F10, 68, 0, 0); (KEY_F11, 87, 0, 0);
   (KEY_F12, 88, 0, 0); (KEY_PRSCR, 57399, 0, 0); (KEY_INS, 57426, 0, 0);
   (KEY_DEL, 57427, 0, 0); (KEY_GRAVE, 41, 96, 126); (KEY_1, 2, 49, 33);
   (KEY_2, 3, 50, 64); (KEY_3, 4, 51, 35); (KEY_4, 5, 52, 36);
   (KEY_5, 6, 53, 37); (KEY_6, 7, 54, 94); (KEY_7, 8, 55, 38);
   (KEY_8, 9, 56, 42); (KEY_9, 10, 57, 40); (KEY_0, 11, 48, 41);
   (KEY_MINUS, 12, 45, 95); (KEY_EQU, 13, 61, 43); (KEY_BCKSPC, 14, 8, 0);
   (KEY_TAB, 15, 9, 0); (KEY_Q, 16, 113, 81); (KEY_W, 17, 119, 87);
   (KEY_E, 18, 101, 69); (KEY_R, 19, 114, 82); (KEY_T, 20, 116, 84);
   (KEY_Y, 21, 121, 89); (KEY_U, 22, 117, 85); (KEY_I, 23, 105, 73);
   (KEY_O, 24, 111, 79); (KEY_P, 25, 112, 80); (KEY_LBRACKET, 26, 91, 123);
   (KEY_RBRACKET, 27, 93, 125); (KEY_BSLASH, 43, 92, 124); (KEY_CAPS, 58, 0, 0);
   (KEY_A, 30, 97, 65); (KEY_S, 31, 115, 83); (KEY_D, 32, 100, 68);
   (KEY_F, 33, 102, 70); (KEY_G, 34, 103, 71); (KEY_H, 35, 104, 72);
   (KEY_J, 36, 106, 74); (KEY_K, 37, 107, 75); (KEY_L, 38, 108, 76);
   (KEY_SMICOLON, 39, 59, 58); (KEY_BSLASH, 40, 39, 34); (KEY_ENTER, 28, 10, 0);
   (KEY_LSHIFT, 42, 0, 0); (KEY_Z, 44, 122, 90); (KEY_X, 45, 120, 88);
   (KEY_C, 46, 99, 67); (KEY_V, 47, 118, 86); (KEY_B, 48, 98, 66);
   (KEY_N, 49, 110, 78); (KEY_M, 50, 109, 77); (KEY_COMMA, 51, 44, 60);
   (KEY_FSTOP, 52, 46, 62); (KEY_FSLASH, 53, 47, 63); (KEY_RSHIFT, 54, 0, 0);
   (KEY_LCTRL, 29, 0, 0); (KEY_SUPER, 57435, 0, 0); (KEY_LALT, 56, 0, 0);
   (KEY_SPACE, 57, 32, 0); (KEY_RALT, 57400, 0, 0); (KEY_RCTRL, 57373, 0, 0);
   (KEY_MENU, 57437, 0, 0); (KEY_LEFT, 57419, 0, 0); (KEY_HOME, 57415, 0, 0);
   (KEY_UP, 57416, 0, 0); (KEY_PGUP, 57417, 0, 0); (KEY_DOWN, 57424, 0, 0);
   (KEY_PGDOWN, 57425, 0, 0); (KEY_RIGHT, 57421, 0, 0); (KEY_END, 57423, 0, 0)].

Fixpoint register_keys (rs : list (Z * Z * Z * Z)) : M kbd unit :=
  match rs with
  | [] => mret tt
  | (kc, scan, a, b) :: rs => registerKey kc scan a b;; register_keys rs
  end.

Definition initKBD : M kbd unit :=
  zoom irqs set_irqs (Cpu.registerInterruptHandler Cpu.KBD_INT_IDX "KBDinterrupt");;
  register_keys key_table.
End ops.


(** * The queue *)

Section queue.
Context {P : Type}.
Implicit Types (k : kbd P).

(** The characters waiting, oldest first. *)
Definition waiting k : Z := (kbuf_head k - kbuf_tail k) mod KBUF_SIZE.
Definition slot k (i : Z) : nat := Z.to_nat ((kbuf_tail k + i) mod KBUF_SIZE).
Definition queue k : list Z := (λ i, nth (slot k i) (keyboard_buffer k) 0) <$> seqZ 0 (waiting k).

Record queue_ok k : Prop := {
  qo_head : 0 ≤ kbuf_head k < KBUF_SIZE;
  qo_tail : 0 ≤ kbuf_tail k < KBUF_SIZE;
  qo_buffer : length (keyboard_buffer k) = Z.to_nat KBUF_SIZE
}.

Lemma length_queue k : queue_ok k → Z.of_nat (length (queue k)) = waiting k.
Proof.
  intros Hk. rewrite /queue length_fmap length_seqZ Z2Nat.id // /waiting.
  by apply Z.mod_pos_bound.
Qed.

Lemma queue_empty k : queue_ok k → queue k = [] ↔ kbuf_head k = kbuf_tail k.
Proof.
  intros Hk. rewrite -length_zero_iff_nil. pose proof (length_queue k Hk) as Hl.
  destruct Hk as [Hh Ht _]. rewrite /waiting /KBUF_SIZE in Hl Hh Ht. split; intros ?; dlia.
Qed.

Lemma kbd0_ok (i : Cpu.interrupts P) : queue_ok (kbd0 i).
Proof. by split; [unfold KBUF_SIZE; simpl; lia..|]. Qed.

(** The writer appends, or drops the character when 255 are waiting. *)
Lemma put_queue c k : queue_ok k →
  queue_ok (put c k) ∧
  queue (put c k) = (if bool_decide (length (queue k) = 255%nat) then queue k else queue k ++ [c]) ∧
  kbuf_tail (put c k) = kbuf_tail k.
Proof.
  intros Hk. pose proof (length_queue k Hk) as Hl. pose proof Hk as [Hh Ht Hb].
  unfold put. destruct (Z.eqb_spec ((kbuf_head k + 1) mod KBUF_SIZE) (kbuf_tail k)) as [He|He].
  - split_and!; [done| |done]. rewrite bool_decide_true //.
    rewrite /waiting /KBUF_SIZE in Hl He Hh Ht. dlia.
  - rewrite bool_decide_false.
    { rewrite /waiting /KBUF_SIZE in Hl He Hh Ht. dlia. }
    assert (Hw : (((kbuf_head k + 1) mod KBUF_SIZE - kbuf_tail k) mod KBUF_SIZE) = waiting k + 1).
    { rewrite /waiting /KBUF_SIZE in He Hh Ht |- *. dlia. }
    assert (Hn : 0 ≤ waiting k) by by apply Z.mod_pos_bound.
    split_and!; [split; simpl; [by apply Z.mod_pos_bound|done|by rewrite length_insert]| |done].
    rewrite /queue {1}/waiting /= Hw seqZ_app // fmap_app. cbn [seqZ]. rewrite Z.add_0_l. f_equal.
    + apply list_fmap_ext. intros j i Hi%lookup_seqZ. destruct Hi as [-> Hj].
      rewrite /slot /=. rewrite !nth_lookup list_lookup_insert_ne //.
      rewrite /waiting /KBUF_SIZE in Hj Hh Ht |- *. dlia.
    + simpl. rewrite /slot /=. f_equal. rewrite nth_lookup. rewrite (Z.add_0_l (waiting k)).
      replace (Z.to_nat ((kbuf_tail k + waiting k) mod KBUF_SIZE)) with (Z.to_nat (kbuf_head k)).
      { rewrite list_lookup_insert_eq //. rewrite /KBUF_SIZE in Hb Hh. lia. }
      rewrite /waiting /KBUF_SIZE in Hh Ht |- *. dlia.
Qed.

Lemma read_queue k : queue_ok k → kbuf_head k ≠ kbuf_tail k →
  queue k = read_tail k :: queue (advance_tail k) ∧ queue_ok (advance_tail k).
Proof.
  intros Hk Hne. pose proof Hk as [Hh Ht Hb].
  assert (Hw : 0 < waiting k ∧ waiting (advance_tail k) = waiting k - 1).
  { rewrite /waiting /advance_tail /KBUF_SIZE /= in Hh Ht |- *. dlia. }
  destruct Hw as [Hpos Hw]. split; [|split; simpl; [done|by apply Z.mod_pos_bound|done]].
  rewrite /queue Hw. rewrite (seqZ_cons 0 (waiting k)) //. cbn [fmap list_fmap]. f_equal.
  - rewrite /read_tail /slot. f_equal. rewrite Z.add_0_r Z.mod_small //.
  - change (Z.succ 0) with (1 + 0). rewrite -fmap_add_seqZ -list_fmap_compose -Z.sub_1_r.
    apply list_fmap_ext. intros j i Hi%lookup_seqZ. simpl. f_equal. rewrite /slot /=.
    rewrite /KBUF_SIZE in Ht |- *. dlia.
Qed.

(** * The handler and the shell, interleaved

    The shell takes a character in two steps, between which interrupts may
    come: it reads the slot at the tail, then advances the tail. [typed] are
    the characters the handler was given a place for, [delivered] the ones
    the shell has. *)
Record world : Type := World {
  device : kbd P;
  loaded : option Z;
  typed : list Z;
  delivered : list Z
}.

Inductive step : world → world → Prop :=
  | step_irq c k k' l t d :
      putchar_to_buffer c k = Ok (tt, k', []) →
      step (World k l t d)
        (World k' l (if bool_decide (length (queue k) = 255%nat) then t else t ++ [c]) d)
  | step_read k t d :
      kbuf_head k ≠ kbuf_tail k → step (World k None t d) (World k (Some (read_tail k)) t d)
  | step_advance k c t d :
      step (World k (Some c) t d) (World (advance_tail k) None t (d ++ [c])).

(** Nothing is lost, duplicated or reordered. *)
Definition world_ok (w : world) : Prop :=
  queue_ok (device w) ∧ typed w = delivered w ++ queue (device w) ∧
  match loaded w with Some c => head (queue (device w)) = Some c | None => True end.

Lemma step_ok w w' : step w w' → world_ok w → world_ok w'.
Proof.
  intros Hs (Hk&Ht&Hl). destruct Hs as [c k k' l t d Hp|k t d Hne|k c t d]; simpl in *.
  - injection Hp as <-. destruct (put_queue c k Hk) as (Hk'&Hq&_). split_and!; [done| |].
    + rewrite /= Hq Ht. case_bool_decide; [done|]. by rewrite -assoc_L.
    + rewrite /= Hq. destruct l as [x|]; [|done]. case_bool_decide; [done|].
      by destruct (queue k).
  - destruct (read_queue k Hk Hne) as [Hq _]. split_and!; [done..|]. cbn [loaded device]. by rewrite Hq.
  - assert (Hne : kbuf_head k ≠ kbuf_tail k).
    { intros He. apply (queue_empty k Hk) in He. by rewrite He in Hl. }
    destruct (read_queue k Hk Hne) as [Hq Hk']. rewrite Hq in Ht Hl. injection Hl as Hl.
    split_and!; [done| |done]. simpl. by rewrite Ht -assoc_L Hl.
Qed.

(** C16: Whatever the interleaving of key interrupts with the two steps in
    which the shell takes a character, the characters it was given followed
    by the ones still queued are the accepted ones in the order typed: none
    is lost, repeated or reordered. At most 255 wait, and a key is refused
    only when they do. *)
Theorem kbd_fifo w w' :
  queue_ok (device w) → loaded w = None → typed w = queue (device w) → delivered w = [] → rtc step w w' →
  typed w' = delivered w' ++ queue (device w') ∧ (length (queue (device w')) ≤ 255)%nat.
Proof.
  intros Hk Hl Ht Hd Hsteps.
  assert (Hw : world_ok w) by (rewrite /world_ok Hl Hd; by split_and!).
  assert (Hw' : world_ok w') by (clear -Hw Hsteps; induction Hsteps; eauto using step_ok).
  destruct Hw' as (Hk'&Ht'&_). split; [done|].
  pose proof (length_queue _ Hk') as Hq. pose proof (Z.mod_pos_bound (kbuf_head (device w') - kbuf_tail (device w')) KBUF_SIZE eq_refl) as Hb.
  rewrite /waiting in Hq. rewrite /KBUF_SIZE in Hq Hb. lia.
Qed.
End queue.


(** * The layout *)

(** The characters of a US keyboard: scan code, plain, shifted. *)
Definition us_layout : list (Z * (Z * Z)) :=
  [(41, (96, 126)); (2, (49, 33)); (3, (50, 64)); (4, (51, 35)); (5, (52, 36)); (6, (53, 37)); (7, (54, 94));
   (8, (55, 38)); (9, (56, 42)); (10, (57, 40)); (11, (48, 41)); (12, (45, 95)); (13, (61, 43));
   (16, (113, 81)); (17, (119, 87)); (18, (101, 69)); (19, (114, 82)); (20, (116, 84)); (21, (121, 89));
   (22, (117, 85)); (23, (105, 73)); (24, (111, 79)); (25, (112, 80)); (26, (91, 123)); (27, (93, 125));
   (30, (97, 65)); (31, (115, 83)); (32, (100, 68)); (33, (102, 70)); (34, (103, 71)); (35, (104, 72));
   (36, (106, 74)); (37, (107, 75)); (38, (108, 76)); (39, (59, 58)); (40, (39, 34));
   (44, (122, 90)); (45, (120, 88)); (46, (99, 67)); (47, (118, 86)); (48, (98, 66)); (49, (110, 78));
   (50, (109, 77)); (51, (44, 60)); (52, (46, 62)); (53, (47, 63))].

(** Caps lock exchanges the two characters of the letters. *)
Definition layout_char (shift caps : bool) (plain shifted : Z) : Z :=
  let letter := (97 <=? plain) && (plain <=? 122) in
  if xorb shift (caps && letter) then shifted else plain.

(** The interrupts of a sequence of one-byte scan codes. *)
Fixpoint interrupts_of (beyond : Z → Z) (scans : list Z) : M (kbd Io.log) unit :=
  match scans with
  | [] => mret tt
  | scan :: scans => KBDinterrupt beyond scan 0;; interrupts_of beyond scans
  end.

(** What is queued when a key is pressed after caps lock was pressed and
    released and while shift is held, on a keyboard just initialised. *)
Definition type_key (beyond : Z → Z) (shift caps : bool) (scan : Z) : option (list Z) :=
  match (initKBD;; interrupts_of beyond ((if caps then [58; 186] else []) ++
           (if shift then [42] else []) ++ [scan])) (kbd0 (Cpu.Interrupts (replicate 256 None) [])) with
  | Ok (_, k, _) => Some (queue k)
  | _ => None
  end.

Definition types_ok (scan plain shifted : Z) (shift caps : bool) : bool :=
  bool_decide (type_key (λ _, 0) shift caps scan = Some [layout_char shift caps plain shifted]).
Definition row_ok (scan plain shifted : Z) : bool :=
  types_ok scan plain shifted false false && types_ok scan plain shifted false true &&
  types_ok scan plain shifted true false && types_ok scan plain shifted true true.

Lemma us_layout_ok : Forall (λ '(scan, (plain, shifted)), row_ok scan plain shifted = true) us_layout.
Proof. unfold us_layout. repeat (apply Forall_cons; split; [vm_compute; reflexivity|]). by apply Forall_nil. Qed.

Lemma types_ok_spec scan plain shifted shift caps :
  types_ok scan plain shifted shift caps = true →
  type_key (λ _, 0) shift caps scan = Some [layout_char shift caps plain shifted].
Proof. apply bool_decide_eq_true. Qed.

Lemma row_ok_spec scan plain shifted shift caps :
  row_ok scan plain shifted = true → types_ok scan plain shifted shift caps = true.
Proof. rewrite /row_ok !andb_true_iff. intros [[[? ?] ?] ?]. by destruct shift, caps. Qed.

(** On a keyboard just initialised every printing key of a US keyboard
    types its character under each combination of shift and caps lock. The
    backslash key is the exception: the apostrophe key is registered under
    its key code, so it types an apostrophe, and no key types a backslash;
    and the space bar types nothing while shift is held. *)
Lemma layout_typed scan plain shifted shift caps :
  (scan, (plain, shifted)) ∈ us_layout →
  type_key (λ _, 0) shift caps scan = Some [layout_char shift caps plain shifted] ∧
  type_key (λ _, 0) false false 43 = Some [39] ∧ type_key (λ _, 0) true false 43 = Some [34] ∧
  type_key (λ _, 0) false false 57 = Some [32] ∧ type_key (λ _, 0) true false 57 = Some [].
Proof.
  intros Hin. split.
  - apply types_ok_spec, row_ok_spec. revert Hin. generalize us_layout_ok. rewrite Forall_forall.
    intros Hall Hin. exact (Hall _ Hin).
  - split_and!; vm_compute; reflexivity.
Qed.

(** [initKBD] succeeds, but the scan codes of the extended keys have
    two bytes and index a table of 512 entries: fifteen of its stores go to
    the words 57373 to 57437 past the start of the table, over whatever the
    linker put there. *)
Lemma initKBD_out_of_bounds :
  ∃ k, initKBD (kbd0 (Cpu.Interrupts (replicate 256 None) ([] : Io.log))) = Ok (tt, k, []) ∧
    size (filter (λ e : Z * Z, 512 ≤ e.1) (scanToKeycode k)) = 15%nat ∧
    map_Forall (λ c _, c < 512 ∨ 57344 < c) (scanToKeycode k).
Proof.
  eexists. split; [by vm_compute|]. split; [by vm_compute|].
  apply (bool_decide_unpack _). by vm_compute.
Qed.

Lemma kbd_fifo_witness :
  let k := kbd0 (P:=Io.log) (Cpu.Interrupts (replicate 256 None) []) in
  typed (World (advance_tail (put 98 (put 97 k))) None [97; 98] [97]) =
    delivered (World (advance_tail (put 98 (put 97 k))) None [97; 98] [97]) ++ queue (advance_tail (put 98 (put 97 k))) ∧
  (length (queue (advance_tail (put 98 (put 97 k)))) ≤ 255)%nat.
Proof.
  intros k. apply (kbd_fifo (World k None [] []) (World (advance_tail (put 98 (put 97 k))) None [97; 98] [97]));
    [apply kbd0_ok|done|done|done|].
  eapply rtc_l; [apply (step_irq 97); reflexivity|].
  eapply rtc_l; [apply step_read; vm_compute; discriminate|].
  eapply rtc_l; [apply (step_irq 98); reflexivity|].
  eapply rtc_l; [apply step_advance|].
  match goal with |- rtc _ ?a ?b => replace a with b by (vm_compute; reflexivity) end. apply rtc_refl.
Defined.

Lemma layout_typed_witness :
  type_key (λ _, 0) true true 30 = Some [layout_char true true 97 65] ∧
  type_key (λ _, 0) false false 43 = Some [39] ∧ type_key (λ _, 0) true false 43 = Some [34] ∧
  type_key (λ _, 0) false false 57 = Some [32] ∧ type_key (λ _, 0) true false 57 = Some [].
Proof.
  apply (layout_typed 30 97 65 true true). rewrite /us_layout. by do 25 right; left.
Defined.

End Keyboard.
