(* ===== verification/Typing.v ===== *)
(** Typing: from the keys struck to the characters the shell takes
    (keyboard.c).

    [delivers] is how the handler and [getchar_from_buffer] share the work:
    an interrupt is handled while nothing is queued, and a character is
    taken as soon as one is. [strokes_delivered]: what is typed on a US
    keyboard, shift and caps lock included, is what the shell gets. *)
From S2P Require Import Prelude.
From S2P Require Import Io.
From S2P Require Import Cpu.
From S2P Require Import Keyboard.
Import Keyboard.
#[local] Open Scope general_if_scope.

Module Typing.

Section delivers.
Context {P : Type} (beyond : Z → Z).
Implicit Types (k : kbd P).

(** The interrupts [arrivals], each with its scan code byte and the status
    read after it, give the shell these characters and leave the keyboard
    with nothing queued. *)
Inductive delivers : kbd P → list (Z * Z) → list Z → kbd P → Prop :=
  | del_done k : kbuf_head k = kbuf_tail k → delivers k [] [] k
  | del_char k arrivals cs k' :
      kbuf_head k ≠ kbuf_tail k → delivers (advance_tail k) arrivals cs k' →
      delivers k arrivals (read_tail k :: cs) k'
  | del_irq k data status arrivals cs k1 k' :
      kbuf_head k = kbuf_tail k → KBDinterrupt beyond data status k = Ok (tt, k1, []) →
      delivers k1 arrivals cs k' → delivers k ((data, status) :: arrivals) cs k'.

Lemma delivers_app k1 k2 k3 as1 as2 cs1 cs2 :
  delivers k1 as1 cs1 k2 → delivers k2 as2 cs2 k3 → delivers k1 (as1 ++ as2) (cs1 ++ cs2) k3.
Proof.
  induction 1 as [k He|k arrivals cs k' Hne _ IH|k d st arrivals cs k' k'' He Hi _ IH]; intros H2; [done|..].
  - apply del_char; [done|by apply IH].
  - eapply del_irq; [done..|by apply IH].
Qed.

(** * One interrupt *)

Definition pressed_as (kc : Z) (b : bool) k : kbd P :=
  set_keys (<[kc := KeyData b (ASCII (key kc k)) (altASCII (key kc k))]> (keys k)) k.
Definition ascii_of (kc : Z) k : Z :=
  let d := key kc k in
  if isPressed (key KEY_LSHIFT k) || isPressed (key KEY_RSHIFT k) then
    if capsLock k && ((65 <=? altASCII d) && (altASCII d <=? 90)) then ASCII d else altASCII d
  else if capsLock k && ((97 <=? ASCII d) && (ASCII d <=? 122)) then altASCII d else ASCII d.

Lemma load_key_run kc k : 0 ≤ kc < 256 → load_key kc k = Ok (key kc k, k, []).
Proof.
  intros Hk. rewrite /load_key (proj2 (Z.leb_le _ _)) ?(proj2 (Z.ltb_lt _ _)); [lia..|].
  by rewrite /= (bind_ok _ _ k k k).
Qed.
Lemma press_run kc b k : 0 ≤ kc < 256 → press kc b k = Ok (tt, pressed_as kc b k, []).
Proof.
  intros Hk. rewrite /press (bind_ok _ _ _ _ _ (load_key_run kc k Hk)) /store_key.
  by rewrite (proj2 (Z.leb_le _ _)) ?(proj2 (Z.ltb_lt _ _)); [lia..|].
Qed.
Lemma getASCII_run kc k : 0 ≤ kc < 256 → getASCII kc k = Ok (ascii_of kc k, k, []).
Proof.
  intros Hk. rewrite /getASCII /isDown /fmap /M_map.
  do 2 (rewrite bind_assoc (bind_ok _ _ _ _ _ (load_key_run _ _ _)); [done|];
        rewrite (bind_ok _ _ k _ k eq_refl)).
  rewrite (bind_ok _ _ _ _ _ (load_key_run kc k Hk)) (bind_ok _ _ k k k) //.
Qed.

(** The bytes of one-byte scan codes. *)
Definition code_ok (b : Z) : bool :=
  (scan_code [u8 b] =? b) && (Z.land b 128 =? 0) && (scan_code [u8 (b + 128)] =? b + 128) &&
  negb (Z.land (b + 128) 128 =? 0) && (Z.land (b + 128) 65407 =? b).
Lemma code_ok_spec b : 0 ≤ b < 128 → code_ok b = true.
Proof.
  intros Hb. assert (Hall : Forall (λ b, code_ok b = true) (seqZ 0 128)).
  { apply (bool_decide_unpack _). by vm_compute. }
  rewrite Forall_forall in Hall. apply Hall, elem_of_seqZ. lia.
Qed.

Lemma read_code_run data status k :
  scanCodeBuffer k = [] → Z.land status 1 = 0 →
  readScanCode data status k = Ok (true, set_scan [u8 data] k, []).
Proof. intros Hs Hst. rewrite /readScanCode (bind_ok _ _ k k k) // Hs Hst //. Qed.

Lemma make_run scan status kc k :
  scanCodeBuffer k = [] → Z.land status 1 = 0 → 0 ≤ scan < 128 → keycode beyond scan k = kc → 0 ≤ kc < 256 →
  KBDinterrupt beyond scan status k = Ok (tt, set_scan []
    (let k1 := pressed_as kc true (set_scan [u8 scan] k) in
     let ch := ascii_of kc k1 in if ch =? 0 then k1 else put ch k1), []).
Proof.
  intros Hb Hst Hs Hkc Hr. pose proof (code_ok_spec scan Hs) as Hc. rewrite /code_ok !andb_true_iff in Hc.
  destruct Hc as [[[[Hcode%Z.eqb_eq Hl%Z.eqb_eq] _] _] _].
  rewrite /KBDinterrupt (bind_ok _ _ _ _ _ (read_code_run scan status k Hb Hst)).
  set k0 := set_scan [u8 scan] k. rewrite (bind_ok _ _ k0 k0 k0) //.
  change (scanCodeBuffer k0) with [u8 scan]. rewrite Hcode Hl. cbn [Z.eqb negb].
  change (keycode beyond scan k0) with (keycode beyond scan k). rewrite Hkc bind_assoc.
  rewrite (bind_ok _ _ _ _ _ (press_run kc true k0 Hr)) bind_assoc (bind_ok _ _ _ _ _ (getASCII_run kc _ Hr)).
  set k1 := pressed_as kc true k0. cbn zeta. destruct (ascii_of kc k1 =? 0).
  - by rewrite (bind_ok _ _ k1 tt k1).
  - by rewrite (bind_ok _ _ k1 tt (put (ascii_of kc k1) k1)).
Qed.
Lemma break_run scan status kc k :
  scanCodeBuffer k = [] → Z.land status 1 = 0 → 0 ≤ scan < 128 → keycode beyond scan k = kc → 0 ≤ kc < 256 →
  KBDinterrupt beyond (scan + 128) status k = Ok (tt, set_scan []
    (let k1 := pressed_as kc false (set_scan [u8 (scan + 128)] k) in
     if kc =? KEY_CAPS then set_caps (negb (capsLock k)) k1 else k1), []).
Proof.
  intros Hb Hst Hs Hkc Hr. pose proof (code_ok_spec scan Hs) as Hc. rewrite /code_ok !andb_true_iff in Hc.
  destruct Hc as [[[[_ _] Hcode%Z.eqb_eq] Hl] Hm%Z.eqb_eq].
  rewrite /KBDinterrupt (bind_ok _ _ _ _ _ (read_code_run _ status k Hb Hst)).
  set k0 := set_scan [u8 (scan + 128)] k. rewrite (bind_ok _ _ k0 k0 k0) //.
  change (scanCodeBuffer k0) with [u8 (scan + 128)]. rewrite Hcode Hl Hm.
  change (keycode beyond scan k0) with (keycode beyond scan k). rewrite Hkc bind_assoc.
  rewrite (bind_ok _ _ _ _ _ (press_run kc false k0 Hr)). set k1 := pressed_as kc false k0.
  destruct (kc =? KEY_CAPS).
  - by rewrite (bind_ok _ _ k1 tt (set_caps (negb (capsLock k1)) k1)).
  - by rewrite (bind_ok _ _ k1 tt k1).
Qed.

(** * The keyboard between two strokes *)

(** What [initKBD] fills in. *)
Definition scan_table : gmap Z Z := fold_left (λ m '(kc, scan, _, _), <[scan := kc]> m) key_table ∅.
Definition key_map : gmap Z keyData := fold_left (λ m '(kc, _, a, b), <[kc := KeyData false a b]> m) key_table ∅.
Definition key0 (kc : Z) : keyData := default (KeyData false 0 0) (key_map !! kc).

Lemma register_keys_run rs k :
  Forall (λ '(kc, _, _, _), 0 ≤ kc < 256) rs →
  register_keys rs k = Ok (tt, set_keys (fold_left (λ m '(kc, _, a, b), <[kc := KeyData false a b]> m) rs (keys k))
    (set_codes (fold_left (λ m '(kc, scan, _, _), <[scan := kc]> m) rs (scanToKeycode k)) k), []).
Proof.
  intros Hrs. revert k. induction Hrs as [|[[[kc scan] a] b] rs Hk _ IH]; intros k; [by destruct k|]. cbn [register_keys fold_left].
  rewrite /registerKey bind_assoc (bind_ok _ _ k tt (set_codes (<[scan := kc]> (scanToKeycode k)) k)) // /store_key.
  rewrite (proj2 (Z.leb_le _ _)) ?(proj2 (Z.ltb_lt _ _)); [lia..|]. cbn [andb].
  rewrite (bind_ok _ _ _ tt _ eq_refl) IH. by destruct k.
Qed.

(** The layout in place, shift held or not, caps lock, no scan code begun
    and nothing queued. *)
Record at_rest (shift caps : bool) k : Prop := {
  ar_codes : scanToKeycode k = scan_table;
  ar_chars kc : ASCII (key kc k) = ASCII (key0 kc) ∧ altASCII (key kc k) = altASCII (key0 kc);
  ar_lshift : isPressed (key KEY_LSHIFT k) = shift;
  ar_rshift : isPressed (key KEY_RSHIFT k) = false;
  ar_caps : capsLock k = caps;
  ar_scan : scanCodeBuffer k = [];
  ar_queue : queue_ok k;
  ar_empty : kbuf_head k = kbuf_tail k
}.

Definition initialised (i : Cpu.interrupts P) : kbd P :=
  set_keys key_map (set_codes scan_table
    (set_irqs (Cpu.set_handlers (<[33%nat := Some "KBDinterrupt"]> (Cpu.handlers i)) i) (kbd0 i))).
Lemma key_codes : Forall (λ '(kc, _, _, _), 0 ≤ kc < 256) key_table.
Proof. apply (bool_decide_unpack _). by vm_compute. Qed.
Lemma init_run (i : Cpu.interrupts P) : initKBD (kbd0 i) = Ok (tt, initialised i, []).
Proof.
  assert (Hr : zoom irqs set_irqs (Cpu.registerInterruptHandler Cpu.KBD_INT_IDX "KBDinterrupt") (kbd0 i) =
    Ok (tt, set_irqs (Cpu.set_handlers (<[33%nat := Some "KBDinterrupt"]> (Cpu.handlers i)) i) (kbd0 i), [])).
  { reflexivity. }
  rewrite /initKBD (bind_ok _ _ _ _ _ Hr). exact (register_keys_run key_table _ key_codes).
Qed.
Lemma init_at_rest (i : Cpu.interrupts P) : at_rest false false (initialised i).
Proof. split; [reflexivity|by intros kc|by vm_compute..|reflexivity|reflexivity|split; simpl; unfold KBUF_SIZE; lia|reflexivity]. Qed.

(** * Strokes *)

(** Enter, backspace, space, tab and the printing keys. *)
Definition typing_table : list (Z * (Z * Z)) :=
  (28, (10, 0)) :: (14, (8, 0)) :: (57, (32, 0)) :: (15, (9, 0)) :: us_layout.
Definition row_good (row : Z * (Z * Z)) : bool :=
  let '(scan, (plain, shifted)) := row in
  match scan_table !! scan with
  | Some kc =>
      (0 <=? scan) && (scan <? 128) && (0 <=? kc) && (kc <? 256) &&
      negb (kc =? KEY_LSHIFT) && negb (kc =? KEY_RSHIFT) && negb (kc =? KEY_CAPS) &&
      (ASCII (key0 kc) =? plain) && (altASCII (key0 kc) =? shifted) &&
      Bool.eqb ((65 <=? shifted) && (shifted <=? 90)) ((97 <=? plain) && (plain <=? 122))
  | None => false
  end.
Record row_spec (scan plain shifted kc : Z) : Prop := {
  rs_scan : 0 ≤ scan < 128;
  rs_code : scan_table !! scan = Some kc;
  rs_key : 0 ≤ kc < 256;
  rs_other : kc ≠ KEY_LSHIFT ∧ kc ≠ KEY_RSHIFT ∧ kc ≠ KEY_CAPS;
  rs_chars : ASCII (key0 kc) = plain ∧ altASCII (key0 kc) = shifted;
  rs_letter : (65 <=? shifted) && (shifted <=? 90) = (97 <=? plain) && (plain <=? 122)
}.
Lemma typing_rows scan plain shifted :
  (scan, (plain, shifted)) ∈ typing_table → ∃ kc, row_spec scan plain shifted kc.
Proof.
  assert (Hall : Forall (λ r, row_good r = true) typing_table).
  { apply (bool_decide_unpack _). by vm_compute. }
  rewrite Forall_forall in Hall. intros Hg%Hall. revert Hg. rewrite /row_good.
  destruct (scan_table !! scan) as [kc|] eqn:E; [|done]. rewrite !andb_true_iff !negb_true_iff.
  intros [[[[[[[[[? ?] ?] ?] ?] ?] ?] ?] ?] Hl%Bool.eqb_prop]. exists kc. split; [lia|done|lia|lia|lia|done].
Qed.

Lemma key_pressed kc b c k :
  key c (pressed_as kc b k) = if decide (c = kc) then KeyData b (ASCII (key kc k)) (altASCII (key kc k)) else key c k.
Proof.
  rewrite /pressed_as {1}/key /=. case_decide as Hc; [subst; by rewrite lookup_insert_eq|by rewrite lookup_insert_ne].
Qed.
Lemma chars_pressed kc b c k :
  ASCII (key c (pressed_as kc b k)) = ASCII (key c k) ∧ altASCII (key c (pressed_as kc b k)) = altASCII (key c k).
Proof. rewrite key_pressed. case_decide; by subst. Qed.

(** A key other than the shift keys. *)
Lemma pressed_at_rest shift caps kc b x k :
  at_rest shift caps k → kc ≠ KEY_LSHIFT → kc ≠ KEY_RSHIFT →
  at_rest shift caps (set_scan [] (pressed_as kc b (set_scan x k))).
Proof.
  intros [] Hl Hr. split; try done.
  - intros c. change (key c (set_scan [] ?k)) with (key c k).
    rewrite (proj1 (chars_pressed _ _ _ _)) (proj2 (chars_pressed _ _ _ _)). apply ar_chars0.
  - change (isPressed (key KEY_LSHIFT (pressed_as kc b (set_scan x k))) = shift). by rewrite key_pressed decide_False.
  - change (isPressed (key KEY_RSHIFT (pressed_as kc b (set_scan x k))) = false). by rewrite key_pressed decide_False.
  - by destruct ar_queue0.
Qed.

(** A character queued while nothing waits is the next one taken. *)
Lemma put_at_rest shift caps ch k :
  at_rest shift caps k → kbuf_head (put ch k) ≠ kbuf_tail (put ch k) ∧ read_tail (put ch k) = ch ∧
    at_rest shift caps (advance_tail (put ch k)).
Proof.
  intros Hk. pose proof Hk as [? ? ? ? ? ? Hq He]. destruct (put_queue ch k Hq) as (Hq'&Hqueue&_).
  rewrite (proj2 (queue_empty k Hq) He) bool_decide_false // in Hqueue. cbn [app] in Hqueue.
  assert (Hne : kbuf_head (put ch k) ≠ kbuf_tail (put ch k)).
  { intros Heq%(queue_empty _ Hq'). by rewrite Heq in Hqueue. }
  destruct (read_queue _ Hq' Hne) as [Hr Hq'']. rewrite Hqueue in Hr. injection Hr as Hch Hnil.
  symmetry in Hnil. split_and!; [done|done|]. apply (queue_empty _ Hq'') in Hnil.
  assert (Hsame : ∃ h t b, put ch k = set_buffer h t b k).
  { rewrite /put. case_match; [|by do 3 eexists]. exists (kbuf_head k), (kbuf_tail k), (keyboard_buffer k). by destruct k. }
  destruct Hsame as (h&t&b&Hput). rewrite Hput in Hq'', Hnil |- *. by split.
Qed.

Definition nonzero (ch : Z) : list Z := if ch =? 0 then [] else [ch].

Lemma code_at_rest shift caps k scan plain shifted kc :
  at_rest shift caps k → row_spec scan plain shifted kc → keycode beyond scan k = kc.
Proof. intros [] []. by rewrite /keycode ar_codes0 rs_code0. Qed.

Lemma make_delivers shift caps k scan plain shifted status :
  at_rest shift caps k → (scan, (plain, shifted)) ∈ typing_table → Z.land status 1 = 0 →
  ∃ k', delivers k [(scan, status)] (nonzero (layout_char shift caps plain shifted)) k' ∧ at_rest shift caps k'.
Proof.
  intros Hk [kc Hrow]%typing_rows Hst. pose proof Hrow as [Hs Hcode Hkc (Hnl&Hnr&_) [Hplain Hshifted] Hletter].
  pose proof (make_run scan status kc k (ar_scan _ _ _ Hk) Hst Hs (code_at_rest _ _ _ _ _ _ _ Hk Hrow) Hkc) as Hrun.
  set k1 := pressed_as kc true (set_scan [u8 scan] k) in Hrun. cbn zeta in Hrun.
  pose proof (pressed_at_rest shift caps kc true [u8 scan] k Hk Hnl Hnr) as Hk1. fold k1 in Hk1.
  assert (Hch : ascii_of kc k1 = layout_char shift caps plain shifted).
  { pose proof Hk1 as [_ Hchars Hls Hrs Hcaps _ _ _]. specialize (Hchars kc) as [Ha Hb].
    change (key kc (set_scan [] k1)) with (key kc k1) in Ha, Hb. change (capsLock k1 = caps) in Hcaps.
    change (isPressed (key KEY_LSHIFT k1) = shift) in Hls. change (isPressed (key KEY_RSHIFT k1) = false) in Hrs.
    rewrite /ascii_of Ha Hb Hls Hrs Hcaps Hplain Hshifted /layout_char Hletter orb_false_r.
    destruct shift, caps, ((97 <=? plain) && (plain <=? 122)); done. }
  rewrite Hch in Hrun. rewrite /nonzero. destruct (layout_char shift caps plain shifted =? 0).
  - exists (set_scan [] k1). split; [|done]. eapply del_irq; [apply Hk|exact Hrun|]. apply del_done, Hk1.
  - set ch := layout_char shift caps plain shifted in Hrun |- *.
    assert (Hcomm : set_scan [] (put ch k1) = put ch (set_scan [] k1)).
    { rewrite /put /=. by case_match. }
    rewrite Hcomm in Hrun. destruct (put_at_rest shift caps ch _ Hk1) as (Hne&Hread&Hrest).
    eexists. split; [|exact Hrest]. eapply del_irq; [apply Hk|exact Hrun|]. rewrite -{2}Hread.
    apply del_char; [done|]. apply del_done, Hrest.
Qed.
Lemma break_delivers shift caps k scan plain shifted status :
  at_rest shift caps k → (scan, (plain, shifted)) ∈ typing_table → Z.land status 1 = 0 →
  ∃ k', delivers k [(scan + 128, status)] [] k' ∧ at_rest shift caps k'.
Proof.
  intros Hk [kc Hrow]%typing_rows Hst. pose proof Hrow as [Hs Hcode Hkc (Hnl&Hnr&Hnc) _ _].
  pose proof (break_run scan status kc k (ar_scan _ _ _ Hk) Hst Hs (code_at_rest _ _ _ _ _ _ _ Hk Hrow) Hkc) as Hrun.
  rewrite (proj2 (Z.eqb_neq kc KEY_CAPS)) // in Hrun.
  pose proof (pressed_at_rest shift caps kc false [u8 (scan + 128)] k Hk Hnl Hnr) as Hk1.
  eexists. split; [|exact Hk1]. eapply del_irq; [apply Hk|exact Hrun|]. apply del_done, Hk1.
Qed.

(** Left shift going down and up, and the two codes of caps lock. *)
Lemma shift_at_rest shift caps b x k :
  at_rest shift caps k → at_rest b caps (set_scan [] (pressed_as KEY_LSHIFT b (set_scan x k))).
Proof.
  intros []. split; try done.
  - intros c. change (key c (set_scan [] ?k)) with (key c k).
    rewrite (proj1 (chars_pressed _ _ _ _)) (proj2 (chars_pressed _ _ _ _)). apply ar_chars0.
  - change (isPressed (key KEY_LSHIFT (pressed_as KEY_LSHIFT b (set_scan x k))) = b). by rewrite key_pressed.
  - change (isPressed (key KEY_RSHIFT (pressed_as KEY_LSHIFT b (set_scan x k))) = false). by rewrite key_pressed.
  - by destruct ar_queue0.
Qed.
Lemma special_code shift caps k scan kc :
  at_rest shift caps k → scan_table !! scan = Some kc → keycode beyond scan k = kc.
Proof. intros [] Hc. by rewrite /keycode ar_codes0 Hc. Qed.

Lemma silent_key kc k : ASCII (key0 kc) = 0 → altASCII (key0 kc) = 0 →
  ASCII (key kc k) = ASCII (key0 kc) ∧ altASCII (key kc k) = altASCII (key0 kc) → ascii_of kc k = 0.
Proof. intros Ha Hb [Hka Hkb]. rewrite /ascii_of Hka Hkb Ha Hb. by repeat case_match. Qed.

Lemma shift_delivers shift caps k (b : bool) status :
  at_rest shift caps k → Z.land status 1 = 0 →
  ∃ k', delivers k [(if b then 42 else 170, status)] [] k' ∧ at_rest b caps k'.
Proof.
  intros Hk Hst.
  assert (Hcode : keycode beyond 42 k = KEY_LSHIFT) by by eapply special_code; [|vm_compute; reflexivity].
  pose proof (shift_at_rest shift caps b [u8 (if b then 42 else 170)] k Hk) as Hk1.
  exists (set_scan [] (pressed_as KEY_LSHIFT b (set_scan [u8 (if b then 42 else 170)] k))). split; [|done].
  eapply del_irq; [apply Hk| |apply del_done, Hk1]. destruct b.
  - rewrite (make_run 42 status KEY_LSHIFT k (ar_scan _ _ _ Hk) Hst) //.
    cbn zeta. rewrite silent_key //. apply (ar_chars _ _ _ Hk1).
  - by rewrite (break_run 42 status KEY_LSHIFT k (ar_scan _ _ _ Hk) Hst).
Qed.
Lemma caps_delivers shift caps k status :
  at_rest shift caps k → Z.land status 1 = 0 →
  ∃ k', delivers k [(58, status); (186, status)] [] k' ∧ at_rest shift (negb caps) k'.
Proof.
  intros Hk Hst.
  assert (Hcode : ∀ b k, at_rest shift b k → keycode beyond 58 k = KEY_CAPS).
  { intros b k0 Hk0. eapply special_code; [exact Hk0|]. by vm_compute. }
  pose proof (pressed_at_rest shift caps KEY_CAPS true [u8 58] k Hk ltac:(done) ltac:(done)) as Hk1.
  set k1 := set_scan [] (pressed_as KEY_CAPS true (set_scan [u8 58] k)) in Hk1.
  pose proof (pressed_at_rest shift caps KEY_CAPS false [u8 186] k1 Hk1 ltac:(done) ltac:(done)) as Hk2.
  set k2 := set_scan [] (pressed_as KEY_CAPS false (set_scan [u8 186] k1)) in Hk2.
  assert (Hk3 : at_rest shift (negb caps) (set_caps (negb caps) k2)) by (destruct Hk2 as [? ? ? ? ? ? [] ?]; by split).
  exists (set_caps (negb caps) k2). split; [|done].
  eapply (del_irq _ _ _ _ _ k1); [apply Hk| |].
  - rewrite (make_run 58 status KEY_CAPS k (ar_scan _ _ _ Hk) Hst _ (Hcode _ _ Hk)) //.
    cbn zeta. rewrite silent_key //. apply (ar_chars _ _ _ Hk1).
  - eapply del_irq; [apply Hk1| |apply del_done, Hk3].
    rewrite (break_run 58 status KEY_CAPS k1 (ar_scan _ _ _ Hk1) Hst _ (Hcode _ _ Hk1)) //.
    by rewrite (ar_caps _ _ _ Hk1).
Qed.

(** A key struck with shift held or not, or caps lock. *)
Inductive stroke : Set := Key (shift : bool) (scan : Z) | CapsLock.
Definition chars_of (scan : Z) : option (Z * Z) := (list_to_map typing_table : gmap Z (Z * Z)) !! scan.
Definition stroke_ok (s : stroke) : Prop := match s with Key _ scan => is_Some (chars_of scan) | CapsLock => True end.
Definition codes_of (s : stroke) : list Z :=
  match s with
  | Key true scan => [42; scan; scan + 128; 170]
  | Key false scan => [scan; scan + 128]
  | CapsLock => [58; 186]
  end.
Fixpoint text_of (caps : bool) (ss : list stroke) : list Z :=
  match ss with
  | [] => []
  | CapsLock :: ss => text_of (negb caps) ss
  | Key shift scan :: ss =>
      match chars_of scan with
      | Some (plain, shifted) => nonzero (layout_char shift caps plain shifted) ++ text_of caps ss
      | None => text_of caps ss
      end
  end.

Lemma strokes_ok caps ss status k :
  at_rest false caps k → Forall stroke_ok ss → Z.land status 1 = 0 →
  ∃ k' caps', delivers k ((λ c, (c, status)) <$> (ss ≫= codes_of)) (text_of caps ss) k' ∧ at_rest false caps' k'.
Proof.
  intros Hk Hss Hst. revert k caps Hk. induction Hss as [|s ss Hs _ IH]; intros k caps Hk.
  { exists k, caps. split; [|done]. apply del_done, Hk. }
  change ((s :: ss) ≫= codes_of) with (codes_of s ++ (ss ≫= codes_of)). rewrite fmap_app.
  assert (Hnext : ∀ cs k1 caps1, delivers k ((λ c, (c, status)) <$> codes_of s) cs k1 → at_rest false caps1 k1 →
    ∃ k' caps', delivers k (((λ c, (c, status)) <$> codes_of s) ++ ((λ c, (c, status)) <$> (ss ≫= codes_of)))
      (cs ++ text_of caps1 ss) k' ∧ at_rest false caps' k').
  { intros cs k1 caps1 Hd Hr. destruct (IH k1 caps1 Hr) as (k'&caps'&Hd'&Hr'). exists k', caps'. split; [|done].
    by eapply delivers_app. }
  destruct s as [shift scan|].
  - cbn [text_of]. destruct Hs as [[plain shifted] Hc]. rewrite Hc.
    pose proof (elem_of_list_to_map_2 _ _ _ Hc) as Hin. clear Hc. rename Hin into Hc. destruct shift.
    + destruct (shift_delivers _ _ _ true _ Hk Hst) as (k1&Hd1&Hr1).
      destruct (make_delivers _ _ _ _ _ _ _ Hr1 Hc Hst) as (k2&Hd2&Hr2).
      destruct (break_delivers _ _ _ _ _ _ _ Hr2 Hc Hst) as (k3&Hd3&Hr3).
      destruct (shift_delivers _ _ _ false _ Hr3 Hst) as (k4&Hd4&Hr4).
      apply (Hnext (nonzero _) k4); [|done].
      pose proof (delivers_app _ _ _ _ _ _ _ Hd1 (delivers_app _ _ _ _ _ _ _ Hd2
        (delivers_app _ _ _ _ _ _ _ Hd3 Hd4))) as Hd. by rewrite !app_nil_r in Hd.
    + destruct (make_delivers _ _ _ _ _ _ _ Hk Hc Hst) as (k2&Hd2&Hr2).
      destruct (break_delivers _ _ _ _ _ _ _ Hr2 Hc Hst) as (k3&Hd3&Hr3).
      apply (Hnext (nonzero _) k3); [|done].
      pose proof (delivers_app _ _ _ _ _ _ _ Hd2 Hd3) as Hd. by rewrite !app_nil_r in Hd.
  - destruct (caps_delivers _ _ _ _ Hk Hst) as (k1&Hd1&Hr1). by eapply (Hnext [] k1).
Qed.

(** C17: What is typed is what the shell gets. From the keyboard as [initKBD]
    leaves it, any sequence of strokes of the typing keys, each with shift
    held or not and with caps lock switched in between, reaches the shell,
    through the interrupt handler and the queue, as exactly the characters
    of a US keyboard, in order, each once; and the keyboard is then ready
    for more. The one key whose character is not its own is the apostrophe,
    which shares a key code with the backslash. *)
Theorem strokes_delivered (i : Cpu.interrupts P) ss status :
  Forall stroke_ok ss → Z.land status 1 = 0 →
  ∃ k k' caps', initKBD (kbd0 i) = Ok (tt, k, []) ∧
    delivers k ((λ c, (c, status)) <$> (ss ≫= codes_of)) (text_of false ss) k' ∧ at_rest false caps' k'.
Proof.
  intros Hss Hst. destruct (strokes_ok false ss status _ (init_at_rest i) Hss Hst) as (k'&caps'&Hd&Hr).
  exists (initialised i), k', caps'. split; [apply init_run|done].
Qed.
End delivers.

(** [Mkdir] by caps lock and shift, and Enter. *)
Definition demo_strokes : list stroke :=
  [CapsLock; Key false 50; CapsLock; Key false 37; Key false 32; Key false 23; Key false 19; Key true 30; Key false 28].
Example demo_typed_text : text_of false demo_strokes = [77; 107; 100; 105; 114; 65; 10].
Proof. by vm_compute. Qed.

Lemma strokes_delivered_witness :
  ∃ k k' caps', initKBD (kbd0 (Cpu.Interrupts (replicate 256 None) ([] : Io.log))) = Ok (tt, k, []) ∧
    delivers (λ _, 0) k ((λ c, (c, 28)) <$> (demo_strokes ≫= codes_of)) (text_of false demo_strokes) k' ∧
    at_rest false caps' k'.
Proof.
  apply (strokes_delivered (λ _, 0) (Cpu.Interrupts (replicate 256 None) ([] : Io.log)) demo_strokes 28).
  - repeat (apply Forall_cons; split; [first [exact I|eexists; vm_compute; reflexivity]|]). apply Forall_nil. exact I.
  - reflexivity.
Defined.
End Typing.
