(* ===== verification/Memory.v ===== *)
(** libc/src/string: the functions that write to memory.

    Memory is the list of the bytes of one object, a pointer an index into
    it; an access outside the object makes the function fail ([None]).
    Loops are over the bytes in the order of the code. *)
From S2P Require Import Prelude.
#[local] Open Scope general_if_scope.

Module Memory.

Definition memory : Type := list Z.
Definition rd (m : memory) (i : nat) : option Z := m !! i.
Definition wr (i : nat) (v : Z) (m : memory) : option memory :=
  if decide (i < length m)%nat then Some (<[i := v]> m) else None.

(** One loop body for each index, in order. *)
Fixpoint for_each (body : nat → memory → option memory) (js : list nat) (m : memory) : option memory :=
  match js with
  | [] => Some m
  | i :: js => m ← body i m; for_each body js m
  end.

Definition copy_byte (dst src i : nat) (m : memory) : option memory :=
  b ← rd m (src + i); wr (dst + i) b m.

Definition memset (buf : nat) (value : Z) (size : nat) (m : memory) : option memory :=
  for_each (λ i, wr (buf + i) (u8 value)) (seq 0 size) m.
Definition memcpy (dst src size : nat) (m : memory) : option memory :=
  for_each (copy_byte dst src) (seq 0 size) m.
Definition memmove (dst src size : nat) (m : memory) : option memory :=
  if decide (dst < src)%nat then for_each (copy_byte dst src) (seq 0 size) m
  else for_each (copy_byte dst src) (rev (seq 0 size)) m.

(** The string functions; [fuel] bounds the loop by the size of the object,
    past which it has failed. *)
Fixpoint strcpy_loop (fuel : nat) (s t : nat) (m : memory) : option memory :=
  match fuel with
  | O => None
  | S fuel =>
      c ← rd m t; m ← wr s c m;
      if c =? 0 then Some m else strcpy_loop fuel (S s) (S t) m
  end.
Definition strcpy (s t : nat) (m : memory) : option memory := strcpy_loop (S (length m)) s t m.

(** [strncpy]: the text is the value of the source string, outside of the
    object written. *)
Fixpoint strncpy_text (n : nat) (s : nat) (t : list Z) (m : memory) : option memory :=
  match n with
  | O => Some m
  | S n =>
      match t with
      | [] => m ← wr s 0 m; strncpy_text n (S s) [] m
      | c :: t => m ← wr s c m; strncpy_text n (S s) t m
      end
  end.

Fixpoint find_nul (fuel : nat) (s : nat) (m : memory) : option nat :=
  match fuel with
  | O => None
  | S fuel => c ← rd m s; if c =? 0 then Some s else find_nul fuel (S s) m
  end.
Definition strcat (s t : nat) (m : memory) : option memory :=
  e ← find_nul (S (length m)) s m; strcpy_loop (S (length m)) e t m.
Definition strncat (s : nat) (t : list Z) (n : nat) (m : memory) : option memory :=
  e ← find_nul (S (length m)) s m; strncpy_text n e t m.

(** [strchr]: the index of the first [c]. *)
Fixpoint strchr (fuel : nat) (s : nat) (c : Z) (m : memory) : option (option nat) :=
  match fuel with
  | O => None
  | S fuel =>
      d ← rd m s;
      if d =? 0 then Some (if c =? 0 then Some s else None)
      else if d =? c then Some (Some s) else strchr fuel (S s) c m
  end.

(** * Facts *)

(** [m] with [new] from [i] on. *)
Definition put (i : nat) (new m : memory) : memory := take i m ++ new ++ drop (i + length new) m.

Lemma put_lookup i new m k : (i + length new ≤ length m)%nat →
  put i new m !! k = if decide (i ≤ k < i + length new)%nat then new !! (k - i)%nat else m !! k.
Proof.
  intros Hl. rewrite /put. case_decide as Hk.
  - rewrite lookup_app_r length_take; [lia|]. rewrite lookup_app_l; [lia|]. f_equal. lia.
  - destruct (decide (k < i)%nat).
    + rewrite lookup_app_l ?length_take; [lia|]. by rewrite lookup_take; case_decide; [|lia].
    + rewrite lookup_app_r length_take; [lia|]. rewrite lookup_app_r; [lia|].
      rewrite lookup_drop. f_equal. lia.
Qed.

Lemma length_put i new m : (i + length new ≤ length m)%nat → length (put i new m) = length m.
Proof. intros Hl. rewrite /put !length_app length_take length_drop. lia. Qed.

Lemma put_snoc i t v m : (i + length t < length m)%nat →
  <[(i + length t)%nat := v]> (put i t m) = put i (t ++ [v]) m.
Proof.
  intros Hl. apply list_eq. intros k. destruct (decide (k = i + length t)%nat) as [->|Hk].
  - rewrite list_lookup_insert_eq; [rewrite length_put; lia|]. rewrite put_lookup length_app /=; [lia|].
    rewrite decide_True; [lia|]. rewrite Nat.add_comm Nat.add_sub. by rewrite list_lookup_middle.
  - rewrite list_lookup_insert_ne // !put_lookup ?length_app /=; [lia..|].
    repeat case_decide; try lia; [|done]. rewrite lookup_app_l //. lia.
Qed.

Lemma wr_ok i v m : (i < length m)%nat → wr i v m = Some (<[i := v]> m).
Proof. intros Hi. by rewrite /wr decide_True. Qed.

(** Copying the bytes [js], each read before it is overwritten. *)
Lemma copy_bytes dst src js m :
  Forall (λ i, src + i < length m ∧ dst + i < length m)%nat js → NoDup js →
  (∀ a b j, js = a ++ j :: b → Forall (λ i, dst + i ≠ src + j)%nat a) →
  ∃ m', for_each (copy_byte dst src) js m = Some m' ∧ length m' = length m ∧
    (∀ i, i ∈ js → m' !! (dst + i)%nat = m !! (src + i)%nat) ∧
    (∀ k, (∀ i, i ∈ js → k ≠ dst + i)%nat → m' !! k = m !! k).
Proof.
  revert m. induction js as [|i js IH]; intros m Hb Hnd Hord; [by exists m; split_and!; [..|by intros ? []%not_elem_of_nil|]|].
  apply Forall_cons in Hb as [[Hs Hd] Hb]. apply NoDup_cons in Hnd as [Hi Hnd]. cbn [for_each].
  destruct (lookup_lt_is_Some_2 m (src + i) Hs) as [b Hbyte].
  rewrite /copy_byte /rd Hbyte. cbn [mbind option_bind]. rewrite wr_ok //. cbn [mbind option_bind].
  destruct (IH (<[dst + i := b]> m)%nat) as (m'&Hrun&Hlen&Hin&Hout).
  - rewrite length_insert. done.
  - done.
  - intros a c j Heq. specialize (Hord (i :: a) c j). rewrite Heq in Hord. by apply Forall_cons in Hord as [_ ?].
  - exists m'. rewrite length_insert in Hlen. split_and!; [done|done| |].
    + intros j [->|Hj]%elem_of_cons.
      * rewrite Hout; [intros k Hk ?; assert (k = i) as -> by lia; done|]. by rewrite list_lookup_insert_eq.
      * rewrite Hin // list_lookup_insert_ne //.
        apply list_elem_of_split in Hj as (a&c&->). specialize (Hord (i :: a) c j eq_refl).
        by apply Forall_cons in Hord as [? _].
    + intros k Hk. rewrite Hout; [intros j Hj; apply Hk; by right|].
      rewrite list_lookup_insert_ne //. intros <-. by apply (Hk i); [left|].
Qed.

Lemma split_order {A} (l a : list A) j b x i :
  l = a ++ j :: b → a !! x = Some i → l !! x = Some i ∧ l !! length a = Some j.
Proof.
  intros -> Hx. rewrite lookup_app_l; [by eapply lookup_lt_Some|]. by rewrite list_lookup_middle.
Qed.

(** [memmove] moves a block to any place of the same object, however the
    two overlap: the destination holds the bytes the source held before, and
    nothing else changes. *)
Lemma memmove_spec dst src size m :
  (src + size ≤ length m)%nat → (dst + size ≤ length m)%nat →
  memmove dst src size m = Some (put dst (take size (drop src m)) m).
Proof.
  intros Hs Hd. rewrite /memmove.
  assert (Hall : ∀ js, js ≡ₚ seq 0 size → (∀ a b j, js = a ++ j :: b → Forall (λ i, dst + i ≠ src + j)%nat a) →
    for_each (copy_byte dst src) js m = Some (put dst (take size (drop src m)) m)).
  { intros js Hperm Hord. destruct (copy_bytes dst src js m) as (m'&->&Hlen&Hin&Hout).
    - apply Forall_forall. intros i Hi. rewrite Hperm in Hi. apply elem_of_seq in Hi. lia.
    - rewrite Hperm. apply NoDup_seq.
    - done.
    - assert (Hl : length (take size (drop src m)) = size) by (rewrite length_take length_drop; lia).
      f_equal. apply list_eq. intros k. rewrite put_lookup Hl //. case_decide as Hk.
      + replace k with (dst + (k - dst))%nat at 1 by lia. rewrite Hin.
        { rewrite Hperm elem_of_seq. lia. }
        rewrite lookup_take. case_decide; [|lia]. by rewrite lookup_drop.
      + apply Hout. intros i Hi ->. rewrite Hperm in Hi. apply elem_of_seq in Hi. lia. }
  destruct (decide (dst < src)%nat) as [Hlt|Hge]; apply Hall.
  - done.
  - intros a b j Heq. apply Forall_forall. intros i (x&Hx)%list_elem_of_lookup.
    destruct (split_order _ _ _ _ _ _ Heq Hx) as [Hi Hj].
    apply lookup_seq in Hj as [-> _]. apply lookup_seq in Hi as [-> _]. apply lookup_lt_Some in Hx. lia.
  - by rewrite -Permutation_rev.
  - intros a b j Heq. apply Forall_forall. intros i (x&Hx)%list_elem_of_lookup.
    destruct (split_order _ _ _ _ _ _ Heq Hx) as [Hi Hj]. rewrite rev_alt in Hi Hj.
    apply reverse_lookup_Some in Hj as [Hj Hj']. apply reverse_lookup_Some in Hi as [Hi Hi'].
    apply lookup_seq in Hj as [-> _]. apply lookup_seq in Hi as [-> _]. apply lookup_lt_Some in Hx.
    rewrite length_seq in Hj' Hi' |- *. lia.
Qed.

Lemma memmove_spec_witness : memmove 2 0 3 [1; 2; 3; 4; 5] = Some (put 2 (take 3 (drop 0 [1; 2; 3; 4; 5])) [1; 2; 3; 4; 5]).
Proof. apply (memmove_spec 2 0 3 [1; 2; 3; 4; 5]); simpl; lia. Defined.

(** [strncpy] writes exactly [n] bytes: the text, then zeros. *)
Lemma strncpy_text_ok n s t m :
  (s + n ≤ length m)%nat → strncpy_text n s t m = Some (put s (take n (t ++ replicate n 0)) m).
Proof.
  revert s t m. induction n as [|n IH]; intros s t m Hl.
  { rewrite /put /= Nat.add_0_r take_drop //. }
  assert (Hput : ∀ c l, length l = n → put (S s) l (<[s := c]> m) = put s (c :: l) m).
  { intros c l Hn. apply list_eq. intros k. rewrite !put_lookup ?length_insert /= ?Hn; [lia..|].
    repeat case_decide; try lia.
    - replace (k - s)%nat with (S (k - S s)) by lia. done.
    - replace k with s by lia. rewrite list_lookup_insert_eq; [lia|]. by rewrite Nat.sub_diag.
    - by rewrite list_lookup_insert_ne; [lia|]. }
  cbn [strncpy_text]. destruct t as [|c t]; rewrite wr_ok; try lia; cbn [mbind option_bind];
    rewrite IH ?length_insert; try lia; rewrite Hput ?length_take ?length_app ?length_replicate; try lia; f_equal; f_equal.
  cbn [app replicate take]. f_equal.
  rewrite replicate_cons_app app_assoc (take_app_le (t ++ replicate n 0)); [rewrite length_app length_replicate; lia|done].
Qed.

End Memory.
