(* ===== verification/Shell.v ===== *)
(** kernel/src/Little_Linux.c: the command line.

    [my_own_os_main] collects a line in a buffer of 512 bytes, cuts it into
    arguments in place, replaces arguments that name variables in place, and
    runs the command. An argument is an index into the buffer; what lies
    outside of the buffer faults. The command functions are the parameter
    [call]. *)
From S2P Require Import Prelude.
From S2P Require Import Allocator.
From S2P Require Import Memory.
From S2P Require Import Printf.
From S2P Require Import Printable.
From S2P Require Import Drive.
From S2P Require Import FsState.
From S2P Require Import DfsLoad.
From S2P Require Import RamfsApi.
From S2P Require Import EnvVar.
From S2P Require Import Malloc.
From S2P Require Import Partition.
From S2P Require Import RamfsSpec.
Import Memory FsState.
#[local] Open Scope general_if_scope.

Module Shell.

Definition MAX_ARGS : nat := 64.
Definition BUFFER : nat := 512.

(** * Arguments *)

(** The characters before the next space or terminator, and the spaces a
    text starts with; [None] past the end of the buffer. *)
Fixpoint word_length (l : list Z) : option nat :=
  match l with
  | [] => None
  | c :: l => if (c =? 0) || (c =? 32) then Some O else S <$> word_length l
  end.
Fixpoint space_length (l : list Z) : option nat :=
  match l with
  | [] => None
  | c :: l => if c =? 32 then S <$> space_length l else Some O
  end.

(** The C string at an index. *)
Fixpoint upto_nul (l : list Z) : option (list Z) :=
  match l with
  | [] => None
  | c :: l => if c =? 0 then Some [] else cons c <$> upto_nul l
  end.
Definition text_at (m : memory) (p : nat) : option (list Z) := upto_nul (drop p m).

(** The loop over the arguments from index [p], for [n] free places of
    [argv]: the buffer with the separators cut, and the arguments. *)
Fixpoint parse_args (n : nat) (m : memory) (p : nat) : option (memory * list nat) :=
  match n with
  | O => Some (m, [])
  | S n =>
      c ← m !! p;
      if c =? 0 then Some (m, [])
      else
        len ← word_length (drop p m);
        let q := (p + len)%nat in
        e ← m !! q;
        if e =? 32 then
          let m := <[q := 0]> m in
          k ← space_length (drop (S q) m);
          '(m, argv) ← parse_args n m (S q + k);
          Some (m, p :: argv)
        else
          '(m, argv) ← parse_args n m q;
          Some (m, p :: argv)
  end.

(** The command name, at most 63 characters, and the arguments. *)
Definition parse_command (m : memory) : option (list Z * memory * list nat) :=
  cmd_len ← word_length m;
  let cmd_len := if (64 <=? Z.of_nat cmd_len) then 63%nat else cmd_len in
  k ← space_length (drop cmd_len m);
  '(m', argv) ← parse_args (MAX_ARGS - 1) m (cmd_len + k);
  Some (take cmd_len m, m', argv).

Section shell.
Context {H D : Type} `{!Alloc.Allocator H, !Drive.Hba D}.
Abbreviation fs := (fs (EnvVar.kernel H) D).
Context (call : string → list string → M fs Z).

(** [my_os_command_expand_env_var] of an argument of the buffer. *)
Definition my_os_command_expand_env_var (m : memory) (p : nat) (out_size : nat) : M fs memory :=
  c ← unwrap (m !! p);
  if negb (c =? 36) then mret m
  else
    var_name ← unwrap (text_at m (S p));
    value ← on_heap (EnvVar.env_get (DfsLoad.cstr var_name));
    match value with
    | Some v =>
        m ← unwrap (strncpy_text (out_size - 1) p (RamfsApi.bytes_of v) m);
        unwrap (wr (p + (out_size - 1)) 0 m)
    | None => mret m
    end.

Fixpoint expand_args (m : memory) (argv : list nat) : M fs memory :=
  match argv with
  | [] => mret m
  | p :: argv => m ← my_os_command_expand_env_var m p 256; expand_args m argv
  end.

(** [argv[0]] is a copy of the name in 64 bytes of its own. *)
Definition my_os_command_run (func : string) (name : list Z) (m : memory) (argv : list nat) : M fs Z :=
  copy ← my_os_command_expand_env_var (name ++ replicate (64 - length name) 0) 0 256;
  m ← expand_args m argv;
  arg0 ← unwrap (text_at copy 0);
  args ← unwrap (mapM (text_at m) argv);
  call func (DfsLoad.cstr arg0 :: (DfsLoad.cstr <$> args)).

Definition my_os_command_search (m : memory) : M fs Z :=
  '(name, m', argv) ← unwrap (parse_command m);
  cmd ← on_heap (EnvVar.find_command (DfsLoad.cstr name));
  match cmd with
  | None => printf ("Command not found: %s" +:+ nl) [AStr (DfsLoad.cstr name)];; mret (-1)
  | Some cmd => my_os_command_run (EnvVar.cmd_func cmd) name m' argv
  end.

(** * The line *)

Record shell : Type := Sh { sys : fs; buffer : memory; buf_len : nat }.
Definition set_sys (s : fs) (t : shell) : shell := Sh s (buffer t) (buf_len t).
Definition set_line (m : memory) (n : nat) (t : shell) : shell := Sh (sys t) m n.
Definition store_char (i : nat) (c : Z) : M shell unit :=
  t ← get; m ← unwrap (wr i c (buffer t)); modify (set_line m (buf_len t)).

(** One character of the inner loop; [true] when the line was run. *)
Definition line_char (input : Z) : M shell bool :=
  t ← get;
  if (input =? 10) || (input =? 13) then
    store_char (buf_len t) 0;;
    printf (nl +:+ "running command" +:+ nl) [];;
    t ← get;
    zoom sys set_sys (my_os_command_search (buffer t));;
    modify (λ t, set_line (buffer t) 0 t);;
    store_char 0 0;;
    mret true
  else if input =? 8 then
    (if (0 <? Z.of_nat (buf_len t)) then
       printf (String (Ascii.ascii_of_nat 8) " " +:+ String (Ascii.ascii_of_nat 8) EmptyString) [];;
       modify (λ t, set_line (buffer t) (buf_len t - 1) t);;
       store_char (buf_len t - 1) 0
     else mret tt);;
    mret false
  else
    printf "%c" [AChr input];;
    store_char (buf_len t) input;;
    modify (λ t, set_line (buffer t) (S (buf_len t)) t);;
    mret false.

(** The inner loop on the characters the keyboard delivers; zeros are read
    again. It waits for more when they run out. *)
Fixpoint read_line (inputs : list Z) : M shell (list Z) :=
  match inputs with
  | [] => nofuel
  | input :: inputs =>
      if input =? 0 then read_line inputs
      else done ← line_char input; if (done : bool) then mret inputs else read_line inputs
  end.

(** One turn of the outer loop: the prompt and a line. *)
Definition print_prompt : M shell unit :=
  pwd ← zoom sys set_sys (on_heap (EnvVar.env_get "pwd"));
  p ← unwrap pwd;
  printf "%s$ " [AStr p].
Definition my_own_os_main_turn (inputs : list Z) : M shell (list Z) :=
  print_prompt;; read_line inputs.
(** Turns of the outer loop, on the characters the keyboard delivers. *)
Fixpoint shell_turns (n : nat) (inputs : list Z) : M shell (list Z) :=
  match n with
  | O => mret inputs
  | S n => inputs ← my_own_os_main_turn inputs; shell_turns n inputs
  end.
End shell.

(** * Memory size at boot *)

Section boot.
Context (load : Z → Z).
(** The 32-bit word at an address, from its bytes. *)
Definition load32 (a : Z) : Z :=
  load a + 256 * load (u32 (a + 1)) + 65536 * load (u32 (a + 2)) + 16777216 * load (u32 (a + 3)).
Definition load64 (a : Z) : Z := load32 a + 4294967296 * load32 (u32 (a + 4)).

(** The loop over the memory map: [size], then the address, the length and
    the type of an area. *)
Fixpoint sum_areas (fuel : nat) (mmap stop total : Z) : option Z :=
  match fuel with
  | O => None
  | S fuel =>
      if mmap <? stop then
        let total := if load32 (u32 (mmap + 20)) =? 1 then u64 (total + load64 (u32 (mmap + 12))) else total in
        sum_areas fuel (u32 (mmap + load32 mmap + 4)) stop total
      else Some total
  end.
Definition my_os_get_memory_size_mb (fuel : nat) (info : Z) : option Z :=
  if Z.land (load32 info) 64 =? 0 then
    Some (u32 (load32 (u32 (info + 4)) + load32 (u32 (info + 8))) / 1024)
  else
    total ← sum_areas fuel (load32 (u32 (info + 48))) (u32 (load32 (u32 (info + 48)) + load32 (u32 (info + 44)))) 0;
    Some (u32 (total / 1048576)).
End boot.

(** [strnlen] of stdlib.c, and the copy of the processor's name. *)
Fixpoint strnlen (s : list Z) (maxlen : nat) : nat :=
  match maxlen, s with
  | S n, c :: s => if c =? 0 then O else S (strnlen s n)
  | _, _ => O
  end.
Definition my_os_get_cpu (brand : list Z) (buflen : nat) : Z * list Z :=
  let src_len := strnlen brand 48 in
  if decide (buflen = O) then (1, [])
  else if decide (buflen ≤ src_len)%nat then (1, take (buflen - 1) brand ++ [0])
  else (0, take src_len brand ++ [0]).


(** * The arguments of a line *)

(** The words of a text: what lies between its spaces. *)
Fixpoint split_spaces (l : list Z) : list (list Z) :=
  match l with
  | [] => [[]]
  | c :: l =>
      if c =? 32 then [] :: split_spaces l
      else match split_spaces l with w :: ws => (c :: w) :: ws | [] => [[c]] end
  end.
Definition words (l : list Z) : list (list Z) := filter (λ w, w ≠ []) (split_spaces l).

Definition letter (c : Z) : Prop := c ≠ 0 ∧ c ≠ 32.
Definition no_zero (l : list Z) : Prop := Forall (λ c, c ≠ 0) l.

Lemma split_word w r : Forall letter w → split_spaces (w ++ 32 :: r) = w :: split_spaces r.
Proof.
  induction 1 as [|c w [_ Hc] _ IH]; [done|]. cbn [app split_spaces].
  rewrite (proj2 (Z.eqb_neq c 32)) // IH //.
Qed.
Lemma split_last w : Forall letter w → split_spaces w = [w].
Proof.
  induction 1 as [|c w [_ Hc] _ IH]; [done|]. cbn [split_spaces].
  rewrite (proj2 (Z.eqb_neq c 32)) // IH //.
Qed.
Lemma words_word w r : Forall letter w → w ≠ [] → words (w ++ 32 :: r) = w :: words r.
Proof. intros Hw Hne. rewrite /words split_word // filter_cons_True //. Qed.
Lemma words_last w : Forall letter w → w ≠ [] → words w = [w].
Proof. intros Hw Hne. rewrite /words split_last // filter_cons_True //. Qed.
Lemma words_spaces k r : words (replicate k 32 ++ r) = words r.
Proof. induction k as [|k IH]; [done|]. by rewrite -IH. Qed.

(** A text is letters followed by nothing or by a space. *)
Lemma first_word l : no_zero l → ∃ w, Forall letter w ∧ (l = w ∨ ∃ r, l = w ++ 32 :: r).
Proof.
  induction 1 as [|c l Hc _ (w&Hw&IH)]; [by exists []; split; [|left]|].
  destruct (decide (c = 32)) as [->|Hne]; [exists []; split; [done|]; right; by exists l|].
  exists (c :: w). split; [by constructor|]. destruct IH as [->|[r ->]]; [by left|right; by exists r].
Qed.
Lemma first_spaces l : ∃ k r, l = replicate k 32 ++ r ∧ head r ≠ Some 32.
Proof.
  induction l as [|c l (k&r&->&IH)]; [by exists O, []|].
  destruct (decide (c = 32)) as [->|Hne]; [by exists (S k), r|]. exists O, (c :: replicate k 32 ++ r).
  split; [done|]. simpl. congruence.
Qed.

Lemma word_length_ok w c r : Forall letter w → c = 0 ∨ c = 32 → word_length (w ++ c :: r) = Some (length w).
Proof.
  intros Hw Hc. induction Hw as [|d w [Hd0 Hd1] _ IH]; cbn [app word_length].
  - by destruct Hc as [-> | ->].
  - rewrite (proj2 (Z.eqb_neq d 0)) // (proj2 (Z.eqb_neq d 32)) //= IH //.
Qed.
Lemma space_length_ok k r : head r ≠ Some 32 → r ≠ [] → space_length (replicate k 32 ++ r) = Some k.
Proof.
  intros Hr Hne. induction k as [|k IH]; simpl.
  - destruct r as [|c r]; [done|]. simpl in *. rewrite (proj2 (Z.eqb_neq c 32)) //. congruence.
  - by rewrite IH.
Qed.
Lemma upto_nul_ok w r : Forall (λ c, c ≠ 0) w → upto_nul (w ++ 0 :: r) = Some w.
Proof.
  induction 1 as [|c w Hc _ IH]; [done|]. cbn [app upto_nul]. rewrite (proj2 (Z.eqb_neq c 0)) // IH //.
Qed.
Lemma letters_no_zero w : Forall letter w → no_zero w.
Proof. intros Hw. eapply Forall_impl; [exact Hw|]. by intros c [? _]. Qed.

Lemma text_at_app pre w r : no_zero w → text_at (pre ++ w ++ 0 :: r) (length pre) = Some w.
Proof. intros Hw. rewrite /text_at drop_app_length. by apply upto_nul_ok. Qed.

Lemma parse_end n m p : m !! p = Some 0 → parse_args n m p = Some (m, []).
Proof. destruct n; [done|]. cbn [parse_args]. by intros ->. Qed.
Lemma parse_last n m p c len :
  m !! p = Some c → c ≠ 0 → word_length (drop p m) = Some len → m !! (p + len)%nat = Some 0 →
  parse_args (S n) m p = Some (m, [p]).
Proof.
  intros Hp Hc Hl He. cbn [parse_args]. rewrite Hp. cbn [mbind option_bind].
  rewrite (proj2 (Z.eqb_neq c 0)) // Hl. cbn [mbind option_bind]. rewrite He. cbn [mbind option_bind Z.eqb].
  by rewrite parse_end.
Qed.
Lemma parse_space n m p c len k :
  m !! p = Some c → c ≠ 0 → word_length (drop p m) = Some len → m !! (p + len)%nat = Some 32 →
  let m1 := <[(p + len)%nat := 0]> m in
  space_length (drop (S (p + len)) m1) = Some k →
  parse_args (S n) m p = ('(m, argv) ← parse_args n m1 (S (p + len) + k); Some (m, p :: argv)).
Proof.
  intros Hp Hc Hl He m1 Hk. cbn [parse_args]. rewrite Hp. cbn [mbind option_bind].
  rewrite (proj2 (Z.eqb_neq c 0)) // Hl. cbn [mbind option_bind]. rewrite He. cbn [mbind option_bind Z.eqb Pos.eqb].
  by rewrite -/m1 Hk.
Qed.
Lemma lookup_after (pre l : list Z) i : (pre ++ l) !! (length pre + i)%nat = l !! i.
Proof. rewrite lookup_app_r; [lia|]. f_equal. lia. Qed.

(** What the loop does to a text between [pre] and its terminator: it
    cuts words off, and they read as themselves afterwards. *)
Lemma parse_args_ok n pre rest post :
  no_zero rest → head rest ≠ Some 32 →
  ∃ rest' argv, parse_args n (pre ++ rest ++ 0 :: post) (length pre) = Some (pre ++ rest' ++ 0 :: post, argv) ∧
    length rest' = length rest ∧
    mapM (text_at (pre ++ rest' ++ 0 :: post)) argv = Some (take n (words rest)).
Proof.
  revert pre rest. induction n as [|n IH]; intros pre rest Hz Hh; [by exists rest, []|].
  destruct (first_word rest Hz) as (w&Hw&Hrest).
  destruct (decide (w = [])) as [->|Hne].
  { destruct Hrest as [->|[r ->]]; [|done]. exists [], []. simpl.
    rewrite list_lookup_middle //. }
  destruct w as [|c w]; [done|]. pose proof Hw as [[Hc0 Hc1] _]%Forall_cons.
  destruct Hrest as [->|[r ->]].
  - exists (c :: w), [length pre]. rewrite words_last //.
    change (take (S n) [c :: w]) with ((c :: w) :: take n []). rewrite take_nil.
    split_and!; [|done|by cbn [mapM]; rewrite text_at_app; [apply letters_no_zero|]].
    apply (parse_last _ _ _ c (length (c :: w))); [by rewrite list_lookup_middle|done| |].
    + rewrite drop_app_length. apply (word_length_ok (c :: w)); [done|by left].
    + rewrite lookup_after. by apply (list_lookup_middle (c :: w)).
  - destruct (first_spaces r) as (k&r2&->&Hr2). rewrite words_word // words_spaces.
    set pre2 := pre ++ (c :: w) ++ 0 :: replicate k 32.
    assert (Hz2 : no_zero r2).
    { apply Forall_app in Hz as [_ [_ Hz]%Forall_cons]. by apply Forall_app in Hz as [_ ?]. }
    destruct (IH pre2 r2 Hz2 Hr2) as (rest'&argv&Hrun&Hlen&Hargs).
    exists ((c :: w) ++ 0 :: replicate k 32 ++ rest'), (length pre :: argv).
    assert (Hm : pre ++ ((c :: w) ++ 0 :: replicate k 32 ++ rest') ++ 0 :: post = pre2 ++ rest' ++ 0 :: post).
    { by rewrite /pre2 -!app_assoc /= -!app_assoc. }
    split_and!.
    + assert (Hm1 : <[(length pre + length (c :: w))%nat := 0]>
          (pre ++ ((c :: w) ++ 32 :: replicate k 32 ++ r2) ++ 0 :: post) = pre2 ++ r2 ++ 0 :: post).
      { rewrite /pre2 -!app_assoc insert_app_r. f_equal. f_equal. cbn [app].
        rewrite -(Nat.add_0_r (length (c :: w))) (insert_app_r (c :: w)). cbn [app]. by rewrite -!app_assoc. }
      rewrite (parse_space _ _ _ c (length (c :: w)) k).
      * by rewrite list_lookup_middle.
      * done.
      * rewrite drop_app_length -app_assoc. apply word_length_ok; [done|by right].
      * rewrite lookup_after -app_assoc. by apply (list_lookup_middle (c :: w)).
      * rewrite Hm1. rewrite (_ : pre2 ++ r2 ++ 0 :: post = (pre ++ (c :: w) ++ [0]) ++ replicate k 32 ++ r2 ++ 0 :: post).
        { by rewrite /pre2 -!app_assoc /= -?app_assoc. }
        rewrite drop_app_length'; [rewrite !length_app /=; lia|]. apply space_length_ok; [|by destruct r2].
        by destruct r2.
      * rewrite Hm1 (_ : (S (length pre + length (c :: w)) + k)%nat = length pre2).
        { rewrite /pre2 !length_app /= length_replicate. lia. }
        by rewrite Hrun Hm.
    + rewrite !length_app /= !length_app Hlen //.
    + cbn [mapM]. rewrite Hm Hargs. rewrite -{1}Hm -!app_assoc.
      rewrite (text_at_app pre (c :: w)); [by apply letters_no_zero|done].
Qed.

Lemma max_args : (MAX_ARGS - 1)%nat = 63%nat.
Proof. done. Qed.

Lemma parse_command_ok line post : no_zero line →
  let w := default [] (head (split_spaces line)) in (length w ≤ 63)%nat →
  ∃ m' argv, parse_command (line ++ 0 :: post) = Some (w, m', argv) ∧
    mapM (text_at m') argv = Some (take 63 (words (drop (length w) line))).
Proof.
  intros Hz. destruct (first_word line Hz) as (w&Hw&Hline).
  assert (Hhead : head (split_spaces line) = Some w ∧ word_length (line ++ 0 :: post) = Some (length w) ∧
    ∃ rest, line = w ++ rest).
  { destruct Hline as [->|[r ->]].
    - rewrite split_last // word_length_ok //; [by left|]. split_and!; [done..|]. exists []. by rewrite app_nil_r.
    - rewrite split_word // -app_assoc word_length_ok //; [by right|]. split_and!; [done..|]. by exists (32 :: r). }
  destruct Hhead as (->&Hlen&rest&->). cbn [default from_option id]. intros Hw63.
  destruct (first_spaces rest) as (k&r&->&Hr). rewrite drop_app_length words_spaces.
  assert (Hzr : no_zero r) by (apply Forall_app in Hz as [_ Hz]; by apply Forall_app in Hz as [_ ?]).
  rewrite /parse_command Hlen. generalize max_args. generalize (MAX_ARGS - 1)%nat as n. intros n Hn.
  destruct (parse_args_ok n (w ++ replicate k 32) r post Hzr Hr) as (r'&argv&Hrun&_&Hargs).
  exists ((w ++ replicate k 32) ++ r' ++ 0 :: post), argv. split; [|rewrite -Hn; exact Hargs].
  cbn [mbind option_bind]. assert (Hle : (64 <=? Z.of_nat (length w)) = false) by (apply Z.leb_gt; lia).
  rewrite Hle -!app_assoc drop_app_length space_length_ok; [by destruct r|by destruct r|]. cbn [mbind option_bind].
  rewrite (_ : (length w + k)%nat = length (w ++ replicate k 32)); [by rewrite length_app length_replicate|].
  rewrite -!app_assoc in Hrun. rewrite Hrun. cbn [mbind option_bind].
  rewrite take_app_length -?app_assoc. reflexivity.
Qed.



(** The rest of a command name of more than 63 characters becomes the first
    argument. *)
Example parse_command_long_name :
  parse_command (replicate 70 97 ++ [0]) = Some (replicate 63 97, replicate 70 97 ++ [0], [63%nat]).
Proof. vm_compute. reflexivity. Qed.

(** * Variables *)

Section expand.
Context {H D : Type} `{!Alloc.Allocator H, !Drive.Hba D}.
Abbreviation fs := (fs (EnvVar.kernel H) D).
Implicit Types (s : fs).

Lemma expand_run s m p name v :
  EnvVar.tables_ok (heap s) → m !! p = Some 36 → text_at m (S p) = Some name →
  EnvVar.find_var (DfsLoad.cstr name) (EnvVar.env_map (heap s)) = Some v → (p + 256 ≤ length m)%nat →
  my_os_command_expand_env_var m p 256 s =
    Ok (put p (take 255 (RamfsApi.bytes_of v ++ replicate 255 0) ++ [0]) m, s, []).
Proof.
  intros Ht Hp Hname Hv Hlen. rewrite /my_os_command_expand_env_var Hp (bind_ok _ _ s 36 s) //. cbn [Z.eqb Pos.eqb negb].
  rewrite Hname (bind_ok _ _ s name s) //.
  rewrite (bind_ok _ _ s (Some v) s).
  { rewrite /on_heap /zoom (EnvVar.env_get_run _ _ Ht) Hv. by destruct s. }
  change (256 - 1)%nat with 255%nat. rewrite strncpy_text_ok; [lia|].
  set text := take 255 _. assert (Htext : length text = 255%nat).
  { rewrite /text length_take length_app length_replicate. lia. }
  rewrite (bind_ok _ _ s (put p text m) s) // /wr length_put ?Htext; [lia|]. rewrite decide_True; [lia|].
  rewrite -(put_snoc p text 0 m) Htext; [lia|]. reflexivity.
Qed.

(** The bytes an expansion leaves: the value, then zeros up to 256. *)
Definition expansion (v : string) : list Z :=
  take 255 (RamfsApi.bytes_of v ++ replicate 255 0) ++ [0].
Lemma expansion_pad v : (length (RamfsApi.bytes_of v) ≤ 255)%nat →
  expansion v = RamfsApi.bytes_of v ++ replicate (256 - length (RamfsApi.bytes_of v)) 0.
Proof.
  intros Hv. rewrite /expansion take_app_ge; [lia|]. rewrite take_replicate -app_assoc.
  f_equal. change [0] with (replicate 1 0). rewrite -replicate_add. f_equal. lia.
Qed.
Lemma text_at_put p l d m : (d < length l)%nat → (p + length l ≤ length m)%nat →
  ∀ w, upto_nul (drop d l) = Some w → text_at (put p l m) (p + d) = Some w.
Proof.
  intros Hd Hl w Hw. rewrite /text_at /put.
  rewrite drop_app_ge length_take; [lia|].
  rewrite (_ : (p + d - p `min` length m)%nat = d); [lia|]. rewrite drop_app_le; [lia|].
  revert w Hw. generalize (drop d l) as x. generalize (drop (p + length l) m) as y.
  intros y x. induction x as [|c x IH]; [done|]. cbn [upto_nul app]. intros w. case_match; [done|].
  destruct (upto_nul x) as [w0|]; [|done]. intros [= <-]. by rewrite (IH w0).
Qed.
Lemma upto_nul_zeros n : upto_nul (replicate (S n) 0) = Some [].
Proof. done. Qed.

Lemma expand_ok s m p name v :
  EnvVar.tables_ok (heap s) → m !! p = Some 36 → text_at m (S p) = Some name →
  EnvVar.find_var (DfsLoad.cstr name) (EnvVar.env_map (heap s)) = Some v →
  no_zero (RamfsApi.bytes_of v) → (length (RamfsApi.bytes_of v) ≤ 255)%nat → (p + 256 ≤ length m)%nat →
  ∃ m', my_os_command_expand_env_var m p 256 s = Ok (m', s, []) ∧ length m' = length m ∧
    (∀ q, ~ (p ≤ q < p + 256)%nat → m' !! q = m !! q) ∧
    (∀ d, (d < 256)%nat → text_at m' (p + d) = Some (drop d (RamfsApi.bytes_of v))).
Proof.
  intros Ht Hp Hname Hv Hz Hlen Hm. eexists. split; [by eapply expand_run|]. fold (expansion v).
  assert (He : length (expansion v) = 256%nat).
  { rewrite expansion_pad // length_app length_replicate. lia. }
  split; [rewrite length_put ?He; lia|]. split.
  - intros q Hq. rewrite put_lookup ?He; [lia|]. by rewrite decide_False.
  - intros d Hd. apply text_at_put; [lia..|]. rewrite expansion_pad //.
    destruct (decide (d < length (RamfsApi.bytes_of v))%nat) as [Hl|Hl].
    + rewrite drop_app_le; [lia|].
      rewrite (_ : (256 - length (RamfsApi.bytes_of v))%nat = S (255 - length (RamfsApi.bytes_of v))); [lia|].
      apply upto_nul_ok. rewrite -(take_drop d (RamfsApi.bytes_of v)) in Hz. by apply Forall_app in Hz as [_ ?].
    + rewrite drop_app_ge; [lia|]. rewrite drop_replicate (drop_ge (RamfsApi.bytes_of v)); [lia|].
      destruct (_ - _ - _)%nat as [|n] eqn:E; [lia|]. apply upto_nul_zeros.
Qed.

(** C39: Expanding an argument [$name] of the line, the variable having a
    value: the argument then reads as the value, the 256 bytes from its
    start on are overwritten and no other, the file system is untouched;
    and every argument that starts within those 256 bytes reads as a tail
    of the value, so a later argument of the same command is lost. *)
Theorem expand_overwrites s m p name v :
  EnvVar.tables_ok (heap s) → m !! p = Some 36 → text_at m (S p) = Some name →
  EnvVar.find_var (DfsLoad.cstr name) (EnvVar.env_map (heap s)) = Some v →
  no_zero (RamfsApi.bytes_of v) → (length (RamfsApi.bytes_of v) ≤ 255)%nat → (p + 256 ≤ length m)%nat →
  ∃ m', my_os_command_expand_env_var m p 256 s = Ok (m', s, []) ∧ length m' = length m ∧
    (∀ q, ~ (p ≤ q < p + 256)%nat → m' !! q = m !! q) ∧
    (∀ d, (d < 256)%nat → text_at m' (p + d) = Some (drop d (RamfsApi.bytes_of v))).
Proof. apply expand_ok. Qed.
End expand.

(** * The line editor *)

(** A typed line: backspace takes the last character away, any other
    character is added, as long as there is room. *)
Definition edit_char (line : list Z) (c : Z) : option (list Z) :=
  if c =? 8 then Some (removelast line)
  else if decide (length line < BUFFER)%nat then Some (line ++ [c]) else None.
Fixpoint edit (line : list Z) (inputs : list Z) : option (list Z) :=
  match inputs with
  | [] => Some line
  | c :: inputs => if c =? 0 then edit line inputs else line ← edit_char line c; edit line inputs
  end.

(** What the shell prints meanwhile: the character, or a step back, a space
    and a step back. *)
Definition backspace : event :=
  Printf (String (Ascii.ascii_of_nat 8) " " +:+ String (Ascii.ascii_of_nat 8) EmptyString) [].
Definition echo_char (line : list Z) (c : Z) : list event :=
  if c =? 8 then (if decide (line = []) then [] else [backspace]) else [Printf "%c" [AChr c]].
Fixpoint echo (line : list Z) (inputs : list Z) : list event :=
  match inputs with
  | [] => []
  | c :: inputs =>
      if c =? 0 then echo line inputs
      else echo_char line c ++ match edit_char line c with Some line => echo line inputs | None => [] end
  end.

Lemma echo_printable line ins : Forall Printable.printable (echo line ins).
Proof.
  revert line. induction ins as [|c ins IH]; intros line; [constructor|]. cbn [echo]. case_match; [done|].
  apply Forall_app. split; [|by case_match]. rewrite /echo_char. repeat case_match; messages.
Qed.

Section editor.
Context {H D : Type} `{!Alloc.Allocator H, !Drive.Hba D}.
Context (call : string → list string → M (fs (EnvVar.kernel H) D) Z).
Implicit Types (t : shell (H:=H) (D:=D)).

(** The buffer holds the line typed so far. *)
Definition typed t (line : list Z) : Prop :=
  length (buffer t) = BUFFER ∧ buf_len t = length line ∧ take (length line) (buffer t) = line.

Lemma store_char_ok i c t : (i < length (buffer t))%nat →
  store_char i c t = Ok (tt, set_line (<[i := c]> (buffer t)) (buf_len t) t, []).
Proof.
  intros Hi. rewrite /store_char (bind_ok _ _ t t t) // wr_ok // (bind_ok _ _ t (<[i := c]> (buffer t)) t) //.
Qed.
Lemma store_char_past i c t : ~ (i < length (buffer t))%nat → store_char i c t = Fault.
Proof. intros Hi. rewrite /store_char (bind_ok _ _ t t t) // /wr decide_False //. Qed.

(** What an ordinary character or a backspace does. *)
Lemma line_char_edit t line c : typed t line → c ≠ 10 → c ≠ 13 →
  match edit_char line c with
  | Some line' => ∃ t', line_char call c t = Ok (false, t', echo_char line c) ∧ sys t' = sys t ∧ typed t' line'
  | None => line_char call c t = Fault
  end.
Proof.
  intros (Hb&Hn&Hl) H10 H13. rewrite /edit_char /echo_char /line_char (bind_ok _ _ t t t) //.
  rewrite (proj2 (Z.eqb_neq c 10)) // (proj2 (Z.eqb_neq c 13)) //. cbn [orb].
  assert (Hle : (length line ≤ BUFFER)%nat) by (rewrite -Hl length_take; lia).
  destruct (c =? 8) eqn:H8; [|case_decide as Hlt].
  - destruct line as [|a line] using rev_ind; [|clear IHline].
    { exists t. rewrite Hn. split; [done|]. split; [done|]. by split. }
    rewrite length_app /= in Hn, Hl, Hle.
    assert (Hpos : (0 <? Z.of_nat (buf_len t)) = true) by (apply Z.ltb_lt; lia). rewrite Hpos Hn.
    assert (Hlen : (length line + 1 - 1)%nat = length line) by lia.
    rewrite removelast_last decide_False; [by destruct line|]. eexists. split.
    { rewrite /mbind /M_bind /printf /modify. cbn [set_line sys buffer buf_len].
      rewrite store_char_ok /=; [rewrite Hb Hlen; lia|]. reflexivity. }
    split; [done|]. rewrite /typed /= Hlen length_insert Hb. split_and!; [done|rewrite Hn; lia|].
    rewrite take_insert_ge; [lia|]. apply (f_equal (take (length line))) in Hl.
    by rewrite take_take take_app_length Nat.min_l in Hl; [lia|].
  - eexists. split.
    { rewrite /mbind /M_bind /printf store_char_ok; [rewrite Hb Hn; lia|]. reflexivity. }
    split; [done|]. rewrite /typed /= length_insert length_app /= Hn. split_and!; [done|lia|].
    rewrite Nat.add_comm -[in RHS]Hl. rewrite (take_S_r _ _ c); [rewrite list_lookup_insert_eq //; lia|].
    rewrite take_insert_ge; [lia|]. by rewrite Hl.
  - rewrite /mbind /M_bind /printf store_char_past; [rewrite Hb Hn; lia|]. done.
Qed.

Lemma edit_bound line ins line' :
  (length line ≤ BUFFER)%nat → edit line ins = Some line' → (length line' ≤ BUFFER)%nat.
Proof.
  revert line. induction ins as [|c ins IH]; intros line Hl; [by intros [= <-]|]. cbn [edit].
  case_match; [by apply IH|]. rewrite /edit_char. case_match; [|case_decide; [|done]]; cbn [mbind option_bind].
  - apply IH. destruct line as [|a line] using rev_ind; [done|]. rewrite removelast_last length_app /= in Hl |- *. lia.
  - apply IH. rewrite length_app /=. lia.
Qed.

Lemma read_line_step c inputs t : c ≠ 0 →
  read_line call (c :: inputs) t =
    (done ← line_char call c; if (done : bool) then mret inputs else read_line call inputs) t.
Proof. intros Hc. cbn [read_line]. by rewrite (proj2 (Z.eqb_neq c 0)). Qed.

Definition printed {A} (o : list event) (r : res (A * shell (H:=H) (D:=D) * list event)) :
    res (A * shell (H:=H) (D:=D) * list event) :=
  match r with Ok (a, t, o') => Ok (a, t, o ++ o') | Fault => Fault | NoFuel => NoFuel end.

Lemma read_line_edit ins rest line t :
  typed t line → Forall (λ c, c ≠ 10 ∧ c ≠ 13) ins →
  match edit line ins with
  | Some line' => ∃ t', sys t' = sys t ∧ typed t' line' ∧
      read_line call (ins ++ rest) t = printed (echo line ins) (read_line call rest t')
  | None => read_line call (ins ++ rest) t = Fault
  end.
Proof.
  intros Ht Hins. revert line t Ht. induction Hins as [|c ins [H10 H13] _ IH]; intros line t Ht.
  { exists t. split; [done|]. split; [done|]. cbn [app]. by destruct (read_line call rest t) as [[[??]?]| |]. }
  cbn [edit echo]. destruct (c =? 0) eqn:Hz.
  { apply Z.eqb_eq in Hz as ->. exact (IH line t Ht). }
  apply Z.eqb_neq in Hz. rewrite -app_comm_cons read_line_step //.
  pose proof (line_char_edit t line c Ht H10 H13) as Hc.
  destruct (edit_char line c) as [line1|]; cbn [mbind option_bind]; [|by rewrite /mbind /M_bind Hc].
  destruct Hc as (t1&Hc&Hs1&Ht1). specialize (IH line1 t1 Ht1). rewrite /mbind /M_bind Hc.
  destruct (edit line1 ins) as [line2|]; [|by rewrite IH].
  destruct IH as (t2&Hs2&Ht2&IH). exists t2. split; [by rewrite Hs2|]. split; [done|].
  rewrite IH. destruct (read_line call rest t2) as [[[a t3] o3]| |]; [|done..]. by rewrite /= app_assoc.
Qed.

Lemma line_char_enter t line c r s' o :
  typed t line → c = 10 ∨ c = 13 → (length line < BUFFER)%nat →
  my_os_command_search call (<[length line := 0]> (buffer t)) (sys t) = Ok (r, s', o) →
  line_char call c t = Ok (true, Sh s' (<[0%nat := 0]> (<[length line := 0]> (buffer t))) 0,
    Printf (nl +:+ "running command" +:+ nl) [] :: o).
Proof.
  intros (Hb&Hn&Hl) Hc Hlt Hs. rewrite /line_char (bind_ok _ _ t t t) //.
  assert (Hc' : (c =? 10) || (c =? 13) = true) by (by destruct Hc as [-> | ->]). rewrite Hc' Hn.
  rewrite (bind_ok _ _ _ _ _ (store_char_ok _ _ _ _)); [rewrite Hb; lia|].
  rewrite /mbind /M_bind /printf /get /zoom /modify. cbn [set_line sys buffer buf_len]. rewrite Hs.
  cbn [set_sys set_line sys buffer buf_len]. rewrite store_char_ok; [rewrite /= length_insert Hb /BUFFER; lia|].
  cbn [set_sys set_line sys buffer buf_len]. by rewrite /mret /M_ret !app_nil_r.
Qed.
Lemma line_char_enter_past t line c : typed t line → c = 10 ∨ c = 13 → ~ (length line < BUFFER)%nat →
  line_char call c t = Fault.
Proof.
  intros (Hb&Hn&Hl) Hc Hlt. rewrite /line_char (bind_ok _ _ t t t) //.
  assert (Hc' : (c =? 10) || (c =? 13) = true) by (by destruct Hc as [-> | ->]). rewrite Hc' Hn.
  rewrite /mbind /M_bind store_char_past // Hb //.
Qed.

(** C24: Reading a line. The command that runs is the one the typed
    characters spell after every backspace took back the character before
    it; it runs once, on the file system the shell was left with, and the
    next line starts from an empty buffer. There is no bound check: as soon
    as the text needs a 513th byte, its terminator included, the shell
    writes past its buffer. *)
Theorem read_line_spec t ins e rest :
  typed t [] → Forall (λ c, c ≠ 10 ∧ c ≠ 13) ins → e = 10 ∨ e = 13 →
  match edit [] ins with
  | Some line =>
      if decide (length line < BUFFER)%nat then
        ∃ b o, text_at b 0 = upto_nul (line ++ [0]) ∧
          ∀ r s' o', my_os_command_search call b (sys t) = Ok (r, s', o') →
            ∃ b', read_line call (ins ++ e :: rest) t = Ok (rest, Sh s' b' 0, o ++ o') ∧ typed (Sh s' b' 0) []
      else read_line call (ins ++ e :: rest) t = Fault
  | None => read_line call (ins ++ e :: rest) t = Fault
  end.
Proof.
  intros Ht Hins He. pose proof (read_line_edit ins (e :: rest) [] t Ht Hins) as Hr.
  destruct (edit [] ins) as [line|] eqn:Hline; [|done]. destruct Hr as (t1&Hs&Ht1&Hr). case_decide as Hlt.
  - pose proof Ht1 as (Hb&Hn&Hl). exists (<[length line := 0]> (buffer t1)), (echo [] ins ++ [Printf (nl +:+ "running command" +:+ nl) []]).
    split.
    + rewrite /text_at /= drop_0 -{1}(take_drop (S (length line)) (buffer t1)) insert_app_l.
      { rewrite length_take. lia. }
      destruct (lookup_lt_is_Some_2 (buffer t1) (length line)) as [x Hx]; [lia|].
      rewrite (take_S_r _ _ x) // Hl.
      rewrite (_ : <[length line := 0]> (line ++ [x]) = line ++ [0]).
      { by rewrite -{1}(Nat.add_0_r (length line)) insert_app_r. }
      generalize (drop (S (length line)) (buffer t1)) as y. clear. intros y. induction line as [|c line IH]; [done|].
      cbn [app upto_nul]. case_match; [done|]. by rewrite IH.
    + intros r s' o' Hcmd. eexists. split.
      * rewrite Hr read_line_step; [lia|]. rewrite /mbind /M_bind.
        rewrite (line_char_enter t1 line e r s' o') // ?Hs //. by rewrite /mret /M_ret /= app_nil_r -app_assoc.
      * split_and!; [by rewrite /= !length_insert|done|done].
  - rewrite Hr read_line_step; [lia|]. by rewrite /mbind /M_bind (line_char_enter_past t1 line e).
Qed.
End editor.

(** * Examples *)

Section demo.

Definition pwd_line : memory := [36; 112; 119; 100; 0] ++ replicate 300 0.

Lemma expand_overwrites_witness :
  ∃ m', my_os_command_expand_env_var pwd_line 0 256 RamfsSpec.demo = Ok (m', RamfsSpec.demo, []) ∧
    length m' = length pwd_line ∧
    (∀ q, ~ (0 ≤ q < 0 + 256)%nat → m' !! q = pwd_line !! q) ∧
    (∀ d, (d < 256)%nat → text_at m' (0 + d) = Some (drop d (RamfsApi.bytes_of "/"))).
Proof.
  apply (expand_overwrites RamfsSpec.demo pwd_line 0 [112; 119; 100] "/").
  - exact (proj1 (proj1 RamfsSpec.demo_kernel_live)).
  - reflexivity.
  - reflexivity.
  - reflexivity.
  - repeat constructor. discriminate.
  - apply (Nat.leb_le 1 255). reflexivity.
  - apply (Nat.leb_le 256 305). reflexivity.
Defined.

(** [$pwd ab] as arguments: the second argument is gone. *)
Example expand_loses_argument :
  (match expand_args ([36; 112; 119; 100; 0; 97; 98; 0] ++ replicate 300 0) [0%nat; 5%nat] RamfsSpec.demo with
   | Ok (m, _, _) => mapM (text_at m) [0%nat; 5%nat]
   | _ => None
   end) = Some [[47]; []].
Proof. vm_compute. reflexivity. Qed.

(** An argument less than 256 bytes before the end of the buffer. *)
Example expand_past_end :
  my_os_command_expand_env_var (replicate 260 7 ++ [36; 112; 119; 100; 0] ++ replicate 247 0) 260 256 RamfsSpec.demo = Fault.
Proof. vm_compute. reflexivity. Qed.

Definition demo_shell : shell (H:=Heap.state) (D:=Drive.medium) := Sh RamfsSpec.demo (replicate BUFFER 0) 0.
Definition no_call (f : string) (argv : list string) : M (fs (EnvVar.kernel Heap.state) Drive.medium) Z := mret 0.

Lemma read_line_spec_witness :
  ∃ b o, text_at b 0 = upto_nul ([97; 99] ++ [0]) ∧
    ∀ r s' o', my_os_command_search no_call b (sys demo_shell) = Ok (r, s', o') →
      ∃ b', read_line no_call ([97; 98; 8; 0; 99] ++ 13 :: [100]) demo_shell = Ok ([100], Sh s' b' 0, o ++ o') ∧
        typed (Sh s' b' 0) [].
Proof.
  apply (read_line_spec no_call demo_shell [97; 98; 8; 0; 99] 13 [100]).
  - split; [reflexivity|split; reflexivity].
  - repeat constructor; discriminate.
  - right. reflexivity.
Defined.
End demo.
End Shell.
