(* ===== verification/System.v ===== *)
(** kernel/src/Little_Linux.c: the boot of the system and the commands it
    knows.

    [my_own_os_init] brings up the components in the order of the code:
    the heap, the environment, the file system, the disks, the disk
    commands. What the processor and the boot loader provide are
    parameters: the brand string, the memory [load] the boot information
    lies in, and the register that says which ports the disk controller
    has. The heap is the one of malloc.c, and the file system above runs on
    it through the interfaces. *)
From S2P Require Import Prelude.
From S2P Require Import Allocator.
From S2P Require Import Malloc.
From S2P Require Import CString.
From S2P Require Import Printable.
From S2P Require Import Keeps.
From S2P Require Import Bytes.
From S2P Require Import RamfsTypes.
From S2P Require Import Drive.
From S2P Require Import Partition.
From S2P Require Import FsState.
From S2P Require Import DfsLoad.
From S2P Require Import Ramfs.
From S2P Require Import RamfsApi.
From S2P Require Import RamfsInv.
From S2P Require Import Uthash.
From S2P Require Import EnvVar.
From S2P Require Import Messages.
From S2P Require Import RamfsSpec.
From S2P Require Import Dfs.
From S2P Require Import Shell.
Import FsState CString Bytes.
#[local] Open Scope general_if_scope.

Module System.

Section system.
Context {D : Type} `{!Drive.Hba D}.
Abbreviation kernel := (EnvVar.kernel Heap.state).
Abbreviation fs := (fs (EnvVar.kernel Heap.state) D).

(** The command functions, by the names under which they are registered;
    [fuel] bounds the depth of folders. *)
Definition command_functions (fuel : nat) : list (string * (list string → M fs Z)) :=
  [("my_os_command_help", λ argv, on_heap (EnvVar.my_os_command_help argv));
   ("fs_mkdir_api", RamfsApi.fs_mkdir_api); ("fs_cd_api", RamfsApi.fs_cd_api fuel);
   ("fs_rmdir_api", RamfsApi.fs_rmdir_api); ("fs_touch_api", RamfsApi.fs_touch_api);
   ("fs_write_api", RamfsApi.fs_write_api); ("fs_cat_api", RamfsApi.fs_cat_api);
   ("fs_ls_api", RamfsApi.fs_ls_api); ("fs_pwd_api", RamfsApi.fs_pwd_api);
   ("fs_rm_api", RamfsApi.fs_rm_api); ("fs_backspace_api", RamfsApi.fs_backspace_api);
   ("fs_lsblk_api", Dfs.fs_lsblk_api); ("fs_mount_api", Dfs.fs_mount_api);
   ("fs_umount_api", Dfs.fs_umount_api fuel); ("fs_mkfs_api", Dfs.fs_mkfs_api)].

(** [cmd->func(argc, argv)]; a pointer to no command function faults. *)
Definition call (fuel : nat) (func : string) (argv : list string) : M fs Z :=
  match list_find (λ e, fst e = func) (command_functions fuel) with
  | Some (_, (_, f)) => f argv
  | None => fault
  end.

(** * Boot *)

(** Memory when the kernel is entered: static objects are zero. *)
Definition reset (_end : Z) (d : D) : fs :=
  Fs (EnvVar.Kernel (Heap.boot _end) None None) ∅ ∅
    (Partition.State (Drive.Ahci [] false (Bytes.zeros 256) d) (replicate 32 []) false) [] 0 0 0 0 EmptyString.

Definition on_memory {X} (m : M Heap.state X) : M fs X := on_heap (EnvVar.on_memory m).

(** [ahci_init] after the controller was found, and the partition tables. *)
Definition init_disks (fuel : nat) (ports_impl : Z) : M (Partition.state D) unit :=
  Partition.on_disk (Drive.ahci_enable ports_impl);;
  Partition.update_partition_tables fuel ports_impl.

Fixpoint report_drives (ds : list Z) : M fs unit :=
  match ds with
  | [] => mret tt
  | i :: ds =>
      s ← get;
      '(_, size) ← unwrap (Drive.drives (Partition.disk (parts s)) !! Z.to_nat i);
      printf ("  drive %d: %llu MB" +:+ nl) [AInt i; AInt (size / 1048576)];;
      n ← on_parts (Partition.get_partition_count i);
      printf ("    partitions: %d" +:+ nl) [AInt n];;
      report_drives ds
  end.

Definition my_own_os_init (fuel : nat) (_end : Z) (brand : list Z) (load : Z → Z) (ports_impl : Z)
    (multiboot_info : Z) : M fs unit :=
  printf ("Little Linux is Running" +:+ nl) [];;
  printf ("multiboot_info = 0x%x" +:+ nl) [AInt multiboot_info];;
  if multiboot_info =? 0 then
    printf ("ERROR: multiboot_info is NULL! Bootloader did not pass it correctly." +:+ nl) [];;
    nofuel
  else
    printf ("CPU:%s" +:+ nl) [AStr (DfsLoad.cstr (snd (Shell.my_os_get_cpu brand 512)))];;
    match Shell.my_os_get_memory_size_mb load fuel multiboot_info with
    | None => nofuel
    | Some memory_size_mb =>
        printf ("RAM:%dMB" +:+ nl) [AInt (s32 memory_size_mb)];;
        printf "calling malloc_init" [];;
        on_memory (Heap.malloc_init _end memory_size_mb);;
        on_heap (EnvVar.register_command "help" "Show commands" "my_os_command_help");;
        on_heap (EnvVar.env_set "pwd" "/");;
        RamfsApi.fs_init;;
        on_parts (init_disks fuel ports_impl);;
        s ← get;
        let drive_count := Drive.drive_count (Partition.disk (parts s)) in
        printf ("Detected %d drive(s)" +:+ nl) [AInt drive_count];;
        report_drives (seqZ 0 drive_count);;
        Dfs.dfs_init
    end.
End system.

(** * What boot prints

    Every message of the boot can be printed, whatever it finds; and the
    drive table stays well-formed. *)
Section says.
Context {D : Type} `{!Drive.Hba D, !Drive.HbaLaws D}.
Abbreviation fs := (FsState.fs (EnvVar.kernel Heap.state) D).
Implicit Types (s : fs).

Definition drives_kept s s' : Prop := Messages.keeps_drives (parts s) (parts s').
#[global] Instance drives_kept_preorder : PreOrder drives_kept.
Proof. split; [by intros s ?|]. intros s1 s2 s3 H12 H23 Hs. by apply H23, H12. Qed.

Lemma on_heap_says {X} (m : M (EnvVar.kernel Heap.state) X) s :
  keeps anything m (heap s) → keeps drives_kept (on_heap m) s.
Proof. apply keeps_zoom. by intros k _ Hs. Qed.
Lemma on_parts_keeps {X} (m : M (Partition.state D) X) s :
  keeps Messages.keeps_drives m (parts s) → keeps drives_kept (on_parts m) s.
Proof. by apply keeps_zoom. Qed.
Lemma register_keeps name desc func s : keeps drives_kept (on_heap (FsState.register_command name desc func)) s.
Proof. apply on_heap_says. eapply keeps_weaken, Messages.register_says. apply Messages.heap_event_printable. Qed.
Lemma env_set_keeps name value s : keeps drives_kept (on_heap (FsState.env_set name value)) s.
Proof. apply on_heap_says. eapply keeps_weaken, Messages.env_set_says. apply Messages.heap_event_printable. Qed.
Lemma env_get_keeps name s : keeps drives_kept (on_heap (FsState.env_get name)) s.
Proof. apply on_heap_says. eapply keeps_weaken, Messages.env_get_says. apply Messages.heap_event_printable. Qed.
#[local] Hint Extern 1 (keeps drives_kept (on_heap _) _) =>
  first [apply register_keeps|apply env_set_keeps|apply env_get_keeps] : keeps.
#[local] Hint Extern 1 (keeps drives_kept (modify _) _) => by apply keeps_modify; intros ? : keeps.

Lemma register_all_keeps cs s : keeps drives_kept (RamfsApi.register_all cs) s.
Proof. revert s. induction cs as [|[[name desc] func] cs IH]; intros s; cbn [RamfsApi.register_all]; keeps_tac. Qed.
#[local] Hint Resolve register_all_keeps : keeps.
Lemma fs_init_keeps s : keeps drives_kept RamfsApi.fs_init s.
Proof. rewrite /RamfsApi.fs_init /store_dir. keeps_tac. Qed.
Lemma init_disks_keeps fuel pi (p : Partition.state D) : keeps Messages.keeps_drives (init_disks fuel pi) p.
Proof.
  apply keeps_bind; [apply _|apply Messages.on_disk_keeps, Messages.enable_tables|].
  intros [] p'. apply Messages.partition_tables_drives.
Qed.
Lemma report_drives_keeps ds s : keeps drives_kept (report_drives ds) s.
Proof.
  revert s. induction ds; intros s; cbn [report_drives]; keeps_tac.
  apply on_parts_keeps, Messages.partition_count_drives.
Qed.
#[local] Hint Resolve fs_init_keeps report_drives_keeps : keeps.

Lemma cstr_no_nul l : Forall byte l → no_nul (DfsLoad.cstr l).
Proof.
  induction 1 as [|b l Hb _ IH]; [done|]. cbn [DfsLoad.cstr]. destruct (Z.eqb_spec b 0); [done|]. split; [|done].
  intros Hz%(f_equal byte_of). revert Hz. rewrite /byte_of Ascii.N_ascii_embedding; [red in Hb; lia|].
  rewrite Z2N.id; [red in Hb; lia|]. done.
Qed.
Lemma cstr_short l : strlen (DfsLoad.cstr l) ≤ Z.of_nat (length l).
Proof.
  rewrite /strlen. induction l as [|b l IH]; [done|]. cbn [DfsLoad.cstr]. destruct (b =? 0); simpl; lia.
Qed.
Lemma cpu_text brand : Forall byte brand →
  no_nul (DfsLoad.cstr (snd (Shell.my_os_get_cpu brand 512))) ∧
  strlen (DfsLoad.cstr (snd (Shell.my_os_get_cpu brand 512))) < 512.
Proof.
  intros Hb. assert (Hn : ∀ l n, (Shell.strnlen l n ≤ n)%nat).
  { induction l as [|c l IH]; intros [|n]; simpl; try lia. case_match; [lia|]. specialize (IH n). lia. }
  specialize (Hn brand 48%nat). rewrite /Shell.my_os_get_cpu decide_False //; [lia|]. cbn [snd].
  split.
  - apply cstr_no_nul, Forall_app. split; [by apply Forall_take|]. by repeat constructor.
  - pose proof (cstr_short (take (Shell.strnlen brand 48) brand ++ [0])) as Hl.
    rewrite length_app length_take /= in Hl. lia.
Qed.

Lemma boot_says fuel e brand load pi info s :
  Forall byte brand → keeps drives_kept (my_own_os_init fuel e brand load pi info) s.
Proof.
  intros Hb%cpu_text. destruct Hb as [Hn Hl]. rewrite /my_own_os_init /Dfs.dfs_init. keeps_tac.
  - apply on_heap_says. eapply keeps_anything, Messages.on_memory_keeps, Messages.malloc_init_says.
  - apply on_parts_keeps, init_disks_keeps.
Qed.
End says.

(** * The heap has room for what boot allocates *)

(** A consistent heap with one free block, of at least [n] bytes, above the
    addresses [qs]. *)
Definition roomy (n : Z) (qs : list Z) (st : Heap.state) : Prop :=
  ∃ e F A c, Alloc.IMAGE_BASE ≤ e ∧ Heap.wf e st [F] A ∧ Heap.hdrs st !! F = Some c ∧ n ≤ Heap.size c ∧
    Forall (λ q, q ≤ F) qs.

Lemma roomy_mono n m qs rs st : n ≤ m → qs ⊆ rs → roomy m rs st → roomy n qs st.
Proof.
  intros Hn Hq (e&F&A&c&He&Hwf&Hc&Hm&Hrs). exists e, F, A, c. split_and!; [done..|lia|].
  apply Forall_forall. intros q Hqs. by eapply (proj1 (Forall_forall _ _) Hrs), Hq.
Qed.

Lemma roomy_live n qs st : roomy n qs st → ∃ L, Alloc.live st L.
Proof. intros (e&F&A&c&He&Hwf&_). eexists. by exists e, [F], A. Qed.

(** [malloc] takes its bytes from that block. *)
Lemma malloc_roomy n size qs st :
  0 < size ≤ 65536 → 0 ≤ n → roomy (n + size + 32) qs st →
  wp (Heap.malloc size) st (λ p st' _, p ≠ 0 ∧ (p ∉ qs) ∧ roomy n (p :: qs) st').
Proof.
  intros Hs Hn (e&F&A&c&He&Hwf&Hc&Hsize&Hqs). destruct (Heap.req_size_of_spec size) as (Hr1&Hr2&Hr3&Hr4); [lia|].
  apply Heap.wp_malloc. eapply wp_mono.
  { apply (Heap.malloc_rec_fit e st [] F [] A c); [done|lia|apply Heap.none_fits_nil|done|lia|].
    rewrite /Heap.malloc_fuel. simpl. lia. }
  intros p st' o (->&_&Htaken). destruct Htaken as (_&Hsz&Hwf').
  assert (HF : 0 < F) by (destruct (Heap.wf_above e st' _ _ F Hwf') as [? _]; [set_solver|done]).
  rewrite Forall_forall in Hqs. split; [lia|]. split; [intros Hin%Hqs; lia|].
  rewrite bool_decide_true in Hsz Hwf'; [lia|].
  assert (Hl : Heap.sizes st' !! (F + 8 + Heap.req_size_of size) = Some (Heap.size c - Heap.req_size_of size - 8)).
  { by rewrite Hsz lookup_insert_eq. }
  rewrite Heap.lookup_sizes in Hl. apply fmap_Some in Hl as (c'&Hc'&Heq).
  eexists e, _, _, c'. split_and!; [done|exact Hwf'|exact Hc'|lia|].
  apply Forall_forall. intros q [->|Hq%Hqs]%elem_of_cons; lia.
Qed.

(** ** A table with one element more *)

(** Keys with different hash values, that fill no bucket of 32. *)
Definition fits (ks : list string) : Prop :=
  NoDup (Uthash.hash_str <$> ks) ∧ Forall (λ k, (Uthash.crowd k ks < 9)%nat) ks ∧ (length ks ≤ 30)%nat.
Lemma fits_prefix ks ks' : fits (ks ++ ks') → fits ks.
Proof.
  intros (Hnd&Hc&Hl). rewrite length_app in Hl. split_and!; [|apply Forall_app in Hc as [Hc _]|lia].
  - rewrite fmap_app in Hnd. by apply NoDup_app in Hnd as [? _].
  - eapply Forall_impl; [exact Hc|]. intros k. rewrite /Uthash.crowd filter_app length_app. lia.
Qed.
Lemma fits_last ks k : fits (ks ++ [k]) →
  (Uthash.hash_str k ∉ Uthash.hash_str <$> ks) ∧ (Uthash.crowd k ks < 9)%nat ∧ (length ks ≤ 29)%nat.
Proof.
  intros (Hnd&Hc&Hl). rewrite length_app /= in Hl. split_and!; [| |lia].
  - rewrite fmap_app in Hnd. apply NoDup_app in Hnd as (_&Hnd&_). intros Hin. apply (Hnd _ Hin). by left.
  - apply Forall_app in Hc as [_ [Hk _]%Forall_cons]. rewrite /Uthash.crowd filter_app length_app in Hk.
    rewrite /Uthash.crowd. lia.
Qed.

(** A table that has not grown, at addresses [qs]. *)
Record table_ready {V} (head : option (Uthash.hash V)) : Prop := {
  tr_ok : Uthash.head_ok head;
  tr_small : Uthash.small head;
  tr_fits : fits (Uthash.contents head).*1
}.
Lemma absent {V} (l : list (string * V)) name :
  Uthash.hash_str name ∉ Uthash.hash_str <$> l.*1 → Uthash.lookup name l = None.
Proof.
  intros Hn. apply Uthash.lookup_absent. intros k v Hin. apply not_true_iff_false. intros Hk%Uthash.same_key_hash.
  apply Hn. rewrite -Hk. apply list_elem_of_fmap_2. by apply (list_elem_of_fmap_2 fst _ (k, v)).
Qed.

Lemma find_absent {V St} (head : option (Uthash.hash V)) name (st : St) : table_ready head →
  Uthash.hash_str name ∉ Uthash.hash_str <$> (Uthash.contents head).*1 → Uthash.HASH_FIND_STR head name st = Ok (None, st, []).
Proof.
  intros [Hok _ [Hd _]] Hn%absent. destruct (Uthash.find_entry_run head name st Hok Hd) as ([p|]&Hr&Ho); [|done].
  destruct Ho as (h&e&_&_&Ho&_). by rewrite Hn in Ho.
Qed.

Lemma add_ready {V} (head : option (Uthash.hash V)) p k (v : V) n qs st :
  table_ready head → fits ((Uthash.contents head).*1 ++ [k]) → p ∉ Uthash.order_of head → 0 ≤ n → roomy (n + 512) qs st →
  wp (Uthash.HASH_ADD_STR head p k v) st (λ head' st' _, ∃ h, head' = Some h ∧ roomy n qs st' ∧ table_ready head' ∧
    Uthash.contents head' = Uthash.contents head ++ [(k, v)] ∧ Uthash.order h = Uthash.order_of head ++ [p]).
Proof.
  intros [Hok Hsmall Hf0] Hf Hp Hn Hr. pose proof (fits_last _ _ Hf) as (Hnew&Hcrowd&Hlen).
  assert (Hfits : ∀ h', Uthash.contents (Some h') = Uthash.contents head ++ [(k, v)] → fits (Uthash.contents (Some h')).*1).
  { intros h' ->. by rewrite fmap_app. }
  destruct head as [h|].
  - rewrite length_fmap (Uthash.contents_length _ h Hok) in Hlen.
    destruct (Uthash.add_quiet h p k v st Hok Hsmall Hp Hlen Hcrowd) as (h'&Hrun&Hok'&Hlog'&Hc&Ho).
    rewrite /wp Hrun. exists h'. split; [done|]. split; [eapply roomy_mono; [..|exact Hr]; [lia|done]|].
    split; [split; [done|done|by apply Hfits]|done].
  - assert (Hmake : wp Uthash.HASH_MAKE_TABLE st (λ t st' _, roomy n qs st' ∧
      (Uthash.holds {[p := Uthash.Element k (Uthash.hash_str k) v]} 32 (Uthash.buckets t) [] ∧ Uthash.num_buckets t = 32 ∧
      Uthash.log2_num_buckets t = 5 ∧ Uthash.num_items t = 0 ∧ Uthash.self t ≠ Uthash.buckets_at t))).
    { rewrite /Uthash.HASH_MAKE_TABLE. apply wp_bind. eapply wp_mono.
      { apply (malloc_roomy (n + 416)); [done|lia|eapply roomy_mono; [..|exact Hr]; [|done]]. unfold Uthash.sizeof_UT_hash_table. lia. }
      intros q st1 o1 (Hq&_&Hr1). rewrite (proj2 (Z.eqb_neq q 0)) //. apply wp_bind. eapply wp_mono.
      { apply (malloc_roomy n _ (q :: qs)); [done|lia|eapply roomy_mono; [..|exact Hr1]; [|done]].
        unfold Uthash.HASH_INITIAL_NUM_BUCKETS, Uthash.sizeof_UT_hash_bucket. lia. }
      intros q' st2 o2 (Hq'&Hne&Hr2). rewrite (proj2 (Z.eqb_neq q' 0)) //. apply wp_ret. split.
      - eapply roomy_mono; [..|exact Hr2]; [lia|]. set_solver.
      - cbn [Uthash.buckets Uthash.num_buckets Uthash.log2_num_buckets Uthash.num_items Uthash.self Uthash.buckets_at].
        split; [by apply Uthash.holds_nil|]. split_and!; [done..|]. set_solver. }
    apply wp_run in Hmake as (t&st1&o&Hrun&Hr'&Ht).
    destruct (Uthash.add_first_quiet t p k v st st1 o Hrun Ht) as (h'&Hadd&Hok'&Hlog'&Hc&Ho).
    rewrite /wp Hadd. exists h'. split; [done|]. split; [done|]. split; [split; [done|done|by apply Hfits]|done].
Qed.

Section boot.
Context {D : Type} `{!Drive.Hba D, !Drive.HbaLaws D}.
Abbreviation kernel := (EnvVar.kernel Heap.state).
Abbreviation fs := (FsState.fs (EnvVar.kernel Heap.state) D).
Implicit Types (s : fs) (k : kernel).

(** A kernel that can take more variables and commands: its tables have not
    grown, and their elements lie below the free block. *)
Record ready (n : Z) k : Prop := {
  rd_vars : table_ready (EnvVar.env_table k);
  rd_commands : table_ready (EnvVar.command_table k);
  rd_room : roomy n (Uthash.order_of (EnvVar.env_table k) ++ Uthash.order_of (EnvVar.command_table k)) (EnvVar.memory k)
}.
Lemma ready_mono n m k : n ≤ m → ready m k → ready n k.
Proof. intros Hn [Hv Hc Hr]. split; [done..|]. by eapply roomy_mono. Qed.
Lemma ready_tables n k : ready n k → EnvVar.tables_ok k.
Proof. intros [[? _ [Hv _]] [? _ [Hc _]] _]. by split. Qed.
Lemma command_keys k : (Uthash.contents (EnvVar.command_table k)).*1 = EnvVar.cmd_name <$> EnvVar.command_map k.
Proof. rewrite /EnvVar.command_map -list_fmap_compose. done. Qed.

Definition entry_cost : Z := 1024.

Lemma register_room k n name desc func :
  0 ≤ n → ready (n + entry_cost) k → fits ((EnvVar.cmd_name <$> EnvVar.command_map k) ++ [name]) →
  wp (EnvVar.register_command name desc func) k (λ _ k' _, ready n k' ∧
    EnvVar.env_map k' = EnvVar.env_map k ∧
    EnvVar.command_map k' = EnvVar.command_map k ++ [EnvVar.Command name desc func]).
Proof.
  intros Hn [Hv Hc Hroom] Hf. rewrite -command_keys in Hf. pose proof (fits_last _ _ Hf) as (Hnew&_).
  rewrite /EnvVar.register_command. eapply (wp_bind_ok _ _ _ k k); [done|].
  eapply wp_bind_ok; [by apply find_absent|]. rewrite /EnvVar.on_memory. wp_steps.
  eapply wp_mono; [apply (malloc_roomy (n + 512)); [done|lia|]|].
  { eapply roomy_mono; [|done|exact Hroom]. unfold entry_cost, EnvVar.sizeof_CommandEntry. lia. }
  intros p st o (Hp&Hfresh&Hr). rewrite (proj2 (Z.eqb_neq p 0)) //. wp_steps.
  eapply wp_mono; [eapply (add_ready _ p name (desc, func) n _ st Hc Hf); [set_solver|done|exact Hr]|].
  intros t st' o' (h&->&Hr'&Ht&Hcont&Hord). wp_steps. split; [split; [done..|]|].
  - eapply roomy_mono; [..|exact Hr']; [done|]. cbn. rewrite Hord. set_solver.
  - split; [done|]. rewrite /EnvVar.command_map /= -/(Uthash.contents (Some h)) Hcont fmap_app. done.
Qed.

Lemma env_set_room k n name value :
  0 ≤ n → ready (n + entry_cost) k → EnvVar.str_take 63 name = name → fits ((EnvVar.env_map k).*1 ++ [name]) →
  wp (EnvVar.env_set name value) k (λ _ k' _, ready n k' ∧
    EnvVar.env_map k' = EnvVar.env_map k ++ [(name, EnvVar.str_take 255 value)] ∧
    EnvVar.command_map k' = EnvVar.command_map k).
Proof.
  intros Hn [Hv Hc Hroom] Hname Hf. rewrite /EnvVar.env_map in Hf. pose proof (fits_last _ _ Hf) as (Hnew&_). rewrite /EnvVar.env_set Hname.
  eapply (wp_bind_ok _ _ _ k k); [done|]. eapply wp_bind_ok; [by apply find_absent|]. rewrite /EnvVar.on_memory. wp_steps.
  eapply wp_mono; [apply (malloc_roomy (n + 512)); [done|lia|]|].
  { eapply roomy_mono; [|done|exact Hroom]. unfold entry_cost, EnvVar.sizeof_EnvVar. lia. }
  intros p st o (Hp&Hfresh&Hr). rewrite (proj2 (Z.eqb_neq p 0)) //. wp_steps.
  eapply wp_mono; [eapply (add_ready _ p name EmptyString n _ st Hv Hf); [set_solver|done|exact Hr]|].
  intros t st' o' (h&->&Hr'&[Htok Hts Htf]&Hcont&Hord). wp_steps.
  destruct (Uthash.set_last h p name EmptyString _ (λ _, EnvVar.str_take 255 value) Htok Hcont) as [Hok' Hcont'].
  { by rewrite Hord last_snoc. }
  split; [split; [split; [exact Hok'|done|]|done|]|].
  - cbn [EnvVar.env_table EnvVar.set_env]. rewrite Hcont' fmap_app. rewrite Hcont fmap_app in Htf. exact Htf.
  - eapply roomy_mono; [..|exact Hr']; [done|]. cbn. rewrite Hord. set_solver.
  - split; [exact Hcont'|done].
Qed.

Definition as_entry (c : string * string * string) : EnvVar.CommandEntry :=
  EnvVar.Command (fst (fst c)) (snd (fst c)) (snd c).

(** Registering commands under new and different names adds them in order
    and leaves the rest of the file system as it is. *)
Lemma register_all_room cs n s :
  0 ≤ n → ready (n + Z.of_nat (length cs) * entry_cost) (heap s) →
  fits ((EnvVar.cmd_name <$> EnvVar.command_map (heap s)) ++ ((λ c, fst (fst c)) <$> cs)) →
  wp (RamfsApi.register_all cs) s (λ _ s' _, ∃ k', s' = set_heap k' s ∧ ready n k' ∧
    EnvVar.env_map k' = EnvVar.env_map (heap s) ∧
    EnvVar.command_map k' = EnvVar.command_map (heap s) ++ (as_entry <$> cs)).
Proof.
  intros Hn. revert s. induction cs as [|[[name desc] func] cs IH]; intros s Hready Hf.
  { cbn [RamfsApi.register_all]. wp_steps. exists (heap s). rewrite app_nil_r. split; [by destruct s|].
    split_and!; [|done..]. eapply ready_mono; [|exact Hready]. simpl. lia. }
  rewrite fmap_cons cons_middle app_assoc in Hf. cbn [RamfsApi.register_all].
  rewrite /on_heap. wp_steps. eapply wp_mono.
  { apply (register_room (heap s) (n + Z.of_nat (length cs) * entry_cost)); [unfold entry_cost; lia| |by eapply fits_prefix].
    eapply ready_mono; [|exact Hready]. cbn [length]. unfold entry_cost. lia. }
  intros [] k o (Hr&He&Hc). eapply wp_mono.
  { apply (IH (set_heap k s)); [exact Hr|]. by rewrite /= Hc fmap_app. }
  intros [] s' o' (k'&->&Hr'&He'&Hc'). exists k'. split; [by destruct s|]. split; [done|].
  rewrite /= in He' Hc'. split; [by rewrite He' He|]. rewrite Hc' Hc -app_assoc. done.
Qed.

Definition all_commands : list (string * string * string) :=
  ("help", "Show commands", "my_os_command_help") :: RamfsApi.fs_commands ++ Dfs.dfs_commands.

(** The system as the command line finds it. *)
Record booted (K : string → Prop) (fuel : nat) s : Prop := {
  boot_files : RamfsInv.Inv K s;
  boot_tree : dirs s = {[root := DfsLoad.new_foder "/" RamfsTypes.RAMFS_FOLDER_TYPE_MEM 0 0 0]};
  boot_path : current_dir s = root ∧ current_path s = "/";
  boot_pwd : EnvVar.env_map (heap s) = [("pwd", "/")];
  boot_mounts : mount_count s = 0;
  boot_parts : Partition.inv (parts s);
  boot_drives : Drive.table_ok (Partition.disk (parts s));
  boot_commands : EnvVar.command_map (heap s) = as_entry <$> all_commands;
  boot_dispatch : Forall (λ c, is_Some (list_find (λ e, fst e = EnvVar.cmd_func c) (command_functions (D:=D) fuel)))
    (EnvVar.command_map (heap s))
}.

Lemma report_drives_ok s ds :
  Partition.inv (parts s) → Forall (λ d, 0 ≤ d < Drive.drive_count (Partition.disk (parts s))) ds →
  wp (report_drives ds) s (λ _ s' _, s' = s).
Proof.
  intros Hp. induction 1 as [|d ds Hd _ IH]; [done|]. cbn [report_drives]. wp_steps.
  destruct (lookup_lt_is_Some_2 (Drive.drives (Partition.disk (parts s))) (Z.to_nat d)) as [[port size] Hdr].
  { rewrite /Drive.drive_count in Hd. lia. }
  rewrite Hdr. wp_steps. destruct (Dfs.count_ok s d Hp) as [n Hn].
  rewrite {1}/wp Hn. by wp_steps.
Qed.

Lemma names_fit : fits (EnvVar.cmd_name <$> (as_entry <$> all_commands)).
Proof.
  repeat split; [..|by apply (Nat.leb_le 15 30)].
  - apply (bool_decide_unpack _). vm_compute. exact I.
  - apply (bool_decide_unpack _). vm_compute. exact I.
Qed.

(** The file system part: from a kernel with room to a tree of one folder. *)
Lemma fs_init_room n s :
  0 ≤ n → ready (n + 10 * entry_cost) (heap s) → dirs s = ∅ →
  EnvVar.env_map (heap s) = [("pwd", "/")] →
  EnvVar.command_map (heap s) = [as_entry ("help", "Show commands", "my_os_command_help")] →
  wp RamfsApi.fs_init s (λ _ s' _, ∃ k',
    s' = set_heap k' (set_current root "/" (set_dirs
      {[root := DfsLoad.new_foder "/" RamfsTypes.RAMFS_FOLDER_TYPE_MEM 0 0 0]} s)) ∧
    ready n k' ∧ EnvVar.env_map k' = [("pwd", "/")] ∧
    EnvVar.command_map k' =
      as_entry <$> ("help", "Show commands", "my_os_command_help") :: RamfsApi.fs_commands).
Proof.
  intros Hn Hroom Hdirs Henv Hcmds. rewrite /RamfsApi.fs_init /store_dir.
  set s1 := set_dirs {[root := DfsLoad.new_foder "/" RamfsTypes.RAMFS_FOLDER_TYPE_MEM 0 0 0]} s.
  eapply (wp_bind_ok _ _ _ tt s1); [by rewrite /modify Hdirs|].
  assert (Hpwd : on_heap (FsState.env_get "pwd") s1 = Ok (Some "/", s1, [])).
  { rewrite /on_heap /zoom /=. rewrite EnvVar.env_get_run; [by eapply ready_tables|]. rewrite Henv.
    rewrite (_ : EnvVar.find_var "pwd" [("pwd", "/")] = Some "/"); [by vm_compute|]. done. }
  eapply wp_bind_ok; [exact Hpwd|]. eapply (wp_bind_ok _ _ _ tt (set_current root "/" s1)); [done|].
  apply wp_bind. eapply wp_mono.
  { apply (register_all_room RamfsApi.fs_commands n); [done|exact Hroom|]. cbn [heap set_current set_dirs s1]. rewrite Hcmds.
    apply (fits_prefix _ ((λ c, fst (fst c)) <$> Dfs.dfs_commands)). exact names_fit. }
  intros [] s' o (k'&->&Hr&He&Hc). apply wp_ret. exists k'. split; [done|]. split; [done|].
  split; [by rewrite He|]. rewrite Hc. cbn [heap set_current set_dirs s1]. by rewrite Hcmds.
Qed.

Lemma malloc_init_room e mb (kernel0 : kernel) :
  Alloc.IMAGE_BASE ≤ e → 16 ≤ mb → e + mb * 1048576 + Heap.POOL_SIZE < 4294967296 →
  kernel0 = EnvVar.Kernel (Heap.boot e) None None →
  wp (EnvVar.on_memory (Heap.malloc_init e mb)) kernel0 (λ _ k _, ready (Heap.POOL_SIZE - 8) k ∧
    EnvVar.env_map k = [] ∧ EnvVar.command_map k = []).
Proof.
  intros He Hmb Hmax ->. rewrite /EnvVar.on_memory. apply wp_zoom.
  unfold Alloc.IMAGE_BASE in He. eapply wp_mono; [apply Heap.malloc_init_wf; lia|]. intros [] st o [_ Hst].
  rewrite bool_decide_true // in Hst. destruct Hst as (Hwf&Hsz&_).
  assert (Hnone : ∀ V, @table_ready V None).
  { split; [done..|]. split_and!; [by apply NoDup_nil_2|by apply Forall_nil_2|simpl; lia]. }
  split; [split; [apply Hnone..|]|done]. exists e, e, ∅.
  assert (Hl : Heap.sizes st !! e = Some (Heap.POOL_SIZE - 8)) by by rewrite Hsz lookup_insert_eq.
  rewrite Heap.lookup_sizes in Hl. apply fmap_Some in Hl as (c&Hc&Heq).
  exists c. split_and!; [done..|lia|by apply Forall_nil_2].
Qed.

Lemma boot_booted K fuel e d brand load ports_impl info mb :
  info ≠ 0 → Shell.my_os_get_memory_size_mb load fuel info = Some mb →
  Alloc.IMAGE_BASE ≤ e → 16 ≤ mb → e + mb * 1048576 + Heap.POOL_SIZE < 4294967296 →
  wp (init_disks fuel ports_impl) (parts (reset e d)) (λ _ p _, Partition.inv p) →
  wp (my_own_os_init fuel e brand load ports_impl info) (reset e d) (λ _ s _, booted K fuel s).
Proof.
  intros Hinfo Hmem He Hmb Hmax Hdisks. rewrite /my_own_os_init. wp_steps.
  rewrite (proj2 (Z.eqb_neq info 0)) // Hmem. wp_steps. rewrite /on_memory /on_heap. wp_steps.
  eapply wp_mono; [by apply malloc_init_room|]. intros [] k1 o1 (Hr1&Hv1&Hc1). wp_steps.
  eapply wp_mono; [apply (register_room k1 (15 * entry_cost))|].
  { unfold entry_cost. lia. } { eapply ready_mono; [|exact Hr1]. unfold entry_cost, Heap.POOL_SIZE. lia. }
  { rewrite Hc1. eapply (fits_prefix ["help"]), names_fit. }
  intros [] k2 o2 (Hr2&Hv2&Hc2). wp_steps.
  eapply wp_mono; [apply (env_set_room k2 (14 * entry_cost))|].
  { unfold entry_cost. lia. } { eapply ready_mono; [|exact Hr2]. unfold entry_cost. lia. } { done. }
  { rewrite Hv2 Hv1. split_and!; [|by repeat constructor|simpl; lia]. apply NoDup_singleton. }
  intros [] k3 o3 (Hr3&Hv3&Hc3). rewrite Hv2 Hv1 in Hv3. rewrite Hc2 Hc1 in Hc3.
  apply wp_bind. eapply wp_mono; [apply (fs_init_room (4 * entry_cost)); [unfold entry_cost; lia| |done|exact Hv3|exact Hc3]|].
  { eapply ready_mono; [|exact Hr3]. unfold entry_cost. lia. }
  intros r s4 o4 (k4&->&Hr4&Hv4&Hc4). rewrite /on_parts. wp_steps.
  eapply wp_mono; [eapply wp_keeps; [exact Hdisks|apply init_disks_keeps]|]. intros [] p5 o5 (Hp5&Hd5&_). wp_steps.
  eapply wp_mono; [apply report_drives_ok; [exact Hp5|]|].
  { apply Forall_forall. intros x Hx%elem_of_seqZ. simpl in *. lia. }
  intros [] s6 o6 ->. eapply wp_mono; [apply (register_all_room Dfs.dfs_commands 0)|].
  { lia. } { exact Hr4. } { cbn [heap FsState.set_parts set_heap]. rewrite Hc4. exact names_fit. }
  intros [] s7 o7 (k7&->&Hr7&Hv7&Hc7). cbn [heap FsState.set_parts set_heap] in Hv7, Hc7.
  assert (Hcmds : EnvVar.command_map k7 = as_entry <$> all_commands) by by rewrite Hc7 Hc4.
  split; [|done|done| |done|done| | |].
  - exists ∅, ∅. apply RamfsSpec.fresh_inv; [|done..]. split.
    + split; [by eapply ready_tables|]. rewrite /= Hv7 Hv4. exists "/". by vm_compute.
    + destruct (roomy_live _ _ _ (rd_room _ _ Hr7)) as [L HL]. exists L. split; [by rewrite union_empty_l_L|set_solver].
  - by rewrite /= Hv7 Hv4.
  - apply Hd5. split; constructor.
  - exact Hcmds.
  - cbn [heap set_heap]. rewrite Hcmds. repeat constructor; eexists; reflexivity.
Qed.

End boot.

(** * A machine that boots

    64 MB of memory, one blank disk, no memory map. *)
Section demo.
Definition demo_load (a : Z) : Z := if a =? 4096 + 8 + 2 then 1 else 0.

Lemma demo_disks : wp (init_disks 5 1) (parts (reset 2097152 (∅ : Drive.medium))) (λ _ p _, Partition.inv p).
Proof.
  assert (Hrun : ∃ p, init_disks 5 1 (parts (reset 2097152 (∅ : Drive.medium))) = Ok (tt, p, []) ∧
    Partition.partition_lock p = false ∧ Partition.drive_parts p = replicate 32 []).
  { eexists. split; [vm_compute; reflexivity|]. by split. }
  destruct Hrun as (p&Hrun&Hl&Hp). rewrite /wp Hrun. split; [done|by rewrite Hp| |].
  - rewrite Hp. by apply Forall_replicate.
  - rewrite Hp. by apply Forall_replicate.
Qed.


(** With 4 GB the size in bytes wraps to zero: the heap has no room, and
    the first command registered is written through NULL. *)
Example boot_4gb_faults :
  my_own_os_init 5 2097152 [76; 0] (λ a, if a =? 4096 + 8 + 2 then 64 else 0) 1 4096
    (reset 2097152 (∅ : Drive.medium)) = Fault.
Proof. vm_compute. reflexivity. Qed.
End demo.
End System.
