(* ===== verification/Session.v ===== *)
(** The command line at work: what every line typed leaves behind.

    The components meet here: the line editor and the cutting of a line
    (Shell.v), the dispatch of a command (System.v), the command layer of
    the two file systems (RamfsSafe.v, Dfs.v) over the heap, the environment
    and the partitions. [system_ok] is the state between two lines. *)
From S2P Require Import Prelude.
From S2P Require Import Allocator.
From S2P Require Import Malloc.
From S2P Require Import CString.
From S2P Require Import RamfsTypes.
From S2P Require Import Printf.
From S2P Require Import Printable.
From S2P Require Import Keeps.
From S2P Require Import HashTable.
From S2P Require Import Drive.
From S2P Require Import Partition.
From S2P Require Import FsState.
From S2P Require Import DfsLoad.
From S2P Require Import Ramfs.
From S2P Require Import RamfsApi.
From S2P Require Import RamfsInv.
From S2P Require Import RamfsTree.
From S2P Require Import Uthash.
From S2P Require Import EnvVar.
From S2P Require Import Messages.
From S2P Require Import RamfsSafe.
From S2P Require Import RamfsSpec.
From S2P Require Import Dfs.
From S2P Require Import Shell.
From S2P Require Import System.
Import CString RamfsTypes FsState RamfsInv RamfsTree RamfsSafe Shell.
#[local] Open Scope general_if_scope.

Module Session.

Section session.
Context {D : Type} `{!Drive.Hba D, !Drive.HbaLaws D}.
Abbreviation kernel := (EnvVar.kernel Heap.state).
Abbreviation fs := (FsState.fs kernel D).
Context (K : string → Prop) (HK : HashTable.distinguishable (V:=ramfs_file_info) K) (HK0 : ∀ n, K n → no_nul n).
Implicit Types (s : fs) (k : kernel) (t : shell (H:=Heap.state) (D:=D)).

(** The prompt shows the current path, as far as a variable holds it. *)
Definition prompt s : Prop :=
  EnvVar.find_var "pwd" (EnvVar.env_map (heap s)) = Some (EnvVar.str_take 255 (current_path s)) ∧
  strlen (current_path s) < 512.

(** The state between two commands. *)
Record system_ok s : Prop := {
  ok_files : Inv K s;
  ok_parts : Partition.inv (parts s);
  ok_drives : Drive.table_ok (Partition.disk (parts s));
  ok_mounts : mount_count s = 0;
  ok_commands : EnvVar.command_map (heap s) = System.as_entry <$> System.all_commands;
  ok_prompt : prompt s
}.

(** The heap is in use, so the two tables are well-formed. *)
Lemma inv_tables s : Inv K s → EnvVar.tables_ok (heap s).
Proof. by intros (own&L&[[Hok _] _]%inv_live). Qed.

Lemma booted_ok fuel s : System.booted K fuel s → system_ok s.
Proof. intros []. split; try done. rewrite /prompt boot_pwd (proj2 boot_path). by split. Qed.

(** A command other than [cd] leaves the environment and the current path;
    any command leaves the command table. *)
Abbreviation same := (RamfsSafe.same Messages.same_tables (=)).
Definition same_commands k k' : Prop := EnvVar.command_map k' = EnvVar.command_map k.
#[global] Instance same_commands_preorder : PreOrder same_commands.
Proof. split; [done|]. intros k1 k2 k3. rewrite /same_commands. congruence. Qed.

Lemma ok_same s s' : system_ok s → same s s' → Inv K s' → system_ok s'.
Proof.
  intros [] (Hp&_&Hm&[Hv Hc]&Hpath) HI. split; [done|by rewrite Hp..|by rewrite Hm|by rewrite /EnvVar.command_map Hc|].
  by rewrite /prompt /EnvVar.env_map Hv -Hpath.
Qed.

(** A command leaves a consistent system, or reports a write without
    memory; and what it prints can be printed. *)
Definition leaves_ok : Z → fs → list event → Prop :=
  λ _ s' o, Forall Printable.printable o ∧ (system_ok s' ∨ RamfsSafe.out_of_memory ∈ o).

Lemma kept_ok m s :
  system_ok s → wp m s (λ _ s' o, kept Messages.same_tables (=) K s s' o) → wp m s leaves_ok.
Proof.
  intros Hs Hm. eapply wp_mono; [exact Hm|]. intros r s' o (HI&Hsame&Ho). split; [done|]. left. by eapply ok_same.
Qed.
Lemma unchanged_ok m s :
  system_ok s → wp m s (λ _ s' o, s' = s ∧ Forall Printable.printable o) → wp m s leaves_ok.
Proof. intros Hs Hm. eapply wp_mono; [exact Hm|]. intros r s' o [-> Ho]. split; [done|by left]. Qed.

(** ** help *)

Definition entry_ok (c : EnvVar.CommandEntry) : Prop :=
  (no_nul (EnvVar.cmd_name c) ∧ strlen (EnvVar.cmd_name c) < 512) ∧
  no_nul (EnvVar.cmd_desc c) ∧ strlen (EnvVar.cmd_desc c) < 512.
Lemma commands_ok : Forall entry_ok (System.as_entry <$> System.all_commands).
Proof. repeat (apply Forall_cons; split; [by split_and!|]). by apply Forall_nil. Qed.
Lemma help_ok argv s :
  EnvVar.tables_ok (heap s) → Forall entry_ok (EnvVar.command_map (heap s)) →
  wp (on_heap (EnvVar.my_os_command_help argv)) s (λ _ s' o, s' = s ∧ Forall Printable.printable o).
Proof.
  intros Ht Hc. rewrite /on_heap. apply wp_zoom. rewrite /EnvVar.my_os_command_help. wp_steps.
  rewrite /wp EnvVar.foreach_command_run // -/(wp _ _ _).
  assert (Hall : ∀ cs k, Forall entry_ok cs →
    wp (EnvVar.foreach EnvVar.help_callback cs) k (λ _ k' o, k' = k ∧ Forall Printable.printable o)).
  { intros cs k Hcs. revert k. induction Hcs as [|c cs [[Hn Hl] [Hdn Hdl]] _ IH]; intros k; [by split|]. cbn [EnvVar.foreach].
    rewrite /EnvVar.help_callback. wp_steps.
    case_match; wp_steps; (eapply wp_mono; [apply IH|]); intros [] k' o [-> Ho]; (split; [done|messages]). }
  eapply wp_mono; [by apply Hall|]. intros [] k o [-> Ho]. wp_steps. split; [by destruct s|messages].
Qed.

(** ** cd *)

(** [cd] leaves everything but the current folder, its path and [pwd]. *)
Lemma cd_prompt fuel path s a s' o :
  Inv K s → prompt s → no_nul path → strlen path < 512 →
  Ramfs.fs_cd fuel path s = Ok (a, s', o) →
  prompt s' ∧ parts s' = parts s ∧ mount_count s' = mount_count s ∧ same_commands (heap s) (heap s') ∧
  Forall Printable.printable o.
Proof.
  intros (own&L&Hinv) [Hv Hl] Hn Hlen. rewrite /Ramfs.fs_cd (bind_ok _ _ s s s) //.
  intros (target&s1&o1&o2&Ht&Hrun&->)%bind_inv.
  assert (s1 = s ∧ o1 = []) as [-> ->].
  { revert Ht. destruct (Ramfs.streq path "/"); [by intros [= _ <- <-]|].
    destruct (Ramfs.starts_with_slash path).
    - destruct (get_dir_ok K _ _ _ _ _ Hinv (inv_root _ _ _ _ Hinv) Hn Hlen) as [-> _]. by intros [= _ <- <-].
    - destruct (get_dir_ok K _ _ _ _ _ Hinv (inv_cwd _ _ _ _ Hinv) Hn Hlen) as [-> _]. by intros [= _ <- <-]. }
  revert Hrun. destruct (target =? 0); [intros [= _ <- <-]; by split_and!|].
  intros (out&s2&o3&o4&Hb&Hrun&->)%bind_inv.
  apply (build_path_keeps (E:=Printable.printable) Messages.same_tables (=)) in Hb as [(Hp&_&Hm&[He Hc]&Hcp) Ho3].
  revert Hrun. destruct (Z.leb_spec 512 (strlen out)); [done|]. rewrite (bind_ok _ _ s2 tt _ eq_refl).
  assert (Hok : EnvVar.tables_ok (heap s2)).
  { destruct (inv_tables s) as []; [by exists own, L|]. split; rewrite /EnvVar.env_map ?He ?Hc //. }
  destruct (EnvVar.env_set_run "pwd" out (EnvVar.str_take 255 (current_path s)) (heap s2) Hok) as (v&Hset&_&Hvars).
  { by rewrite /EnvVar.env_map He. }
  rewrite /on_heap (bind_ok _ _ _ tt (set_heap (EnvVar.set_env v (heap s2)) (set_current target out s2))).
  { by rewrite /zoom /= Hset. }
  intros [= <- <- <-]. rewrite app_nil_r.
  split_and!; [|done|done|by rewrite /same_commands /EnvVar.command_map /= Hc|done].
  split; [|done]. by rewrite /= /EnvVar.env_map /= Hvars EnvVar.find_assign /EnvVar.env_map He -/(EnvVar.env_map (heap s)) Hv.
Qed.

Lemma cd_ok fuel argv s :
  system_ok s → args_ok K argv → cd_fits (abs s) (current_dir s) (RamfsApi.arg argv 1) fuel →
  wp (RamfsApi.fs_cd_api fuel argv) s leaves_ok.
Proof.
  intros Hs Ha Hfit. destruct (arg_text _ _ 1 Ha) as [Hn Hl]. pose proof Hs as [HI Hp Hd Hm Hc Hpr].
  assert (Hsays : ∀ m, wp m s (λ (_ : Z) s' o, s' = s ∧ Forall Printable.printable o) → wp m s leaves_ok).
  { intros m. by apply unchanged_ok. }
  rewrite /RamfsApi.fs_cd_api. do 4 (case_match; [apply Hsays; wp_steps; split; [done|messages]|]).
  pose proof (fs_cd_ok K s fuel _ HI Hn Hl Hfit) as Hcd. apply wp_run in Hcd as (r&s'&o&Hrun&HI'&_).
  destruct (cd_prompt _ _ _ _ _ _ HI Hpr Hn Hl Hrun) as (Hpr'&Hp'&Hm'&Hc'&Ho).
  apply wp_bind. rewrite {1}/wp Hrun.
  assert (Hok : system_ok s').
  { split; [done|by rewrite Hp'..|by rewrite Hm'|by rewrite Hc'|done]. }
  repeat case_match; wp_steps; (split; [|by left]); messages.
Qed.

(** ** Any command *)

(** What a command may ask of its arguments: names from [K], and for [cd]
    a folder whose path fits. *)
Definition command_args (fuel : nat) (name : string) (argv : list string) (t : tree) (cwd : Z) : Prop :=
  args_ok K argv ∧ (name = "cd" → cd_fits t cwd (RamfsApi.arg argv 1) fuel).

#[local] Hint Resolve Messages.kernel_malloc_keeps Messages.kernel_free_keeps : keeps.
Tactic Notation "by_kept" uconstr(l) := apply kept_ok; [done|]; apply l; eauto with keeps typeclass_instances.

(** A command by its entry in the table. *)
Lemma call_ok fuel name desc func argv s :
  (name, desc, func) ∈ System.all_commands → system_ok s → command_args fuel name argv (abs s) (current_dir s) →
  wp (System.call fuel func argv) s leaves_ok.
Proof.
  intros Hin Hs [Ha Hcd]. pose proof Hs as [HI Hp Hd Hm Hc [_ Hpath]].
  assert (Hdisk : ∀ c, Dfs.disk_command fuel c → wp (c argv) s leaves_ok).
  { intros c Hc'. apply unchanged_ok; [done|].
    eapply wp_mono; [eapply Dfs.disk_command_ok; [exact Hc'|done..|apply Ha]|]. intros r s' o [-> Ho]. split; [done|by apply Ho]. }
  rewrite /System.all_commands /RamfsApi.fs_commands /Dfs.dfs_commands in Hin.
  repeat (apply elem_of_cons in Hin as [[= -> -> ->]|Hin]).
  - apply unchanged_ok; [done|]. apply help_ok; [by apply inv_tables|]. rewrite Hc. apply commands_ok.
  - by_kept (fs_mkdir_api_kept (A:=kernel) Messages.same_tables (=)).
  - by apply cd_ok; [..|apply Hcd].
  - by_kept (fs_rmdir_api_kept (A:=kernel) Messages.same_tables (=)).
  - by_kept (fs_touch_api_kept (A:=kernel) Messages.same_tables (=)).
  - eapply wp_mono; [apply (fs_write_api_kept Messages.same_tables (=)) with (K := K)|]; eauto with keeps typeclass_instances.
    intros r s' o [Ho [(HI'&Hsame&_)|[_ Hoom]]]; (split; [done|]); [left; by eapply ok_same|by right].
  - by_kept (fs_cat_api_kept (A:=kernel) Messages.same_tables (=)).
  - by_kept (fs_ls_api_kept (A:=kernel) Messages.same_tables (=)).
  - by_kept (fs_pwd_api_kept (A:=kernel) Messages.same_tables (=)).
  - by_kept (fs_rm_api_kept (A:=kernel) Messages.same_tables (=)).
  - by_kept (fs_backspace_api_kept (A:=kernel) Messages.same_tables (=)).
  - apply Hdisk. constructor.
  - apply Hdisk. constructor.
  - apply Hdisk. constructor.
  - apply Hdisk. constructor.
  - by apply elem_of_nil in Hin.
Qed.

(** * A line *)

(** The words of a line as the shell passes them on. *)
Definition command_word (line : list Z) : list Z := default [] (head (split_spaces line)).
Definition line_words (line : list Z) : list (list Z) :=
  command_word line :: take 63 (words (drop (length (command_word line)) line)).
Definition line_argv (line : list Z) : list string := DfsLoad.cstr <$> line_words line.

(** The command table takes [typed] for no other command. *)
Definition unconfused (typed : string) : Prop :=
  Forall (λ c, Uthash.same_key (fst (fst c)) typed = true → fst (fst c) = typed) System.all_commands.

(** A line without variables, its name not longer than the shell's copy of
    it and not confused with another, and with arguments the command may be
    given. *)
Record line_fits (fuel : nat) (line : list Z) (t : tree) (cwd : Z) : Prop := {
  line_clear : unconfused (DfsLoad.cstr (command_word line));
  line_name : (length (command_word line) ≤ 63)%nat;
  line_plain : Forall (λ w, head w ≠ Some 36) (line_words line);
  line_args : command_args fuel (DfsLoad.cstr (command_word line)) (line_argv line) t cwd
}.
Definition line_ok (fuel : nat) (line : list Z) s : Prop := line_fits fuel line (abs s) (current_dir s).

Lemma text_at_head m p w : text_at m p = Some w → head w ≠ Some 36 → ∃ c, m !! p = Some c ∧ c ≠ 36.
Proof.
  rewrite /text_at -{2}(Nat.add_0_r p) -lookup_drop. destruct (drop p m) as [|c l]; [done|]. cbn [upto_nul].
  intros Hw Hh. exists c. split; [done|]. intros ->. cbn in Hw. destruct (upto_nul l); [|done]. by injection Hw as <-.
Qed.
Lemma expand_plain m p w s : text_at m p = Some w → head w ≠ Some 36 →
  my_os_command_expand_env_var m p 256 s = Ok (m, s, []).
Proof.
  intros Hw Hh. destruct (text_at_head _ _ _ Hw Hh) as (c&Hc&Hne).
  rewrite /my_os_command_expand_env_var Hc (bind_ok _ _ s c s) // (proj2 (Z.eqb_neq c 36)) //.
Qed.
Lemma expand_args_plain m argv ws s :
  mapM (text_at m) argv = Some ws → Forall (λ w, head w ≠ Some 36) ws → expand_args m argv s = Ok (m, s, []).
Proof.
  intros Hm. apply mapM_Some_1 in Hm. induction Hm as [|p w argv ws Hp _ IH]; [done|]. intros [Hw Hws]%Forall_cons.
  cbn [expand_args]. rewrite (bind_ok _ _ _ _ _ (expand_plain _ _ _ s Hp Hw)). by apply IH.
Qed.

Lemma find_entry_in n cs c : EnvVar.find_entry n cs = Some c → c ∈ cs ∧ Uthash.same_key (EnvVar.cmd_name c) n = true.
Proof.
  induction cs as [|d cs IH]; [done|]. cbn [EnvVar.find_entry]. destruct (Uthash.same_key (EnvVar.cmd_name d) n) eqn:Hd.
  - intros [= ->]. split; [by left|done].
  - intros Hc. destruct (IH Hc). split; [by right|done].
Qed.

Lemma find_entry_none n cs c : EnvVar.find_entry n (System.as_entry <$> cs) = None → c ∈ cs → fst (fst c) ≠ n.
Proof.
  intros Hn Hin <-. induction Hin as [c cs|c d cs _ IH]; cbn [fmap list_fmap EnvVar.find_entry] in Hn.
  - by rewrite Uthash.same_key_refl in Hn.
  - case_match; [done|]. by apply IH.
Qed.

Lemma command_word_letters line : no_zero line → no_zero (command_word line).
Proof.
  intros Hz. rewrite /command_word. destruct (first_word line Hz) as (w&Hw&[->|[r ->]]).
  - by rewrite split_last.
  - rewrite split_word //. by apply letters_no_zero.
Qed.

(** Running a line is running the command it names. *)
Lemma run_line_with fuel line post s (Q : Z → fs → list event → Prop) :
  no_zero line → system_ok s → line_ok fuel line s →
  (Forall (λ c, fst (fst c) ≠ DfsLoad.cstr (command_word line)) System.all_commands →
    Q (-1) s [Printf ("Command not found: %s" +:+ nl) [AStr (DfsLoad.cstr (command_word line))]]) →
  (∀ desc func, (DfsLoad.cstr (command_word line), desc, func) ∈ System.all_commands →
    wp (System.call fuel func (line_argv line)) s Q) →
  wp (my_os_command_search (System.call fuel) (line ++ 0 :: post)) s Q.
Proof.
  intros Hz Hs [Hclear Hname Hplain Hargs] Hnone Hsome. rewrite /my_os_command_search.
  destruct (parse_command_ok line post Hz Hname) as (m'&argv&Hparse&Hwords). fold (command_word line) in Hparse, Hwords.
  apply wp_bind. eapply wp_unwrap; [exact Hparse|].
  set name := command_word line in Hclear, Hname, Hplain, Hargs, Hwords, Hnone, Hsome |- *.
  eapply (wp_bind_ok _ _ _ (EnvVar.find_entry (DfsLoad.cstr name) (EnvVar.command_map (heap s))) s).
  { rewrite /on_heap /zoom EnvVar.find_command_run; [by apply inv_tables, ok_files|]. by destruct s. }
  destruct (EnvVar.find_entry _ _) as [cmd|] eqn:Hfind.
  2:{ wp_steps. apply Hnone, Forall_forall. intros c Hin Heq. rewrite (ok_commands _ Hs) in Hfind.
      by eapply find_entry_none in Hfind; [|exact Hin]. }
  apply find_entry_in in Hfind as [Hin Hcmd]. rewrite (ok_commands _ Hs) in Hin.
  apply list_elem_of_fmap in Hin as ([[n desc] func]&->&Hin). cbn [System.as_entry EnvVar.cmd_name fst snd] in Hcmd.
  apply (proj1 (Forall_forall _ _) Hclear _ Hin) in Hcmd. cbn [fst] in Hcmd. subst n.
  rewrite /my_os_command_run. change (line_words line) with (name :: take 63 (words (drop (length name) line))) in Hplain.
  apply Forall_cons in Hplain as [Hn Hws].
  assert (Hcopy : text_at (name ++ replicate (64 - length name) 0) 0 = Some name).
  { rewrite (_ : (64 - length name)%nat = S (63 - length name)); [lia|].
    apply (text_at_app []). by apply command_word_letters. }
  eapply wp_bind_ok; [by eapply expand_plain|]. eapply wp_bind_ok; [by eapply expand_args_plain|].
  apply wp_bind. eapply wp_unwrap; [exact Hcopy|]. apply wp_bind. eapply wp_unwrap; [exact Hwords|].
  by eapply Hsome.
Qed.
Lemma run_line fuel line post s :
  no_zero line → system_ok s → line_ok fuel line s →
  wp (my_os_command_search (System.call fuel) (line ++ 0 :: post)) s leaves_ok.
Proof.
  intros Hz Hs Hline. pose proof (line_args _ _ _ _ Hline) as Hargs. apply run_line_with; [done..| |].
  - intros _. assert (Hword : text_ok (DfsLoad.cstr (command_word line))).
    { destruct Hargs as [[Htext _] _]. by apply Forall_cons in Htext as [? _]. }
    destruct Hword. split; [messages|by left].
  - intros desc func Hin. by eapply call_ok.
Qed.

Lemma buffer_line t line : typed t line → (length line < BUFFER)%nat →
  ∃ post, <[length line := 0]> (buffer t) = line ++ 0 :: post.
Proof.
  intros (Hb&_&Hl) Hlt. exists (drop (S (length line)) (buffer t)).
  destruct (lookup_lt_is_Some_2 (buffer t) (length line)) as [x Hx]; [lia|].
  rewrite -{1}(take_drop_middle _ _ _ Hx) Hl.
  by rewrite -{1}(Nat.add_0_r (length line)) insert_app_r.
Qed.
Lemma edit_no_zero line ins line' : no_zero line → edit line ins = Some line' → no_zero line'.
Proof.
  revert line. induction ins as [|c ins IH]; intros line Hz; [by intros [= <-]|]. cbn [edit].
  destruct (Z.eqb_spec c 0); [by apply IH|]. rewrite /edit_char. case_match; [|case_decide; [|done]]; cbn [mbind option_bind].
  - apply IH. destruct line as [|a line] using rev_ind; [done|]. rewrite removelast_last. by apply Forall_app in Hz as [? _].
  - apply IH. apply Forall_app. by repeat constructor.
Qed.

Lemma str_take_ok n a : no_nul a → no_nul (EnvVar.str_take n a) ∧ strlen (EnvVar.str_take n a) ≤ Z.of_nat n.
Proof.
  rewrite /strlen. revert n. induction a as [|c a IH]; intros [|n]; simpl; try (by split; [|lia]).
  intros [Hc Ha]. destruct (IH n Ha). split_and!; [done|done|lia].
Qed.

(** The prompt can be printed. *)
Lemma prompt_ok s : system_ok s →
  ∃ p, EnvVar.find_var "pwd" (EnvVar.env_map (heap s)) = Some p ∧ no_nul p ∧ strlen p < 512.
Proof.
  intros []. destruct ok_files0 as (own&L&Hinv). destruct (inv_pwd _ _ _ _ Hinv) as [k Hp].
  apply (path_no_nul K _ _ _ _ _ _ Hinv) in Hp. destruct ok_prompt0 as [Hv _].
  destruct (str_take_ok 255 _ Hp). eexists. split_and!; [exact Hv|done|lia].
Qed.

(** The prompt as it is shown. *)
Definition prompt_of (path : string) : event := Printf "%s$ " [AStr (EnvVar.str_take 255 path)].
Definition running : event := Printf (nl +:+ "running command" +:+ nl) [].

(** A turn of the shell is the prompt, the line typed and its command. *)
Lemma turn_with fuel t ins e rest line (Q : Z → fs → list event → Prop) :
  typed t [] → system_ok (sys t) → Forall (λ c, c ≠ 10 ∧ c ≠ 13) ins → e = 10 ∨ e = 13 →
  edit [] ins = Some line → (length line < BUFFER)%nat →
  (no_zero line → ∀ post, wp (my_os_command_search (System.call fuel) (line ++ 0 :: post)) (sys t) Q) →
  wp (my_own_os_main_turn (System.call fuel) (ins ++ e :: rest)) t (λ left t' o,
    left = rest ∧ typed t' [] ∧
    ∃ r o', o = prompt_of (current_path (sys t)) :: echo [] ins ++ running :: o' ∧ Q r (sys t') o').
Proof.
  intros Ht Hs Hins He Hline Hlt Hok. rewrite /my_own_os_main_turn. apply wp_bind.
  pose proof (ok_prompt _ Hs) as [Hpwd _].
  eapply (wp_bind_ok _ _ _ (Some (EnvVar.str_take 255 (current_path (sys t)))) t).
  { rewrite /zoom /on_heap /zoom EnvVar.env_get_run; [by apply inv_tables, ok_files|]. rewrite Hpwd. by destruct t as [[]]. }
  wp_steps. pose proof (read_line_edit (System.call fuel) ins (e :: rest) [] t Ht Hins) as Hr. rewrite Hline in Hr.
  destruct Hr as (t1&Hs1&Ht1&Hr). destruct (buffer_line t1 line Ht1 Hlt) as [post Hb].
  assert (Hz : no_zero line) by (eapply edit_no_zero; [|exact Hline]; constructor).
  pose proof (Hok Hz post) as Hw.
  apply wp_run in Hw as (r&s'&o2&Hrun&Hpost). rewrite -Hb -Hs1 in Hrun.
  pose proof (line_char_enter (System.call fuel) t1 line e r s' o2 Ht1 He Hlt Hrun) as Henter.
  assert (Hturn : read_line (System.call fuel) (e :: rest) t1 = Ok (rest, Sh s' (<[0%nat:=0]> (<[length line:=0]> (buffer t1))) 0,
    running :: o2)).
  { rewrite read_line_step; [lia|]. by rewrite /mbind /M_bind Henter /= app_nil_r. }
  rewrite /wp Hr Hturn. cbn [printed]. split; [done|]. split.
  - split_and!; [|done|done]. rewrite /= !length_insert. apply Ht1.
  - by exists r, o2.
Qed.

Lemma turn_ok fuel t ins e rest line :
  typed t [] → system_ok (sys t) → Forall (λ c, c ≠ 10 ∧ c ≠ 13) ins → e = 10 ∨ e = 13 →
  edit [] ins = Some line → (length line < BUFFER)%nat → line_ok fuel line (sys t) →
  wp (my_own_os_main_turn (System.call fuel) (ins ++ e :: rest)) t (λ left t' o,
    left = rest ∧ typed t' [] ∧ leaves_ok 0 (sys t') o).
Proof.
  intros Ht Hs Hins He Hline Hlt Hok.
  eapply wp_mono; [eapply (turn_with fuel t ins e rest line leaves_ok); try done; intros Hz post; by apply run_line|].
  intros left t' o (->&Ht'&r&o'&->&Hpr&Ho). split; [done|]. split; [done|].
  destruct (prompt_ok _ Hs) as (p&Hpwd&Hpn&Hpl). destruct (ok_prompt _ Hs) as [Hpwd' _].
  assert (p = EnvVar.str_take 255 (current_path (sys t))) as -> by congruence.
  pose proof (echo_printable [] ins). rewrite /prompt_of /running. split; [messages|].
  destruct Ho as [|Ho]; [by left|right]. set_solver.
Qed.

(** Names the table takes for a command: the hash value is the same and
    [memcmp] finds no smaller character. *)
Definition impostors : list (string * (string * string * string)) :=
  [("*dcip", ("mkdir", "Create a directory", "fs_mkdir_api")); ("+aJDM", ("write", "Write content to a file", "fs_write_api"));
   ("1lSMS", ("lsblk", "List block devices", "fs_lsblk_api")); ("0,?U<!", ("umount", "Unmount a DFS partition", "fs_umount_api"))].

Lemma impostors_found :
  Forall (λ '(typed, c), c ∈ System.all_commands ∧ fst (fst c) ≠ typed ∧
    EnvVar.find_entry typed (System.as_entry <$> System.all_commands) = Some (System.as_entry c)) impostors.
Proof.
  repeat (apply Forall_cons; split; [split; [apply (bool_decide_unpack _); vm_compute; exact I|split; [discriminate|vm_compute; reflexivity]]|]).
  by apply Forall_nil.
Qed.

(** C23: What a typed name runs. Between any two commands each of the fifteen
    names finds its own command, and a name whose hash value is none of
    theirs finds nothing. But the search is not exact: [memcmp] never says
    that a character is greater, so a name with the hash value, the length
    and smaller characters is taken for the command, as these four are. *)
Theorem dispatch_names s : system_ok s →
  Forall (λ c, EnvVar.find_command (fst (fst c)) (heap s) = Ok (Some (System.as_entry c), heap s, [])) System.all_commands ∧
  (∀ n, Forall (λ c, Uthash.hash_str (fst (fst c)) ≠ Uthash.hash_str n) System.all_commands →
    EnvVar.find_command n (heap s) = Ok (None, heap s, [])) ∧
  Forall (λ '(typed, c), c ∈ System.all_commands ∧ fst (fst c) ≠ typed ∧
    EnvVar.find_command typed (heap s) = Ok (Some (System.as_entry c), heap s, [])) impostors.
Proof.
  intros [HI _ _ _ Hc _]. pose proof (inv_tables _ HI) as Ht.
  assert (Hfind : ∀ n, EnvVar.find_command n (heap s) =
    Ok (EnvVar.find_entry n (System.as_entry <$> System.all_commands), heap s, [])).
  { intros n. by rewrite EnvVar.find_command_run // Hc. }
  split; [|split].
  - apply Forall_forall. intros c Hin. rewrite Hfind.
    repeat (apply elem_of_cons in Hin as [->|Hin]; [by vm_compute|]). by apply elem_of_nil in Hin.
  - intros n Hn. rewrite Hfind. clear Hc Hfind. repeat f_equal. induction Hn as [|c cs Hne _ IH]; [done|].
    cbn [fmap list_fmap EnvVar.find_entry]. rewrite (not_true_is_false (Uthash.same_key _ _)); [|exact IH].
    by intros Hk%Uthash.same_key_hash.
  - eapply Forall_impl; [exact impostors_found|]. intros [typed c] (Hin&Hne&Hf).
    split; [exact Hin|split; [exact Hne|]]. etrans; [apply Hfind|]. exact (f_equal (λ c, Ok (c, heap s, [])) Hf).
Qed.

(** C3: One turn of the shell, from the keys to the prompt that follows.
    In a consistent system any characters up to Enter that spell, with their
    backspaces, a line of fewer than 512 characters, without variables and
    with names the file table can tell apart, are read to the end and run
    as one command without fault: the command line, the file system with
    its heap, the disks, the mount table, the environment and the commands
    are as consistent as before, unless the command was a write that
    reports that it ran out of memory. Whatever the turn prints, prompt and
    echo included, stays within the buffer of [printf]. *)
Theorem turn_safe fuel t ins e rest line :
  typed t [] → system_ok (sys t) → Forall (λ c, c ≠ 10 ∧ c ≠ 13) ins → e = 10 ∨ e = 13 →
  edit [] ins = Some line → (length line < BUFFER)%nat → line_ok fuel line (sys t) →
  wp (my_own_os_main_turn (System.call fuel) (ins ++ e :: rest)) t (λ left t' o,
    left = rest ∧ typed t' [] ∧ Forall Printable.printable o ∧
    (system_ok (sys t') ∨ RamfsSafe.out_of_memory ∈ o)).
Proof. apply turn_ok. Qed.
End session.

(** * [mkdir a] on a machine just booted, with a character corrected *)

Section demo.
Definition demo_names (n : string) : Prop := n = "a".
Lemma demo_names_differ : HashTable.distinguishable (V:=ramfs_file_info) demo_names.
Proof. by intros x y -> ->. Qed.

Lemma demo_names_text n : demo_names n → no_nul n.
Proof. intros ->. by split. Qed.

Definition demo_system : FsState.fs (EnvVar.kernel Heap.state) Drive.medium :=
  match System.my_own_os_init 5 2097152 [76; 0] System.demo_load 1 4096 (System.reset 2097152 ∅) with
  | Ok (_, s, _) => s
  | _ => System.reset 2097152 ∅
  end.
Lemma demo_system_ok : system_ok demo_names demo_system.
Proof.
  apply (booted_ok _ 5). rewrite /demo_system.
  pose proof (System.boot_booted demo_names 5 2097152 (∅ : Drive.medium) [76; 0]
    System.demo_load 1 4096 64) as Hboot.
  rewrite /wp in Hboot. destruct (System.my_own_os_init _ _ _ _ _ _ _) as [[[u s] o]| |].
  - apply Hboot; [done|by vm_compute|done..|exact System.demo_disks].
  - exfalso. apply Hboot; [done|by vm_compute|done..|exact System.demo_disks].
  - exfalso. apply Hboot; [done|by vm_compute|done..|exact System.demo_disks].
Qed.

Definition demo_shell : shell (H:=Heap.state) (D:=Drive.medium) := Sh demo_system (replicate BUFFER 0) 0.
Definition demo_keys : list Z := [109; 107; 100; 105; 114; 32; 98; 8; 97].
Definition demo_line : list Z := [109; 107; 100; 105; 114; 32; 97].

Lemma demo_line_ok (s : FsState.fs (EnvVar.kernel Heap.state) Drive.medium) : line_ok demo_names 5 demo_line s.
Proof.
  assert (Hargv : line_argv demo_line = ["mkdir"; "a"]) by (vm_compute; reflexivity). split.
  - rewrite /unconfused. apply (bool_decide_unpack _). vm_compute. exact I.
  - apply (Nat.leb_le 5 63). reflexivity.
  - vm_compute. repeat constructor; discriminate.
  - rewrite /command_args Hargv. split; [|intros Hcd; exfalso; revert Hcd; vm_compute; discriminate]. split.
    + apply Forall_cons. split; [|apply Forall_cons; split; [|apply Forall_nil; exact I]].
      * split; [repeat split; discriminate|reflexivity].
      * split; [repeat split; discriminate|reflexivity].
    + apply Forall_cons. split; [|apply Forall_nil; exact I].
      split; [reflexivity|split; [reflexivity|]]. apply Forall_cons. split; [reflexivity|apply Forall_nil; exact I].
Qed.

Lemma dispatch_names_witness :
  Forall (λ c, EnvVar.find_command (fst (fst c)) (heap demo_system) = Ok (Some (System.as_entry c), heap demo_system, []))
    System.all_commands ∧
  (∀ n, Forall (λ c, Uthash.hash_str (fst (fst c)) ≠ Uthash.hash_str n) System.all_commands →
    EnvVar.find_command n (heap demo_system) = Ok (None, heap demo_system, [])) ∧
  Forall (λ '(typed, c), c ∈ System.all_commands ∧ fst (fst c) ≠ typed ∧
    EnvVar.find_command typed (heap demo_system) = Ok (Some (System.as_entry c), heap demo_system, [])) impostors.
Proof. apply (dispatch_names demo_names demo_system). exact demo_system_ok. Defined.

Lemma turn_safe_witness :
  wp (my_own_os_main_turn (System.call 5) (demo_keys ++ 13 :: [])) demo_shell (λ left t' o,
    left = [] ∧ typed t' [] ∧ Forall Printable.printable o ∧
    (system_ok demo_names (sys t') ∨ RamfsSafe.out_of_memory ∈ o)).
Proof.
  apply (turn_safe demo_names demo_names_differ demo_names_text 5 demo_shell demo_keys 13 [] demo_line).
  - split; [reflexivity|split; reflexivity].
  - exact demo_system_ok.
  - repeat constructor; discriminate.
  - right. reflexivity.
  - vm_compute. reflexivity.
  - apply (Nat.ltb_lt 7 512). reflexivity.
  - apply demo_line_ok.
Defined.
End demo.
End Session.
