(* ===== verification/Answers.v ===== *)
(** What the user of the shell sees: the answer to a line, and to a session
    of lines.

    [view] is the file system as seen from outside: the tree of folders and
    files, the working folder, its path. A line makes a [request]; an
    [answer] relates the views before and after it and says what is
    printed, the heap's own messages aside. The theorems are that the system
    answers so, over the components down to the heap. *)
From S2P Require Import Prelude.
From S2P Require Import Allocator.
From S2P Require Import Malloc.
From S2P Require Import CString.
From S2P Require Import RamfsTypes.
From S2P Require Import Numbers.
From S2P Require Import Printf.
From S2P Require Import Printable.
From S2P Require Import Keeps.
From S2P Require Import HashTable.
From S2P Require Import RamfsHash.
From S2P Require Import RamfsHashFile.
From S2P Require Import Drive.
From S2P Require Import Partition.
From S2P Require Import FsState.
From S2P Require Import DfsLoad.
From S2P Require Import Ramfs.
From S2P Require Import RamfsApi.
From S2P Require Import RamfsInv.
From S2P Require Import RamfsFiles.
From S2P Require Import RamfsTree.
From S2P Require Import Uthash.
From S2P Require Import EnvVar.
From S2P Require Import Messages.
From S2P Require Import RamfsSafe.
From S2P Require Import RamfsSpec.
From S2P Require Import Dfs.
From S2P Require Import Shell.
From S2P Require Import System.
From S2P Require Import Session.
Import CString RamfsTypes FsState Ramfs RamfsInv RamfsFiles RamfsTree RamfsSpec Shell.
#[local] Open Scope general_if_scope.

Module Answers.

(** * Views, requests, answers *)

Record view : Type := View { v_tree : tree; v_cwd : Z; v_path : string }.
Definition look {A D} (s : fs A D) : view := View (abs s) (current_dir s) (current_path s).
Definition afs_of (v : view) : afs := AFs (v_tree v) (v_cwd v).

(** An empty file system. *)
Definition fresh : view := View {[root := ADir "/" 0 ∅ ∅]} root "/".

(** The messages without those of the heap. *)
Definition heap_formats : list string :=
  ["request_memory failed:out of memory" +:+ nl +:+ "size=%d" +:+ nl; "expand_heap error" +:+ nl; "expand_heap succeess"].
Definition spoken (o : list event) : list event := filter (λ e, ev_fmt e ∉ heap_formats) o.

Inductive request : Type :=
  | Say (o : list event)
  | Run (verbose : bool) (c : command)
  | Parents (verbose : bool) (dirname : string)
  | ListDir
  | ShowPath
  | ShowHelp
  | Disk.

Definition say (text : string) : event := Printf (text +:+ nl) [].

(** What each command reads in its arguments. *)
Definition mkdir_request (argv : list string) : request :=
  if RamfsApi.argc argv =? 1 then Say [say "mkdir: missing operand"; say "Try 'mkdir --help' for more information."]
  else match RamfsApi.mkdir_options (drop 1 argv) false false with
  | RamfsApi.Help =>
      Say [say "Usage: mkdir [OPTION]... DIRECTORY..."; say "Create DIRECTORY(ies).";
        say "  -p      create parent directories as needed"; say "  -v      print a message for each created directory";
        say "  --version  output version information"]
  | RamfsApi.Version => Say [say "ramfs mkdir version 1.0.0"]
  | RamfsApi.Invalid opt => Say [Printf ("mkdir: invalid option %s" +:+ nl) [AStr opt]]
  | RamfsApi.Make _ _ None => Say [say "mkdir: missing directory operand"]
  | RamfsApi.Make true v (Some n) => Parents v n
  | RamfsApi.Make false v (Some n) => Run v (Mkdir n)
  end.
Definition cd_request (argv : list string) : request :=
  if RamfsApi.argc argv =? 1 then Say [say "cd: missing operand"]
  else if 2 <? RamfsApi.argc argv then Say [say "cd: too many arguments"]
  else if streq (RamfsApi.arg argv 1) "--help" then
    Say [say "cd [DIRECTORY]"; say "Change the current directory to DIRECTORY."]
  else if streq (RamfsApi.arg argv 1) "--version" then Say [say "ramfs cd version 1.0.0"]
  else Run false (Cd (RamfsApi.arg argv 1)).
(** The commands with one operand and the two common options. *)
Definition operand_request (missing : string) (help : list event) (version : string) (run : string → command)
    (argv : list string) : request :=
  if negb (RamfsApi.argc argv =? 2) then Say [say missing]
  else if streq (RamfsApi.arg argv 1) "--help" then Say help
  else if streq (RamfsApi.arg argv 1) "--version" then Say [say version]
  else Run false (run (RamfsApi.arg argv 1)).
Definition write_request (argv : list string) : request :=
  if negb (RamfsApi.argc argv =? 3) then Say [say ("write: usage write FILE " +:+ dq +:+ "content" +:+ dq)]
  else Run false (Write (RamfsApi.arg argv 1) (RamfsApi.bytes_of (RamfsApi.arg argv 2))).
Definition cat_request (argv : list string) : request :=
  if negb (RamfsApi.argc argv =? 2) then Say [say "cat: missing file operand"]
  else Run false (Cat (RamfsApi.arg argv 1)).
Definition ls_request (argv : list string) : request :=
  if (1 <? RamfsApi.argc argv) && (streq (RamfsApi.arg argv 1) "--help" || streq (RamfsApi.arg argv 1) "-h")
  then Say [say "ls: list directory contents"] else ListDir.
Definition backspace_request (argv : list string) : request :=
  if (RamfsApi.argc argv <? 2) || (3 <? RamfsApi.argc argv) then Say [say "backspace: usage backspace FILE [COUNT]"]
  else if streq (RamfsApi.arg argv 1) "--help" then
    Say [say "backspace FILE [COUNT]"; say "Remove COUNT characters from the end of FILE (default 1)."]
  else
    let cnt := if RamfsApi.argc argv =? 3 then Numbers.atoi (RamfsApi.arg argv 2) 10 else 1 in
    if (RamfsApi.argc argv =? 3) && (cnt <? 0) then Say [say "backspace: count must be non-negative"]
    else Run false (Backspace (RamfsApi.arg argv 1) cnt).

Definition requests : list (string * (list string → request)) :=
  [("help", λ _, ShowHelp); ("mkdir", mkdir_request); ("cd", cd_request);
   ("rmdir", operand_request "rmdir: missing operand" [say "rmdir DIRECTORY"; say "Remove empty directory."]
      "ramfs rmdir version 1.0.0" Rmdir);
   ("touch", operand_request "touch: missing file operand" [say ("touch FILE" +:+ nl +:+ "Create an empty file.")]
      "ramfs touch 1.0.0" Touch);
   ("write", write_request); ("cat", cat_request); ("ls", ls_request); ("pwd", λ _, ShowPath);
   ("rm", operand_request "rm: missing file operand" [say ("rm FILE" +:+ nl +:+ "Remove a file.")]
      "ramfs rm version 1.0.0" Rm);
   ("backspace", backspace_request); ("lsblk", λ _, Disk); ("mount", λ _, Disk); ("umount", λ _, Disk);
   ("mkfs.dfs", λ _, Disk)].
Fixpoint request_in (rs : list (string * (list string → request))) (name : string) (argv : list string) : request :=
  match rs with
  | [] => Say [Printf ("Command not found: %s" +:+ nl) [AStr name]]
  | (n, f) :: rs => if String.eqb n name then f argv else request_in rs name argv
  end.
Definition request_of : string → list string → request := request_in requests.

(** What a command says about its result. *)
Definition complaint (verbose : bool) (c : command) (r : Z) : list event :=
  match c with
  | Mkdir n =>
      if r =? -1 then [say "mkdir: invalid name"]
      else if r =? -2 then [Printf ("mkdir: cannot create directory '%s': No such file or directory" +:+ nl) [AStr n]]
      else if (r =? -3) || (r =? -4) then [Printf ("mkdir: cannot create directory '%s': File exists" +:+ nl) [AStr n]]
      else if r =? -5 then [say "mkdir: memory allocation failed"]
      else if verbose then [Printf ("mkdir: created directory '%s'" +:+ nl) [AStr n]] else []
  | Rmdir n =>
      if r =? -1 then [say "rmdir: invalid name"] else if r =? -2 then [say "rmdir: failed to locate parent"]
      else if r =? -3 then [Printf ("rmdir: '%s' is not a directory" +:+ nl) [AStr n]]
      else if r =? -4 then [say "rmdir: directory not empty"] else []
  | Cd p =>
      if r =? -1 then [say "cd: invalid argument"]
      else if r =? -2 then [Printf ("cd: no such directory: %s" +:+ nl) [AStr p]] else []
  | Touch _ =>
      if r =? -1 then [say "touch: invalid file name"] else if r =? -2 then [say "touch: parent directory not found"]
      else if (r =? -3) || (r =? -4) then [say "touch: file already exists"]
      else if r =? -5 then [say "touch: memory error"] else []
  | Write _ _ =>
      if r =? -1 then [say "write: invalid arguments"] else if r =? -2 then [say "write: parent not found"]
      else if r =? -3 then [say "write: file not found"] else if r =? -4 then [say "write: out of memory"] else []
  | Cat _ =>
      if r =? -1 then [say "cat: invalid arguments"] else if r =? -2 then [say "cat: cannot open parent"]
      else if r =? -3 then [say "cat: file not found"] else []
  | Rm _ =>
      if r =? -1 then [say "rm: invalid file name"] else if r =? -2 then [say "rm: parent directory not found"]
      else if r =? -3 then [say "rm: file not found"] else if r =? -4 then [say "rm: deletion failed"] else []
  | Backspace _ _ =>
      if r =? -1 then [say "backspace: invalid file name"] else if r =? -2 then [say "backspace: parent directory not found"]
      else if r =? -3 then [say "backspace: file not found"] else if r =? -4 then [say "backspace: failed to load file data"]
      else if r =? -5 then [say "backspace: file is empty"] else if r =? -6 then [say "backspace: out of memory"] else []
  end.

(** What a command prints before its report: [cat], the bytes. *)
Definition content (v : view) (c : command) : list event :=
  match c with
  | Cat n => match v_tree v !! v_cwd v ≫= λ a, a_files a !! n with
             | Some bytes => (λ b, Printf "%c" [AChr b]) <$> bytes
             | None => []
             end
  | _ => []
  end.

(** The path of the working folder after a command. *)
Definition path_after (v : view) (c : command) (r : Z) (v' : view) : Prop :=
  match c with
  | Cd p => cd_post (v_tree v) (v_cwd v) (v_path v) p r (v_cwd v') (v_path v')
  | _ => v_path v' = v_path v
  end.

(** [mkdir -p]: into each folder named, made first when it is not there. *)
Inductive made_parents (verbose : bool) : tree → Z → list string → tree → list event → Prop :=
  | parents_done t q : made_parents verbose t q [] t []
  | parents_empty t q ts : made_parents verbose t q (EmptyString :: ts) t []
  | parents_dot t q ts t' o : made_parents verbose t q ts t' o → made_parents verbose t q ("." :: ts) t' o
  | parents_there t q n ts a d t' o :
      n ≠ EmptyString → n ≠ "." → t !! q = Some a → a_dirs a !! n = Some d → made_parents verbose t d ts t' o →
      made_parents verbose t q (n :: ts) t' o
  | parents_made t q n ts a t1 a1 d t' o :
      n ≠ EmptyString → n ≠ "." → t !! q = Some a → a_dirs a !! n = None → mkdir_post t q n None 0 t1 →
      t1 !! q = Some a1 → a_dirs a1 !! n = Some d → made_parents verbose t1 d ts t' o →
      made_parents verbose t q (n :: ts) t'
        ((if verbose then [Printf ("mkdir: created directory '%s'" +:+ nl) [AStr n]] else []) ++ o)
  | parents_failed t q n ts a r t1 :
      n ≠ EmptyString → n ≠ "." → t !! q = Some a → a_dirs a !! n = None → r ≠ 0 → mkdir_post t q n None r t1 →
      made_parents verbose t q (n :: ts) t1 [Printf ("mkdir: failed to create '%s'" +:+ nl) [AStr n]].

(** The listing of a folder, its folders and its files each in some order. *)
Definition listing (ds : list string) (fs : list (string * list Z)) : list event :=
  say "Directories:" :: ((λ n, Printf ("  %s/" +:+ nl) [AStr n]) <$> ds) ++
  say "Files:" :: ((λ '(n, bytes), Printf ("  %s (%lld bytes)" +:+ nl) [AStr n; AInt (Z.of_nat (length bytes))]) <$> fs).

(** The help text. *)
Definition help_line (c : EnvVar.CommandEntry) : list event :=
  Printf "  %s" [AStr (EnvVar.cmd_name c)] ::
  (if String.eqb (EnvVar.cmd_desc c) EmptyString then [] else [Printf " - %s" [AStr (EnvVar.cmd_desc c)]]) ++ [Printf nl []].
Definition help_text : list event :=
  say ("Welcome to Little Linux" +:+ nl +:+ "Available commands:") :: ((System.as_entry <$> System.all_commands) ≫= help_line).

Definition answer (q : request) (v v' : view) (o : list event) : Prop :=
  match q with
  | Say text => v' = v ∧ o = text
  | Run verbose c => ∃ r, ¬ out_of_memory c r ∧ command_post c (afs_of v) r (afs_of v') ∧ path_after v c r v' ∧
      o = content v c ++ complaint verbose c r
  | Parents verbose n => v_cwd v' = v_cwd v ∧ v_path v' = v_path v ∧
      made_parents verbose (v_tree v) (if starts_with_slash n then root else v_cwd v)
        (split_slash (if starts_with_slash n then tail n else n)) (v_tree v') o
  | ListDir => v' = v ∧ ∃ a ds fs, v_tree v !! v_cwd v = Some a ∧ ds ≡ₚ (map_to_list (a_dirs a)).*1 ∧
      fs ≡ₚ map_to_list (a_files a) ∧ o = listing ds fs
  | ShowPath => v' = v ∧ o = [Printf ("%s" +:+ nl) [AStr (v_path v)]]
  | ShowHelp => v' = v ∧ o = help_text
  | Disk => v' = v
  end.

(** A line as it is typed: the keys, corrections included, and Enter. *)
Abbreviation typing := (list Z * Z)%type.
Definition keys (ls : list typing) : list Z := ls ≫= λ l, l.1 ++ [l.2].
Definition spells (l : typing) (line : list Z) : Prop :=
  Forall (λ c, c ≠ 10 ∧ c ≠ 13) l.1 ∧ (l.2 = 10 ∨ l.2 = 13) ∧ edit [] l.1 = Some line ∧ (length line < BUFFER)%nat.

(** * What is printed *)

Lemma spoken_app o1 o2 : spoken (o1 ++ o2) = spoken o1 ++ spoken o2.
Proof. apply filter_app. Qed.
Lemma spoken_heap o : Forall Messages.heap_event o → spoken o = [].
Proof.
  intros Ho. rewrite /spoken. induction Ho as [|e o He _ IH]; [done|]. rewrite filter_cons_False //.
  intros Hn. apply Hn. destruct He; repeat (first [by left|right]).
Qed.
Definition said (e : event) : Prop := ev_fmt e ∉ heap_formats.
Lemma spoken_said o : Forall said o → spoken o = o.
Proof. rewrite /spoken. induction 1 as [|e o He _ IH]; [done|]. by rewrite filter_cons_True // IH. Qed.
Lemma said_not e : bool_decide (ev_fmt e ∈ heap_formats) = false → said e.
Proof. by intros ?%bool_decide_eq_false. Qed.
Ltac said_tac := repeat (apply Forall_cons; split; [apply said_not; by vm_compute|]); apply Forall_nil; exact I.
Lemma complaint_said verbose c r : Forall said (complaint verbose c r).
Proof. destruct c; cbn [complaint]; repeat case_match; said_tac. Qed.
Lemma content_said v c : Forall said (content v c).
Proof.
  destruct c; try apply Forall_nil_2. cbn [content]. case_match; [|apply Forall_nil_2].
  apply Forall_fmap, Forall_true. intros b. apply said_not. by vm_compute.
Qed.

(** * The operations *)

Section answers.
Context {D : Type} `{!Drive.Hba D, !Drive.HbaLaws D}.
Abbreviation kernel := (EnvVar.kernel Heap.state).
Abbreviation fs := (FsState.fs kernel D).
Context (K : string → Prop) (HK : HashTable.distinguishable (V:=ramfs_file_info) K) (HK0 : ∀ n, K n → no_nul n).
Implicit Types (s : fs).

(** Operations other than [cat] print nothing but the heap's messages, and
    only [cd] changes the path. *)
Definition path_kept (c : command) : relation string := match c with Cd _ => anything | _ => (=) end.
#[global] Instance path_kept_preorder c : PreOrder (path_kept c).
Proof. destruct c; apply _. Qed.
Lemma kernel_malloc_quiet n (k : kernel) : keeps_in Messages.heap_event anything (Alloc.malloc n) k.
Proof. eapply keeps_anything, Messages.kernel_malloc_says. Qed.
Lemma kernel_free_quiet p (k : kernel) : keeps_in Messages.heap_event anything (Alloc.free p) k.
Proof. eapply keeps_anything, Messages.kernel_free_says. Qed.
#[local] Hint Resolve kernel_malloc_quiet kernel_free_quiet Messages.env_set_says : keeps.

Lemma exec_quiet fuel c s : Inv K s → command_ok K fuel c (astate s) → (∀ n, c ≠ Cat n) →
  keeps_in Messages.heap_event (RamfsSafe.same anything (path_kept c)) (exec fuel c) s.
Proof.
  intros HI Hok Hcat. destruct c as [n|n|p|p|n bs|n|p|p cnt]; cbn [exec command_ok] in *.
  - apply RamfsSafe.fs_mkdir_keeps with (K := K); eauto with keeps typeclass_instances. done.
  - apply RamfsSafe.fs_rmdir_keeps with (K := K); eauto with keeps typeclass_instances.
  - destruct Hok as (?&?&?). apply RamfsSafe.fs_cd_keeps with (K := K); eauto with keeps typeclass_instances. done.
  - destruct Hok as (?&?&?). apply RamfsSafe.fs_touch_keeps with (K := K); eauto with keeps typeclass_instances. done.
  - apply RamfsSafe.fs_write_keeps with (K := K); eauto with keeps typeclass_instances. done.
  - by destruct (Hcat n).
  - destruct Hok as (?&?&?). apply RamfsSafe.fs_rm_keeps with (K := K); eauto with keeps typeclass_instances. done.
  - destruct Hok as (?&?&?). apply RamfsSafe.fs_backspace_keeps with (K := K); eauto with keeps typeclass_instances. done.
Qed.

Lemma exec_answers fuel c s : Inv K s → command_ok K fuel c (astate s) →
  wp (exec fuel c) s (λ r s' o, ¬ out_of_memory c r →
    command_post c (astate s) r (astate s') ∧ path_after (look s) c r (look s') ∧ spoken o = content (look s) c).
Proof.
  intros HI Hok.
  assert (Hrest : (∀ n, c ≠ Cat n) → (∀ p, c ≠ Cd p) → wp (exec fuel c) s (λ r s' o, ¬ out_of_memory c r →
    command_post c (astate s) r (astate s') ∧ path_after (look s) c r (look s') ∧ spoken o = content (look s) c)).
  { intros Hcat Hcd. eapply wp_mono; [eapply wp_keeps; [by apply (exec_ok K HK)|by apply exec_quiet]|].
    intros r s' o (Hpost&(_&_&_&_&Hp)&Ho) Hr. destruct (Hpost Hr) as [_ Hc]. rewrite spoken_heap //.
    split; [done|]. by destruct c; try (by destruct (Hcat name)); try (by destruct (Hcd path)). }
  destruct c as [n|n|p|p|n bs|n|p|p cnt]; try (by apply Hrest).
  - pose proof Hok as (Hn&Hl&Hf). eapply wp_mono; [eapply wp_keeps; [by apply (fs_cd_ok K)|by apply (exec_quiet fuel (Cd p))]|].
    intros r s' o ((_&Ha&Hc)&_&Ho) _. rewrite spoken_heap //. split; [|done]. split; [done|].
    rewrite /cd_post in Hc. cbn [astate a_tree a_cwd]. destruct (resolve _ _ _); naive_solver.
  - destruct (fs_cat_ok K HK s n None HI I Hok) as (r&out&Hrun&Hpost). rewrite /wp /exec Hrun. intros _.
    split; [split; [done|by exists out]|]. split; [done|]. rewrite /cat_post /= in Hpost.
    assert (Hout : out = content (look s) (Cat n)).
    { destruct Hpost as (a&Ha&Hpost). cbn [content look v_tree v_cwd]. rewrite Ha. cbn [mbind option_bind].
      destruct (a_files a !! n); by destruct Hpost. }
    rewrite Hout. apply spoken_said, content_said.
Qed.

(** A command function that does one operation and reports. *)
Definition answers (q : request) s : Z → fs → list event → Prop :=
  λ _ s' o, RamfsSafe.out_of_memory ∈ o ∨ answer q (look s) (look s') (spoken o).
Lemma run_answers fuel verbose c (report : Z → M fs unit) s : Inv K s → command_ok K fuel c (astate s) →
  (∀ r s, wp (report r) s (λ _ s' o, s' = s ∧ o = complaint verbose c r)) →
  wp (r ← exec fuel c; report r;; mret 0) s (answers (Run verbose c) s).
Proof.
  intros HI Hok Hrep. apply wp_bind. eapply wp_mono; [by apply exec_answers|]. intros r s1 o1 Hpost.
  apply wp_bind. eapply wp_mono; [apply Hrep|]. intros [] s2 o2 [-> ->]. apply wp_ret. rewrite app_nil_r.
  destruct c as [n|n|p|p|n bs|n|p|p cnt]; try (right; destruct Hpost as (?&?&Ho); [by intros []|];
    exists r; split; [by intros []|]; rewrite spoken_app Ho (spoken_said _ (complaint_said _ _ _)); by split_and!).
  destruct (Z.eqb_spec r (-4)) as [->|Hr].
  - left. apply elem_of_app. right. by left.
  - right. destruct (Hpost Hr) as (?&?&Ho). exists r. split; [done|].
    rewrite spoken_app Ho (spoken_said _ (complaint_said _ _ _)). by split_and!.
Qed.
Lemma say_answers text (m : M fs Z) s : Forall said text →
  wp m s (λ _ s' o, s' = s ∧ o = text) → wp m s (answers (Say text) s).
Proof. intros Ht Hm. eapply wp_mono; [exact Hm|]. intros r s' o [-> ->]. right. by rewrite /= spoken_said. Qed.

(** * The command functions *)

Ltac says_tac := apply say_answers; [said_tac|wp_steps; done].
Ltac run_tac c := apply (run_answers 0 _ c); [done| |intros; cbn [complaint]; repeat case_match; wp_steps; done].

Lemma cd_answers fuel argv s : Inv K s → RamfsSafe.args_ok K argv →
  cd_fits (abs s) (current_dir s) (RamfsApi.arg argv 1) fuel →
  wp (RamfsApi.fs_cd_api fuel argv) s (answers (cd_request argv) s).
Proof.
  intros HI Ha Hfit. destruct (RamfsSafe.arg_text K argv 1 Ha). rewrite /RamfsApi.fs_cd_api /cd_request.
  do 4 (case_match; [says_tac|]).
  apply (run_answers fuel _ (Cd (RamfsApi.arg argv 1))); [done|by split_and!|].
  intros; cbn [complaint]; repeat case_match; wp_steps; done.
Qed.
Lemma rmdir_answers argv s : Inv K s → RamfsSafe.args_ok K argv →
  wp (RamfsApi.fs_rmdir_api argv) s (answers (request_of "rmdir" argv) s).
Proof.
  intros HI Ha. rewrite /RamfsApi.fs_rmdir_api /request_of /=/operand_request. do 3 (case_match; [says_tac|]).
  by run_tac (Rmdir (RamfsApi.arg argv 1)).
Qed.
Lemma touch_answers argv s : Inv K s → RamfsSafe.args_ok K argv →
  wp (RamfsApi.fs_touch_api argv) s (answers (request_of "touch" argv) s).
Proof.
  intros HI Ha. rewrite /RamfsApi.fs_touch_api /request_of /=/operand_request. destruct (Z.eqb_spec (RamfsApi.argc argv) 2); cbn [negb]; [|says_tac].
  destruct (RamfsSafe.arg_in K argv 1 Ha) as ([Hn Hl]&_&Hk&_); [lia|]. do 2 (case_match; [says_tac|]).
  by run_tac (Touch (RamfsApi.arg argv 1)).
Qed.
Lemma rm_answers argv s : Inv K s → RamfsSafe.args_ok K argv →
  wp (RamfsApi.fs_rm_api argv) s (answers (request_of "rm" argv) s).
Proof.
  intros HI Ha. rewrite /RamfsApi.fs_rm_api /request_of /=/operand_request. destruct (Z.eqb_spec (RamfsApi.argc argv) 2); cbn [negb]; [|says_tac].
  destruct (RamfsSafe.arg_in K argv 1 Ha) as ([Hn Hl]&_&Hk&_); [lia|]. do 2 (case_match; [says_tac|]).
  by run_tac (Rm (RamfsApi.arg argv 1)).
Qed.
Lemma write_answers argv s : Inv K s → RamfsSafe.args_ok K argv →
  wp (RamfsApi.fs_write_api argv) s (answers (write_request argv) s).
Proof.
  intros HI Ha. rewrite /RamfsApi.fs_write_api /write_request. destruct (Z.eqb_spec (RamfsApi.argc argv) 3); cbn [negb]; [|says_tac].
  destruct (RamfsSafe.arg_in K argv 1 Ha) as ([Hn Hl]&Hk&_); [lia|]. destruct (RamfsSafe.arg_text K argv 2 Ha) as [_ Hb].
  run_tac (Write (RamfsApi.arg argv 1) (RamfsApi.bytes_of (RamfsApi.arg argv 2))). split; [done|].
  rewrite RamfsSafe.length_bytes. lia.
Qed.
Lemma cat_answers argv s : Inv K s → RamfsSafe.args_ok K argv →
  wp (RamfsApi.fs_cat_api argv) s (answers (cat_request argv) s).
Proof.
  intros HI Ha. rewrite /RamfsApi.fs_cat_api /cat_request. destruct (Z.eqb_spec (RamfsApi.argc argv) 2); cbn [negb]; [|says_tac].
  destruct (RamfsSafe.arg_in K argv 1 Ha) as ([Hn Hl]&Hk&_); [lia|]. by run_tac (Cat (RamfsApi.arg argv 1)).
Qed.
Lemma backspace_answers argv s : Inv K s → RamfsSafe.args_ok K argv →
  wp (RamfsApi.fs_backspace_api argv) s (answers (backspace_request argv) s).
Proof.
  intros HI Ha. rewrite /RamfsApi.fs_backspace_api /backspace_request.
  destruct (Z.ltb_spec (RamfsApi.argc argv) 2); cbn [orb]; [says_tac|]. do 3 (case_match; [says_tac|]).
  destruct (RamfsSafe.arg_in K argv 1 Ha) as ([Hn Hl]&_&Hk&_); [lia|].
  by run_tac (Backspace (RamfsApi.arg argv 1) (if RamfsApi.argc argv =? 3 then Numbers.atoi (RamfsApi.arg argv 2) 10 else 1)).
Qed.
Lemma pwd_answers argv s : wp (RamfsApi.fs_pwd_api argv) s (answers ShowPath s).
Proof. rewrite /RamfsApi.fs_pwd_api. wp_steps. right. split; [done|]. apply spoken_said. said_tac. Qed.

(** ** mkdir *)

Lemma made_folder t cwd n t1 : mkdir_post t cwd n None 0 t1 → ∃ a1 d, t1 !! cwd = Some a1 ∧ a_dirs a1 !! n = Some d.
Proof.
  rewrite /mkdir_post /=. case_bool_decide; [by intros []|]. intros (a&Ha&Hpost).
  destruct (a_dirs a !! n); [by destruct Hpost|]. destruct (a_files a !! n); [by destruct Hpost|].
  destruct Hpost as [(_&q&Hq&->)|[]]; [|done]. exists (add_dir n q a), q.
  rewrite lookup_insert_ne; [congruence|]. by rewrite lookup_insert_eq /= lookup_insert_eq.
Qed.
Lemma dirs_of s cur d n : dirs s !! cur = Some d →
  ∃ a, abs s !! cur = Some a ∧ a_dirs a !! n = di_ptr <$> HashTable.contents (foder_map d) !! n.
Proof. intros Hd. exists (abs_dir (data s) d). split; [by apply abs_at|]. by rewrite /= lookup_fmap. Qed.

Lemma parents_answers verbose tokens cur s :
  Inv K s → is_Some (dirs s !! cur) → Forall (λ t, no_nul t ∧ K t) tokens →
  wp (RamfsApi.mkdir_parents verbose cur tokens) s (λ _ s' o,
    current_dir s' = current_dir s ∧ current_path s' = current_path s ∧
    made_parents verbose (abs s) cur tokens (abs s') (spoken o)).
Proof.
  intros HI Hcur Htok. revert s cur HI Hcur.
  induction Htok as [|t tokens [Hn Hk] _ IH]; intros s cur HI [d Hd].
  { split_and!; [done..|]. constructor. }
  cbn [RamfsApi.mkdir_parents]. pose proof HI as (own&L&Hinv).
  rewrite !streq_spec //. case_bool_decide as He; [subst t; split_and!; [done..|constructor]|].
  case_bool_decide as Hdot.
  { subst t. eapply wp_mono; [apply IH; [done|by exists d]|]. intros _ s' o (?&?&?). split_and!; [done..|by constructor]. }
  destruct (dirs_of s cur d t Hd) as (a&Ha&Hsub).
  apply wp_bind. eapply load_dir_wp; [exact Hd|]. rewrite (find_foder K _ _ _ _ _ _ Hinv Hd).
  destruct (HashTable.contents (foder_map d) !! t) as [i|] eqn:Hi; cbn [fmap option_fmap option_map] in Hsub.
  { destruct (dk_subs _ _ _ _ _ _ (inv_dirs _ _ _ _ Hinv _ _ Hd) _ _ Hi) as (_&d'&Hd'&_).
    eapply wp_mono; [apply IH; [done|by exists d']|]. intros _ s' o (?&?&?). split_and!; [done..|].
    by eapply parents_there. }
  wp_steps. eapply wp_mono.
  { eapply (RamfsSafe.mkdir_in (E:=Messages.heap_event) anything (=)) with (q := cur); eauto with keeps typeclass_instances. }
  intros r s1 o1 ((HI1&_&Ho1)&Hlive&Hpath&Hpost). set s2 := set_current_dir (current_dir s) s1 in HI1, Hlive, Hpath, Hpost |- *.
  wp_steps. destruct (Z.eqb_spec r 0) as [->|Hr]; cbn [negb].
  2:{ wp_steps. split_and!; [done|done|]. rewrite !spoken_app (spoken_heap o1) //=.
      by eapply parents_failed. }
  destruct (Hlive cur) as [d1 Hd1]; [by exists d|]. destruct (made_folder _ _ _ _ Hpost) as (a1&q&Ha1&Hq).
  destruct (dirs_of s2 cur d1 t Hd1) as (a1'&Ha1'&Hsub1). assert (a1' = a1) as -> by congruence. rewrite Hq in Hsub1.
  destruct (HashTable.contents (foder_map d1) !! t) as [i1|] eqn:Hi1; [|done]. injection Hsub1 as ->.
  pose proof HI1 as (own1&L1&Hinv1).
  destruct (dk_subs _ _ _ _ _ _ (inv_dirs _ _ _ _ Hinv1 _ _ Hd1) _ _ Hi1) as (_&d'&Hd'&_).
  assert (Hrun : ∀ said, spoken said = (if verbose then [Printf ("mkdir: created directory '%s'" +:+ nl) [AStr t]] else []) →
    wp (d ← load_dir cur; match RamfsHash.ramfs_hashmap_find (foder_map d) t with
        | Some info => RamfsApi.mkdir_parents verbose (di_ptr info) tokens | None => mret (-1) end) s2
      (λ _ s' o, current_dir s' = current_dir s ∧ current_path s' = current_path s ∧
        made_parents verbose (abs s) cur (t :: tokens) (abs s') (spoken (o1 ++ said ++ o)))).
  { intros said Hsaid. apply wp_bind. eapply load_dir_wp; [exact Hd1|]. rewrite (find_foder K _ _ _ _ _ _ Hinv1 Hd1) Hi1.
    eapply wp_mono; [apply IH; [done|by exists d']|]. intros _ s' o (Hc&Hp&Hm). split_and!; [done|by rewrite Hp|].
    rewrite !spoken_app (spoken_heap o1) // Hsaid. by eapply parents_made. }
  apply wp_bind. destruct verbose; [apply wp_printf|apply wp_ret].
  - eapply wp_mono; [by apply (Hrun [Printf ("mkdir: created directory '%s'" +:+ nl) [AStr t]])|by intros].
  - eapply wp_mono; [by apply (Hrun [])|by intros].
Qed.
Lemma mkdir_answers argv s : Inv K s → RamfsSafe.args_ok K argv →
  wp (RamfsApi.fs_mkdir_api argv) s (answers (mkdir_request argv) s).
Proof.
  intros HI Ha. rewrite /RamfsApi.fs_mkdir_api /mkdir_request. case_match; [says_tac|].
  destruct (RamfsApi.mkdir_options (drop 1 argv) false false) as [| |opt|p v [n|]] eqn:Ho;
    [says_tac|says_tac|says_tac| |destruct p; says_tac].
  apply RamfsSafe.option_dirname, list_elem_of_lookup in Ho as [i Hi]. rewrite lookup_drop in Hi.
  destruct (RamfsSafe.arg_in K argv (1 + i) Ha) as ([Hn Hl]&Hk&_&Hks); [apply lookup_lt_Some in Hi; rewrite /RamfsApi.argc; lia|].
  rewrite /RamfsApi.arg Hi in Hn, Hl, Hk, Hks. cbn [default from_option id] in Hn, Hl, Hk, Hks.
  destruct p; [|by run_tac (Mkdir n)]. rewrite (proj2 (Z.leb_gt _ _)) //. wp_steps. pose proof HI as (own&L&Hinv).
  assert (Hok : Forall (λ t, no_nul t ∧ K t) (split_slash (if starts_with_slash n then tail n else n))).
  { apply Forall_and. split; [|done]. apply split_slash_no_nul. case_match; [by apply tail_no_nul|done]. }
  rewrite /answers /answer. destruct (starts_with_slash n); (eapply wp_mono; [apply parents_answers; [done| |done]|]).
  1: apply (inv_root _ _ _ _ Hinv). 2: apply (inv_cwd _ _ _ _ Hinv).
  all: intros r s' o (?&?&?); right; by split_and!.
Qed.

(** ** ls *)

Lemma print_foders_run ns s : Ramfs.print_foders ns s = Ok (tt, s, (λ n, Printf ("  %s/" +:+ nl) [AStr n]) <$> (n_key <$> ns)).
Proof. induction ns as [|n ns IH]; [done|]. cbn [Ramfs.print_foders]. by rewrite /mbind /M_bind /= IH. Qed.
Lemma print_files_run ns s : Ramfs.print_files ns s =
  Ok (tt, s, (λ n, Printf ("  %s (%lld bytes)" +:+ nl) [AStr (n_key n); AInt (fi_length (n_value n))]) <$> ns).
Proof. induction ns as [|n ns IH]; [done|]. cbn [Ramfs.print_files]. by rewrite /mbind /M_bind /= IH. Qed.
Lemma listed {V} `{!HashTable.Entry V} (m : hashmap V) :
  HashTable.wf m → map_to_list (HashTable.contents m) ≡ₚ HashTable.entry <$> HashTable.nodes m.
Proof.
  intros Hwf. apply map_to_list_to_map. rewrite -list_fmap_compose. apply (HashTable.wf_keys _ Hwf).
Qed.
Lemma listing_said ds fs : Forall said (listing ds fs).
Proof.
  rewrite /listing. apply Forall_cons. split; [apply said_not; by vm_compute|]. apply Forall_app. split.
  - apply Forall_fmap, Forall_true. intros n. apply said_not. by vm_compute.
  - apply Forall_cons. split; [apply said_not; by vm_compute|]. apply Forall_fmap, Forall_true.
    intros [n bytes]. apply said_not. by vm_compute.
Qed.
Lemma ls_answers argv s : Inv K s → wp (RamfsApi.fs_ls_api argv) s (answers (ls_request argv) s).
Proof.
  intros (own&L&Hinv). rewrite /RamfsApi.fs_ls_api /ls_request. case_match; [says_tac|]. rewrite /Ramfs.fs_ls. wp_steps.
  destruct (inv_cwd _ _ _ _ Hinv) as [d Hd]. eapply load_dir_wp; [exact Hd|].
  pose proof (inv_dirs _ _ _ _ Hinv _ _ Hd) as Hok.
  apply wp_bind, wp_run. eexists _, _, _. split; [apply print_foders_run|]. wp_steps.
  apply wp_run. eexists _, _, _. split; [apply print_files_run|]. wp_steps. right.
  split; [done|]. exists (abs_dir (data s) d).
  exists (n_key <$> HashTable.nodes (foder_map d)).
  exists ((λ n, (n_key n, file_bytes (data s) (n_value n))) <$> HashTable.nodes (file_map d)).
  split; [by apply abs_at|]. split; [|split].
  - cbn [abs_dir a_dirs]. rewrite map_to_list_fmap (listed (foder_map d)); [apply (dk_foders _ _ _ _ _ _ Hok)|].
    by rewrite -!list_fmap_compose.
  - cbn [abs_dir a_files]. rewrite map_to_list_fmap (listed (file_map d)); [apply (dk_files _ _ _ _ _ _ Hok)|].
    by rewrite -!list_fmap_compose.
  - rewrite -(spoken_said (listing _ _)); [apply listing_said|]. f_equal.
    rewrite /listing -(list_fmap_compose _ _ (HashTable.nodes (file_map d))).
    rewrite (list_fmap_ext (_ ∘ _) (λ n, Printf ("  %s (%lld bytes)" +:+ nl) [AStr (n_key n); AInt (fi_length (n_value n))])
      (HashTable.nodes (file_map d))).
    2:{ by rewrite /= ?app_nil_r. }
    intros i n Hi%list_elem_of_lookup_2.
    assert (Hc : HashTable.contents (file_map d) !! n_key n = Some (n_value n)).
    { apply HashTable.contents_lookup; [apply (dk_files _ _ _ _ _ _ Hok)|]. by exists n. }
    rewrite /= /file_bytes. destruct (dk_data _ _ _ _ _ _ Hok _ _ Hc) as [[-> ->]|(Hp&_&bs&Hbs&Hl&_)]; [done|].
    rewrite (proj2 (Z.eqb_neq _ 0)) // Hbs /= Hl //.
Qed.

(** ** help and the disk commands *)

Lemma foreach_help cs (k : kernel) :
  wp (EnvVar.foreach EnvVar.help_callback cs) k (λ _ k' o, k' = k ∧ o = cs ≫= help_line).
Proof.
  induction cs as [|c cs IH]; [by split|]. cbn [EnvVar.foreach]. rewrite /EnvVar.help_callback. wp_steps.
  rewrite /mbind /list_bind /help_line. destruct (String.eqb (EnvVar.cmd_desc c) EmptyString); wp_steps;
    (eapply wp_mono; [exact IH|]); by intros [] k' o [-> ->].
Qed.
Lemma help_answers argv s : Session.system_ok K s → wp (on_heap (EnvVar.my_os_command_help argv)) s (answers ShowHelp s).
Proof.
  intros Hs. rewrite /on_heap. apply wp_zoom. rewrite /EnvVar.my_os_command_help. wp_steps.
  rewrite /wp EnvVar.foreach_command_run -/(wp _ _ _); [by eapply Session.inv_tables, Session.ok_files|].
  rewrite (Session.ok_commands _ _ Hs). eapply wp_mono; [apply foreach_help|]. intros [] k o [-> ->]. wp_steps.
  right. split; [by destruct s|]. rewrite app_nil_r. vm_compute. reflexivity.
Qed.

(** * Any line *)

Lemma call_answers fuel name desc func argv s :
  (name, desc, func) ∈ System.all_commands → Session.system_ok K s →
  Session.command_args K fuel name argv (abs s) (current_dir s) →
  wp (System.call fuel func argv) s (answers (request_of name argv) s).
Proof.
  intros Hin Hs [Ha Hcd]. pose proof Hs as [HI Hp Hd Hm Hc [_ Hpath]].
  assert (Hdisk : ∀ c, Dfs.disk_command fuel c → wp (c argv) s (answers Disk s)).
  { intros c Hc'. eapply wp_mono; [eapply Dfs.disk_command_ok; [exact Hc'|done..|apply Ha]|].
    intros r s' o [-> Ho]. by right. }
  rewrite /System.all_commands /RamfsApi.fs_commands /Dfs.dfs_commands in Hin.
  repeat (apply elem_of_cons in Hin as [[= -> -> ->]|Hin]).
  - by apply help_answers.
  - by apply mkdir_answers.
  - apply cd_answers; [done..|by apply Hcd].
  - by apply rmdir_answers.
  - by apply touch_answers.
  - by apply write_answers.
  - by apply cat_answers.
  - by apply ls_answers.
  - by apply pwd_answers.
  - by apply rm_answers.
  - by apply backspace_answers.
  - apply Hdisk. constructor.
  - apply Hdisk. constructor.
  - apply Hdisk. constructor.
  - apply Hdisk. constructor.
  - by apply elem_of_nil in Hin.
Qed.

Lemma request_unknown name argv : Forall (λ c, fst (fst c) ≠ name) System.all_commands →
  request_of name argv = Say [Printf ("Command not found: %s" +:+ nl) [AStr name]].
Proof.
  intros Hall. assert (Hn : Forall (λ n, n ≠ name) requests.*1).
  { change (Forall (λ n, n ≠ name) ((λ c, fst (fst c)) <$> System.all_commands)). by apply Forall_fmap. }
  rewrite /request_of. clear Hall. induction requests as [|[n f] rs IH]; [done|]. cbn [request_in].
  apply Forall_cons in Hn as [Hne Hn]. cbn [fst] in Hne. destruct (String.eqb_spec n name); [done|]. by apply IH.
Qed.

(** The request of a line, and what running it does. *)
Definition line_request (line : list Z) : request :=
  request_of (DfsLoad.cstr (Session.command_word line)) (Session.line_argv line).
Lemma line_answers fuel line post s :
  no_zero line → Session.system_ok K s → Session.line_ok K fuel line s →
  wp (my_os_command_search (System.call fuel) (line ++ 0 :: post)) s (answers (line_request line) s).
Proof.
  intros Hz Hs Hline. pose proof (Session.line_args _ _ _ _ _ Hline) as Hargs.
  apply (Session.run_line_with K); [done..| |].
  - intros Hno. right. by rewrite /line_request request_unknown.
  - intros desc func Hin. by eapply call_answers.
Qed.

(** * A session *)

(** The lines of a session are ones the command line accepts, whatever the
    answers to those before are. *)
Fixpoint session_ok (fuel : nat) (ls : list typing) (v : view) : Prop :=
  match ls with
  | [] => True
  | l :: ls => ∃ line, spells l line ∧ Session.line_fits K fuel line (v_tree v) (v_cwd v) ∧
      ∀ v' o, answer (line_request line) v v' o → session_ok fuel ls v'
  end.

(** What a session does to the view and what it shows: the prompt, the
    echo of the keys, the notice and the answer of each line. *)
Inductive session : list typing → view → view → list event → Prop :=
  | session_end v : session [] v v []
  | session_line l ls line v v1 v2 o os :
      edit [] l.1 = Some line → answer (line_request line) v v1 o → session ls v1 v2 os →
      session (l :: ls) v v2 ((Session.prompt_of (v_path v) :: echo [] l.1 ++ Session.running :: o) ++ os).

Lemma echo_said line ins : Forall said (echo line ins).
Proof.
  revert line. induction ins as [|c ins IH]; intros line; [constructor|]. cbn [echo]. case_match; [done|].
  apply Forall_app. split; [|by case_match]. rewrite /echo_char. repeat case_match; said_tac.
Qed.
Lemma turn_answers fuel t l line rest :
  typed t [] → Session.system_ok K (sys t) → spells l line → Session.line_ok K fuel line (sys t) →
  wp (my_own_os_main_turn (System.call fuel) (l.1 ++ l.2 :: rest)) t (λ left t' o,
    left = rest ∧ typed t' [] ∧ Forall Printable.printable o ∧
    (RamfsSafe.out_of_memory ∈ o ∨ Session.system_ok K (sys t') ∧ ∃ o',
      answer (line_request line) (look (sys t)) (look (sys t')) o' ∧
      spoken o = Session.prompt_of (v_path (look (sys t))) :: echo [] l.1 ++ Session.running :: o')).
Proof.
  intros Ht Hs (Hins&He&Hedit&Hlen) Hline.
  eapply wp_mono; [eapply wp_and|].
  - by eapply (Session.turn_ok K HK HK0).
  - eapply (Session.turn_with K fuel t _ _ rest line (answers (line_request line) (sys t))); try done.
    intros Hz post. by apply line_answers.
  - intros left t' o [(->&Ht'&Hpr&Hsys) (_&_&r&o'&->&Hans)]. do 3 (split; [done|]).
    destruct Hsys as [Hsys|]; [|by left]. destruct Hans as [Hoom|Hans].
    { left. apply elem_of_cons. right. apply elem_of_app. right. by right. }
    right. split; [done|]. exists (spoken o'). split; [done|].
    change (?e :: echo [] l.1 ++ ?r :: o') with ([e] ++ echo [] l.1 ++ [r] ++ o'). rewrite !spoken_app.
    by rewrite (spoken_said _ (echo_said _ _)).
Qed.

Lemma keys_cons l ls rest : keys (l :: ls) ++ rest = l.1 ++ l.2 :: keys ls ++ rest.
Proof. by rewrite /keys /mbind /= -!app_assoc. Qed.

Lemma session_runs fuel ls rest t :
  typed t [] → Session.system_ok K (sys t) → session_ok fuel ls (look (sys t)) →
  ∃ n left t' o, shell_turns (System.call fuel) n (keys ls ++ rest) t = Ok (left, t', o) ∧ (n ≤ length ls)%nat ∧
    Forall Printable.printable o ∧
    (RamfsSafe.out_of_memory ∈ o ∨
     n = length ls ∧ left = rest ∧ typed t' [] ∧ Session.system_ok K (sys t') ∧
     session ls (look (sys t)) (look (sys t')) (spoken o)).
Proof.
  revert t. induction ls as [|l ls IH]; intros t Ht Hs Hok.
  { exists 0%nat, rest, t, []. split_and!; [done|lia|done|]. right. split_and!; [done..|constructor]. }
  destruct Hok as (line&Hspell&Hline&Hnext). rewrite keys_cons.
  pose proof (turn_answers fuel t l line (keys ls ++ rest) Ht Hs Hspell Hline) as Hturn.
  apply wp_run in Hturn as (left&t1&o1&Hrun&->&Ht1&Ho1&Hcase). destruct Hcase as [Hoom|(Hs1&o'&Hans&Hsp)].
  - exists 1%nat, (keys ls ++ rest), t1, o1. split_and!; [|simpl; lia|done|by left].
    by rewrite /= /mbind /M_bind Hrun /= app_nil_r.
  - destruct (IH t1 Ht1 Hs1 (Hnext _ _ Hans)) as (n&left&t2&o2&Hrun2&Hn&Ho2&Hcase).
    exists (S n), left, t2, (o1 ++ o2). split_and!; [|simpl; lia|by apply Forall_app|].
    { by rewrite /= /mbind /M_bind Hrun Hrun2. }
    destruct Hcase as [Hoom|(->&->&Ht2&Hs2&Hses)]; [left; set_solver|right]. split_and!; [done..|].
    rewrite spoken_app Hsp. destruct Hspell as (_&_&Hedit&_). by eapply session_line.
Qed.

(** C2: A session of the command line. From any consistent system, lines
    typed one after the other, corrections included, are read and run to the
    end, and everything shown is determined by the abstract file system:
    before each line the prompt with the path of the working folder, then
    the echo of the keys, the notice, and the answer the line's request has
    on the tree - which folders and files there are, what they contain, what
    is refused and with which message, how often [mkdir -p] makes a folder,
    what a listing lists. Afterwards the system is consistent and its files
    are those of the last view. Only a write that reports that memory ran
    out ends the session earlier. *)
Theorem session_answers fuel ls rest t :
  typed t [] → Session.system_ok K (sys t) → session_ok fuel ls (look (sys t)) →
  ∃ n left t' o, shell_turns (System.call fuel) n (keys ls ++ rest) t = Ok (left, t', o) ∧ (n ≤ length ls)%nat ∧
    Forall Printable.printable o ∧
    (RamfsSafe.out_of_memory ∈ o ∨
     n = length ls ∧ left = rest ∧ typed t' [] ∧ Session.system_ok K (sys t') ∧
     session ls (look (sys t)) (look (sys t')) (spoken o)).
Proof. apply session_runs. Qed.
End answers.

(** * A session on a machine just booted

    A folder is made and removed, a file of that name written and read. *)
Section demo.
Definition ascii_keys (text : string) : list Z := (λ c, Z.of_nat (Ascii.nat_of_ascii c)) <$> String.list_ascii_of_string text.
Definition demo_session : list typing :=
  [(Session.demo_keys, 10); (ascii_keys "ls", 10); (ascii_keys "rmdir a", 10); (ascii_keys "touch a", 10);
   (ascii_keys "write a a", 10); (ascii_keys "cat a", 10); (ascii_keys "pwd", 10)].

(** Lines whose words, past the command, are all [a]. *)
Lemma demo_fits line cmd k t cwd :
  Session.line_argv line = cmd :: replicate k "a" → DfsLoad.cstr (Session.command_word line) = cmd →
  Session.unconfused cmd → RamfsSafe.text_ok cmd → cmd ≠ "cd" → (length (Session.command_word line) ≤ 63)%nat →
  Forall (λ w, head w ≠ Some 36) (Session.line_words line) →
  Session.line_fits Session.demo_names 5 line t cwd.
Proof.
  intros Hargv Hcmd Hu Ht Hcd Hl Hp. split; rewrite ?Hcmd ?Hargv //. split; [split|by intros ->].
  - constructor; [done|]. by apply Forall_replicate.
  - apply Forall_replicate. split; [done|]. split; [done|]. by repeat constructor.
Qed.
Lemma demo_spells l line :
  bool_decide (Forall (λ c, c ≠ 10 ∧ c ≠ 13) l.1) = true → l.2 = 10 ∨ l.2 = 13 → edit [] l.1 = Some line →
  Nat.ltb (length line) BUFFER = true → spells l line.
Proof. intros Hk%bool_decide_eq_true He Hedit Hl%Nat.ltb_lt. by split_and!. Qed.
Ltac demo_line cmd k :=
  eexists; split; [apply demo_spells; [vm_compute; reflexivity|auto|vm_compute; reflexivity|vm_compute; reflexivity]|split;
    [apply (demo_fits _ cmd k); [vm_compute; reflexivity|vm_compute; reflexivity|
       apply (bool_decide_unpack _); vm_compute; exact I|split; [repeat split; discriminate|reflexivity]|discriminate|
       apply Nat.leb_le; vm_compute; reflexivity|apply (bool_decide_unpack _); vm_compute; exact I]|intros ? ? _]].
Lemma demo_session_ok v : session_ok Session.demo_names 5 demo_session v.
Proof.
  demo_line "mkdir" 1%nat. demo_line "ls" 0%nat. demo_line "rmdir" 1%nat. demo_line "touch" 1%nat.
  demo_line "write" 2%nat. demo_line "cat" 1%nat. demo_line "pwd" 0%nat. exact I.
Qed.

Lemma session_answers_witness :
  ∃ n left t' o, shell_turns (System.call 5) n (keys demo_session ++ [108]) Session.demo_shell = Ok (left, t', o) ∧
    (n ≤ 7)%nat ∧ Forall Printable.printable o ∧
    (RamfsSafe.out_of_memory ∈ o ∨
     n = 7%nat ∧ left = [108] ∧ typed t' [] ∧ Session.system_ok Session.demo_names (sys t') ∧
     session demo_session (look Session.demo_system) (look (sys t')) (spoken o)).
Proof.
  apply (session_answers Session.demo_names Session.demo_names_differ Session.demo_names_text 5 demo_session [108]
    Session.demo_shell).
  - split; [reflexivity|split; reflexivity].
  - exact Session.demo_system_ok.
  - apply demo_session_ok.
Defined.

(** The session run: what is shown after each line. *)
Definition answered (o : list event) : list event :=
  filter (λ e, ev_fmt e ∉ ["%c"; "%s$ "; ev_fmt Session.running; ev_fmt backspace]) (spoken o).
Example demo_session_runs :
  match shell_turns (System.call 5) 7 (keys demo_session) Session.demo_shell with
  | Ok (_, t, o) => Some (v_path (look (sys t)), answered o)
  | _ => None
  end =
  Some ("/", [say "Directories:"; Printf ("  %s/" +:+ nl) [AStr "a"]; say "Files:"; Printf ("%s" +:+ nl) [AStr "/"]]).
Proof. vm_compute. reflexivity. Qed.
End demo.
End Answers.
