(* ===== verification/Machine.v ===== *)
(** The machine: kernel.c's [main], and the command line between the keyboard
    and the screen.

    The components meet on one state: the screen with the ports behind it,
    the keyboard driver, the processor's tables and the shell with all it
    reaches. An interrupt takes the way of the hardware: the controller's
    vector, the gate of the table the processor was given, the stub, the
    dispatcher, the registered handler, the acknowledgement. What a
    component prints goes through [printf] to the screen. *)
From S2P Require Import Prelude.
From S2P Require Import Allocator.
From S2P Require Import Malloc.
From S2P Require Import CString.
From S2P Require Import RamfsTypes.
From S2P Require Import HashTable.
From S2P Require Import Io.
From S2P Require Import Tty.
From S2P Require Import Printf.
From S2P Require Import Printable.
From S2P Require Import Keeps.
From S2P Require Import Screen.
From S2P Require Import Bytes.
From S2P Require Import Drive.
From S2P Require Import Partition.
From S2P Require Import FsState.
From S2P Require Import DfsLoad.
From S2P Require Import EnvVar.
From S2P Require Import Messages.
From S2P Require Import RamfsSafe.
From S2P Require Import RamfsSpec.
From S2P Require Import Cpu.
From S2P Require Import Keyboard.
From S2P Require Import Typing.
From S2P Require Import Memory.
From S2P Require Import Shell.
From S2P Require Import System.
From S2P Require Import Session.
Import Printable.
#[local] Open Scope general_if_scope.

Module Machine.

(** * The devices on the bus

    Beside the display controller the bus reaches the first interrupt
    controller: writes to its ports do to it what its data sheet says, and
    neither device minds the other's ports. *)
Class Bus (P : Type) `{!Io.PortIO P, !Tty.Crtc P} := {
  pic1 : P → Cpu.pic;
  bus_display port v p p' :
    port = Tty.TTY_COMMAND_PORT ∨ port = Tty.TTY_DATA_PORT → Io.outb port v p = Ok (tt, p', []) → pic1 p' = pic1 p;
  bus_pic port v p : port ∈ [Cpu.PIC1_PORT_A; Cpu.PIC1_PORT_B; Cpu.PIC2_PORT_A; Cpu.PIC2_PORT_B] →
    ∃ p', Io.outb port v p = Ok (tt, p', []) ∧ (∀ r, Tty.reg p' r = Tty.reg p r) ∧
      pic1 p' = (if port =? Cpu.PIC1_PORT_A then Cpu.pic_write false v (pic1 p)
                 else if port =? Cpu.PIC1_PORT_B then Cpu.pic_write true v (pic1 p) else pic1 p)
}.

(** * State *)

Section machine.
Context {P D : Type} `{!Io.PortIO P, !Tty.Crtc P, !Bus P}.
Context `{!Drive.Hba D}.
Abbreviation shell_state := (Shell.shell (H:=Heap.state) (D:=D)).

Record machine : Type := Machine {
  console : Tty.tty P;
  keyboard : Keyboard.kbd unit;
  idt : list Cpu.idt_gate;
  idtr : Cpu.table_ptr;
  gdt : list Cpu.gdt_entry;
  gdtr : Cpu.table_ptr;
  interrupts_on : bool;
  shell : shell_state
}.
Implicit Types (m : machine).

Definition set_console (c : Tty.tty P) m : machine :=
  Machine c (keyboard m) (idt m) (idtr m) (gdt m) (gdtr m) (interrupts_on m) (shell m).
Definition set_keyboard (k : Keyboard.kbd unit) m : machine :=
  Machine (console m) k (idt m) (idtr m) (gdt m) (gdtr m) (interrupts_on m) (shell m).
Definition set_idt (t : list Cpu.idt_gate * Cpu.table_ptr) (on : bool) m : machine :=
  Machine (console m) (keyboard m) (fst t) (snd t) (gdt m) (gdtr m) on (shell m).
Definition set_gdt (t : list Cpu.gdt_entry * Cpu.table_ptr) m : machine :=
  Machine (console m) (keyboard m) (idt m) (idtr m) (fst t) (snd t) (interrupts_on m) (shell m).
Definition set_shell (t : shell_state) m : machine :=
  Machine (console m) (keyboard m) (idt m) (idtr m) (gdt m) (gdtr m) (interrupts_on m) t.

Definition on_console {X} (op : M (Tty.tty P) X) : M machine X := zoom console set_console op.
Definition on_keyboard {X} (op : M (Keyboard.kbd unit) X) : M machine X := zoom keyboard set_keyboard op.

(** What [op] prints is printed on the screen. *)
Definition on_shell {X} (op : M shell_state X) : M machine X := λ m,
  match op (shell m) with
  | Ok (a, t, o) => (on_console (Screen.show o);; mret a) (set_shell t m)
  | Fault => Fault
  | NoFuel => NoFuel
  end.
Definition print (fmt : string) : M machine unit := on_console (Printf.tty_printf (Printf.codes fmt) [];; mret tt).

(** * Interrupts *)

(** The handlers' table with the ports the controllers are at. *)
Definition irqs m : Cpu.interrupts P :=
  Cpu.Interrupts (Cpu.handlers (Keyboard.irqs (keyboard m))) (Tty.ports (console m)).
Definition set_irqs (i : Cpu.interrupts P) m : machine :=
  set_console (Tty.set_ports (Cpu.ports i) (console m))
    (set_keyboard (Keyboard.set_irqs (Cpu.Interrupts (Cpu.handlers i) tt) (keyboard m)) m).

(** [stub n] is the address of [interrupt_handler_n]; the tables lie at
    [idt_address] and [gdt_address]. *)
Context (beyond : Z → Z) (stub : Z → Z) (idt_address gdt_address tss_address : Z).

(** The one handler that is ever registered. *)
Definition call_handler (data status : Z) (func : string) : M machine unit :=
  if String.eqb func "KBDinterrupt" then on_keyboard (Keyboard.KBDinterrupt beyond data status) else fault.

(** The processor takes an interrupt: the gate must lie within the table it
    was given and be present, and its offset be a stub's. *)
Definition take_interrupt (vector data status : Z) : M machine unit :=
  m ← get;
  if (Cpu.base (idtr m) =? idt_address) && (8 * vector + 7 <=? Cpu.limit (idtr m)) then
    g ← unwrap (idt m !! Z.to_nat vector);
    let v := Cpu.decode_gate g in
    if Cpu.gv_present v then
      '(_, n) ← unwrap (list_find (λ n, stub n = Cpu.gv_offset v) Cpu.idt_vectors);
      Cpu.interrupt_handler irqs set_irqs (call_handler data status) n
    else fault
  else fault.

(** The keyboard raises line 1 of the first controller. *)
Definition keyboard_irq (data status : Z) : M machine unit :=
  m ← get;
  let pic := pic1 (Tty.ports (console m)) in
  if interrupts_on m && negb (Z.testbit (Cpu.mask pic) 1) then take_interrupt (Cpu.vector pic + 1) data status
  else mret tt.

(** * The command line *)

(** [my_os_getch]: [getchar_from_buffer] sleeps until something is queued;
    [arrivals] are the keyboard's interrupts to come. *)
Fixpoint my_os_getch (arrivals : list (Z * Z)) : M machine (Z * list (Z * Z)) :=
  m ← get;
  if Keyboard.kbuf_head (keyboard m) =? Keyboard.kbuf_tail (keyboard m) then
    match arrivals with
    | [] => nofuel
    | (data, status) :: arrivals => keyboard_irq data status;; my_os_getch arrivals
    end
  else
    let c := Keyboard.read_tail (keyboard m) in
    on_keyboard (modify Keyboard.advance_tail);; mret (c, arrivals).

(** The inner loop of [my_own_os_main] and one turn of the outer one;
    [fuel] bounds the characters of a line. *)
Context (call : string → list string → M (FsState.fs (EnvVar.kernel Heap.state) D) Z).
Fixpoint read_line (fuel : nat) (arrivals : list (Z * Z)) : M machine (list (Z * Z)) :=
  match fuel with
  | O => nofuel
  | S fuel =>
      '(input, arrivals) ← my_os_getch arrivals;
      if input =? 0 then read_line fuel arrivals
      else
        done ← on_shell (Shell.line_char call input);
        if (done : bool) then mret arrivals else read_line fuel arrivals
  end.
Definition turn (fuel : nat) (arrivals : list (Z * Z)) : M machine (list (Z * Z)) :=
  on_shell Shell.print_prompt;; read_line fuel arrivals.

(** [my_own_os_main] for [n] turns; the code's loop never ends. *)
Fixpoint my_own_os_main (n fuel : nat) (arrivals : list (Z * Z)) : M machine (list (Z * Z)) :=
  match n with
  | O => mret arrivals
  | S n => arrivals ← turn fuel arrivals; my_own_os_main n fuel arrivals
  end.

(** * main *)

(** The machine when the kernel is entered: static objects are zero; [p] are
    the devices, [video] the screen, [d] the disks, and [b] is what the
    stack holds where the line will lie. *)
Definition reset_machine (p : P) (video : Tty.memory) (b : Memory.memory) (_end : Z) (d : D) : machine :=
  Machine (Tty.Tty 0 0 0 video p) (Keyboard.kbd0 (Cpu.Interrupts (replicate 256 None) tt))
    Cpu.idt0 (Cpu.TablePtr 0 0) Cpu.gdt0 (Cpu.TablePtr 0 0) false (Shell.Sh (System.reset _end d) b 0).

Definition main (fuel : nat) (_end : Z) (brand : list Z) (load : Z → Z) (ports_impl multiboot_info : Z) :
    M machine unit :=
  on_console Tty.initTerminal;;
  print ("[NOTICE] Basic system init done" +:+ nl);;
  print ("[NOTICE] Init TSS" +:+ nl);;
  let tss_vadr := Cpu.initTSS tss_address in
  modify (λ m, set_gdt (Cpu.initGDT tss_vadr gdt_address (gdt m)) m);;
  print ("[NOTICE] Init PIC" +:+ nl);;
  on_console (Tty.on_ports Cpu.initPIC);;
  print ("[NOTICE] Init KBD" +:+ nl);;
  on_keyboard Keyboard.initKBD;;
  print ("[NOTICE] Init IDT" +:+ nl);;
  modify (λ m, set_idt (Cpu.initIDT stub idt_address (idt m)) true m);;
  print ("[NOTICE] Start Kernel!" +:+ nl);;
  on_shell (zoom Shell.sys Shell.set_sys
    (System.my_own_os_init fuel _end brand load ports_impl multiboot_info)).
End machine.
Arguments machine P D : clear implicits.

(** * What a text does to the screen *)

Section theory.
Context {P D : Type} `{!Io.PortIO P, !Tty.Crtc P, !Bus P}.
Context `{!Drive.Hba D, !Drive.HbaLaws D}.
Context (beyond : Z → Z) (stub : Z → Z) (idt_address gdt_address tss_address : Z).
Context (stub_range : ∀ v, 0 ≤ stub v < 4294967296).
Context (stub_inj : ∀ v w, v ∈ Cpu.idt_vectors → w ∈ Cpu.idt_vectors → stub v = stub w → v = w).
Abbreviation machine := (machine P D).
Abbreviation fs := (FsState.fs (EnvVar.kernel Heap.state) D).
Implicit Types (m : machine) (c : Tty.tty P) (k : Keyboard.kbd unit).

(** [c'] is [c] after a text, as far as the screen shows it. *)
Definition after (text : list Z) c c' : Prop :=
  Tty.terminal_colour c' = Tty.terminal_colour c ∧
  ∀ v, Tty.on_screen c → Tty.shows c v → Screen.fits (Tty.terminal_colour c) text v = true →
    Tty.on_screen c' ∧ Tty.shows c' (Screen.puts_spec (Tty.terminal_colour c) text v).

Lemma fits_app colour t1 t2 v :
  Screen.fits colour (t1 ++ t2) v = Screen.fits colour t1 v && Screen.fits colour t2 (Screen.puts_spec colour t1 v).
Proof. revert v. induction t1 as [|x t1 IH]; intros v; [done|]. cbn [app Screen.fits]. by rewrite IH andb_assoc. Qed.
Lemma after_refl c : after [] c c.
Proof. by split. Qed.
Lemma after_trans t1 t2 c1 c2 c3 : after t1 c1 c2 → after t2 c2 c3 → after (t1 ++ t2) c1 c3.
Proof.
  intros [Hc1 H12] [Hc2 H23]. split; [congruence|]. intros v Hs Hv. rewrite fits_app.
  intros [Hf1 Hf2]%andb_true_iff. destruct (H12 v Hs Hv Hf1) as [Hs2 Hv2]. rewrite -Hc1 in Hv2, Hf2.
  destruct (H23 _ Hs2 Hv2 Hf2) as [? Hv3]. split; [done|]. rewrite /Screen.puts_spec fold_left_app.
  by rewrite /Screen.puts_spec Hc1 in Hv3.
Qed.
Lemma after_ports c p' : (∀ r, Tty.reg p' r = Tty.reg (Tty.ports c) r) → after [] c (Tty.set_ports p' c).
Proof.
  intros Hr. split; [done|]. intros v (?&?&Hcur) Hv _. split; [|done]. split; [done|]. split; [done|].
  rewrite /Tty.cursor /= !Hr. exact Hcur.
Qed.

(** Showing a component's output; the interrupt controller is not touched. *)
Abbreviation same_pic := (λ p p' : P, pic1 p' = pic1 p).
Lemma same_pic_preorder : PreOrder same_pic.
Proof. split; [by intros p|]. intros p1 p2 p3 H12 H23. by rewrite H23. Qed.
Lemma show_after o c : Forall printable o →
  ∃ c', Screen.show o c = Ok (tt, c', []) ∧ pic1 (Tty.ports c') = pic1 (Tty.ports c) ∧ after (Screen.texts o) c c' ∧
    ∀ v, Screen.ready (Screen.texts o) c → Tty.shows c v →
      Screen.fits (Tty.terminal_colour c) (Screen.texts o) v = true → Screen.texts o ≠ [] →
      Tty.on_screen c' ∧ Tty.shows c' (Screen.puts_spec (Tty.terminal_colour c) (Screen.texts o) v).
Proof.
  intros Ho. pose proof same_pic_preorder.
  destruct (Screen.show_run same_pic (bus_display) o c Ho) as (c'&Hrun&Hpic&Hcol). exists c'. split; [done|]. split; [done|].
  rewrite (Screen.show_emits o c Ho) in Hrun.
  assert (Hemit : ∀ v, Screen.ready (Screen.texts o) c → Tty.shows c v →
    Screen.fits (Tty.terminal_colour c) (Screen.texts o) v = true →
    (Screen.texts o = [] ∧ c' = c ∨ Tty.on_screen c') ∧
    Tty.shows c' (Screen.puts_spec (Tty.terminal_colour c) (Screen.texts o) v)).
  { intros v Hr Hv Hf. pose proof (Screen.emit_ok (Screen.texts o) c v Hr Hv Hf) as Hw.
    destruct (wp_known _ _ _ _ _ _ Hw Hrun) as (?&?&_). done. }
  split.
  - split.
    + done.
    + intros v Hs Hv Hf. destruct (Hemit v) as [Hon Hshow]; [|done..|].
      * destruct Hs as (?&?&?). split; [done|by right].
      * split; [|done]. by destruct Hon as [[_ ->]|].
  - intros v Hr Hv Hf Hne. destruct (Hemit v Hr Hv Hf) as [[[? _]|?] ?]; done.
Qed.

(** * An interrupt *)

(** What [main] sets up for the keyboard: the first controller at vector 32
    with line 1 open, the gate of vector 33 at its stub, the handler. *)
Record wired m : Prop := {
  wd_pic : pic1 (Tty.ports (console m)) = Cpu.Pic [] 32 236;
  wd_on : interrupts_on m = true;
  wd_idtr : idtr m = Cpu.TablePtr 2047 idt_address;
  wd_gate : Cpu.decode_gate <$> idt m !! 33%nat = Some (Cpu.GateView (stub 33) 8 true 0 15);
  wd_handler : Cpu.handlers (Keyboard.irqs (keyboard m)) !! 33%nat = Some (Some "KBDinterrupt")
}.

(** The handler does not touch the handlers. *)
Lemma handler_keeps data status k :
  keeps (λ k k', Keyboard.irqs k' = Keyboard.irqs k) (Keyboard.KBDinterrupt beyond data status) k.
Proof.
  assert (PreOrder (λ k k' : Keyboard.kbd unit, Keyboard.irqs k' = Keyboard.irqs k)).
  { split; [by intros k0|]. intros k1 k2 k3 H12 H23. by rewrite H23. }
  rewrite /Keyboard.KBDinterrupt /Keyboard.readScanCode /Keyboard.press /Keyboard.getASCII /Keyboard.isDown
    /Keyboard.putchar_to_buffer /Keyboard.load_key /Keyboard.store_key /fmap /M_map.
  keeps_tac; apply keeps_modify; try done. rewrite /Keyboard.put. by case_match.
Qed.

Lemma find_stub v : v ∈ Cpu.idt_vectors → ∃ i, list_find (λ n, stub n = stub v) Cpu.idt_vectors = Some (i, v).
Proof.
  intros Hv. destruct (list_find (λ n, stub n = stub v) Cpu.idt_vectors) as [[i n]|] eqn:Hf.
  - apply list_find_Some in Hf as (Hi&Hn&_). exists i.
    do 2 f_equal. apply stub_inj; [by apply list_elem_of_lookup_2 in Hi|done..].
  - apply list_find_None in Hf. rewrite Forall_forall in Hf. by destruct (Hf v Hv).
Qed.

(** Writes to the controllers, one after the other: the first is in state
    [pic], and the display is as in [p0]. *)
Definition pic_at (p0 : P) (pic : Cpu.pic) (p : P) : Prop := pic1 p = pic ∧ ∀ r, Tty.reg p r = Tty.reg p0 r.
Definition pic_step port v (pic : Cpu.pic) : Cpu.pic :=
  if port =? Cpu.PIC1_PORT_A then Cpu.pic_write false v pic
  else if port =? Cpu.PIC1_PORT_B then Cpu.pic_write true v pic else pic.
Definition pic_ports : list Z := [Cpu.PIC1_PORT_A; Cpu.PIC1_PORT_B; Cpu.PIC2_PORT_A; Cpu.PIC2_PORT_B].
Lemma pic_out p0 pic p port v : pic_at p0 pic p → bool_decide (port ∈ pic_ports) = true →
  ∃ p', Io.outb port v p = Ok (tt, p', []) ∧ pic_at p0 (pic_step port v pic) p'.
Proof.
  intros [<- Hr] Hport%bool_decide_eq_true. destruct (bus_pic port v p Hport) as (p'&Ho&Hr'&Hp). exists p'.
  split; [done|]. split; [done|]. intros r. by rewrite Hr'.
Qed.
Lemma pic_seq {X} p0 pic p port v (f : M P X) Q : pic_at p0 pic p → bool_decide (port ∈ pic_ports) = true →
  (∀ p', pic_at p0 (pic_step port v pic) p' → wp f p' Q) → wp (Io.outb port v;; f) p Q.
Proof. intros Hp Hport Hf. destruct (pic_out p0 pic p port v Hp Hport) as (p'&Ho&Hp'). eapply wp_bind_ok; [done|by apply Hf]. Qed.
Lemma pic_last p0 pic p port v : pic_at p0 pic p → bool_decide (port ∈ pic_ports) = true →
  wp (Io.outb port v) p (λ _ p' o, o = [] ∧ pic_at p0 (pic_step port v pic) p').
Proof. intros Hp Hport. destruct (pic_out p0 pic p port v Hp Hport) as (p'&Ho&Hp'). by rewrite /wp Ho. Qed.
Ltac pic_writes :=
  repeat (eapply pic_seq; [eassumption|reflexivity|]; intros ? ?);
  eapply wp_mono; [eapply pic_last; [eassumption|reflexivity]|]; intros [] ? ? [-> Hat]; exact (conj eq_refl Hat).

Lemma acknowledge_run (p : P) : pic1 p = Cpu.Pic [] 32 236 →
  ∃ p', Cpu.pic_acknowledge p = Ok (tt, p', []) ∧ pic1 p' = Cpu.Pic [] 32 236 ∧ ∀ r, Tty.reg p' r = Tty.reg p r.
Proof.
  intros Hp. assert (pic_at p (Cpu.Pic [] 32 236) p) by by split.
  assert (Hw : wp Cpu.pic_acknowledge p (λ _ p' o, o = [] ∧ pic_at p (Cpu.Pic [] 32 236) p')).
  { rewrite /Cpu.pic_acknowledge. pic_writes. }
  apply wp_run in Hw as ([]&p'&o&Hrun&->&Hat). by exists p'.
Qed.
Lemma initPIC_run (p : P) :
  ∃ p', Cpu.initPIC p = Ok (tt, p', []) ∧ pic1 p' = Cpu.Pic [] 32 236 ∧ ∀ r, Tty.reg p' r = Tty.reg p r.
Proof.
  assert (pic_at p (pic1 p) p) by by split.
  assert (Hw : wp Cpu.initPIC p (λ _ p' o, o = [] ∧ pic_at p (Cpu.Pic [] 32 236) p')).
  { rewrite /Cpu.initPIC /Cpu.pic_mask. pic_writes. }
  apply wp_run in Hw as ([]&p'&o&Hrun&->&Hat). by exists p'.
Qed.

Lemma irq_run m data status k1 :
  wired m → Keyboard.KBDinterrupt beyond data status (keyboard m) = Ok (tt, k1, []) →
  ∃ m', keyboard_irq beyond stub idt_address data status m = Ok (tt, m', []) ∧
    keyboard m' = k1 ∧ shell m' = shell m ∧ wired m' ∧ after [] (console m) (console m').
Proof.
  intros [Hpic Hon Hidtr Hgate Hh] Hk. pose proof (handler_keeps data status (keyboard m) tt k1 [] Hk) as [Hirqs _].
  destruct (acknowledge_run _ Hpic) as (p'&Hack&Hpic'&Hregs).
  rewrite /keyboard_irq (bind_ok _ _ m m m) // Hpic Hon. change (negb (Z.testbit (Cpu.mask (Cpu.Pic [] 32 236)) 1)) with true.
  cbn [andb Cpu.vector]. rewrite /take_interrupt (bind_ok _ _ m m m) // Hidtr. cbn [Cpu.base Cpu.limit].
  rewrite Z.eqb_refl. change (8 * (32 + 1) + 7 <=? 2047) with true. cbn [andb]. change (Z.to_nat (32 + 1)) with 33%nat.
  apply fmap_Some in Hgate as (g&Hg&Hdec). rewrite Hg (bind_ok _ _ m g m) // -Hdec. cbn [Cpu.gv_present Cpu.gv_offset].
  destruct (find_stub 33) as [i Hi]; [by apply (bool_decide_unpack _); vm_compute|]. rewrite Hi (bind_ok _ _ m (i, 33) m) //.
  assert (Hcall : call_handler beyond data status "KBDinterrupt" m = Ok (tt, set_keyboard k1 m, [])).
  { by rewrite /call_handler /= /on_keyboard /zoom Hk. }
  rewrite (Cpu.interrupt_handler_ok irqs set_irqs _ 33 m "KBDinterrupt" _ Hh Hcall).
  rewrite /zoom /= Hack. eexists. split; [done|]. cbn [keyboard set_irqs set_console set_keyboard shell].
  assert (Hk1 : Keyboard.set_irqs (Cpu.Interrupts (Cpu.handlers (Keyboard.irqs k1)) tt) k1 = k1).
  { destruct k1 as [? ? ? ? ? ? ? [h []]]. done. }
  cbn [Cpu.handlers Cpu.set_ports Cpu.ports irqs set_keyboard keyboard]. rewrite Hk1. split; [done|]. split; [done|].
  split; [|by apply after_ports]. split; try done; cbn [keyboard set_console set_keyboard].
  - by rewrite /= Hg /= -Hdec.
  - simpl. rewrite Hirqs. exact Hh.
Qed.

(** * Taking a character *)

Lemma getch_run m arrivals (ch : Z) cs k' :
  wired m → Typing.delivers beyond (keyboard m) arrivals (ch :: cs) k' →
  ∃ arrivals' m', my_os_getch beyond stub idt_address arrivals m = Ok ((ch, arrivals'), m', []) ∧
    shell m' = shell m ∧ wired m' ∧ Typing.delivers beyond (keyboard m') arrivals' cs k' ∧
    after [] (console m) (console m').
Proof.
  intros Hw Hd. remember (keyboard m) as k eqn:Hk. remember (ch :: cs) as text eqn:Ht.
  revert m Hw Hk Ht. induction Hd as [k He|k arrivals x text k' Hne Hd|k d st arrivals text k1 k' He Hi _ IH]; intros m Hw Hk Ht.
  - done.
  - injection Ht as <- <-. subst k. exists arrivals, (set_keyboard (Keyboard.advance_tail (keyboard m)) m).
    assert (Hrun : my_os_getch beyond stub idt_address arrivals m =
        Ok ((Keyboard.read_tail (keyboard m), arrivals), set_keyboard (Keyboard.advance_tail (keyboard m)) m, [])).
    { destruct arrivals; cbn [my_os_getch]; rewrite (bind_ok _ _ m m m) // (proj2 (Z.eqb_neq _ _)) //. }
    split; [exact Hrun|]. split; [done|]. destruct Hw. split; [by split|]. split; [done|apply after_refl].
  - subst k. destruct (irq_run m d st k1 Hw Hi) as (m1&Hrun1&Hk1&Hs1&Hw1&Ha1).
    destruct (IH m1 Hw1 (eq_sym Hk1) Ht) as (arrivals'&m2&Hrun2&Hs2&Hw2&Hd2&Ha2).
    exists arrivals', m2. cbn [my_os_getch]. rewrite (bind_ok _ _ m m m) // (proj2 (Z.eqb_eq _ _)) //.
    rewrite (bind_ok _ _ _ _ _ Hrun1). split_and!; [done|congruence|done|done|]. by apply (after_trans [] []) with (console m1).
Qed.

(** * An operation of the shell *)

Lemma on_shell_run {X} (op : M (Shell.shell (H:=Heap.state) (D:=D)) X) m a t o :
  wired m → op (shell m) = Ok (a, t, o) → Forall printable o →
  ∃ m', on_shell op m = Ok (a, m', []) ∧ shell m' = t ∧ keyboard m' = keyboard m ∧ wired m' ∧
    after (Screen.texts o) (console m) (console m').
Proof.
  intros [Hpic Hon Hidtr Hgate Hh] Hop Ho. destruct (show_after o (console m) Ho) as (c'&Hrun&Hpic'&Ha&_).
  exists (set_console c' (set_shell t m)). rewrite /on_shell Hop.
  rewrite (bind_ok _ _ _ tt (set_console c' (set_shell t m))).
  { by rewrite /on_console /zoom Hrun. }
  split_and!; [done..|split; try done; by rewrite /= Hpic'|done].
Qed.

(** * A line *)

Section line.
Context (call : string → list string → M fs Z).

Lemma read_line_refines cs fuel m arrivals k' left t' o :
  (length cs ≤ fuel)%nat → wired m → Typing.delivers beyond (keyboard m) arrivals cs k' →
  Shell.read_line call cs (shell m) = Ok (left, t', o) → Forall printable o →
  ∃ arrivals' m', read_line beyond stub idt_address call fuel arrivals m = Ok (arrivals', m', []) ∧
    shell m' = t' ∧ wired m' ∧ Typing.delivers beyond (keyboard m') arrivals' left k' ∧
    after (Screen.texts o) (console m) (console m').
Proof.
  revert fuel m arrivals o. induction cs as [|c cs IH]; intros fuel m arrivals o Hf Hw Hd Hrun Ho; [done|].
  destruct fuel as [|fuel]; [simpl in Hf; lia|]. cbn [length] in Hf.
  destruct (getch_run m arrivals c cs k' Hw Hd) as (as1&m1&Hget&Hs1&Hw1&Hd1&Ha1).
  cbn [Shell.read_line] in Hrun. cbn [read_line]. rewrite (bind_ok _ _ _ _ _ Hget). destruct (c =? 0).
  - rewrite -Hs1 in Hrun. destruct (IH fuel m1 as1 o) as (as2&m2&Hr&Hs2&Hw2&Hd2&Ha2); [lia|done..|].
    exists as2, m2. split_and!; [done..|]. by apply (after_trans []) with (console m1).
  - apply bind_inv in Hrun as (b&t1&o1&o2&Hchar&Hrest&->). apply Forall_app in Ho as [Ho1 Ho2].
    rewrite -Hs1 in Hchar. destruct (on_shell_run _ m1 b t1 o1 Hw1 Hchar Ho1) as (m2&Hr2&Hs2&Hk2&Hw2&Ha2).
    rewrite (bind_ok _ _ _ _ _ Hr2). rewrite -Hk2 in Hd1.
    assert (Ha12 : after (Screen.texts o1) (console m) (console m2)) by by apply (after_trans []) with (console m1).
    rewrite /Screen.texts bind_app. destruct b.
    + injection Hrest as <- <- <-. exists as1, m2. split_and!; [done..|]. by rewrite app_nil_r.
    + rewrite -Hs2 in Hrest. destruct (IH fuel m2 as1 o2) as (as3&m3&Hr3&Hs3&Hw3&Hd3&Ha3); [lia|done..|].
      exists as3, m3. split_and!; [done..|]. by apply after_trans with (console m2).
Qed.

Lemma turn_refines cs fuel m arrivals k' left t' o :
  (length cs ≤ fuel)%nat → wired m → Typing.delivers beyond (keyboard m) arrivals cs k' →
  Shell.my_own_os_main_turn call cs (shell m) = Ok (left, t', o) → Forall printable o →
  ∃ arrivals' m', turn beyond stub idt_address call fuel arrivals m = Ok (arrivals', m', []) ∧
    shell m' = t' ∧ wired m' ∧ Typing.delivers beyond (keyboard m') arrivals' left k' ∧
    after (Screen.texts o) (console m) (console m').
Proof.
  intros Hf Hw Hd Hrun Ho. rewrite /Shell.my_own_os_main_turn in Hrun.
  apply bind_inv in Hrun as ([]&t1&o1&o2&Hp&Hl&->). apply Forall_app in Ho as [Ho1 Ho2].
  destruct (on_shell_run _ m tt t1 o1 Hw Hp Ho1) as (m1&Hr1&Hs1&Hk1&Hw1&Ha1). rewrite -Hk1 in Hd. rewrite -Hs1 in Hl.
  destruct (read_line_refines cs fuel m1 arrivals k' left t' o2 Hf Hw1 Hd Hl Ho2) as (as2&m2&Hr2&Hs2&Hw2&Hd2&Ha2).
  exists as2, m2. rewrite /turn (bind_ok _ _ _ _ _ Hr1). split_and!; [done..|].
  rewrite /Screen.texts bind_app. by apply after_trans with (console m1).
Qed.

Lemma read_line_left cs t left t' o : Shell.read_line call cs t = Ok (left, t', o) → (length left ≤ length cs)%nat.
Proof.
  revert t o. induction cs as [|c cs IH]; intros t o; [done|]. cbn [Shell.read_line]. destruct (c =? 0).
  - intros ?%IH. simpl. lia.
  - intros (b&t1&o1&o2&_&Hr&_)%bind_inv. destruct b; [injection Hr as <- _ _; simpl; lia|].
    apply IH in Hr. simpl. lia.
Qed.

Lemma turns_refine n cs fuel m arrivals k' left t' o :
  (length cs ≤ fuel)%nat → wired m → Typing.delivers beyond (keyboard m) arrivals cs k' →
  Shell.shell_turns call n cs (shell m) = Ok (left, t', o) → Forall printable o →
  ∃ arrivals' m', my_own_os_main beyond stub idt_address call n fuel arrivals m = Ok (arrivals', m', []) ∧
    shell m' = t' ∧ wired m' ∧ Typing.delivers beyond (keyboard m') arrivals' left k' ∧
    after (Screen.texts o) (console m) (console m').
Proof.
  revert cs m arrivals o. induction n as [|n IH]; intros cs m arrivals o Hf Hw Hd Hrun Ho.
  { injection Hrun as <- <- <-. exists arrivals, m. split_and!; [done..|apply after_refl]. }
  cbn [Shell.shell_turns] in Hrun. apply bind_inv in Hrun as (cs1&t1&o1&o2&Ht&Hrest&->). apply Forall_app in Ho as [Ho1 Ho2].
  destruct (turn_refines cs fuel m arrivals k' cs1 t1 o1 Hf Hw Hd Ht Ho1) as (as1&m1&Hr1&Hs1&Hw1&Hd1&Ha1).
  assert (Hf1 : (length cs1 ≤ fuel)%nat).
  { revert Ht. rewrite /Shell.my_own_os_main_turn. intros (?&?&?&?&_&Hl&_)%bind_inv. apply read_line_left in Hl. lia. }
  rewrite -Hs1 in Hrest. destruct (IH cs1 m1 as1 o2 Hf1 Hw1 Hd1 Hrest Ho2) as (as2&m2&Hr2&Hs2&Hw2&Hd2&Ha2).
  exists as2, m2. cbn [my_own_os_main]. rewrite (bind_ok _ _ _ _ _ Hr1). split_and!; [done..|].
  rewrite /Screen.texts bind_app. by apply after_trans with (console m1).
Qed.

(** C5: The command line behind the interrupts. When the machine is wired and
    the keyboard's interrupts [arrivals] deliver the characters [cs], any
    number of turns of [my_own_os_main], which sleeps for the keyboard and
    writes to the screen, do what the turns of the command line alone do on
    [cs]: the interrupts are taken through the vector, the gate, the handler
    and the acknowledgement, the characters reach the line in order, the
    same commands run and end in the same state, the screen shows the same
    text, and what was not read is still to be delivered. *)
Theorem main_loop_refines n cs fuel m arrivals k' left t' o :
  (length cs ≤ fuel)%nat → wired m → Typing.delivers beyond (keyboard m) arrivals cs k' →
  Shell.shell_turns call n cs (shell m) = Ok (left, t', o) → Forall printable o →
  ∃ arrivals' m', my_own_os_main beyond stub idt_address call n fuel arrivals m = Ok (arrivals', m', []) ∧
    shell m' = t' ∧ wired m' ∧ Typing.delivers beyond (keyboard m') arrivals' left k' ∧
    after (Screen.texts o) (console m) (console m').
Proof. apply turns_refine. Qed.
End line.

(** * main *)

(** What [main] announces. *)
Definition notices : list event := (λ t, Printf t []) <$>
  ["[NOTICE] Basic system init done" +:+ nl; "[NOTICE] Init TSS" +:+ nl; "[NOTICE] Init PIC" +:+ nl;
   "[NOTICE] Init KBD" +:+ nl; "[NOTICE] Init IDT" +:+ nl; "[NOTICE] Start Kernel!" +:+ nl].
Lemma notices_printable : Forall printable notices.
Proof. rewrite /notices. cbn [fmap list_fmap]. messages. Qed.

(** The screen since [initTerminal]: cleared, then [text] was put on it. *)
Definition reached (text : list Z) c : Prop :=
  Tty.terminal_colour c = Tty.COLOUR_WHITE ∧
  (Screen.fits Tty.COLOUR_WHITE text Tty.blank = true →
    Tty.on_screen c ∧ Tty.shows c (Screen.puts_spec Tty.COLOUR_WHITE text Tty.blank)).
Lemma reached_after t1 t2 c c' : reached t1 c → after t2 c c' → reached (t1 ++ t2) c'.
Proof.
  intros [Hc Hr] [Hc' Ha]. split; [congruence|]. rewrite fits_app. intros [Hf1 Hf2]%andb_true_iff.
  destruct (Hr Hf1) as [Hs Hv]. rewrite Hc in Ha. rewrite /Screen.puts_spec fold_left_app. by apply Ha.
Qed.

Lemma print_first fmt c : printable (Printf fmt []) → default 8 (head (Screen.texts [Printf fmt []])) ≠ 8 →
  Tty.inside c → Tty.shows c Tty.blank → Tty.terminal_colour c = Tty.COLOUR_WHITE →
  ∃ c', (Printf.tty_printf (Printf.codes fmt) [];; mret tt) c = Ok (tt, c', []) ∧
    pic1 (Tty.ports c') = pic1 (Tty.ports c) ∧ reached (Screen.texts [Printf fmt []]) c'.
Proof.
  intros Hp Hh Hi Hs Hc. destruct (show_after [Printf fmt []] c) as (c'&Hrun&Hpic&[Hc' _]&Hshow); [by repeat constructor|].
  exists c'. split; [exact Hrun|]. split; [done|]. split; [by rewrite Hc'|]. rewrite -Hc. intros Hf. apply Hshow; try done.
  - split; [done|left]. intros Heq. by rewrite Heq in Hh.
  - intros Heq. by rewrite Heq in Hh.
Qed.
Lemma print_next fmt c t : printable (Printf fmt []) → reached t c →
  ∃ c', (Printf.tty_printf (Printf.codes fmt) [];; mret tt) c = Ok (tt, c', []) ∧
    pic1 (Tty.ports c') = pic1 (Tty.ports c) ∧ reached (t ++ Screen.texts [Printf fmt []]) c'.
Proof.
  intros Hp Hr. destruct (show_after [Printf fmt []] c) as (c'&Hrun&Hpic&Ha&_); [by repeat constructor|].
  exists c'. split; [exact Hrun|]. split; [done|]. by eapply reached_after.
Qed.


Lemma set_idt_ok idt' idtr' :
  Cpu.initIDT stub idt_address Cpu.idt0 = (idt', idtr') →
  idtr' = Cpu.TablePtr 2047 idt_address ∧
  Cpu.decode_gate <$> idt' !! 33%nat = Some (Cpu.GateView (stub 33) 8 true 0 15).
Proof.
  intros Hi. pose proof (Cpu.initIDT_spec stub idt_address Cpu.idt0 33) as Hspec. rewrite Hi in Hspec.
  destruct Hspec as (Hr&Hg&_); [done|lia|done|]. split; [done|]. apply Hg. by apply (bool_decide_unpack _); vm_compute.
Qed.

(** What boot prints is shown, and the machine is wired to the keyboard. *)
Lemma main_run fuel e brand load pi info p video b d u sys' o :
  System.my_own_os_init fuel e brand load pi info (System.reset e d) = Ok (u, sys', o) → Forall printable o →
  ∃ m, main stub idt_address gdt_address tss_address fuel e brand load pi info (reset_machine p video b e d) = Ok (tt, m, []) ∧
    wired m ∧ keyboard m = Typing.initialised (Cpu.Interrupts (replicate 256 None) tt) ∧
    (gdt m, gdtr m) = Cpu.initGDT (Cpu.initTSS tss_address) gdt_address Cpu.gdt0 ∧
    shell m = Shell.Sh sys' b 0 ∧ reached (Screen.texts (notices ++ o)) (console m).
Proof.
  intros Hboot Ho. pose proof notices_printable as Hn. rewrite /notices in Hn. cbn [fmap list_fmap] in Hn.
  rewrite !Forall_cons in Hn. destruct Hn as (Hn1&Hn2&Hn3&Hn4&Hn5&Hn6&_).
  set m0 := reset_machine p video b e d.
  destruct (Tty.initTerminal_run (console m0)) as (c0&Hr0&Hi0&Hv0&Hc0&_).
  destruct (print_first _ c0 Hn1) as (c1&Hr1&_&Hat1); [by vm_compute|done..|].
  destruct (print_next _ c1 _ Hn2 Hat1) as (c2&Hr2&_&Hat2).
  destruct (print_next _ c2 _ Hn3 Hat2) as (c3&Hr3&_&Hat3).
  destruct (initPIC_run (Tty.ports c3)) as (p4&Hpic4&Hp4&Hregs4).
  pose proof (reached_after _ _ _ _ Hat3 (after_ports c3 p4 Hregs4)) as Hat3'.
  destruct (print_next _ _ _ Hn4 Hat3') as (c5&Hr5&Hpic5&Hat5).
  destruct (print_next _ c5 _ Hn5 Hat5) as (c6&Hr6&Hpic6&Hat6).
  destruct (print_next _ c6 _ Hn6 Hat6) as (c7&Hr7&Hpic7&Hat7).
  destruct (show_after o c7 Ho) as (c8&Hr8&Hpic8&Ha8&_).
  destruct (Cpu.initGDT (Cpu.initTSS tss_address) gdt_address Cpu.gdt0) as [gdt' gdtr'] eqn:Hgdt.
  destruct (Cpu.initIDT stub idt_address Cpu.idt0) as [idt' idtr'] eqn:Hidt.
  set k' := Typing.initialised (Cpu.Interrupts (replicate 256 None) tt).
  exists (Machine c8 k' idt' idtr' gdt' gdtr' true (Shell.Sh sys' b 0)).
  assert (Hzoom : ∀ X (op : M (Tty.tty P) X) m a c1, op (console m) = Ok (a, c1, []) →
    on_console op m = Ok (a, set_console c1 m, [])).
  { intros X op m a c Hop. by rewrite /on_console /zoom Hop. }
  rewrite /main /print. split.
  { erewrite (bind_ok _ _ _ _ _ (Hzoom _ _ m0 _ _ Hr0)).
    erewrite (bind_ok _ _ _ _ _ (Hzoom _ _ (set_console c0 m0) _ _ Hr1)).
    erewrite (bind_ok _ _ _ _ _ (Hzoom _ _ (set_console c1 m0) _ _ Hr2)).
    cbv zeta. rewrite (bind_ok _ _ _ tt (set_gdt (gdt', gdtr') (set_console c2 m0))).
    { by rewrite /modify -Hgdt. }
    set m2 := set_gdt _ _.
    rewrite (bind_ok _ _ _ _ _ (Hzoom _ _ m2 _ _ Hr3)).
    rewrite (bind_ok _ _ _ tt (set_console (Tty.set_ports p4 c3) m2)).
    { apply (Hzoom _ _ (set_console c3 m2)). by rewrite /Tty.on_ports /zoom /= Hpic4. }
    rewrite (bind_ok _ _ _ _ _ (Hzoom _ _ (set_console (Tty.set_ports p4 c3) m2) _ _ Hr5)).
    rewrite (bind_ok _ _ _ tt (set_keyboard k' (set_console c5 m2))).
    { rewrite /on_keyboard /zoom. change (keyboard _) with (Keyboard.kbd0 (Cpu.Interrupts (replicate 256 None) tt)).
      by rewrite Typing.init_run. }
    set m5 := set_keyboard _ _.
    rewrite (bind_ok _ _ _ _ _ (Hzoom _ _ m5 _ _ Hr6)).
    rewrite (bind_ok _ _ _ tt (set_idt (idt', idtr') true (set_console c6 m5))).
    { by rewrite /modify -Hidt. }
    set m6 := set_idt _ _ _.
    rewrite (bind_ok _ _ _ _ _ (Hzoom _ _ m6 _ _ Hr7)).
    rewrite /on_shell /zoom. change (Shell.sys (shell (set_console c7 m6))) with (System.reset e d). rewrite Hboot.
    rewrite (bind_ok _ _ _ tt (set_console c8 (set_shell (Shell.Sh sys' b 0) (set_console c7 m6)))).
    { by rewrite /on_console /zoom Hr8. }
    by destruct u. }
  destruct (set_idt_ok _ _ Hidt) as [Hidtr Hgate]. split.
  { split; [|done..]. by rewrite /= Hpic8 Hpic7 Hpic6 Hpic5. }
  split; [done|]. split; [done|]. split; [done|]. cbn [console].
  pose proof (reached_after _ _ _ _ Hat7 Ha8) as Hat8. revert Hat8.
  rewrite /Screen.texts /notices bind_app. cbn [fmap list_fmap]. rewrite -!app_assoc. by rewrite /= ?app_nil_r -?app_assoc.
Qed.

(** * The system at the machine *)

Section whole.
Context (K : string → Prop) (HK : HashTable.distinguishable (V:=RamfsTypes.ramfs_file_info) K).
Context (HK0 : ∀ n, K n → CString.no_nul n).

Lemma turn_runs depth fuel m arrivals ins e rest line k' :
  wired m → Typing.delivers beyond (keyboard m) arrivals (ins ++ e :: rest) k' →
  (length (ins ++ e :: rest) ≤ fuel)%nat →
  Shell.typed (shell m) [] → Session.system_ok K (Shell.sys (shell m)) →
  Forall (λ ch, ch ≠ 10 ∧ ch ≠ 13) ins → e = 10 ∨ e = 13 → Shell.edit [] ins = Some line →
  (length line < Shell.BUFFER)%nat → Session.line_ok K depth line (Shell.sys (shell m)) →
  ∃ arrivals' m' o, turn beyond stub idt_address (System.call depth) fuel arrivals m = Ok (arrivals', m', []) ∧
    Shell.my_own_os_main_turn (System.call depth) (ins ++ e :: rest) (shell m) = Ok (rest, shell m', o) ∧
    wired m' ∧ Typing.delivers beyond (keyboard m') arrivals' rest k' ∧ Shell.typed (shell m') [] ∧
    (Session.system_ok K (Shell.sys (shell m')) ∨ RamfsSafe.out_of_memory ∈ o) ∧
    after (Screen.texts o) (console m) (console m').
Proof.
  intros Hw Hd Hf Ht Hs Hins He Hedit Hlen Hok.
  pose proof (Session.turn_ok K HK HK0 depth (shell m) ins e rest line Ht Hs Hins He Hedit Hlen Hok) as Hturn.
  apply wp_run in Hturn as (left&t'&o&Hrun&->&Ht'&Ho&Hs').
  destruct (turn_refines _ _ fuel m arrivals k' _ _ _ Hf Hw Hd Hrun Ho) as (arrivals'&m'&Hr&<-&Hw'&Hd'&Ha).
  by exists arrivals', m', o.
Qed.

(** One typed line on the running machine. The interrupts deliver a line
    that spells, with its corrections, a command the command line accepts.
    Then the turn runs to its end without a fault in any part: prompt, echo
    and the command's output are what the screen shows, the system is as
    consistent as before unless a write reports that memory ran out, and
    the machine is ready for the next line. *)
Lemma machine_turn depth fuel m arrivals ins e rest line k' :
  wired m → Typing.delivers beyond (keyboard m) arrivals (ins ++ e :: rest) k' →
  (length (ins ++ e :: rest) ≤ fuel)%nat →
  Shell.typed (shell m) [] → Session.system_ok K (Shell.sys (shell m)) →
  Forall (λ ch, ch ≠ 10 ∧ ch ≠ 13) ins → e = 10 ∨ e = 13 → Shell.edit [] ins = Some line →
  (length line < Shell.BUFFER)%nat → Session.line_ok K depth line (Shell.sys (shell m)) →
  ∃ arrivals' m' o, turn beyond stub idt_address (System.call depth) fuel arrivals m = Ok (arrivals', m', []) ∧
    Shell.my_own_os_main_turn (System.call depth) (ins ++ e :: rest) (shell m) = Ok (rest, shell m', o) ∧
    wired m' ∧ Typing.delivers beyond (keyboard m') arrivals' rest k' ∧ Shell.typed (shell m') [] ∧
    (Session.system_ok K (Shell.sys (shell m')) ∨ RamfsSafe.out_of_memory ∈ o) ∧
    after (Screen.texts o) (console m) (console m').
Proof. apply turn_runs. Qed.

(** ** From the entry of the kernel *)

Context (fuel : nat) (_end : Z) (d : D) (brand : list Z) (load : Z → Z) (ports_impl info mb : Z).
Context (p : P) (video : Tty.memory) (b : Memory.memory).
Abbreviation boot := (System.my_own_os_init fuel _end brand load ports_impl info).

(** What the boot loader and the hardware provide. *)
Record bootable : Prop := {
  bt_info : info ≠ 0;
  bt_memory : Shell.my_os_get_memory_size_mb load fuel info = Some mb;
  bt_image : Alloc.IMAGE_BASE ≤ _end;
  bt_size : 16 ≤ mb;
  bt_fits : _end + mb * 1048576 + Heap.POOL_SIZE < 4294967296;
  bt_disks : wp (System.init_disks fuel ports_impl) (FsState.parts (System.reset _end d)) (λ _ p _, Partition.inv p);
  bt_brand : Forall Bytes.byte brand;
  bt_stack : length b = Shell.BUFFER
}.

Lemma main_boots : bootable →
  ∃ m s o, main stub idt_address gdt_address tss_address fuel _end brand load ports_impl info
      (reset_machine p video b _end d) = Ok (tt, m, []) ∧
    boot (System.reset _end d) = Ok (tt, s, o) ∧
    shell m = Shell.Sh s b 0 ∧ System.booted K fuel s ∧
    wired m ∧ keyboard m = Typing.initialised (Cpu.Interrupts (replicate 256 None) tt) ∧
    (gdt m, gdtr m) = Cpu.initGDT (Cpu.initTSS tss_address) gdt_address Cpu.gdt0 ∧
    reached (Screen.texts (notices ++ o)) (console m).
Proof.
  intros [Hinfo Hmem He Hmb Hmax Hdisks Hbrand Hb].
  pose proof (System.boot_booted K fuel _end d brand load ports_impl info mb Hinfo Hmem He Hmb Hmax Hdisks) as Hw.
  apply wp_run in Hw as ([]&s&o&Hrun&Hbooted).
  pose proof (System.boot_says fuel _end brand load ports_impl info (System.reset _end d) Hbrand _ _ _ Hrun) as [_ Ho].
  destruct (main_run _ _ _ _ _ _ p video b _ _ _ _ Hrun Ho) as (m&Hm&Hw&Hk&Hg&Hs&Hr).
  exists m, s, o. done.
Qed.


(** From power to the first command. After [main], any strokes of the
    typing keys, shifted or not, whose text is a line the command line
    accepts are read and run: the interrupts that arrive are those of the
    keys going down and up, the command is the one the line names, and the
    screen shows everything since it was cleared, from the first notice to
    the command's output. The machine is left ready for what was typed
    after the line. *)
Lemma first_line_runs ss status ins e rest line fuel' : bootable →
  Forall Typing.stroke_ok ss → Z.land status 1 = 0 → Typing.text_of false ss = ins ++ e :: rest →
  (length (ins ++ e :: rest) ≤ fuel')%nat →
  Forall (λ ch, ch ≠ 10 ∧ ch ≠ 13) ins → e = 10 ∨ e = 13 → Shell.edit [] ins = Some line →
  (length line < Shell.BUFFER)%nat →
  (∀ s o, boot (System.reset _end d) = Ok (tt, s, o) → Session.line_ok K fuel line s) →
  ∃ m1 s1 o1 arrivals m2 o2 k caps,
    main stub idt_address gdt_address tss_address fuel _end brand load ports_impl info
      (reset_machine p video b _end d) = Ok (tt, m1, []) ∧
    boot (System.reset _end d) = Ok (tt, s1, o1) ∧
    turn beyond stub idt_address (System.call fuel) fuel' ((λ ch, (ch, status)) <$> (ss ≫= Typing.codes_of)) m1 =
      Ok (arrivals, m2, []) ∧
    Shell.my_own_os_main_turn (System.call fuel) (ins ++ e :: rest) (Shell.Sh s1 b 0) = Ok (rest, shell m2, o2) ∧
    wired m2 ∧ Typing.delivers beyond (keyboard m2) arrivals rest k ∧ Typing.at_rest false caps k ∧
    Shell.typed (shell m2) [] ∧ (Session.system_ok K (Shell.sys (shell m2)) ∨ RamfsSafe.out_of_memory ∈ o2) ∧
    reached (Screen.texts (notices ++ o1 ++ o2)) (console m2).
Proof.
  intros Hbt Hss Hst Htext Hf Hins He Hedit Hlen Hline. pose proof (bt_stack Hbt) as Hb.
  destruct (main_boots Hbt) as (m1&s1&o1&Hm&Hrun&Hs&Hboot&Hw&Hk&_&Hr).
  destruct (Typing.strokes_ok beyond false ss status _ (Typing.init_at_rest (Cpu.Interrupts (replicate 256 None) tt)) Hss Hst)
    as (k&caps&Hd&Hrest). rewrite -Hk Htext in Hd.
  destruct (turn_runs fuel fuel' m1 _ ins e rest line k Hw Hd Hf) as (arrivals&m2&o2&Hturn&Hshell&Hw2&Hd2&Ht2&Hs2&Ha);
    rewrite ?Hs; [by split|by eapply Session.booted_ok|done..|by eapply Hline|].
  rewrite Hs in Hshell. exists m1, s1, o1, arrivals, m2, o2, k, caps.
  do 9 (split; [assumption|]). rewrite app_assoc /Screen.texts bind_app. by eapply reached_after.
Qed.
End whole.
End theory.

(** * A machine

    A display controller and an interrupt controller on one bus, one blank
    disk, 64 MB. *)
Section demo.
Definition devices : Type := Tty.crtc * Cpu.pic.
Definition display_port (port : Z) : bool := (port =? Tty.TTY_COMMAND_PORT) || (port =? Tty.TTY_DATA_PORT).
#[local] Instance devices_io : Io.PortIO devices := {|
  Io.outb port v :=
    if display_port port then zoom fst (λ c p, (c, snd p)) (Io.outb port v)
    else modify (λ p, (fst p, pic_step port v (snd p)));
  Io.inb port := zoom fst (λ c p, (c, snd p)) (Io.inb port)
|}.
Lemma display_out port v c pic c' :
  display_port port = true → Io.outb port v c = Ok (tt, c', []) → Io.outb port v (c, pic) = Ok (tt, (c', pic), []).
Proof.
  intros Hport Ho. rewrite {1}/Io.outb /devices_io Hport /zoom. cbn [fst]. by rewrite Ho.
Qed.
#[local, refine] Instance devices_display : Tty.Crtc devices := {|
  Tty.index p := Tty.index (fst p);
  Tty.reg p r := Tty.reg (fst p) r
|}.
Proof.
  - intros [c pic] v. destruct (Tty.crtc_select c v) as (c'&Ho&Hi&Hr). exists (c', pic). split; [by apply display_out|done].
  - intros [c pic] v. destruct (Tty.crtc_write c v) as (c'&Ho&Hi&Hr). exists (c', pic). split; [by apply display_out|done].
  - intros [c pic]. change (Io.inb Tty.TTY_DATA_PORT (c, pic)) with
      (zoom fst (λ c p, (c, snd p)) (Io.inb Tty.TTY_DATA_PORT) (c, pic)). rewrite /zoom. by rewrite Tty.crtc_read.
Defined.
#[local, refine] Instance devices_bus : Bus devices := {| pic1 := snd |}.
Proof.
  - intros port v [c pic] p' Hport.
    assert (Hd : display_port port = true) by by destruct Hport as [-> | ->].
    rewrite {1}/Io.outb /devices_io Hd /zoom. cbn [fst snd]. destruct (Io.outb port v c) as [[[??]?]| |]; [|done..].
    by intros [= _ <- _].
  - intros port v [c pic] Hport. exists (c, pic_step port v pic).
    assert (Hd : display_port port = false).
    { repeat (apply elem_of_cons in Hport as [->|Hport]; [done|]). by apply elem_of_nil in Hport. }
    split; [|done]. by rewrite {1}/Io.outb /devices_io Hd.
Defined.

Definition demo_beyond (i : Z) : Z := 0.
Definition demo_stub (v : Z) : Z := 1048576 + 16 * (v mod 256).
Lemma demo_stub_range v : 0 ≤ demo_stub v < 4294967296.
Proof. rewrite /demo_stub. dlia. Qed.
Lemma demo_stub_inj v w : v ∈ Cpu.idt_vectors → w ∈ Cpu.idt_vectors → demo_stub v = demo_stub w → v = w.
Proof.
  assert (Hall : Forall (λ v, 0 ≤ v < 256) Cpu.idt_vectors) by (apply (bool_decide_unpack _); by vm_compute).
  rewrite Forall_forall in Hall. intros Hv%Hall Hw%Hall. rewrite /demo_stub !Z.mod_small //. lia.
Qed.

Definition demo_devices : devices := (Tty.CrtcRegs 0 ∅, Cpu.pic_reset).
Definition demo_console : Tty.tty devices := Tty.Tty 0 0 15 ∅ (Tty.CrtcRegs 0 ∅, Cpu.Pic [] 32 236).
Definition demo_keyboard : Keyboard.kbd unit := Typing.initialised (Cpu.Interrupts (replicate 256 None) tt).
Definition demo_machine (t : Shell.shell (H:=Heap.state) (D:=Drive.medium)) : machine devices Drive.medium :=
  Machine demo_console demo_keyboard (fst (Cpu.initIDT demo_stub 1200000 Cpu.idt0)) (Cpu.TablePtr 2047 1200000)
    Cpu.gdt0 (Cpu.TablePtr 0 0) true t.
Lemma demo_wired t : wired demo_stub 1200000 (demo_machine t).
Proof. split; [done..| |done]. by vm_compute. Qed.

(** [mkdir b], a backspace, [a], Enter, and the start of another line. *)
Definition demo_strokes : list Typing.stroke :=
  Typing.Key false <$> [50; 37; 32; 23; 19; 57; 48; 14; 30; 28; 38].
Definition demo_codes : list (Z * Z) := (λ ch, (ch, 28)) <$> (demo_strokes ≫= Typing.codes_of).
Lemma demo_strokes_ok : Forall Typing.stroke_ok demo_strokes.
Proof. repeat (apply Forall_cons; split; [eexists; vm_compute; reflexivity|]). by apply Forall_nil. Qed.
Lemma demo_text : Typing.text_of false demo_strokes = Session.demo_keys ++ 10 :: [108].
Proof. by vm_compute. Qed.
Lemma demo_delivers : ∃ k', Typing.delivers demo_beyond demo_keyboard demo_codes (Session.demo_keys ++ 10 :: [108]) k'.
Proof.
  destruct (Typing.strokes_ok demo_beyond false demo_strokes 28 demo_keyboard (Typing.init_at_rest _) demo_strokes_ok)
    as (k'&caps&Hd&_); [done|]. rewrite demo_text in Hd. by exists k'.
Qed.
Lemma demo_keys_plain : Forall (λ ch, ch ≠ 10 ∧ ch ≠ 13) Session.demo_keys.
Proof. repeat constructor; discriminate. Qed.

(** The turn on its own. *)
Definition demo_turn := Shell.shell_turns (System.call 5) 1 (Session.demo_keys ++ 10 :: [108]) Session.demo_shell.
Definition demo_after : Shell.shell (H:=Heap.state) (D:=Drive.medium) :=
  match demo_turn with Ok (_, t, _) => t | _ => Session.demo_shell end.
Definition demo_output : list event := match demo_turn with Ok (_, _, o) => o | _ => [] end.

Lemma main_loop_refines_witness :
  ∃ k' arrivals' m',
    my_own_os_main demo_beyond demo_stub 1200000 (System.call 5) 1 100 demo_codes (demo_machine Session.demo_shell) =
      Ok (arrivals', m', []) ∧
    shell m' = demo_after ∧ wired demo_stub 1200000 m' ∧ Typing.delivers demo_beyond (keyboard m') arrivals' [108] k' ∧
    after (Screen.texts demo_output) demo_console (console m').
Proof.
  destruct demo_delivers as [k' Hd]. exists k'.
  apply (main_loop_refines demo_beyond demo_stub 1200000 demo_stub_inj (System.call 5) 1 (Session.demo_keys ++ 10 :: [108]) 100
    (demo_machine Session.demo_shell) demo_codes k').
  - apply (Nat.leb_le 11 100). reflexivity.
  - apply demo_wired.
  - exact Hd.
  - vm_compute. reflexivity.
  - apply all_printable. vm_compute. reflexivity.
Defined.

Lemma machine_turn_witness :
  ∃ k' arrivals' m' o,
    turn demo_beyond demo_stub 1200000 (System.call 5) 100 demo_codes (demo_machine Session.demo_shell) =
      Ok (arrivals', m', []) ∧
    Shell.my_own_os_main_turn (System.call 5) (Session.demo_keys ++ 10 :: [108]) Session.demo_shell = Ok ([108], shell m', o) ∧
    wired demo_stub 1200000 m' ∧ Typing.delivers demo_beyond (keyboard m') arrivals' [108] k' ∧ Shell.typed (shell m') [] ∧
    (Session.system_ok Session.demo_names (Shell.sys (shell m')) ∨ RamfsSafe.out_of_memory ∈ o) ∧
    after (Screen.texts o) demo_console (console m').
Proof.
  destruct demo_delivers as [k' Hd]. exists k'.
  apply (machine_turn demo_beyond demo_stub 1200000 demo_stub_inj Session.demo_names Session.demo_names_differ
    Session.demo_names_text 5 100 (demo_machine Session.demo_shell) demo_codes Session.demo_keys 10 [108] Session.demo_line).
  - apply demo_wired.
  - exact Hd.
  - apply (Nat.leb_le 11 100). reflexivity.
  - split; [reflexivity|split; reflexivity].
  - exact Session.demo_system_ok.
  - exact demo_keys_plain.
  - left. reflexivity.
  - vm_compute. reflexivity.
  - apply (Nat.ltb_lt 7 512). reflexivity.
  - apply Session.demo_line_ok.
Defined.

Definition demo_stack : Memory.memory := replicate Shell.BUFFER 0.
Definition demo_reset : machine devices Drive.medium := reset_machine demo_devices ∅ demo_stack 2097152 ∅.
Definition demo_main : M (machine devices Drive.medium) unit :=
  main demo_stub 1200000 1180000 1130000 5 2097152 [76; 0] System.demo_load 1 4096.
Lemma demo_bootable : bootable 5 2097152 (∅ : Drive.medium) [76; 0] System.demo_load 1 4096 64 demo_stack.
Proof.
  split; [done|by vm_compute|done|done|done|exact System.demo_disks| |done].
  by repeat constructor.
Qed.


Lemma first_line_runs_witness :
  ∃ m1 s1 o1 arrivals m2 o2 k caps,
    demo_main demo_reset = Ok (tt, m1, []) ∧
    System.my_own_os_init 5 2097152 [76; 0] System.demo_load 1 4096 (System.reset 2097152 ∅) = Ok (tt, s1, o1) ∧
    turn demo_beyond demo_stub 1200000 (System.call 5) 100 demo_codes m1 = Ok (arrivals, m2, []) ∧
    Shell.my_own_os_main_turn (System.call 5) (Session.demo_keys ++ 10 :: [108]) (Shell.Sh s1 demo_stack 0) =
      Ok ([108], shell m2, o2) ∧
    wired demo_stub 1200000 m2 ∧ Typing.delivers demo_beyond (keyboard m2) arrivals [108] k ∧ Typing.at_rest false caps k ∧
    Shell.typed (shell m2) [] ∧ (Session.system_ok Session.demo_names (Shell.sys (shell m2)) ∨ RamfsSafe.out_of_memory ∈ o2) ∧
    reached (Screen.texts (notices ++ o1 ++ o2)) (console m2).
Proof.
  apply (first_line_runs demo_beyond demo_stub 1200000 1180000 1130000 demo_stub_range demo_stub_inj
    Session.demo_names Session.demo_names_differ Session.demo_names_text 5 2097152
    (∅ : Drive.medium) [76; 0] System.demo_load 1 4096 64 demo_devices ∅ demo_stack
    demo_strokes 28 Session.demo_keys 10 [108] Session.demo_line 100).
  - exact demo_bootable.
  - exact demo_strokes_ok.
  - reflexivity.
  - exact demo_text.
  - apply (Nat.leb_le 11 100). reflexivity.
  - exact demo_keys_plain.
  - left. reflexivity.
  - vm_compute. reflexivity.
  - apply (Nat.ltb_lt 7 512). reflexivity.
  - intros s o _. apply Session.demo_line_ok.
Defined.

(** The machine itself, run: what its screen shows after [pwd]. *)
Definition row (m : machine devices Drive.medium) (y : Z) : string :=
  DfsLoad.cstr ((λ x, Tty.cell (Tty.terminal_buffer (console m)) (80 * y + x) mod 256) <$> seqZ 0 12).
Definition demo_pwd : list (Z * Z) := (λ ch, (ch, 28)) <$> ((Typing.Key false <$> [25; 17; 32; 28]) ≫= Typing.codes_of).
Example demo_screen :
  match (demo_main;; turn demo_beyond demo_stub 1200000 (System.call 5) 100 demo_pwd) demo_reset with
  | Ok (arrivals, m, _) => Some (arrivals, row m <$> [0; 6; 8; 9; 14; 17; 18; 19; 20])
  | _ => None
  end =
  Some ([(156, 28)],
    ["[NOTICE] Bas"; "Little Linux"; "CPU:L       "; "RAM:64MB    "; "Detected 1 d"; "/$ pwd      "; "running comm";
     "/           "; "            "]).
Proof. vm_compute. reflexivity. Qed.
End demo.
End Machine.
