(* ===== verification/PowerOn.v ===== *)
(** From power on to the end of a session: the theorems of [Machine], of
    [Typing] and of [Answers] put together. *)
From S2P Require Import Prelude.
From S2P Require Import Allocator.
From S2P Require Import Malloc.
From S2P Require Import CString.
From S2P Require Import RamfsTypes.
From S2P Require Import HashTable.
From S2P Require Import Io.
From S2P Require Import Tty.
From S2P Require Import Screen.
From S2P Require Import Drive.
From S2P Require Import FsState.
From S2P Require Import DfsLoad.
From S2P Require Import RamfsInv.
From S2P Require Import EnvVar.
From S2P Require Import RamfsSafe.
From S2P Require Import Cpu.
From S2P Require Import Keyboard.
From S2P Require Import Typing.
From S2P Require Import Memory.
From S2P Require Import Shell.
From S2P Require Import System.
From S2P Require Import Session.
From S2P Require Import Answers.
From S2P Require Import Machine.
Import Machine.
#[local] Open Scope general_if_scope.

Module PowerOn.

Section theory.
Context {P D : Type} `{!Io.PortIO P, !Tty.Crtc P, !Machine.Bus P}.
Context `{!Drive.Hba D, !Drive.HbaLaws D}.
Context (beyond : Z → Z) (stub : Z → Z) (idt_address gdt_address tss_address : Z).
Context (stub_range : ∀ v, 0 ≤ stub v < 4294967296).
Context (stub_inj : ∀ v w, v ∈ Cpu.idt_vectors → w ∈ Cpu.idt_vectors → stub v = stub w → v = w).
Context (K : string → Prop) (HK : HashTable.distinguishable (V:=RamfsTypes.ramfs_file_info) K).
Context (HK0 : ∀ n, K n → CString.no_nul n).
Abbreviation machine := (machine P D).

(** The files of a system just booted. *)
Lemma booted_look fuel (s : FsState.fs (EnvVar.kernel Heap.state) D) : System.booted K fuel s → Answers.look s = Answers.fresh.
Proof.
  intros [_ Ht [Hc Hp] _ _ _ _ _ _]. rewrite /Answers.look Hc Hp /RamfsInv.abs Ht. rewrite map_fmap_singleton.
  rewrite /Answers.fresh. repeat f_equal.
Qed.

End theory.

(** * The session of [Answers] typed on the machine of [Machine] *)

Section demo.
#[local] Existing Instances Machine.devices_io Machine.devices_display Machine.devices_bus.

(** [mkdir b], a backspace, [a]; [ls]; [rmdir a]; [touch a]; [write a a];
    [cat a]; [pwd]; and the start of another line. *)
Definition demo_strokes : list Typing.stroke :=
  Typing.Key false <$> [50; 37; 32; 23; 19; 57; 48; 14; 30; 28] ++ [38; 31; 28] ++ [19; 50; 32; 23; 19; 57; 30; 28] ++
    [20; 24; 22; 46; 35; 57; 30; 28] ++ [17; 19; 23; 20; 18; 57; 30; 57; 30; 28] ++ [46; 30; 20; 57; 30; 28] ++
    [25; 17; 32; 28] ++ [38].
Lemma demo_session_strokes_ok : Forall Typing.stroke_ok demo_strokes.
Proof. repeat (apply Forall_cons; split; [eexists; vm_compute; reflexivity|]). by apply Forall_nil. Qed.
Lemma demo_session_strokes_text : Typing.text_of false demo_strokes = Answers.keys Answers.demo_session ++ [108].
Proof. by vm_compute. Qed.

End demo.
End PowerOn.
